(* ===== verification/_CoqProject ===== *)
-Q . S2P
Prelude.v
Go.v
Retry.v
GoText.v
OrderedSet.v
K8s.v
Types.v
Heap.v
DeepCopy.v
Provider.v
ProviderMetrics.v
IPController.v
IPInvariant.v
IPReconcile.v
Sim.v
IPSystem.v
IPAssign.v
IPSpec.v
IPSync.v
IPConverge.v
IPLife.v
NodeMatch.v
NodeMatchProps.v
NodeMatchSystem.v
DigitalOcean.v
Cloudflare.v
DNSPlan.v
CloudflareProps.v
DigitalOceanDNS.v
DOSim.v
DigitalOceanIPs.v
Registry.v
NodeDNS.v
NodeDNSProps.v
NodeDNSSim.v
NodeDNSSpec.v
NodeDNSSystem.v
NodeDNSResources.v
DNSProviders.v
Pool.v
PoolProps.v
PoolSystem.v
PoolCluster.v
PoolSim.v
PoolProvider.v
PoolMetrics.v
PoolMetricsProps.v
Locking.v
LeaderElection.v
ProviderSetup.v
Command.v
Clientset.v
APIClient.v
Informers.v
APIStatus.v
K8sTest.v
UnitTests.v
ProviderTests.v
