(* ===== verification/Prelude.v ===== *)
(** * FLIPOP: a verification of its controllers

    FLIPOP keeps floating (reserved) IPs of a cloud provider assigned to Kubernetes
    nodes, and DNS records in step with the addresses of nodes.  This library models
    the program in src/, written in Go, and proves what makes it correct.

    ** The program, and where it is modelled

    Two kinds of custom resources (src/pkg/apis/flipop/v1alpha1) drive it:
    - a FloatingIPPool names addresses, or asks for some, and says which nodes are to
      have them.  For each resource the controller of the pools
      (src/pkg/floatingip/floatingippool_controller.go) runs a match controller
      (src/pkg/nodematch), which watches nodes and pods and calls [EnableNodes] and
      [DisableNodes] of its action, and an IP controller
      (src/pkg/floatingip/ip_controller.go), which is that action: it asks the provider
      who holds each address, assigns the waiting addresses to the waiting nodes,
      publishes the addresses in use in the DNS, stores the status and annotates nodes;
    - a NodeDNSRecordSet publishes the addresses of the nodes that match
      (src/pkg/nodedns): the action of its match controller is a publisher.
    The providers (src/pkg/provider) are DigitalOcean and Cloudflare, found by name in
    a registry.  The command runs both controllers while it holds a lease
    (src/pkg/leaderelection).

    Go in Rocq:
    - Prelude: field update, executions that end;
    - Go: the state-and-panic monad [M], weakest preconditions [wp], [range] loops with
      early return, slices that may be [nil], time; GoText: strings, numbers, IPs;
    - Retry (retry.go): schedules, errors that carry one.
    Data:
    - K8s, Types (flipop_types.go, register.go): the objects of the API and the resources;
      Heap, DeepCopy (zz_generated.deepcopy.go): a memory of cells, and the copies of the
      resources in it;
    - OrderedSet: the queue of the IP controller, a linked list and a map.
    Components, and what is proved of them:
    - Provider, Registry, ProviderMetrics: the interfaces of provider.go as classes,
      the registry, metrics of calls and the metadata of contexts;
    - IPController models ip_controller.go operation by operation; IPInvariant and
      IPReconcile prove that each keeps the records consistent; IPSystem makes a step
      relation of the goroutine [run] and the operations other goroutines call;
      IPAssign and IPSpec say what assignment and the other operations do; IPSync,
      IPConverge and IPLife show that a pass brings the records up to a cooperative
      provider, and that with it the waiting nodes get the waiting addresses;
    - NodeMatch models match_controller.go; NodeMatchProps proves that the enabled nodes
      are the matching ones; NodeMatchSystem runs it with an arbitrary action;
    - DigitalOcean and Cloudflare model the providers; DNSPlan is the algorithm their
      record sets share, CloudflareProps and DigitalOceanDNS apply it, DigitalOceanIPs
      is about floating IPs;
    - NodeDNS models nodedns/controller.go; NodeDNSProps and NodeDNSSpec are about the
      publisher of one resource, NodeDNSSystem about the publisher with its match
      controller, NodeDNSResources about the resources ([Module Parent]);
    - Pool models floatingippool_controller.go ([Module Pool]: the controller);
      PoolProps is about its operations, PoolSystem about all pools at work,
      PoolCluster about a pool with its match controller and provider, PoolMetrics and
      PoolMetricsProps about floatingip/metrics.go;
    - DNSProviders and PoolProvider put the controllers on top of the providers:
      DigitalOcean and Cloudflare discharge the laws ([NodeDNSLaws], [PoolLaws]) that the
      theorems about the controllers assume of a provider;
    - Locking: the goroutines and mutexes when a resource is removed, with the collector of
      the metrics and the retry timer;
    - LeaderElection: the goroutines of leaderelection.go;
    - ProviderSetup: the construction of the providers from the environment, the loggers
      of contexts (log/context.go, metacontext);
    - Command: main.go with what it constructs: controllers, clientset (clientset.go,
      flipop_client.go), collectors, the election; its flags and signals; Clientset: the
      rest of the clientset, the scheme (register.go) and the fake clientset;
    - APIClient: the generated clients of the resources and their fakes; APIStatus puts
      the controllers on top of the clients; Informers: the generated informer factory,
      informers and listers;
    - K8sTest: the fixtures of the tests (k8stest, mock.go); UnitTests and
      ProviderTests replay the unit tests of the match controller, of the IP controller
      and of the providers on the definitions above.
    Sim, DOSim, NodeDNSSim and PoolSim are concrete worlds in which the assumptions
    hold; witnesses run the theorems in them.

    ** How code becomes definitions

    A method is a function of the record of its receiver in the monad [M W], where [W]
    is the world: everything outside the process - the provider's API, the API of
    Kubernetes, the clock, contexts.  A class states the calls a component makes
    ([KubeAPI], [IPProvider], [DNSProvider], [IPEnv], ...), so that components are
    composed by instances: the action of a match controller is an instance whose world
    holds the state of the IP controller or of the publisher.  A panic is a result of
    the monad, an error is a value.  Mutexes are not part of the operations: an
    operation runs under its lock and is one step of a system; what the locks
    themselves do is the subject of Locking.  Maps are [gmap]s;
    the loops over them visit the keys in an order the world chooses ([Go.MapRange]),
    unless their result does not depend on it.

    ** Theorems

    - Consistency: [IPSystem.reachable_consistent], [reachable_no_panic]: whatever
      interleaves, no address is recorded for two nodes, queues are duplicate-free and
      hold only what they should, and no operation panics but in the case of
      [canceled_pass_panics].
    - The system and the cluster: [PoolCluster.pool_follows_cluster],
      [NodeDNSSystem.dns_follows_cluster], [NodeMatchProps.events_keep_in_step],
      [PoolSystem.pools_served], [NodeDNSResources.resources_served]; and with the real
      providers in place of the assumed ones
      [PoolProvider.digitalocean_pool_follows_cluster],
      [DNSProviders.digitalocean_zone_follows_cluster] and
      [DNSProviders.cloudflare_zone_follows_cluster].
    - Assignment: [IPAssign]: order, nothing is lost, pairs are made first with first,
      an assignment takes effect entirely or not at all, cool-off.
    - Convergence: [IPLife.every_pass_converges].
    - Operations of the IP controller: [IPSpec].
    - Providers: the record set is exactly what was asked for ([DigitalOceanDNS],
      [CloudflareProps]); identifiers round-trip, assignments in progress are waited
      for ([DigitalOceanIPs]).
    - Data structures: [OrderedSet.orderedSet_refines_Queue]; [Retry]: back-off.
    - Start-up: [ProviderSetup.providers_from_environment], [Command.process_starts],
      [Command.startup_all_or_nothing].
    - The API: [DeepCopy.deep_copies_are_independent],
      [APIClient.typed_clients_match_fakes] (the clients send the requests that mean the
      actions of the fakes), [APIStatus.controllers_write_their_part] (a status update
      never overwrites a specification), [Informers.informers_run_once].
    - Reports: [PoolMetricsProps.collection_complete], [IPSpec.status_is_complete].
    - Termination: [Locking.pool_removal_ends], [LeaderElection.election_ends],
      [Command.signals_end_process].
    - The model against the tests: the examples of UnitTests and ProviderTests evaluate
      every case of match_controller_test.go, ip_controller_test.go, digitalocean_test.go
      and cloudflare_test.go.
    - Defects the model shows, each proved on the definitions:
      [IPSystem.canceled_pass_panics], [NodeMatchProps.annotation_loses_pod_event],
      [NodeMatchProps.priming_enables_podless_node], [DigitalOceanIPs.NodeToIP_looks_at_last],
      [PoolSim.unknown_dns_provider_panics], [PoolProps.invalid_reported_once],
      [NodeDNSSpec.retries_never_back_off], [NodeDNSSpec.stop_leaves_timer_pending],
      [NodeDNSSpec.address_type_change_unpublished], [IPSpec.updateProviders_forgets],
      [IPSpec.updateDNSSpec_again], [Locking.dns_removal_can_hang],
      [LeaderElection.runs_without_lease], [ProviderSetup.FromContext_panics_iff],
      [ProviderSetup.Init_needs_logger], [Command.startup_all_or_nothing] (the error of
      setting up the election is dropped).

    ** Fuel

    Loops over slices and maps are structural.  Three loops are not:
    - the assignment loop of [reconcileAssignment] runs with [S n] rounds, [n] the
      length of the queue of addresses at the start: every round takes an address off
      it, and [IPReconcile] shows that the fuel is never used up;
    - the loop over the pages of a zone ([DigitalOcean.scanPages]) takes the number of
      rounds as an argument, and [digitalocean_ensures_record_set] proves that the
      number of pages is enough;
    - the loop of [NodeToIP] counts up and ends by a panic: [S] of the number of the
      addresses is enough, as [NodeToIP_looks_at_last] shows.

    ** Not modelled

    - mock_godo/godo.go: generated by mockgen, every method records its call with the
      controller of gomock, a library;
    - the tests that run the controllers of the resources against fake clientsets, and
      the logger of the tests (log/test.go);
    - the lines that are logged, the HTTP handler of the metrics, and what the libraries
      of kubernetes, prometheus, logrus and cobra do: input and output;
    - the informers and caches of client-go: the handlers are called with the events the
      steps of a system say;
    - data races: [updateProviders] and [run] of the match controller write without the
      lock; each operation is a step here, so that what torn accesses do is left open. *)
From stdpp Require Export prelude gmap strings list fin_maps.
From Stdlib Require Export ZArith Lia.

#[global] Set Default Goal Selector "!".
#[global] Set Warnings "-clear-no-such-hyp".

(** ** Field update

    Go assigns to struct fields one at a time; [x <| f := v |>] is the record
    [x] with the field [f] replaced by [v] and [x <| f ::= g |>] the record in
    which [f] is rewritten by [g].  Every field that is assigned to has a
    [Setter] instance, derived from the record's eta-expansion. *)
Class Setter {R T : Type} (proj : R → T) : Type :=
  set_field : (T → T) → R → R.
#[export] Hint Mode Setter ! ! ! : typeclass_instances.
Arguments set_field {R T} proj {_} _ _ /.

Declare Scope go_scope.
Delimit Scope go_scope with go.
Open Scope go_scope.

Notation "x <| f ::= g |>" := (set_field f g x)
  (at level 1, f constr at next level, left associativity,
   format "x  <| f  ::=  g |>") : go_scope.
Notation "x <| f := v |>" := (set_field f (λ _, v) x)
  (at level 1, f constr at next level, left associativity,
   format "x  <| f  :=  v |>") : go_scope.

(** [derive_setter eta proj] builds the setter of [proj] out of the term [eta],
    the function that rebuilds a record from its projections. *)
Ltac derive_setter eta proj :=
  let body := eval unfold eta in eta in
  match eval pattern proj in body with
  | ?F _ => exact (λ g, F (λ r, g (proj r)))
  end.

(** The same for a body that is already unfolded. *)
Ltac derive_setter_in body proj :=
  match eval pattern proj in body with
  | ?F _ => exact (λ g, F (λ r, g (proj r)))
  end.

(** [decide_bool b as H] splits on the boolean decision [b] and leaves the
    proposition, or its negation, in [H]. *)
Tactic Notation "decide_bool" open_constr(P) "as" ident(H) :=
  destruct (bool_decide P) eqn:H;
  [apply bool_decide_eq_true in H | apply bool_decide_eq_false in H];
  cbn in H; cbn [negb andb orb].

(** ** Executions that end

    From [s] every execution of the step relation [R] is finite, and every state in
    which it may rest - no step of [due] can be made, those that do not wait for an
    event from outside - satisfies [P]. *)
Section always_ends.
Context {S : Type} (R due : S → S → Prop).
Inductive always_ends (P : S → Prop) (s : S) : Prop :=
  always_ends_intro :
    ((∀ s', ¬ due s s') → P s) → (∀ s', R s s' → always_ends P s') → always_ends P s.

(** By an invariant, and a measure that every step decreases. *)
Lemma always_ends_invariant (P I : S → Prop) (work : S → nat) s :
  (∀ s s', R s s' → I s → I s' ∧ work s' < work s) →
  (∀ s, I s → (∀ s', ¬ due s s') → P s) → I s → always_ends P s.
Proof.
  intros Hstep Hstuck. remember (work s) as n eqn:Hn. revert s Hn.
  induction n as [n IH] using lt_wf_ind. intros s -> Hi. split; [by apply Hstuck|].
  intros s' Hs. destruct (Hstep s s' Hs Hi) as [Hi' Hlt]. by refine (IH (work s') Hlt s' eq_refl _).
Qed.
End always_ends.
