(* ===== verification/Go.v ===== *)
(** * Go: the fragment of the Go language the model uses

    The state-and-panic monad in which every operation is written, with its
    weakest-precondition calculus; the range loop and its early return; time,
    durations, slices that may be [nil] and string truncation. *)
From S2P Require Import Prelude.

(** ** Outcomes

    A Go call returns, panics (a nil dereference, an index out of range), or
    keeps running: [OutOfFuel] is what a loop modelled with fuel gives when the
    fuel does not cover its iterations. *)
Inductive outcome (A : Type) : Type :=
  | Ret (a : A)
  | Panic
  | OutOfFuel.
Arguments Ret {A} a.
Arguments Panic {A}.
Arguments OutOfFuel {A}.

(** [M C W A]: a method on an object of type [C] that runs in the outside world
    [W] (providers, the Kubernetes API, the clock, the scheduler's choices) and
    returns an [A]. *)
Definition M (C W A : Type) : Type := C → W → outcome (A * C * W).

#[export] Instance M_ret {C W} : MRet (M C W) := λ A a c w, Ret (a, c, w).
#[export] Instance M_bind {C W} : MBind (M C W) := λ A B f m c w,
  match m c w with
  | Ret (a, c', w') => f a c' w'
  | Panic => Panic
  | OutOfFuel => OutOfFuel
  end.

(** Reading and writing the object's fields. *)
Definition gets {C W A} (f : C → A) : M C W A := λ c w, Ret (f c, c, w).
Definition modify {C W} (f : C → C) : M C W unit := λ c w, Ret (tt, f c, w).
(** A call that leaves the object alone and is answered by the world. *)
Definition call {C W A} (f : W → A * W) : M C W A :=
  λ c w, Ret ((f w).1, c, (f w).2).
Definition panic {C W A} : M C W A := λ _ _, Panic.
Definition out_of_fuel {C W A} : M C W A := λ _ _, OutOfFuel.
(** Dereferencing a pointer, calling a method on an interface value: a panic
    when it is [nil]. *)
Definition deref {C W A} (o : option A) : M C W A :=
  match o with Some a => mret a | None => panic end.
Definition when {C W} (b : bool) (m : M C W unit) : M C W unit :=
  if b then m else mret tt.

(** ** Loops

    [for_each xs body] is a [for _, x := range xs] whose body never leaves the
    loop; in [for_until] the body answers [false] to return from the enclosing
    function, and the loop tells whether it ran to completion. *)
Fixpoint for_each {C W A} (xs : list A) (body : A → M C W unit) : M C W unit :=
  match xs with
  | [] => mret tt
  | x :: xs' => body x ;; for_each xs' body
  end.

Fixpoint for_until {C W A} (xs : list A) (body : A → M C W bool) : M C W bool :=
  match xs with
  | [] => mret true
  | x :: xs' => go_on ← body x;
                if (go_on : bool) then for_until xs' body else mret false
  end.

(** A range loop that updates a local variable. *)
Fixpoint for_fold {C W A B} (xs : list A) (b : B) (body : B → A → M C W B) : M C W B :=
  match xs with
  | [] => mret b
  | x :: xs' => b' ← body b x; for_fold xs' b' body
  end.

(** ** Early returns

    [A + R] is what a piece of a function leaves behind: [inl a] and the
    function goes on, or [inr r] and it has returned [r]. *)
Definition or_return {C W A B R} (m : M C W (A + R)) (k : A → M C W (B + R)) : M C W (B + R) :=
  r ← m; match r with inl a => k a | inr r => mret (inr r) end.
Notation "x ←? m ; k" := (or_return m (λ x, k))
  (at level 20, m at level 100, k at level 200, right associativity) : go_scope.
Notation "' pat ←? m ; k" := (or_return m (λ x, match x with pat => k end))
  (at level 20, pat pattern, m at level 100, k at level 200, right associativity) : go_scope.
Notation "m ;? k" := (or_return m (λ _, k))
  (at level 100, k at level 200, right associativity) : go_scope.

Fixpoint for_return {C W A B R} (xs : list A) (b : B) (body : B → A → M C W (B + R))
    : M C W (B + R) :=
  match xs with
  | [] => mret (inl b)
  | x :: xs' => b' ←? body b x; for_return xs' b' body
  end.

(** ** Weakest preconditions

    [wp E m Q c w]: run from object [c] in world [w], [m] terminates, panics
    only if [E] holds, and otherwise returns in a state satisfying [Q].
    [wp False] is total correctness without panics. *)
Definition wp {C W A} (E : Prop) (m : M C W A) (Q : A → C → W → Prop)
    (c : C) (w : W) : Prop :=
  match m c w with
  | Ret (a, c', w') => Q a c' w'
  | Panic => E
  | OutOfFuel => False
  end.

Section wp.
Context {C W : Type} (E : Prop).
Implicit Types (c : C) (w : W).

Lemma wp_ret {A} (a : A) (Q : A → C → W → Prop) c w :
  Q a c w → wp E (mret a) Q c w.
Proof. done. Qed.

Lemma wp_bind {A B} (m : M C W A) (f : A → M C W B) Q c w :
  wp E m (λ a, wp E (f a) Q) c w → wp E (m ≫= f) Q c w.
Proof. unfold wp, mbind, M_bind. by destruct (m c w) as [[[a c'] w']| |]. Qed.

Lemma wp_mono {A} (m : M C W A) (Q Q' : A → C → W → Prop) c w :
  (∀ a c' w', Q a c' w' → Q' a c' w') → wp E m Q c w → wp E m Q' c w.
Proof. unfold wp. destruct (m c w) as [[[a c'] w']| |]; auto. Qed.

Lemma wp_weaken {A} (m : M C W A) (Q : A → C → W → Prop) c w :
  wp False m Q c w → wp E m Q c w.
Proof. unfold wp. by destruct (m c w) as [[[a c'] w']| |]. Qed.

Lemma wp_and {A} (m : M C W A) (Q Q' : A → C → W → Prop) c w :
  wp E m Q c w → wp E m Q' c w → wp E m (λ a c' w', Q a c' w' ∧ Q' a c' w') c w.
Proof. unfold wp. destruct (m c w) as [[[a c'] w']| |]; auto. Qed.

Lemma wp_gets {A} (f : C → A) (Q : A → C → W → Prop) c w :
  Q (f c) c w → wp E (gets f) Q c w.
Proof. done. Qed.

Lemma wp_gets_id (Q : C → C → W → Prop) c w : Q c c w → wp E (gets id) Q c w.
Proof. done. Qed.

Lemma wp_modify (f : C → C) (Q : unit → C → W → Prop) c w :
  Q tt (f c) w → wp E (modify f) Q c w.
Proof. done. Qed.

Lemma wp_call {A} (f : W → A * W) (Q : A → C → W → Prop) c w :
  (∀ a w', f w = (a, w') → Q a c w') → wp E (call f) Q c w.
Proof. unfold wp, call. intros H. apply H. by destruct (f w). Qed.

Lemma wp_panic {A} (Q : A → C → W → Prop) c w : E → wp E panic Q c w.
Proof. done. Qed.

Lemma wp_deref {A} (o : option A) (Q : A → C → W → Prop) c w :
  (∀ a, o = Some a → Q a c w) → (o = None → E) → wp E (deref o) Q c w.
Proof. destruct o; cbn; auto. Qed.

Lemma wp_deref_some {A} (o : option A) a (Q : A → C → W → Prop) c w :
  o = Some a → Q a c w → wp E (deref o) Q c w.
Proof. by intros ->. Qed.

Lemma wp_deref_val {A} (a : A) (Q : A → C → W → Prop) c w :
  Q a c w → wp E (deref (Some a)) Q c w.
Proof. done. Qed.

Lemma wp_when (b : bool) (m : M C W unit) (Q : unit → C → W → Prop) c w :
  (b = true → wp E m Q c w) → (b = false → Q tt c w) → wp E (when b m) Q c w.
Proof. destruct b; cbn; auto. Qed.

Lemma wp_if_modify (b : bool) (f : C → C) (Q : unit → C → W → Prop) c w :
  Q tt (if b then f c else c) w → wp E (if b then modify f else mret tt) Q c w.
Proof. by destruct b. Qed.

Lemma wp_unless_modify (b : bool) (f : C → C) (Q : unit → C → W → Prop) c w :
  Q tt (if b then c else f c) w → wp E (if b then mret tt else modify f) Q c w.
Proof. by destruct b. Qed.

(** The invariant of a range loop may mention the elements already visited. *)
Lemma wp_for_each_prefix {A} (I : list A → C → W → Prop) (xs : list A) body c w :
  I [] c w →
  (∀ done x todo c w, xs = done ++ x :: todo → I done c w →
     wp E (body x) (λ _, I (done ++ [x])) c w) →
  wp E (for_each xs body) (λ _, I xs) c w.
Proof.
  intros H0 Hstep.
  enough (∀ todo done c w, xs = done ++ todo → I done c w →
            wp E (for_each todo body) (λ _, I xs) c w) as H.
  { by apply (H xs []). }
  clear c w H0. induction todo as [|x todo IH]; intros done c w Hxs HI; cbn.
  { rewrite app_nil_r in Hxs. by subst. }
  apply wp_bind. eapply wp_mono; [|by eapply Hstep].
  intros [] c' w' HI'. apply (IH (done ++ [x])); [|done].
  by rewrite <- app_assoc.
Qed.

Lemma wp_for_each {A} (I : C → W → Prop) (xs : list A) body c w :
  I c w →
  (∀ x c w, x ∈ xs → I c w → wp E (body x) (λ _, I) c w) →
  wp E (for_each xs body) (λ _, I) c w.
Proof.
  intros H0 Hstep. apply (wp_for_each_prefix (λ _ : list A, I)); [done|].
  intros done x todo c' w' -> HI. apply Hstep; [set_solver|done].
Qed.

Lemma wp_for_fold {A B} (I : B → C → W → Prop) (xs : list A) b
    (body : B → A → M C W B) c w :
  I b c w →
  (∀ b x c w, x ∈ xs → I b c w → wp E (body b x) I c w) →
  wp E (for_fold xs b body) I c w.
Proof.
  revert b c w. induction xs as [|x xs IH]; intros b c w H0 Hstep; cbn; [done|].
  apply wp_bind. eapply wp_mono; [|apply Hstep; [by left|done]].
  intros b' c' w' HI. apply IH; [done|]. intros. apply Hstep; [by right|done].
Qed.

Lemma wp_for_fold_prefix {A B} (I : list A → B → C → W → Prop) (xs : list A) b
    (body : B → A → M C W B) c w :
  I [] b c w →
  (∀ done x todo b c w, xs = done ++ x :: todo → I done b c w →
     wp E (body b x) (I (done ++ [x])) c w) →
  wp E (for_fold xs b body) (I xs) c w.
Proof.
  intros H0 Hstep.
  enough (∀ todo done b c w, xs = done ++ todo → I done b c w →
            wp E (for_fold todo b body) (I xs) c w) as H.
  { by apply (H xs []). }
  clear b c w H0. induction todo as [|x todo IH]; intros done b c w Hxs HI; cbn.
  { rewrite app_nil_r in Hxs. by subst. }
  apply wp_bind. eapply wp_mono; [|by eapply Hstep].
  intros b' c' w' HI'. apply (IH (done ++ [x])); [|done]. by rewrite <- app_assoc.
Qed.

Lemma wp_for_until_prefix {A} (I : list A → C → W → Prop) (R : C → W → Prop)
    (xs : list A) body c w :
  I [] c w →
  (∀ done x todo c w, xs = done ++ x :: todo → I done c w →
     wp E (body x) (λ (b : bool) c' w', if b then I (done ++ [x]) c' w' else R c' w') c w) →
  wp E (for_until xs body) (λ (b : bool) c' w', if b then I xs c' w' else R c' w') c w.
Proof.
  intros H0 Hstep.
  enough (∀ todo done c w, xs = done ++ todo → I done c w →
            wp E (for_until todo body)
              (λ (b : bool) c' w', if b then I xs c' w' else R c' w') c w) as H.
  { by apply (H xs []). }
  clear c w H0. induction todo as [|x todo IH]; intros done c w Hxs HI; cbn.
  { rewrite app_nil_r in Hxs. by subst. }
  apply wp_bind. eapply wp_mono; [|by eapply Hstep].
  intros [] c' w' HI'; [|done]. apply (IH (done ++ [x])); [|done].
  by rewrite <- app_assoc.
Qed.

(** A function that returns early has nothing left to do. *)
Definition or_done {A R} (Q : A → C → W → Prop) (P : R → C → W → Prop)
    (r : A + R) (c : C) (w : W) : Prop :=
  match r with inl a => Q a c w | inr r => P r c w end.

Lemma or_done_inl {A R} (Q : A → C → W → Prop) (P : R → C → W → Prop) a c w :
  Q a c w → or_done Q P (inl a) c w.
Proof. done. Qed.
Lemma or_done_inr {A R} (Q : A → C → W → Prop) (P : R → C → W → Prop) r c w :
  P r c w → or_done Q P (inr r) c w.
Proof. done. Qed.

Lemma wp_or_return {A B R} (m : M C W (A + R)) (k : A → M C W (B + R)) Q c w :
  wp E m (or_done (λ a, wp E (k a) Q) (λ r, Q (inr r))) c w → wp E (or_return m k) Q c w.
Proof.
  intros Hm. apply wp_bind. eapply wp_mono; [|exact Hm]. intros [a|r] c' w' H; exact H.
Qed.

Lemma wp_for_return {A B R} (I : list A → B → C → W → Prop) (P : R → C → W → Prop)
    (xs : list A) (b : B) (body : B → A → M C W (B + R)) c w :
  I [] b c w →
  (∀ done x todo b c w, xs = done ++ x :: todo → I done b c w →
     wp E (body b x) (or_done (I (done ++ [x])) P) c w) →
  wp E (for_return xs b body) (or_done (I xs) P) c w.
Proof.
  intros H0 Hstep.
  enough (∀ todo done b c w, xs = done ++ todo → I done b c w →
            wp E (for_return todo b body) (or_done (I xs) P) c w) as H.
  { by apply (H xs []). }
  clear b c w H0. induction todo as [|x todo IH]; intros done b c w Hxs HI; cbn.
  { rewrite app_nil_r in Hxs. by subst. }
  apply wp_or_return. eapply wp_mono; [|by eapply Hstep].
  intros [b'|r] c' w' HI'; [|exact HI']. apply (IH (done ++ [x])); [|done].
  by rewrite <- app_assoc.
Qed.
End wp.

(** [wp_step] applies the rule of the monadic operation at the head of the
    goal; [wp_steps] repeats it as long as no case split is needed. *)
Ltac wp_step :=
  lazymatch goal with
  | |- wp _ (mbind _ _) _ _ _ => apply wp_bind
  | |- wp _ (or_return _ _) _ _ _ => apply wp_or_return
  | |- wp _ (mret _) _ _ _ => apply wp_ret
  | |- or_done _ _ (inl _) _ _ => apply or_done_inl
  | |- or_done _ _ (inr _) _ _ => apply or_done_inr
  | |- wp _ (gets id) _ _ _ => apply wp_gets_id
  | |- wp _ (gets _) _ _ _ => apply wp_gets
  | |- wp _ (modify _) _ _ _ => apply wp_modify
  | |- wp _ (deref (Some _)) _ _ _ => apply wp_deref_val
  end.
Ltac wp_steps := repeat wp_step.

(** ** Frames

    [frame f m]: whatever [m] does, it leaves the part [f] of the object alone.
    [solve_frame] proves it by walking through the code. *)
Definition frame {C W A B} (f : C → B) (m : M C W A) : Prop :=
  ∀ c w, match m c w with Ret (_, c', _) => f c' = f c | _ => True end.

Section frame.
Context {C W B : Type} (f : C → B).

Lemma frame_ret {A} (a : A) : frame (W := W) f (mret a).
Proof. done. Qed.
Lemma frame_bind {A A'} (m : M C W A) (k : A → M C W A') :
  frame f m → (∀ a, frame f (k a)) → frame f (m ≫= k).
Proof.
  intros Hm Hk c w. unfold mbind, M_bind. specialize (Hm c w).
  destruct (m c w) as [[[a c'] w']| |]; [|done..]. specialize (Hk a c' w').
  destruct (k a c' w') as [[[a' c''] w'']| |]; congruence.
Qed.
Lemma frame_gets {A} (g : C → A) : frame (W := W) f (gets g).
Proof. done. Qed.
Lemma frame_modify (g : C → C) : (∀ c, f (g c) = f c) → frame (W := W) f (modify g).
Proof. intros Hg c w. apply Hg. Qed.
Lemma frame_call {A} (g : W → A * W) : frame f (call g).
Proof. done. Qed.
Lemma frame_panic {A} : frame (W := W) f (panic (A := A)).
Proof. done. Qed.
Lemma frame_out_of_fuel {A} : frame (W := W) f (out_of_fuel (A := A)).
Proof. done. Qed.
Lemma frame_deref {A} (o : option A) : frame (W := W) f (deref o).
Proof. by destruct o. Qed.
Lemma frame_when (b : bool) (m : M C W unit) : frame f m → frame f (when b m).
Proof. by destruct b. Qed.
Lemma frame_for_each {A} (xs : list A) body :
  (∀ x, frame (W := W) f (body x)) → frame f (for_each xs body).
Proof. intros Hb. induction xs; cbn; [done|]. by apply frame_bind. Qed.
Lemma frame_for_fold {A B'} (xs : list A) (b : B') body :
  (∀ b x, frame (W := W) f (body b x)) → frame f (for_fold xs b body).
Proof. intros Hb. revert b. induction xs; intros b; cbn; [done|]. by apply frame_bind. Qed.
Lemma frame_for_until {A} (xs : list A) body :
  (∀ x, frame (W := W) f (body x)) → frame f (for_until xs body).
Proof.
  intros Hb. induction xs; cbn; [done|]. apply frame_bind; [done|]. by intros [].
Qed.

(** Combining a frame with a specification. *)
Lemma wp_frame {A} E (m : M C W A) (Q : A → C → W → Prop) c w :
  frame f m → wp E m Q c w → wp E m (λ a c' w', Q a c' w' ∧ f c' = f c) c w.
Proof.
  intros Hf. unfold wp. specialize (Hf c w). by destruct (m c w) as [[[a c'] w']| |].
Qed.
End frame.

Create HintDb frame.
Ltac frame_step :=
  lazymatch goal with
  | |- ∀ _, _ => intros ?
  | |- frame _ (mbind _ _) => apply frame_bind
  | |- frame _ (mret _) => apply frame_ret
  | |- frame _ (gets _) => apply frame_gets
  | |- frame _ (modify _) => apply frame_modify
  | |- frame _ (call _) => apply frame_call
  | |- frame _ panic => apply frame_panic
  | |- frame _ out_of_fuel => apply frame_out_of_fuel
  | |- frame _ (deref _) => apply frame_deref
  | |- frame _ (when _ _) => apply frame_when
  | |- frame _ (for_each _ _) => apply frame_for_each
  | |- frame _ (for_fold _ _ _) => apply frame_for_fold
  | |- frame _ (for_until _ _) => apply frame_for_until
  | |- frame _ (match ?x with _ => _ end) => destruct x
  | |- frame _ (?g) => first [solve [eauto with frame] | progress autounfold with frame]
  end.
Ltac solve_frame := repeat frame_step; try reflexivity.

(** [preserves P m]: if [P] holds of the world before [m], it holds after. *)
Definition preserves {C W A} (P : W → Prop) (m : M C W A) : Prop :=
  ∀ c w, P w → match m c w with Ret (_, _, w') => P w' | _ => True end.

Section preserves.
Context {C W : Type} (P : W → Prop).

Lemma preserves_ret {A} (a : A) : preserves (C := C) P (mret a).
Proof. by intros c w Hw. Qed.
Lemma preserves_bind {A A'} (m : M C W A) (k : A → M C W A') :
  preserves P m → (∀ a, preserves P (k a)) → preserves P (m ≫= k).
Proof.
  intros Hm Hk c w Hw. unfold mbind, M_bind. specialize (Hm c w Hw).
  destruct (m c w) as [[[a c'] w']| |]; [|done..]. by apply Hk.
Qed.
Lemma preserves_gets {A} (g : C → A) : preserves P (gets g).
Proof. by intros c w Hw. Qed.
Lemma preserves_modify (g : C → C) : preserves P (modify g).
Proof. by intros c w Hw. Qed.
Lemma preserves_call {A} (g : W → A * W) :
  (∀ w, P w → P (g w).2) → preserves (C := C) P (call g).
Proof. intros Hg c w. apply Hg. Qed.
Lemma preserves_panic {A} : preserves (C := C) P (panic (A := A)).
Proof. by intros c w Hw. Qed.
Lemma preserves_out_of_fuel {A} : preserves (C := C) P (out_of_fuel (A := A)).
Proof. by intros c w Hw. Qed.
Lemma preserves_deref {A} (o : option A) : preserves (C := C) P (deref o).
Proof. intros c w Hw. by destruct o. Qed.
Lemma preserves_when (b : bool) (m : M C W unit) : preserves P m → preserves P (when b m).
Proof. destruct b; [done|]. intros _. apply preserves_ret. Qed.
Lemma preserves_for_each {A} (xs : list A) body :
  (∀ x, preserves (C := C) P (body x)) → preserves P (for_each xs body).
Proof. intros Hb. induction xs; cbn; [apply preserves_ret|]. by apply preserves_bind. Qed.
Lemma preserves_for_fold {A B'} (xs : list A) (b : B') body :
  (∀ b x, preserves (C := C) P (body b x)) → preserves P (for_fold xs b body).
Proof. intros Hb. revert b. induction xs; intros b; cbn; [apply preserves_ret|]. by apply preserves_bind. Qed.
Lemma preserves_for_until {A} (xs : list A) body :
  (∀ x, preserves (C := C) P (body x)) → preserves P (for_until xs body).
Proof.
  intros Hb. induction xs; cbn; [apply preserves_ret|]. apply preserves_bind; [done|]. intros []; [done|apply preserves_ret].
Qed.

(** Combining a preserved predicate with a specification. *)
Lemma wp_preserves {A} E (m : M C W A) (Q : A → C → W → Prop) c w :
  preserves P m → wp E m Q c w → wp E m (λ a c' w', Q a c' w' ∧ (P w → P w')) c w.
Proof.
  intros Hf. unfold wp. specialize (Hf c w). by destruct (m c w) as [[[a c'] w']| |].
Qed.
End preserves.

Create HintDb preserves.
Ltac preserves_step :=
  lazymatch goal with
  | |- ∀ _, _ => intros ?
  | |- preserves _ (mbind _ _) => apply preserves_bind
  | |- preserves _ (mret _) => apply preserves_ret
  | |- preserves _ (gets _) => apply preserves_gets
  | |- preserves _ (modify _) => apply preserves_modify
  | |- preserves _ (call _) => apply preserves_call; solve [eauto with preserves]
  | |- preserves _ panic => apply preserves_panic
  | |- preserves _ out_of_fuel => apply preserves_out_of_fuel
  | |- preserves _ (deref _) => apply preserves_deref
  | |- preserves _ (when _ _) => apply preserves_when
  | |- preserves _ (for_each _ _) => apply preserves_for_each
  | |- preserves _ (for_fold _ _ _) => apply preserves_for_fold
  | |- preserves _ (for_until _ _) => apply preserves_for_until
  | |- preserves _ (match ?x with _ => _ end) => destruct x
  | |- preserves _ (?g) => first [solve [eauto with preserves] | progress autounfold with frame]
  end.
Ltac solve_preserves := repeat preserves_step.

(** ** Time

    A [time.Time] is its number of nanoseconds since the zero time, which is
    what [IsZero] tests for; a [time.Duration] is a number of nanoseconds. *)
Abbreviation Time := Z (only parsing).
Abbreviation Duration := Z (only parsing).
Definition Second : Duration := 1000000000%Z.
Definition Minute : Duration := (60 * Second)%Z.
Definition Hour : Duration := (60 * Minute)%Z.
Definition zeroTime : Time := 0%Z.
Definition IsZero (t : Time) : bool := (t =? 0)%Z.
(** [After t u]: [t] is strictly later than [u]. *)
Definition After (t u : Time) : bool := (u <? t)%Z.
Definition Add (t : Time) (d : Duration) : Time := (t + d)%Z.

Lemma After_spec t u : After t u = true ↔ (u < t)%Z.
Proof. apply Z.ltb_lt. Qed.
Lemma After_false t u : After t u = false ↔ (t ≤ u)%Z.
Proof. apply Z.ltb_ge. Qed.

(** ** Slices

    [reflect.DeepEqual] tells a [nil] slice from an empty one, so a slice whose
    comparison matters is an [option]; [elems] is what a loop over it sees. *)
Definition slice (A : Type) : Type := option (list A).
Definition elems {A} (s : slice A) : list A := default [] s.
Definition slen {A} (s : slice A) : Z := Z.of_nat (length (elems s)).
(** [append s xs]: [nil] stays [nil] only if nothing is appended. *)
Definition append {A} (s : slice A) (xs : list A) : slice A :=
  match s, xs with None, [] => None | _, _ => Some (elems s ++ xs) end.

(** [go_index xs i] is [xs[i]]: [None] where Go panics. *)
Definition go_index {A} (xs : list A) (i : Z) : option A :=
  if (i <? 0)%Z then None else xs !! Z.to_nat i.

(** ** Strings

    [truncate n s] is [fmt.Sprintf("%.<n>s", s)]: the first [n] runes of a UTF-8
    string; the bytes 0x80 to 0xBF continue a rune. *)
Definition is_continuation (c : Ascii.ascii) : bool :=
  let n := Ascii.nat_of_ascii c in (128 <=? n)%nat && (n <=? 191)%nat.

Fixpoint truncate (n : nat) (s : string) : string :=
  match s with
  | EmptyString => EmptyString
  | String c s' =>
      if is_continuation c then String c (truncate n s')
      else match n with
           | 0 => EmptyString
           | S n' => String c (truncate n' s')
           end
  end.

(** ** Ranging over a map

    Go visits the keys of a map in an order of its own choice, each exactly
    once.  [range_order] is that choice, made by the world. *)
Class MapRange (W : Type) : Type := {
  range_order : list string → W → list string * W;
}.
Definition range_keys {C W V} `{!MapRange W} (m : gmap string V) : M C W (list string) :=
  call (range_order ((map_to_list m).*1)).

Class MapRangeLaws (W : Type) `{!MapRange W} : Prop := {
  range_order_perm : ∀ ks w, (range_order ks w).1 ≡ₚ ks;
}.

Lemma range_order_elem `{MapRangeLaws W} {V} (m : gmap string V) w k ks w' :
  range_order ((map_to_list m).*1) w = (ks, w') → k ∈ ks ↔ is_Some (m !! k).
Proof.
  intros Hr. pose proof (range_order_perm ((map_to_list m).*1) w) as Hp.
  rewrite Hr in Hp. cbn in Hp. rewrite Hp, <- elem_of_dom.
  rewrite list_elem_of_fmap. split.
  - intros [[k' v] [-> Hin]]. apply elem_of_map_to_list in Hin. cbn.
    apply elem_of_dom. eauto.
  - intros [v Hv]%elem_of_dom. exists (k, v). by rewrite elem_of_map_to_list.
Qed.

Lemma range_order_nodup `{MapRangeLaws W} {V} (m : gmap string V) w ks w' :
  range_order ((map_to_list m).*1) w = (ks, w') → NoDup ks.
Proof.
  intros Hr. pose proof (range_order_perm ((map_to_list m).*1) w) as Hp.
  rewrite Hr in Hp. cbn in Hp. rewrite Hp. apply NoDup_fst_map_to_list.
Qed.
