(* ===== verification/Retry.v ===== *)
(** * pkg/provider/retry.go and the errors of pkg/provider/provider.go

    Retry schedules, the errors that carry one, and the backoff they give. *)
From S2P Require Import Prelude Go.

(** [RetrySchedule] is the durations to wait before each next attempt. *)
Definition RetrySchedule : Type := list Duration.

Module Retry.
(** [RetrySchedule.Equal]: the loop compares element by element. *)
Fixpoint equal_loop (r o : RetrySchedule) : bool :=
  match r, o with
  | [], _ => true
  | d :: r', e :: o' => if negb (e =? d)%Z then false else equal_loop r' o'
  | _ :: _, [] => false
  end.
Definition Equal (r o : RetrySchedule) : bool :=
  if negb (length r =? length o)%nat then false else equal_loop r o.

(** [RetrySchedule.After]: both indexings panic out of range. *)
Definition After (r : RetrySchedule) (retries : Z) : option Duration :=
  if (Z.of_nat (length r) <=? retries)%Z
  then go_index r (Z.of_nat (length r) - 1)
  else go_index r retries.
End Retry.

Definition RetryFast : RetrySchedule :=
  ([1 * Second; 1 * Second;
    5 * Second; 5 * Second;
    10 * Second; 10 * Second; 10 * Second;
    1 * Minute; 1 * Minute; 1 * Minute; 1 * Minute; 1 * Minute;
    5 * Minute])%Z.

Definition RetrySlow : RetrySchedule :=
  [1 * Minute; 5 * Minute; 10 * Minute]%Z.

(** ** Errors

    The package-level errors are compared by pointer, so each has a
    constructor of its own.  [RetryError] is any other [*retryError];
    [WrapError] is [fmt.Errorf] with [%w]; [NetError] an error implementing
    [net.Error]; [ErrorString] any other error. *)
Inductive error : Type :=
  | ErrNotFound
  | ErrInProgress
  | ErrNodeInUse
  | errNoCredentials
  | RetryError (e : error) (s : RetrySchedule)
  | ErrorString (msg : string)
  | WrapError (prefix : string) (e : error)
  | NetError (msg : string) (temporary : bool).
#[export] Instance error_eq_dec : EqDecision error.
Proof. solve_decision. Defined.

(** [err.Error()] *)
Fixpoint Error (err : error) : string :=
  match err with
  | ErrNotFound => "not found"
  | ErrInProgress => "action in progress"
  | ErrNodeInUse => "node in use"
  | errNoCredentials => "no credentials found"
  | RetryError e _ => Error e
  | ErrorString msg => msg
  | WrapError prefix e => prefix +:+ Error e
  | NetError msg _ => msg
  end.

Definition NewRetryError (err : error) (s : RetrySchedule) : error := RetryError err s.

(** [err.( *retryError)]: the schedule of a [*retryError], [None] for the rest. *)
Definition as_retryError (err : error) : option RetrySchedule :=
  match err with
  | ErrNotFound => Some RetrySlow
  | ErrInProgress => Some RetryFast
  | ErrNodeInUse => Some RetrySlow
  | RetryError _ s => Some s
  | _ => None
  end.

Definition ErrorToRetrySchedule (err : error) : RetrySchedule :=
  match as_retryError err with
  | None => RetrySlow
  | Some s => s
  end.

(** [errors.As(err, &nErr)] for a [net.Error]: it unwraps [fmt.Errorf] errors,
    and not a [*retryError], which has no [Unwrap]. *)
Fixpoint as_netError (err : error) : option bool :=
  match err with
  | WrapError _ e => as_netError e
  | NetError _ temporary => Some temporary
  | _ => None
  end.

(** ** Reading the wall clock

    [time.Now()], which [RetrySchedule.Next] reads, as opposed to the [now]
    function of a controller. *)
Class Clock (W : Type) : Type := {
  time_Now : W → Time * W;
}.

Definition Next {C W} `{!Clock W} (r : RetrySchedule) (retries : Z) : M C W (Z * Time) :=
  now ← call time_Now;
  d ← deref (Retry.After r retries);
  mret ((retries + 1)%Z, Add now d).

(** ** Properties *)

(** A schedule is usable if it has a duration and none is negative. *)
Definition usable (r : RetrySchedule) : Prop := r ≠ [] ∧ Forall (Z.le 0) r.
(** An error is usable if the schedule it carries is. *)
Definition usable_error (err : error) : Prop := usable (ErrorToRetrySchedule err).

Lemma usable_RetryFast : usable RetryFast.
Proof. split; [done|]. unfold RetryFast. repeat (constructor; [done|]). constructor. Qed.
Lemma usable_RetrySlow : usable RetrySlow.
Proof. split; [done|]. unfold RetrySlow. repeat (constructor; [done|]). constructor. Qed.
Lemma usable_ErrNotFound : usable_error ErrNotFound.
Proof. apply usable_RetrySlow. Qed.
Lemma usable_ErrInProgress : usable_error ErrInProgress.
Proof. apply usable_RetryFast. Qed.
Lemma usable_ErrNodeInUse : usable_error ErrNodeInUse.
Proof. apply usable_RetrySlow. Qed.
Create HintDb retry.
#[export] Hint Resolve usable_RetryFast usable_RetrySlow usable_ErrNotFound
  usable_ErrInProgress usable_ErrNodeInUse : retry.

(** Within range the schedule is read, past its end it stays at its last
    entry. *)
Lemma After_in_range r n :
  (0 ≤ n < Z.of_nat (length r))%Z → Retry.After r n = r !! Z.to_nat n.
Proof.
  intros [H0 H1]. unfold Retry.After, go_index.
  replace (Z.of_nat (length r) <=? n)%Z with false by (symmetry; apply Z.leb_gt; lia).
  by replace (n <? 0)%Z with false by (symmetry; apply Z.ltb_ge; lia).
Qed.

Lemma After_saturated r n :
  (Z.of_nat (length r) ≤ n)%Z → Retry.After r n = last r.
Proof.
  intros Hn. unfold Retry.After, go_index.
  replace (Z.of_nat (length r) <=? n)%Z with true by (symmetry; apply Z.leb_le; lia).
  rewrite last_lookup. destruct r as [|d r]; [done|].
  replace (Z.of_nat (length (d :: r)) - 1 <? 0)%Z with false
    by (symmetry; apply Z.ltb_ge; cbn; lia).
  f_equal. cbn. lia.
Qed.

Lemma After_some r n : r ≠ [] → (0 ≤ n)%Z → is_Some (Retry.After r n).
Proof.
  intros Hne Hn. destruct (decide (Z.of_nat (length r) ≤ n)%Z).
  - rewrite After_saturated by done. by apply last_is_Some.
  - rewrite After_in_range by lia. apply lookup_lt_is_Some_2. lia.
Qed.

Lemma After_usable r n :
  usable r → (0 ≤ n)%Z → ∃ d, Retry.After r n = Some d ∧ d ∈ r ∧ (0 ≤ d)%Z.
Proof.
  intros [Hne Hpos] Hn.
  assert (∃ d, Retry.After r n = Some d ∧ d ∈ r) as (d & Hd & Hin).
  { destruct (decide (Z.of_nat (length r) ≤ n)%Z).
    - rewrite After_saturated by done. destruct (last r) as [d|] eqn:Hl.
      + exists d. split; [done|]. by apply last_Some_elem_of.
      + by apply last_None in Hl.
    - rewrite After_in_range by lia.
      destruct (lookup_lt_is_Some_2 r (Z.to_nat n)) as [d Hd]; [lia|].
      exists d. split; [done|]. by eapply list_elem_of_lookup_2. }
  exists d. split_and!; [done..|]. rewrite Forall_forall in Hpos. by apply Hpos.
Qed.

(** The rule of [Next]: with a usable schedule it returns, one attempt later,
    at a time not before now. *)
Lemma wp_Next {C W} `{!Clock W} E (r : RetrySchedule) (n : Z)
    (Q : Z * Time → C → W → Prop) c w :
  usable r → (0 ≤ n)%Z →
  (∀ now d w', time_Now w = (now, w') → Retry.After r n = Some d → (0 ≤ d)%Z →
     Q ((n + 1)%Z, Add now d) c w') →
  wp E (Next r n) Q c w.
Proof.
  intros Hu Hn HQ. unfold Next. wp_steps. apply wp_call. intros now w' Ht. wp_steps.
  destruct (After_usable r n Hu Hn) as (d & Hd & _ & Hd0). rewrite Hd.
  apply wp_ret. by apply HQ.
Qed.

Lemma frame_Next {C W B} `{!Clock W} (f : C → B) (r : RetrySchedule) (n : Z) :
  frame f (Next (W := W) r n).
Proof. unfold Next. solve_frame. Qed.
#[export] Hint Resolve frame_Next : frame.

Lemma preserves_Next {C W} `{!Clock W} (P : W → Prop) (r : RetrySchedule) (n : Z) :
  (∀ w, P w → P (time_Now w).2) → preserves (C := C) P (Next r n).
Proof.
  intros Hnow. unfold Next. apply preserves_bind; [by apply preserves_call|].
  solve_preserves.
Qed.
#[export] Hint Resolve preserves_Next : preserves.

Lemma equal_loop_eq r o : length r = length o → Retry.equal_loop r o = true ↔ r = o.
Proof.
  revert o. induction r as [|d r IH]; intros [|e o] Hl; cbn in *; [done..|].
  destruct (Z.eqb_spec e d) as [->|Hne]; cbn.
  - rewrite IH by lia. split; [by intros ->|by intros [= ->]].
  - split; [done|]. intros [= ->]. done.
Qed.

(** C37: a back-off schedule is followed in order and then stays at its last
    duration: the n-th attempt waits for the n-th entry; an attempt past the end
    for the last one; an increasing schedule never waits less than before; and
    only an empty schedule or a negative count panics. *)
Theorem backoff_follows_schedule (r : RetrySchedule) (n : Z) :
  (Retry.After r n = None ↔ r = [] ∨ (n < 0)%Z) ∧
  ((0 ≤ n < Z.of_nat (length r))%Z → Retry.After r n = r !! Z.to_nat n) ∧
  ((Z.of_nat (length r) ≤ n)%Z → Retry.After r n = last r) ∧
  ((∀ i x y, r !! i = Some x → r !! S i = Some y → x ≤ y)%Z → (0 ≤ n)%Z →
   ∀ d d', Retry.After r n = Some d → Retry.After r (n + 1) = Some d' → (d ≤ d')%Z).
Proof.
  assert ((n < 0)%Z → Retry.After r n = None) as Hneg.
  { intros Hn. unfold Retry.After, go_index.
    replace (Z.of_nat (length r) <=? n)%Z with false by (symmetry; apply Z.leb_gt; lia).
    by replace (n <? 0)%Z with true by (symmetry; apply Z.ltb_lt; lia). }
  split_and!; [|apply After_in_range|apply After_saturated|].
  - destruct (decide (n < 0)%Z) as [Hn|Hn].
    { rewrite Hneg by done. split; [by right|done]. }
    destruct r as [|d r'].
    { rewrite After_saturated by (cbn; lia). split; [by left|done]. }
    destruct (After_some (d :: r') n) as [x Hx]; [done|lia|]. rewrite Hx.
    split; [done|]. intros [?|?]; [done|lia].
  - intros Hs Hn d d'.
    destruct (decide (Z.of_nat (length r) ≤ n)%Z) as [Hl|Hl].
    { rewrite !After_saturated by lia. intros H1 H2. rewrite H1 in H2. by simplify_eq. }
    rewrite (After_in_range r n) by lia. intros H1 H2.
    destruct (decide (Z.of_nat (length r) ≤ n + 1)%Z) as [Hl'|Hl'].
    + rewrite After_saturated, last_lookup in H2 by lia.
      replace (pred (length r)) with (Z.to_nat n) in H2 by lia. rewrite H1 in H2. by simplify_eq.
    + rewrite After_in_range in H2 by lia.
      replace (Z.to_nat (n + 1)) with (S (Z.to_nat n)) in H2 by lia. by eapply Hs.
Qed.

(** The schedule of an error is the one it was made with; every other error
    - one that wraps such an error, too - is retried slowly.  [Equal] decides
    equality of schedules. *)
Theorem error_schedule (err : error) (s r o : RetrySchedule) :
  ErrorToRetrySchedule (NewRetryError err s) = s ∧
  (∀ prefix, ErrorToRetrySchedule (WrapError prefix (NewRetryError err s)) = RetrySlow) ∧
  (as_retryError err = None → ErrorToRetrySchedule err = RetrySlow) ∧
  (Retry.Equal r o = true ↔ r = o).
Proof.
  split_and!; [done|done| |].
  - unfold ErrorToRetrySchedule. by intros ->.
  - unfold Retry.Equal. destruct (Nat.eqb_spec (length r) (length o)) as [Hl|Hl]; cbn.
    + by apply equal_loop_eq.
    + split; [done|]. by intros ->.
Qed.
