(* ===== verification/GoText.v ===== *)
(** * Go: text

    What the program uses of [strings], [strconv], [fmt] and [net]: prefixes,
    searching, decimal numbers and IP addresses.  A string is its bytes.  The
    quoting of [%q] is left open. *)
From Stdlib Require Import Ascii.
From stdpp Require Import pretty.
From S2P Require Import Prelude Go Retry.

(** [fmt.Sprintf("%q", s)]. *)
Class GoFmt : Type := { fmt_q : string → string }.

Definition byte_of (c : ascii) : Z := Z.of_nat (nat_of_ascii c).
Definition between (lo hi : Z) (c : ascii) : bool :=
  ((lo <=? byte_of c) && (byte_of c <=? hi))%Z.
Definition is_digit : ascii → bool := between 48 57.
Definition digit_val (c : ascii) : Z := (byte_of c - 48)%Z.

(** ** strings *)

(** [strings.TrimPrefix(s, prefix)] *)
Fixpoint strip_prefix (prefix s : string) : option string :=
  match prefix, s with
  | EmptyString, _ => Some s
  | String p prefix', String c s' => if Ascii.eqb p c then strip_prefix prefix' s' else None
  | String _ _, EmptyString => None
  end.
Definition TrimPrefix (s prefix : string) : string := default s (strip_prefix prefix s).

(** [strings.Contains(s, sub)] *)
Fixpoint Contains (s sub : string) : bool :=
  match strip_prefix sub s with
  | Some _ => true
  | None => match s with EmptyString => false | String _ s' => Contains s' sub end
  end.

(** [strings.ToLower(s)], for a search of ASCII text: the letters of ASCII, and
    the two other runes whose lower case is in ASCII, U+0130 and U+212A; every
    rune left alone has a lower case outside of ASCII, as it has itself. *)
Fixpoint ToLower (s : string) : string :=
  match s with
  | EmptyString => EmptyString
  | String c s' =>
      let rest := ToLower s' in
      match (byte_of c, s') with
      | (196%Z, String c1 s1) =>
          if (byte_of c1 =? 176)%Z then String "i" (ToLower s1) else String c rest
      | (226%Z, String c1 (String c2 s2)) =>
          if (byte_of c1 =? 132)%Z && (byte_of c2 =? 170)%Z then String "k" (ToLower s2)
          else String c rest
      | _ => String (if between 65 90 c then ascii_of_nat (nat_of_ascii c + 32) else c) rest
      end
  end.

(** [s[strings.LastIndexByte(s, b)+1:]], all of [s] if [b] does not occur. *)
Fixpoint after_last (b : ascii) (s : string) : option string :=
  match s with
  | EmptyString => None
  | String c s' =>
      match after_last b s' with
      | Some r => Some r
      | None => if Ascii.eqb c b then Some s' else None
      end
  end.

(** ** strconv and fmt *)

(** [fmt.Sprintf("%d", n)] *)
Definition fmt_d (n : Z) : string := pretty n.

Definition max_uint64 : Z := (2 ^ 64 - 1)%Z.

(** The loop of [strconv.ParseUint(s, 10, 64)]: the number, or which error;
    an overflow is reported before the characters that follow are looked at. *)
Inductive num_error : Type := ErrSyntax | ErrRange.
Fixpoint parse_digits (n : Z) (s : string) : Z + num_error :=
  match s with
  | EmptyString => inl n
  | String c s' =>
      if negb (is_digit c) then inr ErrSyntax
      else let n' := (10 * n + digit_val c)%Z in
           if (max_uint64 <? n')%Z then inr ErrRange else parse_digits n' s'
  end.
Definition ParseUint (s : string) : Z + num_error :=
  if bool_decide (s = "") then inr ErrSyntax else parse_digits 0 s.

(** [strconv.ParseInt(s, 10, 0)]: an [int] has 64 bits. *)
Definition parse_int (s : string) : Z + num_error :=
  let signed neg s := match ParseUint s with
    | inr e => inr e
    | inl un =>
        if (neg : bool) then (if (2 ^ 63 <? un)%Z then inr ErrRange else inl (- un)%Z)
        else if (2 ^ 63 <=? un)%Z then inr ErrRange else inl un
    end in
  match s with
  | String "+" s' => signed false s'
  | String "-" s' => signed true s'
  | _ => signed false s
  end.
Definition ParseInt `{!GoFmt} (s : string) : Z + error :=
  match parse_int s with
  | inl n => inl n
  | inr e => inr (ErrorString ("strconv.ParseInt: parsing " +:+ fmt_q s +:+ ": " +:+
                     match e with ErrSyntax => "invalid syntax" | ErrRange => "value out of range" end))
  end.

(** ** net

    [net.ParseIP], as [netip.ParseAddr] reads an address: the 16 bytes of an
    IPv6 address, or of an IPv4 address mapped into IPv6. *)

(** [parseIPv4Fields]: [fields] are the octets before the current one, of value
    [val] and [dig] digits. *)
Fixpoint v4_loop (fields : list Z) (val : Z) (dig : nat) (s : string) : option (list Z) :=
  match s with
  | EmptyString =>
      if (length fields =? 3)%nat && negb (dig =? 0)%nat then Some (fields ++ [val]) else None
  | String c s' =>
      if is_digit c then
        if (dig =? 1)%nat && (val =? 0)%Z then None
        else let val' := (10 * val + digit_val c)%Z in
             if (255 <? val')%Z then None else v4_loop fields val' (S dig) s'
      else if Ascii.eqb c "." then
        if (dig =? 0)%nat || (length fields =? 3)%nat then None
        else v4_loop (fields ++ [val]) 0 0 s'
      else None
  end.
Definition parse_v4 (s : string) : option (list Z) := v4_loop [] 0 0 s.

Definition hex_val (c : ascii) : option Z :=
  if is_digit c then Some (digit_val c)
  else if between 97 102 c then Some (byte_of c - 87)%Z
  else if between 65 70 c then Some (byte_of c - 55)%Z
  else None.

(** The digits of a group, at most four: its value, their number, the rest. *)
Fixpoint hex_run (acc : Z) (off : nat) (s : string) : option (Z * nat * string) :=
  match s with
  | EmptyString => Some (acc, off, s)
  | String c s' =>
      match hex_val c with
      | None => Some (acc, off, s)
      | Some d => if (3 <? off)%nat then None else hex_run (16 * acc + d)%Z (S off) s'
      end
  end.

(** The loop of [parseIPv6]: at most [groups] more groups of two bytes. *)
Fixpoint v6_loop (groups : nat) (ip : list Z) (ellipsis : option nat) (s : string)
    : option (list Z * option nat * string) :=
  match groups with
  | 0 => Some (ip, ellipsis, s)
  | S groups' =>
      '(acc, off, rest) ← hex_run 0 0 s;
      if (off =? 0)%nat then None
      else
        let ip' := ip ++ [acc / 256; acc mod 256]%Z in
        match rest with
        | EmptyString => Some (ip', ellipsis, rest)
        | String "." _ =>
            if match ellipsis with None => negb (length ip =? 12)%nat | Some _ => false end then None
            else if (16 <? length ip + 4)%nat then None
            else fields ← parse_v4 s; Some (ip ++ fields, ellipsis, "")
        | String ":" EmptyString => None
        | String ":" (String ":" s') =>
            match ellipsis with
            | Some _ => None
            | None => if bool_decide (s' = "") then Some (ip', Some (length ip'), s')
                      else v6_loop groups' ip' (Some (length ip')) s'
            end
        | String ":" s' => v6_loop groups' ip' ellipsis s'
        | String _ _ => None
        end
  end.
Definition v6_expand (r : list Z * option nat * string) : option (list Z) :=
  let '(ip, ellipsis, rest) := r in
  if negb (bool_decide (rest = "")) then None
  else if (length ip <? 16)%nat then
    e ← ellipsis; Some (take e ip ++ replicate (16 - length ip) 0%Z ++ drop e ip)
  else match ellipsis with None => Some ip | Some _ => None end.

(** An address with a zone is not a [net.IP]. *)
Definition parse_v6 (s : string) : option (list Z) :=
  if Contains s "%" then None
  else match strip_prefix "::" s with
       | Some "" => Some (replicate 16 0%Z)
       | Some s' => v6_loop 8 [] (Some 0) s' ≫= v6_expand
       | None => v6_loop 8 [] None s ≫= v6_expand
       end.

(** The first of the characters [.], [:] and [%] decides. *)
Fixpoint addr_kind (s : string) : option ascii :=
  match s with
  | EmptyString => None
  | String c s' =>
      if Ascii.eqb c "." || Ascii.eqb c ":" || Ascii.eqb c "%" then Some c else addr_kind s'
  end.
Definition v4_prefix : list Z := replicate 10 0%Z ++ [255; 255]%Z.
Definition ParseIP (s : string) : option (list Z) :=
  match addr_kind s with
  | Some "."%char => ip ← parse_v4 s; Some (v4_prefix ++ ip)
  | Some ":"%char => parse_v6 s
  | _ => None
  end.

(** [ip.To4()] and, of its result, [ip.String()]. *)
Definition To4 (ip : list Z) : option (list Z) :=
  if bool_decide (take 12 ip = v4_prefix) then Some (drop 12 ip) else None.
Definition IPString (ip4 : list Z) : string := String.concat "." (fmt_d <$> ip4).

(** ** Properties *)

Lemma strip_prefix_app p s : strip_prefix p (p +:+ s) = Some s.
Proof.
  induction p as [|c p IH]; [done|]. change (String c p +:+ s) with (String c (p +:+ s)).
  cbn [strip_prefix]. by rewrite Ascii.eqb_refl.
Qed.
Lemma TrimPrefix_app p s : TrimPrefix (p +:+ s) p = s.
Proof. unfold TrimPrefix. by rewrite strip_prefix_app. Qed.

(** A decimal number is parsed back. *)
Lemma digit_char (d : N) : (d < 10)%N →
  is_digit (pretty_N_char d) = true ∧ digit_val (pretty_N_char d) = Z.of_N d.
Proof.
  intros Hd. destruct d as [|p]; [done|]. do 4 (try (destruct p as [p|p|]; try done)); lia.
Qed.

Lemma decimal_le (x q r : N) (m M : Z) : (0 ≤ m)%Z → x = (10 * q + r)%N →
  (10 * m + Z.of_N x ≤ M)%Z → (m + Z.of_N q ≤ M)%Z.
Proof. lia. Qed.
Lemma decimal_step (x q r : N) (m : Z) : x = (10 * q + r)%N →
  (10 * (m + Z.of_N q) + Z.of_N r = 10 * m + Z.of_N x)%Z.
Proof. lia. Qed.

Lemma parse_pretty_go (x : N) : ∃ k : Z, (0 ≤ k)%Z ∧ ∀ n s,
  (0 ≤ n)%Z → (n * 10 ^ k + Z.of_N x ≤ max_uint64)%Z →
  parse_digits n (pretty_N_go x s) = parse_digits (n * 10 ^ k + Z.of_N x) s.
Proof.
  induction (N.lt_wf_0 x) as [x _ IH].
  destruct (decide (x = 0)%N) as [->|Hx].
  { exists 0%Z. split; [done|]. intros n s _ _. rewrite pretty_N_go_0. f_equal. lia. }
  destruct (IH (x `div` 10)%N) as (k & Hk0 & Hk); [apply N.div_lt; lia|].
  exists (k + 1)%Z. split; [lia|]. intros n s Hn Hle.
  rewrite Z.pow_add_r in Hle |- * by lia. change (10 ^ 1)%Z with 10%Z in *.
  pose proof (N.div_mod x 10 ltac:(done)) as Hdm.
  pose proof (N.mod_lt x 10 ltac:(done)) as Hlt.
  replace (n * (10 ^ k * 10))%Z with (10 * (n * 10 ^ k))%Z in * by ring.
  assert (0 ≤ n * 10 ^ k)%Z by nia. set (m := (n * 10 ^ k)%Z) in *.
  rewrite pretty_N_go_step by lia. rewrite Hk; [|done|by eapply decimal_le]. fold m.
  destruct (digit_char _ Hlt) as [Hd Hv]. cbn [parse_digits]. rewrite Hd, Hv. cbn [negb].
  rewrite (decimal_step x _ _ m Hdm).
  by replace (max_uint64 <? 10 * m + Z.of_N x)%Z with false
    by (symmetry; apply Z.ltb_ge; lia).
Qed.

Lemma parse_pretty (x : N) : (Z.of_N x ≤ max_uint64)%Z →
  parse_digits 0 (pretty x) = inl (Z.of_N x).
Proof.
  intros Hx. destruct (decide (x = 0)%N) as [->|Hne]; [done|].
  assert (pretty x = pretty_N_go x "") as ->.
  { unfold pretty, pretty_N. by rewrite decide_False. }
  destruct (parse_pretty_go x) as (k & _ & Hk). rewrite Hk by lia. done.
Qed.

Lemma ParseUint_pretty (x : N) : (Z.of_N x ≤ max_uint64)%Z → ParseUint (pretty x) = inl (Z.of_N x).
Proof.
  intros Hx. unfold ParseUint. case_bool_decide as He; [|by apply parse_pretty].
  pose proof (parse_pretty x Hx) as Hp. rewrite He in Hp. cbn in Hp.
  assert (x = 0%N) as -> by (injection Hp; lia). done.
Qed.

Lemma pretty_unsigned (x : N) s : (Z.of_N x ≤ max_uint64)%Z →
  pretty x ≠ String "+" s ∧ pretty x ≠ String "-" s.
Proof. intros Hx. pose proof (parse_pretty x Hx) as Hp. split; intros He; by rewrite He in Hp. Qed.

Lemma parse_fmt (n : Z) : (- 2 ^ 63 ≤ n < 2 ^ 63)%Z → parse_int (fmt_d n) = inl n.
Proof.
  intros Hn. unfold fmt_d. destruct n as [|p|p]; [done| |].
  - change (pretty (Z.pos p)) with (pretty (N.pos p)).
    assert (Z.of_N (N.pos p) ≤ max_uint64)%Z as Hle by (unfold max_uint64; lia).
    pose proof (ParseUint_pretty (N.pos p) Hle) as Hp. unfold parse_int.
    assert ((2 ^ 63 <=? Z.of_N (N.pos p))%Z = false) as Hr by (apply Z.leb_gt; lia).
    destruct (pretty (N.pos p)) as [|c s] eqn:Hs; [by rewrite Hp, Hr|].
    destruct (pretty_unsigned _ s Hle) as [H1 H2]. rewrite Hs in H1, H2.
    destruct c as [[] [] [] [] [] [] [] []]; try (by rewrite Hp, Hr); congruence.
  - change (pretty (Z.neg p)) with (String "-" (pretty (N.pos p))).
    assert (Z.of_N (N.pos p) ≤ max_uint64)%Z as Hle by (unfold max_uint64; lia).
    unfold parse_int. rewrite (ParseUint_pretty (N.pos p) Hle).
    replace (2 ^ 63 <? Z.of_N (N.pos p))%Z with false by (symmetry; apply Z.ltb_ge; lia). done.
Qed.

(** A dotted IPv4 address is parsed back. *)
Definition octet (n : Z) : Prop := (0 ≤ n ≤ 255)%Z.
Definition octets : list Z := Eval vm_compute in seqZ 0 256.
Lemma octet_cases (P : Z → Prop) :
  Forall P octets → ∀ n, octet n → P n.
Proof. change octets with (seqZ 0 256). rewrite Forall_forall. intros H n [??]. apply H, elem_of_seqZ. lia. Qed.

Lemma v4_octet n : octet n → ∀ fields s,
  match s with EmptyString => True | String c _ => c = "."%char end →
  v4_loop fields 0 0 (fmt_d n +:+ s) =
    match s with
    | EmptyString => if (length fields =? 3)%nat && true then Some (fields ++ [n]) else None
    | String _ s' => if (length fields =? 3)%nat then None else v4_loop (fields ++ [n]) 0 0 s'
    end.
Proof.
  revert n. refine (octet_cases _ _). unfold octets.
  repeat (constructor;
    [intros fields [|c s]; [intros _; reflexivity|intros ->; reflexivity]|]).
  constructor.
Qed.

Lemma addr_kind_octet n : octet n → ∀ s, addr_kind (fmt_d n +:+ String "." s) = Some "."%char.
Proof.
  revert n. refine (octet_cases _ _). unfold octets.
  repeat (constructor; [reflexivity|]).
  constructor.
Qed.

Lemma append_empty (s : string) : s +:+ "" = s.
Proof. induction s as [|c s IH]; [done|]. by rewrite <- IH at 2. Qed.

Lemma ParseIP_IPString ip4 : length ip4 = 4 → Forall octet ip4 →
  ParseIP (IPString ip4) ≫= To4 = Some ip4.
Proof.
  destruct ip4 as [|a [|b [|c [|d [|]]]]]; try done. intros _.
  rewrite !Forall_cons. intros (Ha & Hb & Hc & Hd & _).
  change (IPString [a; b; c; d]) with
    (fmt_d a +:+ String "." (fmt_d b +:+ String "." (fmt_d c +:+ String "." (fmt_d d)))).
  unfold ParseIP. rewrite addr_kind_octet by done. unfold parse_v4.
  rewrite !v4_octet by done. cbn [app length Nat.eqb].
  pose proof (v4_octet d Hd [a; b; c] "") as Hl. rewrite append_empty in Hl.
  rewrite Hl by done. reflexivity.
Qed.
