(* ===== verification/OrderedSet.v ===== *)
(** * orderedSet of pkg/floatingip/ip_controller.go

    A queue without duplicates: a doubly linked list ([container/list]) whose
    elements a map finds by value.  The model keeps the two structures, with the
    elements' identities, and proves that together they implement a list
    without duplicates. *)
From S2P Require Import Prelude Go.

(** A [*list.Element]: its address and its value. *)
Abbreviation element := (nat * string)%type.

(** The [list.List] is its elements from front to back; [os_next] is the next
    address an allocation returns. *)
Record orderedSet : Type := OrderedSet {
  os_l : list element;
  os_m : gmap string nat;
  os_next : nat;
}.
#[export] Instance orderedSet_eq_dec : EqDecision orderedSet.
Proof. solve_decision. Defined.

(** [container/list]: [Remove], [MoveToFront], [PushFront], [PushBack]. *)
Definition list_Remove (e : nat) (l : list element) : list element :=
  filter (λ x, x.1 ≠ e) l.
Definition list_MoveToFront (e : nat) (l : list element) : list element :=
  filter (λ x, x.1 = e) l ++ list_Remove e l.
Definition list_PushFront (x : element) (l : list element) : list element := x :: l.
Definition list_PushBack (x : element) (l : list element) : list element := l ++ [x].

Module orderedSet.
Definition newOrderedSet : orderedSet := OrderedSet [] ∅ 0.

Definition Add (v : string) (front : bool) (o : orderedSet) : orderedSet :=
  match os_m o !! v with
  | Some e =>
      if front then OrderedSet (list_MoveToFront e (os_l o)) (os_m o) (os_next o)
      else o
  | None =>
      let e := os_next o in
      if front
      then OrderedSet (list_PushFront (e, v) (os_l o)) (<[v := e]> (os_m o)) (S e)
      else OrderedSet (list_PushBack (e, v) (os_l o)) (<[v := e]> (os_m o)) (S e)
  end.

(** [Front] pops: it returns the front value and removes it. *)
Definition Front (o : orderedSet) : string * orderedSet :=
  match os_l o with
  | [] => ("", o)
  | (e, v) :: _ =>
      (v, OrderedSet (list_Remove e (os_l o)) (delete v (os_m o)) (os_next o))
  end.

Definition Len (o : orderedSet) : nat := length (os_l o).

Definition Delete (v : string) (o : orderedSet) : bool * orderedSet :=
  match os_m o !! v with
  | None => (false, o)
  | Some e =>
      (true, OrderedSet (list_Remove e (os_l o)) (delete v (os_m o)) (os_next o))
  end.

Definition IsSet (v : string) (o : orderedSet) : bool :=
  match os_m o !! v with None => false | Some _ => true end.

(** [AsList] ranges over the map: the order is the run time's. *)
Definition AsList {C W} `{!MapRange W} (o : orderedSet) : M C W (list string) :=
  ks ← range_keys (os_m o);
  mret (omap (λ k, e ← os_m o !! k; x ← list_find (λ x, x.1 = e) (os_l o);
                   Some x.2.2) ks).
End orderedSet.

(** ** Specification

    What the queue promises, on a plain list without duplicates. *)
Module Queue.
Definition remove (v : string) (l : list string) : list string :=
  filter (λ x, x ≠ v) l.
Definition add (v : string) (front : bool) (l : list string) : list string :=
  if decide (v ∈ l) then (if front then v :: remove v l else l)
  else if front then v :: l else l ++ [v].
End Queue.

Lemma Queue_remove_absent v l : v ∉ l → Queue.remove v l = l.
Proof.
  unfold Queue.remove. induction l as [|x l IH]; intros Hni; [done|].
  apply not_elem_of_cons in Hni as [Hne Hni].
  rewrite filter_cons_True by done. f_equal. by apply IH.
Qed.
Lemma Queue_remove_elem v x l : x ∈ Queue.remove v l ↔ x ≠ v ∧ x ∈ l.
Proof. unfold Queue.remove. by rewrite list_elem_of_filter. Qed.
Lemma Queue_add_elem v front x l : x ∈ Queue.add v front l ↔ x = v ∨ x ∈ l.
Proof.
  unfold Queue.add. destruct (decide (v ∈ l)), front.
  - rewrite elem_of_cons, Queue_remove_elem. destruct (decide (x = v)); tauto.
  - split; [by right|]. by intros [->|Hx].
  - by rewrite elem_of_cons.
  - rewrite elem_of_app, list_elem_of_singleton. tauto.
Qed.

(** [os_list o]: the values from front to back; [os_wf o]: the list and the map
    agree, and no two elements share an address. *)
Definition os_list (o : orderedSet) : list string := (os_l o).*2.
Record os_wf (o : orderedSet) : Prop := {
  os_wf_nodup : NoDup (os_l o).*1;
  os_wf_map : ∀ v e, os_m o !! v = Some e ↔ (e, v) ∈ os_l o;
  os_wf_fresh : ∀ e v, (e, v) ∈ os_l o → e < os_next o;
}.

Lemma filter_fmap_snd (P : nat → Prop) (Q : string → Prop)
    `{!∀ e, Decision (P e), !∀ v, Decision (Q v)} (l : list element) :
  (∀ x, x ∈ l → P x.1 ↔ Q x.2) →
  (filter (λ x, P x.1) l).*2 = filter Q (l.*2).
Proof.
  intros HPQ. induction l as [|x l IH]; [done|].
  assert (P x.1 ↔ Q x.2) as Hx by (apply HPQ; by left).
  assert ((filter (λ x, P x.1) l).*2 = filter Q (l.*2)) as Hl.
  { apply IH. intros y Hy. apply HPQ. by right. }
  rewrite fmap_cons, !filter_cons.
  destruct (decide (P x.1)), (decide (Q x.2)); rewrite ?fmap_cons, ?Hl;
    by (reflexivity || tauto).
Qed.

Section facts.
Implicit Types (o : orderedSet) (v : string) (e : nat).

Lemma wf_same_value o e v x :
  os_wf o → (e, v) ∈ os_l o → x ∈ os_l o → x.1 = e ↔ x.2 = v.
Proof.
  intros [Hnd Hm _] Hin Hx. destruct x as [e' v']; cbn. split.
  - intros ->. apply list_elem_of_lookup in Hin as [i Hi].
    apply list_elem_of_lookup in Hx as [j Hj].
    assert (i = j) as <-.
    { eapply NoDup_lookup; [done| |]; rewrite list_lookup_fmap;
        [by rewrite Hi|by rewrite Hj]. }
    by simplify_eq.
  - intros ->. apply Hm in Hin, Hx. by simplify_eq.
Qed.

Lemma os_list_elem o v : os_wf o → v ∈ os_list o ↔ is_Some (os_m o !! v).
Proof.
  intros [_ Hm _]. unfold os_list. rewrite list_elem_of_fmap. split.
  - intros [[e v'] [-> Hin]]. apply Hm in Hin. eauto.
  - intros [e He]. apply Hm in He. by exists (e, v).
Qed.

Lemma os_list_nodup o : os_wf o → NoDup (os_list o).
Proof.
  intros Hwf. unfold os_list. apply NoDup_fmap_2_strong.
  - intros [e v] [e' v'] H1 H2 Heq. cbn in Heq. subst.
    apply (os_wf_map o Hwf) in H1, H2. by simplify_eq.
  - eapply NoDup_fmap_1, (os_wf_nodup o Hwf).
Qed.

Lemma Remove_list o e v :
  os_wf o → (e, v) ∈ os_l o →
  (list_Remove e (os_l o)).*2 = Queue.remove v (os_list o).
Proof.
  intros Hwf Hin. unfold list_Remove, Queue.remove, os_list.
  pose proof (filter_fmap_snd (λ e', e' ≠ e) (λ v', v' ≠ v) (os_l o)) as Hf.
  apply Hf. intros x Hx. by rewrite (wf_same_value o e v x).
Qed.

Lemma filter_hit o e v :
  os_wf o → (e, v) ∈ os_l o → filter (λ x, x.1 = e) (os_l o) = [(e, v)].
Proof.
  intros Hwf Hin. apply Permutation_singleton_r, NoDup_Permutation.
  - apply NoDup_filter, (NoDup_fmap_1 fst), (os_wf_nodup o Hwf).
  - apply NoDup_singleton.
  - intros x. rewrite list_elem_of_filter, list_elem_of_singleton. split.
    + intros [Hx Hx']. destruct (wf_same_value o e v x Hwf Hin Hx') as [Hv _].
      destruct x as [e' v']; cbn in *. by rewrite Hx, Hv.
    + by intros ->.
Qed.

Lemma new_wf : os_wf orderedSet.newOrderedSet.
Proof. split; cbn; [constructor|set_solver|set_solver]. Qed.

Lemma wf_Remove o e v :
  os_wf o → (e, v) ∈ os_l o →
  os_wf (OrderedSet (list_Remove e (os_l o)) (delete v (os_m o)) (os_next o)).
Proof.
  intros Hwf Hin. split; cbn.
  - eapply sublist_NoDup; [apply (os_wf_nodup o Hwf)|].
    apply fmap_sublist, sublist_filter.
  - intros v' e'. unfold list_Remove. rewrite list_elem_of_filter, lookup_delete_Some.
    rewrite (os_wf_map o Hwf). cbn.
    split; intros [Hne Hin']; (split; [|done]); intros Heq; apply Hne;
      destruct (wf_same_value o e v (e', v') Hwf Hin Hin'); cbn in *; subst; auto using eq_sym.
  - intros e' v' [_ Hin']%list_elem_of_filter. by apply (os_wf_fresh o Hwf) in Hin'.
Qed.
End facts.

Section refinement.
Implicit Types (o : orderedSet) (v : string) (front : bool).

Lemma wf_Add_absent o v front :
  os_wf o → os_m o !! v = None → os_wf (orderedSet.Add v front o).
Proof.
  intros Hwf Hv. unfold orderedSet.Add. rewrite Hv.
  assert (∀ l, l ≡ₚ (os_next o, v) :: os_l o →
            os_wf (OrderedSet l (<[v := os_next o]> (os_m o)) (S (os_next o)))) as Hl.
  { intros l Hl. split; cbn.
    - rewrite Hl. cbn. apply NoDup_cons. split; [|apply (os_wf_nodup o Hwf)].
      intros [[e v'] [Heq Hin]]%list_elem_of_fmap. cbn in Heq. subst.
      apply (os_wf_fresh o Hwf) in Hin. lia.
    - intros v' e'. rewrite Hl, lookup_insert_Some, (os_wf_map o Hwf), elem_of_cons.
      split; [by intros [[-> ->]|[Hne Hin]]; [left|right]|].
      intros [[= <- <-]|Hin]; [by left|]. right. split; [|done]. intros ->. apply (os_wf_map o Hwf) in Hin. congruence.
    - intros e' v'. rewrite Hl, elem_of_cons.
      intros [[= -> ->]|Hin%(os_wf_fresh o Hwf)]; lia. }
  destruct front; apply Hl; [done|]. unfold list_PushBack. by rewrite Permutation_app_comm.
Qed.

Lemma wf_Add o v front : os_wf o → os_wf (orderedSet.Add v front o).
Proof.
  intros Hwf. destruct (os_m o !! v) as [e|] eqn:Hv; [|by apply wf_Add_absent].
  unfold orderedSet.Add. rewrite Hv. destruct front; [|done].
  apply (os_wf_map o Hwf) in Hv as Hin.
  assert (list_MoveToFront e (os_l o) ≡ₚ os_l o) as Hp.
  { unfold list_MoveToFront, list_Remove. apply filter_app_complement. }
  split; cbn.
  - rewrite Hp. apply (os_wf_nodup o Hwf).
  - intros v' e'. rewrite Hp. apply (os_wf_map o Hwf).
  - intros e' v'. rewrite Hp. apply (os_wf_fresh o Hwf).
Qed.

Lemma Add_list o v front :
  os_wf o → os_list (orderedSet.Add v front o) = Queue.add v front (os_list o).
Proof.
  intros Hwf. unfold Queue.add, orderedSet.Add.
  pose proof (os_list_elem o v Hwf) as Hel.
  destruct (os_m o !! v) as [e|] eqn:Hv.
  - rewrite decide_True by (apply Hel; eauto). destruct front; [|done].
    apply (os_wf_map o Hwf) in Hv. unfold os_list at 1, list_MoveToFront. cbn.
    rewrite fmap_app, (filter_hit o e v), (Remove_list o e v) by done. done.
  - rewrite decide_False by (rewrite Hel; by intros []).
    destruct front; [done|]. unfold os_list, list_PushBack. cbn. by rewrite fmap_app.
Qed.

(** Adding several values, one after the other. *)
Lemma Add_all_elem l front o :
  os_wf o → let o' := foldl (λ o v, orderedSet.Add v front o) o l in
  os_wf o' ∧ ∀ x, x ∈ os_list o' ↔ x ∈ l ∨ x ∈ os_list o.
Proof.
  revert o. induction l as [|v l IH]; intros o Hwf; cbn.
  - split; [done|]. set_solver.
  - destruct (IH (orderedSet.Add v front o)) as [Hwf' Hx]; [by apply wf_Add|].
    split; [done|]. intros x. rewrite Hx, Add_list, Queue_add_elem, elem_of_cons by done.
    tauto.
Qed.

Lemma Front_nil o : os_list o = [] → orderedSet.Front o = ("", o).
Proof.
  unfold os_list, orderedSet.Front. by destruct (os_l o).
Qed.

Lemma Front_cons o v l :
  os_wf o → os_list o = v :: l →
  (orderedSet.Front o).1 = v ∧ os_list (orderedSet.Front o).2 = l ∧
  os_wf (orderedSet.Front o).2.
Proof.
  intros Hwf Hl. assert (∃ e l', os_l o = (e, v) :: l') as (e & l' & Hol).
  { unfold os_list in Hl. destruct (os_l o) as [|[e v'] l']; [done|].
    cbn in Hl. simplify_eq. eauto. }
  assert ((e, v) ∈ os_l o) as Hin by (rewrite Hol; by left).
  assert (orderedSet.Front o =
            (v, OrderedSet (list_Remove e (os_l o)) (delete v (os_m o)) (os_next o)))
    as -> by (unfold orderedSet.Front; by rewrite Hol).
  split; [done|]. split; [|by apply wf_Remove].
  unfold os_list at 1. cbn [os_l snd]. rewrite (Remove_list o e v), Hl by done.
  pose proof (os_list_nodup o Hwf) as Hnd. rewrite Hl in Hnd.
  apply NoDup_cons in Hnd as [Hni _]. unfold Queue.remove.
  rewrite filter_cons_False by (intros Hc; by apply Hc).
  by apply Queue_remove_absent.
Qed.

Lemma Delete_list o v :
  os_wf o → os_list (orderedSet.Delete v o).2 = Queue.remove v (os_list o) ∧
            (orderedSet.Delete v o).1 = bool_decide (v ∈ os_list o) ∧
            os_wf (orderedSet.Delete v o).2.
Proof.
  intros Hwf. pose proof (os_list_elem o v Hwf) as Hel. unfold orderedSet.Delete.
  destruct (os_m o !! v) as [e|] eqn:Hv; cbn.
  - apply (os_wf_map o Hwf) in Hv as Hin. split_and!.
    + by apply Remove_list.
    + symmetry. apply bool_decide_eq_true, Hel. eauto.
    + by apply wf_Remove.
  - assert (v ∉ os_list o) as Hni by (rewrite Hel; by intros []). split_and!.
    + symmetry. by apply Queue_remove_absent.
    + symmetry. by apply bool_decide_eq_false.
    + done.
Qed.
End refinement.

Lemma wf_Delete o v : os_wf o → os_wf (orderedSet.Delete v o).2.
Proof. intros Hwf. by apply Delete_list. Qed.
Lemma Add_elem o v front x :
  os_wf o → x ∈ os_list (orderedSet.Add v front o) ↔ x = v ∨ x ∈ os_list o.
Proof. intros Hwf. by rewrite Add_list, Queue_add_elem. Qed.
Lemma Delete_elem o v x :
  os_wf o → x ∈ os_list (orderedSet.Delete v o).2 ↔ x ≠ v ∧ x ∈ os_list o.
Proof. intros Hwf. destruct (Delete_list o v Hwf) as [-> _]. apply Queue_remove_elem. Qed.

(** [AsList] gives every value once, in the order of the run time. *)
Lemma wp_AsList {C W} `{MapRangeLaws W} E (o : orderedSet) (c : C) (w : W) :
  os_wf o →
  wp E (orderedSet.AsList o) (λ l c' _, l ≡ₚ os_list o ∧ c' = c) c w.
Proof.
  intros Hwf. unfold orderedSet.AsList, range_keys. wp_steps. apply wp_call.
  intros ks w' Hks. wp_steps. split; [|done].
  assert (∀ v, v ∈ ks ↔ v ∈ os_list o) as Hin.
  { intros v. rewrite (os_list_elem o v Hwf). by eapply range_order_elem. }
  assert (omap (λ k, e ← os_m o !! k; x ← list_find (λ x, x.1 = e) (os_l o); Some x.2.2) ks
            = ks) as ->.
  { assert (∀ l : list string, (∀ v, v ∈ l → v ∈ os_list o) →
      omap (λ k, e ← os_m o !! k; x ← list_find (λ x, x.1 = e) (os_l o); Some x.2.2) l = l)
      as Hl.
    { induction l as [|v l IH]; intros Hv; [done|]. cbn.
      assert (is_Some (os_m o !! v)) as [e He] by (apply (os_list_elem o v Hwf), Hv; by left).
      rewrite He. cbn. apply (os_wf_map o Hwf) in He as Hel.
      destruct (list_find_elem_of (λ x, x.1 = e) (os_l o) (e, v) Hel eq_refl) as [[i y] Hf].
      rewrite Hf. cbn. apply list_find_Some in Hf as (Hy & Hye & _).
      apply list_elem_of_lookup_2 in Hy.
      apply (wf_same_value o e v y Hwf Hel Hy) in Hye. rewrite Hye. f_equal.
      apply IH. set_solver. }
    apply Hl. intros v. by rewrite Hin. }
  apply NoDup_Permutation; [by eapply range_order_nodup|by apply os_list_nodup|exact Hin].
Qed.

Create HintDb oset.
#[export] Hint Resolve wf_Add wf_Delete new_wf : oset.

(** ** Properties *)

(** C16: the list and the map of an [orderedSet] together implement a queue
    without duplicates: every operation keeps them in agreement and does to the
    sequence of values what the specification [Queue] says - [Add] appends or
    prepends a new value, moves a known one to the front or leaves it where it
    is; [Front] pops the first value; [Delete] and [IsSet] answer membership. *)
Theorem orderedSet_refines_Queue (o : orderedSet) (v : string) (front : bool) :
  os_wf o →
  (os_wf (orderedSet.Add v front o) ∧
   os_list (orderedSet.Add v front o) = Queue.add v front (os_list o)) ∧
  (os_wf (orderedSet.Front o).2 ∧
   orderedSet.Front o =
     match os_list o with
     | [] => ("", o)
     | x :: _ => (x, (orderedSet.Front o).2)
     end ∧
   os_list (orderedSet.Front o).2 = tail (os_list o)) ∧
  (os_wf (orderedSet.Delete v o).2 ∧
   os_list (orderedSet.Delete v o).2 = Queue.remove v (os_list o) ∧
   (orderedSet.Delete v o).1 = bool_decide (v ∈ os_list o)) ∧
  orderedSet.Len o = length (os_list o) ∧
  orderedSet.IsSet v o = bool_decide (v ∈ os_list o) ∧
  NoDup (os_list o).
Proof.
  intros Hwf. split_and!.
  - by apply wf_Add.
  - by apply Add_list.
  - destruct (os_list o) as [|x l] eqn:Hl.
    + by rewrite Front_nil.
    + by destruct (Front_cons o x l Hwf Hl) as (_ & _ & ?).
  - destruct (os_list o) as [|x l] eqn:Hl; [by apply Front_nil|].
    destruct (Front_cons o x l Hwf Hl) as (<- & _ & _). by destruct orderedSet.Front.
  - destruct (os_list o) as [|x l] eqn:Hl.
    + by rewrite Front_nil.
    + by destruct (Front_cons o x l Hwf Hl) as (_ & ? & _).
  - by apply Delete_list.
  - by apply Delete_list.
  - by apply Delete_list.
  - unfold orderedSet.Len, os_list. by rewrite length_fmap.
  - unfold orderedSet.IsSet. pose proof (os_list_elem o v Hwf) as Hel.
    destruct (os_m o !! v); symmetry; [apply bool_decide_eq_true|apply bool_decide_eq_false];
      rewrite Hel; [eauto|by intros []].
  - by apply os_list_nodup.
Qed.

Definition example_queue : orderedSet :=
  orderedSet.Add "c" true (orderedSet.Add "b" false (orderedSet.Add "a" false
    orderedSet.newOrderedSet)).

Lemma orderedSet_refines_Queue_witness :
  os_list example_queue = ["c"; "a"; "b"] ∧
  os_list (orderedSet.Add "b" true example_queue) = ["b"; "c"; "a"].
Proof.
  split; [reflexivity|].
  assert (os_wf example_queue) as Hwf.
  { unfold example_queue. repeat apply wf_Add. apply new_wf. }
  destruct (orderedSet_refines_Queue example_queue "b" true Hwf) as [[_ ->] _].
  reflexivity.
Defined.
