(* ===== verification/K8s.v ===== *)
(** * Kubernetes API objects

    The fields of [corev1.Node], [corev1.Pod] and of the match types that the
    code reads or compares.  Functions of the Kubernetes libraries are not
    defined here: the components that call them take them as parameters. *)
From S2P Require Import Prelude Go.

(** [corev1.Toleration] and [corev1.Taint]. *)
Record Toleration : Type := {
  tol_Key : string;
  tol_Operator : string;
  tol_Value : string;
  tol_Effect : string;
  tol_TolerationSeconds : option Z;
}.
#[export] Instance Toleration_eq_dec : EqDecision Toleration.
Proof. solve_decision. Defined.

Record Taint : Type := {
  taint_Key : string;
  taint_Value : string;
  taint_Effect : string;
}.

(** A condition of a node or of a pod, and a node address. *)
Record Condition : Type := { cond_Type : string; cond_Status : string }.
Record NodeAddress : Type := { addr_Type : string; addr_Address : string }.

Definition NodeReady : string := "Ready".
Definition PodReady : string := "Ready".
Definition ConditionTrue : string := "True".
Definition PodRunning : string := "Running".
Definition NodeExternalIP : string := "ExternalIP".

Record Node : Type := {
  node_Name : string;
  node_ProviderID : string;                 (* Spec.ProviderID *)
  node_Labels : gmap string string;
  node_Annotations : gmap string string;
  node_Deleting : bool;                     (* !DeletionTimestamp.IsZero() *)
  node_Taints : list Taint;
  node_Conditions : list Condition;
  node_Addresses : list NodeAddress;
}.

Record Pod : Type := {
  pod_Name : string;
  pod_Namespace : string;
  pod_NodeName : string;                    (* Spec.NodeName *)
  pod_Labels : gmap string string;
  pod_Deleting : bool;
  pod_Phase : string;
  pod_Conditions : list Condition;
}.

(** Reading a map of strings: an absent key reads as the zero value. *)
Definition map_get (m : gmap string string) (k : string) : string := default "" (m !! k).

Lemma map_get_Some m k : map_get m k ≠ "" → m !! k = Some (map_get m k).
Proof. unfold map_get. by destruct (m !! k). Qed.
