(* ===== verification/Types.v ===== *)
(** * pkg/apis/flipop/v1alpha1/flipop_types.go

    The custom resources.  Slices, maps and pointers that [reflect.DeepEqual]
    compares keep their [nil]. *)
From S2P Require Import Prelude Go K8s.
From Corelib Require Export SpecFloat.

(** The group and version of the resources (register.go), and a resource of a group,
    as the apimachinery names it. *)
Definition GroupName : string := "flipop.digitalocean.com".
Definition GroupVersion : string := "v1alpha1".
Definition SchemeGroupVersion : string * string := (GroupName, GroupVersion).
Record GroupVersionResource : Type := GVR {
  gvr_Group : string;
  gvr_Version : string;
  gvr_Resource : string;
}.
#[export] Instance GVR_eq_dec : EqDecision GroupVersionResource.
Proof. solve_decision. Defined.
Definition WithResource (gv : string * string) (resource : string) : GroupVersionResource :=
  GVR gv.1 gv.2 resource.
(** [Resource]: the group and the resource, without the version. *)
Definition GroupResource (gvr : GroupVersionResource) : string * string :=
  (gvr_Group gvr, gvr_Resource gvr).
Definition Resource (resource : string) : string * string :=
  GroupResource (WithResource SchemeGroupVersion resource).

Definition IPState : Type := string.
Definition IPStateActive : IPState := "active".
Definition IPStateInProgress : IPState := "in-progress".
Definition IPStateError : IPState := "error".
Definition IPStateNoMatch : IPState := "no-match".
Definition IPStateUnassigned : IPState := "unassigned".
Definition IPStateDisabled : IPState := "disabled".

Definition NodeDNSRecordState : Type := string.
Definition NodeDNSRecordActive : NodeDNSRecordState := "active".
Definition NodeDNSRecordInProgress : NodeDNSRecordState := "in-progress".
Definition NodeDNSRecordError : NodeDNSRecordState := "error".

Definition IPv4ReservedIPAnnotation : string := "flipop.digitalocean.com/ipv4-reserved-ip".

Record Match : Type := {
  NodeLabel : string;
  PodLabel : string;
  PodNamespace : string;
  Tolerations : slice Toleration;
}.
#[export] Instance Match_eq_dec : EqDecision Match.
Proof. solve_decision. Defined.

Record DNSRecordSet : Type := {
  dns_Provider : string;
  dns_Zone : string;
  dns_RecordName : string;
  dns_TTL : Z;
}.
#[export] Instance DNSRecordSet_eq_dec : EqDecision DNSRecordSet.
Proof. solve_decision. Defined.

Record FloatingIPPoolSpec : Type := {
  fip_IPs : slice string;
  fip_DesiredIPs : Z;
  fip_Provider : string;
  fip_Region : string;
  fip_Match : Match;
  fip_DNSRecordSet : option DNSRecordSet;
  fip_AssignmentCoolOffSeconds : spec_float;
}.

Record IPStatus : Type := {
  State : IPState;
  NodeName : string;
  ProviderID : string;
  IPStatus_Error : string;
}.
#[export] Instance IPStatus_eq_dec : EqDecision IPStatus.
Proof. solve_decision. Defined.

Record FloatingIPPoolStatus : Type := {
  status_IPs : option (gmap string IPStatus);
  status_NodeErrors : slice string;
  status_AssignableNodes : slice string;
  status_Error : string;
}.
#[export] Instance FloatingIPPoolStatus_eq_dec : EqDecision FloatingIPPoolStatus.
Proof. solve_decision. Defined.

(** [metav1.ObjectMeta]: what identifies an object. *)
Record ObjectMeta : Type := {
  meta_Namespace : string;
  meta_Name : string;
  meta_UID : string;
}.

Record FloatingIPPool : Type := {
  fip_meta : ObjectMeta;
  fip_Spec : FloatingIPPoolSpec;
  fip_Status : FloatingIPPoolStatus;
}.

Record NodeDNSRecordSetStatus : Type := {
  nds_Error : string;
  nds_State : NodeDNSRecordState;
}.
#[export] Instance NodeDNSRecordSetStatus_eq_dec : EqDecision NodeDNSRecordSetStatus.
Proof. solve_decision. Defined.

Record NodeDNSRecordSetSpec : Type := {
  nds_Match : Match;
  nds_DNSRecordSet : DNSRecordSet;
  nds_AddressType : string;
}.

Record NodeDNSRecordSet : Type := {
  nds_meta : ObjectMeta;
  nds_Spec : NodeDNSRecordSetSpec;
  nds_Status : NodeDNSRecordSetStatus;
}.
