(* ===== verification/Heap.v ===== *)
(** * Go's memory: pointers, slices and maps

    Structs are values; pointers, slices and maps refer to cells of a heap, so that
    copying a struct shares what they refer to.  [load] reads what a value
    stands for together with the cells it reaches; a deep copy is a value that stands
    for the same and reaches new cells only. *)
From S2P Require Import Prelude Go.

Abbreviation loc := positive (only parsing).
Abbreviation heap cell := (gmap loc cell).

(** A [*T], a [[]T] - a window of an array, from [off] - and a [map[string]V]. *)
Inductive ptr (T : Type) : Type := Nil | At (l : loc).
Inductive slc (T : Type) : Type := NilSlice | SliceAt (l : loc) (off len : nat).
Inductive gmp (V : Type) : Type := NilMap | MapAt (l : loc).
Arguments Nil {T}.
Arguments At {T} l.
Arguments NilSlice {T}.
Arguments SliceAt {T} l off len.
Arguments NilMap {V}.
Arguments MapAt {V} l.

(** Values of type [T] are kept in cells; [new(T)] starts from the zero value. *)
Class Stored (cell T : Type) : Type := {
  box : T → cell;
  unbox : cell → option T;
  unbox_box x : unbox (box x) = Some x;
}.
Class Zero (T : Type) : Type := zero : T.

Section operations.
Context {cell W : Type} `{!MapRange W}.
Implicit Types (h : heap cell) (w : W) (l : loc).
Abbreviation M := (Go.M (heap cell) W).

Definition read_cell {T} `{!Stored cell T} h l : option T := h !! l ≫= unbox.
Definition alloc {T} `{!Stored cell T} (x : T) : M loc :=
  h ← gets id;
  let l := fresh (dom h) in
  modify <[l := box x]> ;; mret l.
Definition read {T} `{!Stored cell T} l : M T := h ← gets id; deref (read_cell h l).
Definition write {T} `{!Stored cell T} l (x : T) : M unit := modify <[l := box x]>.

(** [new(T)], [*p] and [*p = x]. *)
Definition new {T} `{!Stored cell T, !Zero T} : M (ptr T) := l ← alloc zero; mret (At l).
Definition get {T} `{!Stored cell T} (p : ptr T) : M T :=
  match p with Nil => panic | At l => read l end.
Definition put {T} `{!Stored cell T} (p : ptr T) (x : T) : M unit :=
  match p with Nil => panic | At l => write l x end.

(** [make([]T, n)], [len(s)], [s[i]], [s[i] = x] and [copy(dst, src)]. *)
Definition make_slice {T} `{!Stored cell (list T), !Zero T} (n : nat) : M (slc T) :=
  l ← alloc (replicate n zero); mret (SliceAt l 0 n).
Definition length {T} (s : slc T) : nat :=
  match s with NilSlice => 0 | SliceAt _ _ n => n end.
Definition index {T} `{!Stored cell (list T)} (s : slc T) (i : nat) : M T :=
  match s with
  | NilSlice => panic
  | SliceAt l off n =>
      arr ← read l;
      if (i <? n)%nat then deref ((arr : list T) !! (off + i)) else panic
  end.
Definition set_index {T} `{!Stored cell (list T)} (s : slc T) (i : nat) (x : T) : M unit :=
  match s with
  | NilSlice => panic
  | SliceAt l off n =>
      arr ← read l;
      if (i <? n)%nat then write l (<[off + i := x]> (arr : list T)) else panic
  end.
Definition contents {T} `{!Stored cell (list T)} (s : slc T) : M (list T) :=
  match s with
  | NilSlice => mret []
  | SliceAt l off n => arr ← read l; mret (take n (drop off (arr : list T)))
  end.
Definition copy {T} `{!Stored cell (list T)} (dst src : slc T) : M unit :=
  xs ← contents src;
  match dst with
  | NilSlice => mret tt
  | SliceAt l off n =>
      arr ← read l;
      let k := Nat.min n (List.length xs) in
      write l (take off (arr : list T) ++ take k xs ++ drop (off + k) arr)
  end.

(** [make(map[string]V)] and the loop [for key, val := range src { dst[key] = val }]. *)
Definition make_map {V} `{!Stored cell (gmap string V)} : M (gmp V) :=
  l ← alloc ∅; mret (MapAt l).
Definition copy_map {V} `{!Stored cell (gmap string V)} (dst src : gmp V) : M unit :=
  match src, dst with
  | MapAt l, MapAt l' =>
      m ← read l;
      keys ← range_keys (m : gmap string V);
      for_each keys (λ key,
        val ← deref (m !! key);
        m' ← read l';
        write l' (<[key := val]> (m' : gmap string V)))
  | NilMap, _ => mret tt
  | _, NilMap => panic
  end.
End operations.

(** ** What a value stands for *)

(** [load h x] is the value of [x] and the cells it reaches; nothing else matters to
    it. *)
Class Layout (cell T A : Type) : Type := {
  load : heap cell → T → option (A * gset loc);
  load_alloc h x v c l : load h x = Some (v, c) → l ∈ c → is_Some (h !! l);
  load_local h h' x v c : load h x = Some (v, c) → (∀ l, l ∈ c → h' !! l = h !! l) →
    load h' x = Some (v, c);
}.
#[export] Hint Mode Layout - ! - : typeclass_instances.

(** A type without references. *)
Program Definition flat_layout {cell T} : Layout cell T T := {| load _ x := Some (x, ∅) |}.
Next Obligation. intros cell T h x v c l [= <- <-]. set_solver. Qed.
Next Obligation. done. Qed.

Section layouts.
Context {cell : Type}.
Implicit Types (h : heap cell) (l : loc) (c : gset loc).

Lemma load_grow {T A} `{!Layout cell T A} h h' (x : T) (v : A) c :
  load h x = Some (v, c) → h ⊆ h' → load h' x = Some (v, c).
Proof.
  intros Hl Hs. eapply load_local; [exact Hl|]. intros l Hin.
  destruct (load_alloc h x v c l Hl Hin) as [y Hy]. rewrite Hy. by eapply lookup_weaken.
Qed.

Fixpoint load_list {T A} `{!Layout cell T A} h (xs : list T) : option (list A * gset loc) :=
  match xs with
  | [] => Some ([], ∅)
  | x :: xs' =>
      '(v, c) ← load h x; '(vs, cs) ← load_list h xs'; Some (v :: vs, c ∪ cs)
  end.

#[export] Program Instance list_layout {T A} `{!Layout cell T A} : Layout cell (list T) (list A) :=
  {| load := load_list |}.
Next Obligation.
  intros T A ? h xs. induction xs as [|x xs IH]; cbn; intros v c l Hl Hin; simplify_eq.
  { set_solver. }
  destruct (load h x) as [[v1 c1]|] eqn:H1; cbn in Hl; [|done].
  destruct (load_list h xs) as [[vs cs]|] eqn:H2; cbn in Hl; [|done]. simplify_eq.
  apply elem_of_union in Hin as [Hin|Hin]; [by eapply load_alloc|by eapply IH].
Qed.
Next Obligation.
  intros T A ? h h' xs. induction xs as [|x xs IH]; cbn; intros v c Hl Hin; [done|].
  destruct (load h x) as [[v1 c1]|] eqn:H1; cbn in Hl; [|done].
  destruct (load_list h xs) as [[vs cs]|] eqn:H2; cbn in Hl; [|done]. simplify_eq.
  rewrite (load_local h h' x v1 c1) by (done || intros l ?; apply Hin; set_solver). cbn.
  by rewrite (IH vs cs) by (done || intros l ?; apply Hin; set_solver).
Qed.
End layouts.

(** A pointer stands for what it points to, a slice for the elements of its window, a
    map for its entries; [nil] is not an empty one. *)
Section references.
Context {cell : Type}.
Implicit Types (h : heap cell) (l : loc) (c : gset loc).

Definition load_ptr {T A} `{!Stored cell T, !Layout cell T A} h (p : ptr T)
    : option (option A * gset loc) :=
  match p with
  | Nil => Some (None, ∅)
  | At l => x ← read_cell h l; '(v, c) ← load h (x : T); Some (Some v, {[l]} ∪ c)
  end.
Definition load_slc {T A} `{!Stored cell (list T), !Layout cell T A} h (s : slc T)
    : option (slice A * gset loc) :=
  match s with
  | NilSlice => Some (None, ∅)
  | SliceAt l off n =>
      arr ← read_cell h l;
      if (off + n <=? List.length (arr : list T))%nat then
        '(v, c) ← load h (take n (drop off arr)); Some (Some v, {[l]} ∪ c)
      else None
  end.
Definition load_gmp {V} `{!Stored cell (gmap string V)} h (m : gmp V)
    : option (option (gmap string V) * gset loc) :=
  match m with
  | NilMap => Some (None, ∅)
  | MapAt l => x ← read_cell h l; Some (Some (x : gmap string V), {[l]})
  end.

Lemma read_cell_local {T} `{!Stored cell T} h h' l (x : T) :
  read_cell h l = Some x → h' !! l = h !! l → read_cell h' l = Some x.
Proof. unfold read_cell. by intros Hl ->. Qed.
Lemma read_cell_alloc {T} `{!Stored cell T} h l (x : T) :
  read_cell h l = Some x → is_Some (h !! l).
Proof. unfold read_cell. destruct (h !! l); [eauto|done]. Qed.

#[export] Program Instance ptr_layout {T A} `{!Stored cell T, !Layout cell T A} :
  Layout cell (ptr T) (option A) := {| load := load_ptr |}.
Next Obligation.
  intros T A ? ? h [|l] v c l' Hl Hin; cbn in Hl; simplify_eq; [set_solver|].
  destruct (read_cell h l) as [x|] eqn:Hx; cbn in Hl; [|done].
  destruct (load h x) as [[v1 c1]|] eqn:H1; cbn in Hl; [|done]. simplify_eq.
  apply elem_of_union in Hin as [->%elem_of_singleton|Hin]; [by eapply read_cell_alloc|by eapply load_alloc].
Qed.
Next Obligation.
  intros T A ? ? h h' [|l] v c Hl Hin; cbn in *; [done|].
  destruct (read_cell h l) as [x|] eqn:Hx; cbn in Hl; [|done].
  destruct (load h x) as [[v1 c1]|] eqn:H1; cbn in Hl; [|done]. simplify_eq.
  rewrite (read_cell_local h h' l x) by (done || apply Hin; set_solver). cbn.
  by rewrite (load_local h h' x v1 c1) by (done || intros l' ?; apply Hin; set_solver).
Qed.
#[export] Program Instance slc_layout {T A} `{!Stored cell (list T), !Layout cell T A} :
  Layout cell (slc T) (slice A) := {| load := load_slc |}.
Next Obligation.
  intros T A ? ? h [|l off n] v c l' Hl Hin; cbn in Hl; simplify_eq; [set_solver|].
  destruct (read_cell h l) as [x|] eqn:Hx; cbn in Hl; [|done]. destruct (_ <=? _)%nat; [|done].
  destruct (load_list h _) as [[v1 c1]|] eqn:H1; cbn in Hl; [|done]. simplify_eq.
  apply elem_of_union in Hin as [->%elem_of_singleton|Hin]; [by eapply read_cell_alloc|].
  by apply (load_alloc (Layout := list_layout) h _ _ _ l' H1).
Qed.
Next Obligation.
  intros T A ? ? h h' [|l off n] v c Hl Hin; cbn in *; [done|].
  destruct (read_cell h l) as [x|] eqn:Hx; cbn in Hl; [|done].
  destruct (_ <=? _)%nat eqn:Hn; [|done].
  destruct (load_list h _) as [[v1 c1]|] eqn:H1; cbn in Hl; [|done]. simplify_eq.
  rewrite (read_cell_local h h' l x) by (done || apply Hin; set_solver). cbn. rewrite Hn.
  pose proof (load_local (Layout := list_layout) h h' (take n (drop off x)) v1 c1) as H2. cbn in H2.
  by rewrite H2 by (done || intros l' ?; apply Hin; set_solver).
Qed.
#[export] Program Instance gmp_layout {V} `{!Stored cell (gmap string V)} :
  Layout cell (gmp V) (option (gmap string V)) := {| load := load_gmp |}.
Next Obligation.
  intros V ? h [|l] v c l' Hl Hin; cbn in Hl; simplify_eq; [set_solver|].
  destruct (read_cell h l) as [x|] eqn:Hx; cbn in Hl; [|done]. simplify_eq.
  apply elem_of_singleton in Hin as ->. by eapply read_cell_alloc.
Qed.
Next Obligation.
  intros V ? h h' [|l] v c Hl Hin; cbn in *; [done|].
  destruct (read_cell h l) as [x|] eqn:Hx; cbn in Hl; [|done]. simplify_eq.
  by rewrite (read_cell_local h h' l x) by (done || apply Hin; set_solver).
Qed.
End references.

(** ** Deep copies *)

(** In the heap [h], which extends [h0], the value [y] stands for [v] and reaches no
    cell of [h0]. *)
Definition copied {cell T A} `{!Layout cell T A} (h0 h : heap cell) (y : T) (v : A) : Prop :=
  h0 ⊆ h ∧ ∃ c, load h y = Some (v, c) ∧ ∀ l, l ∈ c → h0 !! l = None.

(** [f] makes deep copies. *)
Class DeepCopies {cell W T A} `{!Layout cell T A} (f : T → Go.M (heap cell) W T) : Prop :=
  deep_copies x h w v c :
    load h x = Some (v, c) → wp False (f x) (λ y h' _, copied h h' y v) h w.

(** The generated code for a field of each kind: [make] and [copy]; [make] and the
    loop [for i := range *in]; [new] and [**out = **in]; the loop over a map. *)
Section copying.
Context {cell W : Type} `{!MapRange W}.
Abbreviation M := (Go.M (heap cell) W).

Definition copy_slice {T} `{!Stored cell (list T), !Zero T} (s : slc T) : M (slc T) :=
  match s with
  | NilSlice => mret NilSlice
  | _ => out ← make_slice (length s); copy out s ;; mret out
  end.
Definition copy_each {T} `{!Stored cell (list T), !Zero T} (f : T → M T) (s : slc T)
    : M (slc T) :=
  match s with
  | NilSlice => mret NilSlice
  | _ =>
      out ← make_slice (length s);
      for_each (seq 0 (length s)) (λ i,
        x ← index s i; y ← f x; set_index out i y) ;;
      mret out
  end.
Definition copy_ptr {T} `{!Stored cell T, !Zero T} (p : ptr T) : M (ptr T) :=
  match p with
  | Nil => mret Nil
  | _ => out ← new; x ← get p; put out x ;; mret out
  end.
Definition copy_gmp {V} `{!Stored cell (gmap string V)} (m : gmp V) : M (gmp V) :=
  match m with
  | NilMap => mret NilMap
  | _ => out ← make_map; copy_map out m ;; mret out
  end.
(** [DeepCopy] for the [DeepCopyInto] [f]. *)
Definition DeepCopy {T} `{!Stored cell T, !Zero T} (f : T → M T) (p : ptr T) : M (ptr T) :=
  match p with
  | Nil => mret Nil
  | _ => out ← new; x ← get p; y ← f x; put out y ;; mret out
  end.
End copying.

Section laws.
Context {cell W : Type} `{MapRangeLaws W}.
Implicit Types (h : heap cell) (w : W) (l : loc) (c : gset loc).
Abbreviation M := (Go.M (heap cell) W).

Lemma copied_grow {T A} `{!Layout cell T A} h0 h h' (y : T) (v : A) :
  copied h0 h y v → h ⊆ h' → copied h0 h' y v.
Proof.
  intros (Hs & c & Hl & Hc) Hs'. split; [by etrans|]. exists c. split; [by eapply load_grow|done].
Qed.
Lemma copied_since {T A} `{!Layout cell T A} h0 h1 h (y : T) (v : A) :
  h0 ⊆ h1 → copied h1 h y v → copied h0 h y v.
Proof.
  intros Hs (Hs' & c & Hl & Hc). split; [by etrans|]. exists c. split; [done|].
  intros l Hin. by eapply lookup_weaken_None; [apply Hc|].
Qed.

Lemma wp_alloc {T} `{!Stored cell T} (x : T) (Q : loc → heap cell → W → Prop) h w :
  (∀ l, h !! l = None → Q l (<[l := box x]> h) w) → wp False (alloc x) Q h w.
Proof.
  intros HQ. unfold alloc. wp_steps. apply HQ, not_elem_of_dom. apply is_fresh.
Qed.
Lemma wp_read {T} `{!Stored cell T} l (x : T) (Q : T → heap cell → W → Prop) h w :
  read_cell h l = Some x → Q x h w → wp False (read l) Q h w.
Proof. intros Hl HQ. unfold read. wp_steps. eapply wp_deref_some; [done|]. by wp_steps. Qed.
Lemma read_cell_insert {T} `{!Stored cell T} h l (x : T) :
  read_cell (<[l := box x]> h) l = Some x.
Proof. unfold read_cell. rewrite lookup_insert_eq. cbn. apply unbox_box. Qed.
Lemma read_cell_insert_ne {T} `{!Stored cell T} h l l' b (x : T) :
  read_cell h l' = Some x → h !! l = None → read_cell (<[l := b]> h) l' = Some x.
Proof.
  intros Hx Hl. eapply read_cell_local; [exact Hx|]. apply lookup_insert_ne. intros <-.
  destruct (read_cell_alloc _ _ _ Hx) as [? Hy]. congruence.
Qed.

(** A field without references, behind a new pointer. *)
Lemma copy_ptr_ok {T} `{!Stored cell T, !Zero T} :
  DeepCopies (W := W) (Layout0 := ptr_layout (Layout0 := flat_layout)) (copy_ptr (T := T)).
Proof.
  intros [|l] h w v c Hl; cbn in Hl; simplify_eq; unfold copy_ptr.
  { wp_steps. split; [done|]. exists ∅. split; [done|set_solver]. }
  destruct (read_cell h l) as [x|] eqn:Hx; cbn in Hl; simplify_eq.
  unfold new. wp_steps. apply wp_alloc. intros l' Hl'. wp_steps. cbn [get put].
  eapply wp_read; [by apply read_cell_insert_ne|]. unfold write. wp_steps.
  rewrite insert_insert_eq. split; [by apply insert_subseteq|].
  exists ({[l']} ∪ ∅). cbn. rewrite read_cell_insert. split; [done|set_solver].
Qed.

Lemma load_flat_list {T} h (xs : list T) :
  load_list (Layout0 := flat_layout) h xs = Some (xs, ∅).
Proof. induction xs as [|x xs IH]; cbn; [done|]. rewrite IH. cbn. by rewrite union_empty_l_L. Qed.
Lemma load_list_lookup {T A} `{!Layout cell T A} h (xs : list T) (vs : list A) c i x :
  load_list h xs = Some (vs, c) → xs !! i = Some x →
  ∃ v c', load h x = Some (v, c') ∧ vs !! i = Some v.
Proof.
  revert vs c i. induction xs as [|x1 xs IH]; intros vs c i Hl Hi; [done|]. cbn in Hl.
  destruct (load h x1) as [[v1 c1]|] eqn:H1; cbn in Hl; [|done].
  destruct (load_list h xs) as [[vs' cs]|] eqn:H2; cbn in Hl; [|done]. simplify_eq.
  destruct i as [|i]; cbn in *; [simplify_eq; eauto|by eapply IH].
Qed.
Lemma load_list_length {T A} `{!Layout cell T A} h (xs : list T) (vs : list A) c :
  load_list h xs = Some (vs, c) → List.length vs = List.length xs.
Proof.
  revert vs c. induction xs as [|x xs IH]; intros vs c Hl; cbn in Hl; [by simplify_eq|].
  destruct (load h x) as [[v1 c1]|]; cbn in Hl; [|done].
  destruct (load_list h xs) as [[vs' cs]|] eqn:H2; cbn in Hl; [|done]. simplify_eq. cbn.
  f_equal. by eapply IH.
Qed.
Lemma load_list_snoc {T A} `{!Layout cell T A} h (xs : list T) x (vs : list A) v c c' :
  load_list h xs = Some (vs, c) → load h x = Some (v, c') →
  load_list h (xs ++ [x]) = Some (vs ++ [v], c ∪ c').
Proof.
  intros Hl Hx. revert vs c Hl. induction xs as [|x1 xs IH]; intros vs c Hl; cbn in *.
  { simplify_eq. rewrite Hx. cbn. by rewrite union_empty_l_L, union_empty_r_L. }
  destruct (load h x1) as [[v1 c1]|]; cbn in *; [|done].
  destruct (load_list h xs) as [[vs' cs]|] eqn:H2; cbn in *; [|done]. simplify_eq.
  rewrite (IH vs' cs) by done. cbn. by rewrite union_assoc_L.
Qed.

(** A field without references, in a new array. *)
Lemma copy_slice_ok {T} `{!Stored cell (list T), !Zero T} :
  DeepCopies (W := W) (Layout0 := slc_layout (Layout0 := flat_layout)) (copy_slice (T := T)).
Proof.
  intros [|l off n] h w v c Hl; cbn in Hl; simplify_eq; unfold copy_slice.
  { wp_steps. split; [done|]. exists ∅. split; [done|set_solver]. }
  destruct (read_cell h l) as [arr|] eqn:Hx; cbn in Hl; simplify_eq.
  destruct (_ <=? _)%nat eqn:Hn; [|done]. apply Nat.leb_le in Hn.
  rewrite load_flat_list in Hl. cbn in Hl. simplify_eq.
  unfold make_slice. wp_steps. apply wp_alloc. intros l' Hl'. wp_steps. unfold copy, contents. cbn [length].
  wp_steps. eapply wp_read; [by apply read_cell_insert_ne|]. wp_steps.
  eapply wp_read; [apply read_cell_insert|]. unfold write. wp_steps.
  rewrite insert_insert_eq. split; [by apply insert_subseteq|].
  exists ({[l']} ∪ ∅). cbn. rewrite read_cell_insert. cbn.
  assert (List.length (take n (drop off arr)) = n) as Hlen by (rewrite length_take, length_drop; lia).
  rewrite Hlen, Nat.min_id, (take_ge (take n (drop off arr))), (drop_ge (replicate n zero)), app_nil_r
    by (rewrite ?length_replicate; lia).
  rewrite take_0, drop_0. cbn [app]. rewrite Hlen, Nat.leb_refl, (take_ge (take n (drop off arr))) by lia.
  rewrite load_flat_list. cbn. split; [done|set_solver].
Qed.

(** A map without references, entry by entry. *)
Lemma copy_gmp_ok {V} `{!Stored cell (gmap string V)} :
  DeepCopies (W := W) (copy_gmp (V := V)).
Proof.
  intros [|l] h w v c Hl; cbn in Hl; simplify_eq; unfold copy_gmp.
  { wp_steps. split; [done|]. exists ∅. split; [done|set_solver]. }
  destruct (read_cell h l) as [m|] eqn:Hx; cbn in Hl; simplify_eq.
  unfold make_map. wp_steps. apply wp_alloc. intros l' Hl'. wp_steps. cbn [copy_map].
  wp_steps. eapply wp_read; [by apply read_cell_insert_ne|]. wp_steps. unfold range_keys.
  apply wp_call. intros keys w' Hk.
  pose proof (λ k, range_order_elem m w k keys w' Hk) as Hin.
  eapply wp_mono; [|apply (wp_for_each_prefix _ (λ done h' _, ∃ m', h' = <[l' := box m']> h ∧
    ∀ k, m' !! k = if decide (k ∈ done) then m !! k else None))].
  - intros _ h' w'' (m' & -> & Hm'). wp_steps. split; [by apply insert_subseteq|].
    exists {[l']}. cbn. rewrite read_cell_insert. cbn.
    assert (m' = m) as ->; [|split; [done|set_solver]].
    apply map_eq. intros k. rewrite Hm'. case_decide as Hd; [done|].
    symmetry. apply eq_None_not_Some. by rewrite <- Hin.
  - exists ∅. split; [done|]. intros k. rewrite decide_False by set_solver. apply lookup_empty.
  - intros done k todo h' w'' Hd (m' & -> & Hm').
    assert (k ∈ keys) as [x Hkx]%Hin by (rewrite Hd; set_solver).
    eapply wp_bind, wp_deref_some; [exact Hkx|]. wp_steps.
    eapply wp_read; [apply read_cell_insert|]. unfold write. wp_steps.
    exists (<[k := x]> m'). rewrite insert_insert_eq. split; [done|]. intros k'.
    destruct (decide (k' = k)) as [->|Hne].
    + rewrite lookup_insert_eq, decide_True by set_solver. done.
    + rewrite lookup_insert_ne, Hm' by done. apply decide_ext. set_solver.
Qed.

(** What the loop of [copy_each] has done after the elements [xs] of the source. *)
Definition each_copied {T A} `{!Stored cell (list T), !Zero T, !Layout cell T A}
    (h : heap cell) (l' : loc) (n : nat) (vs : list A) (k : nat) (h' : heap cell) : Prop :=
  h ⊆ h' ∧ ∃ ys c, read_cell h' l' = Some (ys ++ replicate (n - k) (zero (T := T))) ∧
    List.length ys = k ∧ load_list h' ys = Some (take k vs, c) ∧
    ∀ l, l ∈ c → h !! l = None ∧ l ≠ l'.

Lemma each_copied_next {T A} `{!Stored cell (list T), !Zero T, !Layout cell T A}
    h l' n (vs : list A) k h' h'' (y : T) v :
  each_copied (T := T) h l' n vs k h' → h !! l' = None → k < n → vs !! k = Some v →
  copied h' h'' y v →
  ∃ arr, read_cell h'' l' = Some arr ∧
    each_copied (T := T) h l' n vs (S k) (<[l' := box (<[k := y]> arr)]> h'').
Proof.
  intros (Hs & ys & c & Hr & Hlen & Hld & Hc) Hl' Hk Hv (Hs' & c' & Hy & Hc').
  destruct (read_cell_alloc _ _ _ Hr) as [b Hb]. assert (h'' !! l' = Some b) as Hb' by (by eapply lookup_weaken).
  eexists. split; [eapply read_cell_local; [exact Hr|congruence]|].
  assert (l' ∉ c') as Hni by (intros Hin%Hc'; congruence).
  split; [apply insert_subseteq_r; [done|by etrans]|]. exists (ys ++ [y]), (c ∪ c').
  split_and!.
  - rewrite read_cell_insert. f_equal. replace (n - k) with (S (n - S k)) by lia. cbn.
    rewrite insert_app_r_alt, Hlen, Nat.sub_diag by lia. cbn. by rewrite <- app_assoc.
  - rewrite length_app. cbn. lia.
  - rewrite (take_S_r _ _ v) by done. apply load_list_snoc.
    + eapply (load_local (Layout := list_layout)); [by eapply (load_grow (Layout0 := list_layout))|].
      intros l Hin. apply lookup_insert_ne. intros <-. by apply Hc in Hin as [_ ?].
    + eapply load_local; [exact Hy|]. intros l Hin. apply lookup_insert_ne. by intros <-.
  - intros l [Hin|Hin]%elem_of_union; [by apply Hc|]. split; [|by intros ->].
    by eapply lookup_weaken_None; [apply Hc'|].
Qed.

(** The elements one by one, in a new array. *)
Lemma copy_each_ok {T A} `{!Stored cell (list T), !Zero T, !Layout cell T A} (f : T → M T) :
  DeepCopies f → DeepCopies (copy_each f).
Proof.
  intros Hf [|l off n] h w v c Hl; cbn in Hl; simplify_eq; unfold copy_each.
  { wp_steps. split; [done|]. exists ∅. split; [done|set_solver]. }
  destruct (read_cell h l) as [arr|] eqn:Hx; cbn in Hl; simplify_eq.
  destruct (_ <=? _)%nat eqn:Hn; [|done]. apply Nat.leb_le in Hn.
  destruct (load_list h _) as [[vs cs]|] eqn:Hvs; cbn in Hl; [|done]. simplify_eq.
  pose proof (load_list_length _ _ _ _ Hvs) as Hlen. rewrite length_take, length_drop in Hlen.
  unfold make_slice. wp_steps. apply wp_alloc. intros l' Hl'. wp_steps. cbn [length].
  eapply wp_mono; [|apply (wp_for_each_prefix _ (λ done h' _, each_copied (T := T) h l' n vs (List.length done) h'))].
  - intros [] h' w'. rewrite length_seq. intros (Hs & ys & c' & Hr & Hy & Hld & Hc). wp_steps.
    split; [done|]. exists ({[l']} ∪ c'). cbn. rewrite Hr. cbn.
    rewrite Nat.sub_diag. cbn. rewrite app_nil_r, Hy, Nat.leb_refl, drop_0, take_ge, Hld by lia. cbn.
    rewrite take_ge by lia. split; [done|]. intros x [->%elem_of_singleton|Hin]%elem_of_union; [done|by apply Hc].
  - split; [by apply insert_subseteq|]. exists [], ∅. cbn. rewrite read_cell_insert, Nat.sub_0_r. set_solver.
  - intros done i todo h' w' Hd HI.
    assert (i = List.length done ∧ i < n) as [-> Hi].
    { assert (seq 0 n !! List.length done = Some i) as Hi by (by rewrite Hd, list_lookup_middle).
      apply lookup_seq in Hi. lia. }
    set (k := List.length done) in *.
    destruct (lookup_lt_is_Some_2 arr (off + k)) as [x Hxk]; [lia|].
    destruct (load_list_lookup h (take n (drop off arr)) vs cs k x Hvs) as (v & c' & Hv & Hvk).
    { rewrite lookup_take_lt, lookup_drop by lia. done. }
    pose proof (proj1 HI) as Hs. cbn [index set_index]. wp_steps.
    assert (read_cell h' l = Some arr) as Harr.
    { destruct (read_cell_alloc _ _ _ Hx) as [b Hb]. eapply read_cell_local; [exact Hx|].
      rewrite Hb. by eapply lookup_weaken. }
    eapply wp_read; [exact Harr|]. rewrite (proj2 (Nat.ltb_lt _ _) Hi).
    eapply wp_deref_some; [exact Hxk|]. wp_steps.
    eapply wp_mono; [|eapply (Hf x h' w' v c'); by eapply load_grow].
    intros y h'' w'' Hy. wp_steps.
    destruct (each_copied_next h l' n vs k h' h'' y v HI Hl' Hi Hvk Hy) as (arr' & Hr' & HI').
    eapply wp_read; [exact Hr'|]. unfold write. wp_steps. cbn.
    rewrite length_app. cbn. by rewrite Nat.add_1_r.
Qed.

(** The struct behind a pointer, in a new cell. *)
Lemma DeepCopy_ok {T A} `{!Stored cell T, !Zero T, !Layout cell T A} (f : T → M T) :
  DeepCopies f → DeepCopies (DeepCopy f).
Proof.
  intros Hf [|l] h w v c Hl; cbn in Hl; simplify_eq; unfold DeepCopy.
  { wp_steps. split; [done|]. exists ∅. split; [done|set_solver]. }
  destruct (read_cell h l) as [x|] eqn:Hx; cbn in Hl; [|done].
  destruct (load h x) as [[v1 c1]|] eqn:Hv; cbn in Hl; [|done]. simplify_eq.
  unfold new. wp_steps. apply wp_alloc. intros l' Hl'. wp_steps. cbn [get put].
  eapply wp_read; [by apply read_cell_insert_ne|].
  assert (h ⊆ <[l' := box zero]> h) as Hs by (by apply insert_subseteq).
  wp_steps. eapply wp_mono; [|eapply (Hf x _ w v1 c1); by eapply load_grow].
  intros y h' w' (Hs' & c' & Hy & Hc'). unfold write. wp_steps.
  assert (l' ∉ c') as Hni by (intros Hin%Hc'; by rewrite lookup_insert_eq in Hin).
  split; [apply insert_subseteq_r; [done|by etrans]|].
  exists ({[l']} ∪ c'). cbn. rewrite read_cell_insert. cbn.
  rewrite (load_local h' _ y v1 c') by (done || intros x' Hin; apply lookup_insert_ne; by intros <-).
  split; [done|]. intros x' [->%elem_of_singleton|Hin]%elem_of_union; [done|].
  by eapply lookup_weaken_None; [apply Hc'|].
Qed.
End laws.

(** ** Structs

    A struct is laid out as the tuple of its fields. *)
#[export] Program Instance pair_layout {cell T1 A1 T2 A2} `{!Layout cell T1 A1, !Layout cell T2 A2} :
  Layout cell (T1 * T2) (A1 * A2) := {|
  load h x := '(v1, c1) ← load h x.1; '(v2, c2) ← load h x.2; Some ((v1, v2), c1 ∪ c2)
|}.
Next Obligation.
  intros cell T1 A1 T2 A2 ? ? h [x y] v c l Hl Hin. cbn in Hl.
  destruct (load h x) as [[v1 c1]|] eqn:H1; cbn in Hl; [|done].
  destruct (load h y) as [[v2 c2]|] eqn:H2; cbn in Hl; [|done]. simplify_eq.
  apply elem_of_union in Hin as [Hin|Hin]; [by apply (load_alloc h x v1 c1 l)|by apply (load_alloc h y v2 c2 l)].
Qed.
Next Obligation.
  intros cell T1 A1 T2 A2 ? ? h h' [x y] v c Hl Hin. cbn in *.
  destruct (load h x) as [[v1 c1]|] eqn:H1; cbn in Hl; [|done].
  destruct (load h y) as [[v2 c2]|] eqn:H2; cbn in Hl; [|done]. simplify_eq.
  rewrite (load_local h h' x v1 c1) by (done || intros l ?; apply Hin; set_solver). cbn.
  by rewrite (load_local h h' y v2 c2) by (done || intros l ?; apply Hin; set_solver).
Qed.

Program Definition struct_layout {cell S T A B} (fields : S → T) (value : A → B)
    `{!Layout cell T A} : Layout cell S B := {|
  load h s := '(v, c) ← load h (fields s); Some (value v, c)
|}.
Next Obligation.
  intros cell S T A B f g ? h x v c l Hl Hin. cbn in Hl.
  destruct (load h (f x)) as [[v1 c1]|] eqn:H1; cbn in Hl; [|done]. simplify_eq. by eapply load_alloc.
Qed.
Next Obligation.
  intros cell S T A B f g ? h h' x v c Hl Hin. cbn in *.
  destruct (load h (f x)) as [[v1 c1]|] eqn:H1; cbn in Hl; [|done]. simplify_eq.
  by rewrite (load_local h h' (f x) v1 c).
Qed.

Section structs.
Context {cell : Type}.
Implicit Types (h : heap cell).

Lemma load_pair_inv {T1 A1 T2 A2} `{!Layout cell T1 A1, !Layout cell T2 A2} h (x : T1) (y : T2) v c :
  load h (x, y) = Some (v, c) →
  ∃ v1 c1 v2 c2, load h x = Some (v1, c1) ∧ load h y = Some (v2, c2) ∧ v = (v1, v2) ∧ c = c1 ∪ c2.
Proof.
  cbn. intros Hl. destruct (load h x) as [[v1 c1]|] eqn:H1; cbn in Hl; [|done].
  destruct (load h y) as [[v2 c2]|] eqn:H2; cbn in Hl; [|done]. simplify_eq. by exists v1, c1, v2, c2.
Qed.
Lemma load_struct_inv {S T A B} (f : S → T) (g : A → B) `{!Layout cell T A} h (x : S) v c :
  load (Layout := struct_layout f g) h x = Some (v, c) →
  ∃ v', load h (f x) = Some (v', c) ∧ v = g v'.
Proof.
  cbn. intros Hl. destruct (load h (f x)) as [[v1 c1]|] eqn:H1; cbn in Hl; [|done].
  simplify_eq. by exists v1.
Qed.
Lemma copied_pair {T1 A1 T2 A2} `{!Layout cell T1 A1, !Layout cell T2 A2} h0 h (x : T1) (y : T2) v u :
  copied h0 h x v → copied h0 h y u → copied h0 h (x, y) (v, u).
Proof.
  intros (Hs & c1 & H1 & Hc1) (_ & c2 & H2 & Hc2). split; [done|]. exists (c1 ∪ c2). cbn.
  rewrite H1. cbn. rewrite H2. split; [done|]. intros l [?|?]%elem_of_union; auto.
Qed.
Lemma copied_struct {S T A B} (f : S → T) (g : A → B) `{!Layout cell T A} h0 h (x : S) v :
  copied h0 h (f x) v → copied (Layout0 := struct_layout f g) h0 h x (g v).
Proof.
  intros (Hs & c & H1 & Hc). split; [done|]. exists c. cbn. by rewrite H1.
Qed.
Lemma copied_flat_since {T} h0 h (x : T) : h0 ⊆ h → copied (Layout0 := flat_layout) h0 h x x.
Proof. intros Hs. split; [done|]. exists ∅. split; [done|set_solver]. Qed.
End structs.
