(* ===== verification/DeepCopy.v ===== *)
(** * pkg/apis/flipop/v1alpha1/zz_generated.deepcopy.go

    The generated deep copies of the custom resources, on Go's memory.  The structs of
    Types are here as they are laid out there: their slices, maps and pointers refer
    to cells.  The types of other packages that are copied with their own
    [DeepCopyInto] ([corev1.Toleration], [metav1.ObjectMeta], [metav1.ListMeta]) are
    parameters. *)
From S2P Require Import Prelude Go K8s Types Heap.

(** ** The structs in memory *)

(** [metav1.TypeMeta] has no reference. *)
Record TypeMeta : Type := { Kind : string; APIVersion : string }.

(** The layout of the structs of other packages, what they stand for, and what their
    references refer to. *)
Class Foreign : Type := {
  TolerationM : Type;
  ObjectMetaM : Type;
  ListMetaM : Type;
  ObjectMetaV : Type;
  ListMetaV : Type;
  ForeignCell : Type;
  Toleration_zero : TolerationM;
  ObjectMeta_zero : ObjectMetaM;
  ListMeta_zero : ListMetaM;
}.

Section memory.
Context `{!Foreign}.

Record MatchM : Type := {
  mm_NodeLabel : string;
  mm_PodLabel : string;
  mm_PodNamespace : string;
  mm_Tolerations : slc TolerationM;
}.
Record FloatingIPPoolSpecM : Type := {
  ms_IPs : slc string;
  ms_DesiredIPs : Z;
  ms_Provider : string;
  ms_Region : string;
  ms_Match : MatchM;
  ms_DNSRecordSet : ptr DNSRecordSet;
  ms_AssignmentCoolOffSeconds : spec_float;
}.
Record FloatingIPPoolStatusM : Type := {
  mt_IPs : gmp IPStatus;
  mt_NodeErrors : slc string;
  mt_AssignableNodes : slc string;
  mt_Error : string;
}.
Record FloatingIPPoolM : Type := {
  mp_TypeMeta : TypeMeta;
  mp_ObjectMeta : ObjectMetaM;
  mp_Spec : FloatingIPPoolSpecM;
  mp_Status : FloatingIPPoolStatusM;
}.
Record FloatingIPPoolListM : Type := {
  ml_TypeMeta : TypeMeta;
  ml_ListMeta : ListMetaM;
  ml_Items : slc FloatingIPPoolM;
}.
Record NodeDNSRecordSetSpecM : Type := {
  mn_Match : MatchM;
  mn_DNSRecordSet : DNSRecordSet;
  mn_AddressType : string;
}.
Record NodeDNSRecordSetM : Type := {
  mr_TypeMeta : TypeMeta;
  mr_ObjectMeta : ObjectMetaM;
  mr_Spec : NodeDNSRecordSetSpecM;
  mr_Status : NodeDNSRecordSetStatus;
}.
Record NodeDNSRecordSetListM : Type := {
  mrl_TypeMeta : TypeMeta;
  mrl_ListMeta : ListMetaM;
  mrl_Items : slc NodeDNSRecordSetM;
}.

(** What a cell holds: a struct, the array of a slice, a map. *)
Inductive cell : Type :=
  | CMatch (x : MatchM)
  | CSpec (x : FloatingIPPoolSpecM)
  | CStatus (x : FloatingIPPoolStatusM)
  | CPool (x : FloatingIPPoolM)
  | CPoolList (x : FloatingIPPoolListM)
  | CNodeDNSSpec (x : NodeDNSRecordSetSpecM)
  | CNodeDNSStatus (x : NodeDNSRecordSetStatus)
  | CNodeDNS (x : NodeDNSRecordSetM)
  | CNodeDNSList (x : NodeDNSRecordSetListM)
  | CDNSRecordSet (x : DNSRecordSet)
  | CIPStatus (x : IPStatus)
  | CStrings (x : list string)
  | CTolerations (x : list TolerationM)
  | CPools (x : list FloatingIPPoolM)
  | CNodeDNSs (x : list NodeDNSRecordSetM)
  | CIPStatuses (x : gmap string IPStatus)
  | CForeign (x : ForeignCell).

(** The setters of the fields that are assigned. *)
Definition eta_MatchM (x : MatchM) : MatchM :=
  Build_MatchM (mm_NodeLabel x) (mm_PodLabel x) (mm_PodNamespace x) (mm_Tolerations x).
#[export] Instance set_mm_Tolerations : Setter mm_Tolerations.
Proof. derive_setter eta_MatchM mm_Tolerations. Defined.
Definition eta_SpecM (x : FloatingIPPoolSpecM) : FloatingIPPoolSpecM :=
  Build_FloatingIPPoolSpecM (ms_IPs x) (ms_DesiredIPs x) (ms_Provider x) (ms_Region x) (ms_Match x)
    (ms_DNSRecordSet x) (ms_AssignmentCoolOffSeconds x).
#[export] Instance set_ms_IPs : Setter ms_IPs.
Proof. derive_setter eta_SpecM ms_IPs. Defined.
#[export] Instance set_ms_Match : Setter ms_Match.
Proof. derive_setter eta_SpecM ms_Match. Defined.
#[export] Instance set_ms_DNSRecordSet : Setter ms_DNSRecordSet.
Proof. derive_setter eta_SpecM ms_DNSRecordSet. Defined.
Definition eta_StatusM (x : FloatingIPPoolStatusM) : FloatingIPPoolStatusM :=
  Build_FloatingIPPoolStatusM (mt_IPs x) (mt_NodeErrors x) (mt_AssignableNodes x) (mt_Error x).
#[export] Instance set_mt_IPs : Setter mt_IPs.
Proof. derive_setter eta_StatusM mt_IPs. Defined.
#[export] Instance set_mt_NodeErrors : Setter mt_NodeErrors.
Proof. derive_setter eta_StatusM mt_NodeErrors. Defined.
#[export] Instance set_mt_AssignableNodes : Setter mt_AssignableNodes.
Proof. derive_setter eta_StatusM mt_AssignableNodes. Defined.
Definition eta_PoolM (x : FloatingIPPoolM) : FloatingIPPoolM :=
  Build_FloatingIPPoolM (mp_TypeMeta x) (mp_ObjectMeta x) (mp_Spec x) (mp_Status x).
#[export] Instance set_mp_TypeMeta : Setter mp_TypeMeta.
Proof. derive_setter eta_PoolM mp_TypeMeta. Defined.
#[export] Instance set_mp_ObjectMeta : Setter mp_ObjectMeta.
Proof. derive_setter eta_PoolM mp_ObjectMeta. Defined.
#[export] Instance set_mp_Spec : Setter mp_Spec.
Proof. derive_setter eta_PoolM mp_Spec. Defined.
#[export] Instance set_mp_Status : Setter mp_Status.
Proof. derive_setter eta_PoolM mp_Status. Defined.
Definition eta_PoolListM (x : FloatingIPPoolListM) : FloatingIPPoolListM :=
  Build_FloatingIPPoolListM (ml_TypeMeta x) (ml_ListMeta x) (ml_Items x).
#[export] Instance set_ml_TypeMeta : Setter ml_TypeMeta.
Proof. derive_setter eta_PoolListM ml_TypeMeta. Defined.
#[export] Instance set_ml_ListMeta : Setter ml_ListMeta.
Proof. derive_setter eta_PoolListM ml_ListMeta. Defined.
#[export] Instance set_ml_Items : Setter ml_Items.
Proof. derive_setter eta_PoolListM ml_Items. Defined.
Definition eta_NodeDNSSpecM (x : NodeDNSRecordSetSpecM) : NodeDNSRecordSetSpecM :=
  Build_NodeDNSRecordSetSpecM (mn_Match x) (mn_DNSRecordSet x) (mn_AddressType x).
#[export] Instance set_mn_Match : Setter mn_Match.
Proof. derive_setter eta_NodeDNSSpecM mn_Match. Defined.
#[export] Instance set_mn_DNSRecordSet : Setter mn_DNSRecordSet.
Proof. derive_setter eta_NodeDNSSpecM mn_DNSRecordSet. Defined.
Definition eta_NodeDNSM (x : NodeDNSRecordSetM) : NodeDNSRecordSetM :=
  Build_NodeDNSRecordSetM (mr_TypeMeta x) (mr_ObjectMeta x) (mr_Spec x) (mr_Status x).
#[export] Instance set_mr_TypeMeta : Setter mr_TypeMeta.
Proof. derive_setter eta_NodeDNSM mr_TypeMeta. Defined.
#[export] Instance set_mr_ObjectMeta : Setter mr_ObjectMeta.
Proof. derive_setter eta_NodeDNSM mr_ObjectMeta. Defined.
#[export] Instance set_mr_Spec : Setter mr_Spec.
Proof. derive_setter eta_NodeDNSM mr_Spec. Defined.
#[export] Instance set_mr_Status : Setter mr_Status.
Proof. derive_setter eta_NodeDNSM mr_Status. Defined.
Definition eta_NodeDNSListM (x : NodeDNSRecordSetListM) : NodeDNSRecordSetListM :=
  Build_NodeDNSRecordSetListM (mrl_TypeMeta x) (mrl_ListMeta x) (mrl_Items x).
#[export] Instance set_mrl_TypeMeta : Setter mrl_TypeMeta.
Proof. derive_setter eta_NodeDNSListM mrl_TypeMeta. Defined.
#[export] Instance set_mrl_ListMeta : Setter mrl_ListMeta.
Proof. derive_setter eta_NodeDNSListM mrl_ListMeta. Defined.
#[export] Instance set_mrl_Items : Setter mrl_Items.
Proof. derive_setter eta_NodeDNSListM mrl_Items. Defined.

#[export] Program Instance Match_stored : Stored cell MatchM :=
  {| box := CMatch; unbox b := match b with CMatch x => Some x | _ => None end |}.
Solve Obligations with done.
#[export] Program Instance Spec_stored : Stored cell FloatingIPPoolSpecM :=
  {| box := CSpec; unbox b := match b with CSpec x => Some x | _ => None end |}.
Solve Obligations with done.
#[export] Program Instance Status_stored : Stored cell FloatingIPPoolStatusM :=
  {| box := CStatus; unbox b := match b with CStatus x => Some x | _ => None end |}.
Solve Obligations with done.
#[export] Program Instance Pool_stored : Stored cell FloatingIPPoolM :=
  {| box := CPool; unbox b := match b with CPool x => Some x | _ => None end |}.
Solve Obligations with done.
#[export] Program Instance PoolList_stored : Stored cell FloatingIPPoolListM :=
  {| box := CPoolList; unbox b := match b with CPoolList x => Some x | _ => None end |}.
Solve Obligations with done.
#[export] Program Instance NodeDNSSpec_stored : Stored cell NodeDNSRecordSetSpecM :=
  {| box := CNodeDNSSpec; unbox b := match b with CNodeDNSSpec x => Some x | _ => None end |}.
Solve Obligations with done.
#[export] Program Instance NodeDNSStatus_stored : Stored cell NodeDNSRecordSetStatus :=
  {| box := CNodeDNSStatus; unbox b := match b with CNodeDNSStatus x => Some x | _ => None end |}.
Solve Obligations with done.
#[export] Program Instance NodeDNS_stored : Stored cell NodeDNSRecordSetM :=
  {| box := CNodeDNS; unbox b := match b with CNodeDNS x => Some x | _ => None end |}.
Solve Obligations with done.
#[export] Program Instance NodeDNSList_stored : Stored cell NodeDNSRecordSetListM :=
  {| box := CNodeDNSList; unbox b := match b with CNodeDNSList x => Some x | _ => None end |}.
Solve Obligations with done.
#[export] Program Instance DNSRecordSet_stored : Stored cell DNSRecordSet :=
  {| box := CDNSRecordSet; unbox b := match b with CDNSRecordSet x => Some x | _ => None end |}.
Solve Obligations with done.
#[export] Program Instance IPStatus_stored : Stored cell IPStatus :=
  {| box := CIPStatus; unbox b := match b with CIPStatus x => Some x | _ => None end |}.
Solve Obligations with done.
#[export] Program Instance strings_stored : Stored cell (list string) :=
  {| box := CStrings; unbox b := match b with CStrings x => Some x | _ => None end |}.
Solve Obligations with done.
#[export] Program Instance tolerations_stored : Stored cell (list TolerationM) :=
  {| box := CTolerations; unbox b := match b with CTolerations x => Some x | _ => None end |}.
Solve Obligations with done.
#[export] Program Instance pools_stored : Stored cell (list FloatingIPPoolM) :=
  {| box := CPools; unbox b := match b with CPools x => Some x | _ => None end |}.
Solve Obligations with done.
#[export] Program Instance nodeDNSs_stored : Stored cell (list NodeDNSRecordSetM) :=
  {| box := CNodeDNSs; unbox b := match b with CNodeDNSs x => Some x | _ => None end |}.
Solve Obligations with done.
#[export] Program Instance IPStatuses_stored : Stored cell (gmap string IPStatus) :=
  {| box := CIPStatuses; unbox b := match b with CIPStatuses x => Some x | _ => None end |}.
Solve Obligations with done.

(** The zero values. *)
#[export] Instance string_zero : Zero string := "".
#[export] Instance TolerationM_zero : Zero TolerationM := Toleration_zero.
#[export] Instance DNSRecordSet_zero : Zero DNSRecordSet := Build_DNSRecordSet "" "" "" 0.
#[export] Instance IPStatus_zero : Zero IPStatus := Build_IPStatus "" "" "" "".
#[export] Instance NodeDNSStatus_zero : Zero NodeDNSRecordSetStatus := Build_NodeDNSRecordSetStatus "" "".
#[export] Instance MatchM_zero : Zero MatchM := Build_MatchM "" "" "" NilSlice.
#[export] Instance SpecM_zero : Zero FloatingIPPoolSpecM :=
  Build_FloatingIPPoolSpecM NilSlice 0 "" "" zero Nil (S754_zero false).
#[export] Instance StatusM_zero : Zero FloatingIPPoolStatusM :=
  Build_FloatingIPPoolStatusM NilMap NilSlice NilSlice "".
#[export] Instance PoolM_zero : Zero FloatingIPPoolM :=
  Build_FloatingIPPoolM (Build_TypeMeta "" "") ObjectMeta_zero zero zero.
#[export] Instance PoolListM_zero : Zero FloatingIPPoolListM :=
  Build_FloatingIPPoolListM (Build_TypeMeta "" "") ListMeta_zero NilSlice.
#[export] Instance NodeDNSSpecM_zero : Zero NodeDNSRecordSetSpecM := Build_NodeDNSRecordSetSpecM zero zero "".
#[export] Instance NodeDNSM_zero : Zero NodeDNSRecordSetM :=
  Build_NodeDNSRecordSetM (Build_TypeMeta "" "") ObjectMeta_zero zero zero.
#[export] Instance NodeDNSListM_zero : Zero NodeDNSRecordSetListM :=
  Build_NodeDNSRecordSetListM (Build_TypeMeta "" "") ListMeta_zero NilSlice.
End memory.

(** The [DeepCopyInto] of the structs of other packages. *)
Class ForeignCopies `{!Foreign} (W : Type) : Type := {
  Toleration_DeepCopyInto : TolerationM → M (heap cell) W TolerationM;
  ObjectMeta_DeepCopyInto : ObjectMetaM → M (heap cell) W ObjectMetaM;
  ListMeta_DeepCopyInto : ListMetaM → M (heap cell) W ListMetaM;
}.

(** ** The operations

    [DeepCopyInto] gives the struct that is written to [*out]: [out] is [new] in
    [DeepCopy], and another element or another field everywhere else. *)
Section copies.
Context `{!Foreign} {W : Type} `{!MapRange W, !ForeignCopies W}.
Abbreviation M := (Go.M (heap cell) W).

Definition DNSRecordSet_DeepCopyInto (x : DNSRecordSet) : M DNSRecordSet := mret x.
Definition DNSRecordSet_DeepCopy : ptr DNSRecordSet → M (ptr DNSRecordSet) :=
  DeepCopy DNSRecordSet_DeepCopyInto.

Definition IPStatus_DeepCopyInto (x : IPStatus) : M IPStatus := mret x.
Definition IPStatus_DeepCopy : ptr IPStatus → M (ptr IPStatus) := DeepCopy IPStatus_DeepCopyInto.

Definition NodeDNSRecordSetStatus_DeepCopyInto (x : NodeDNSRecordSetStatus)
    : M NodeDNSRecordSetStatus := mret x.
Definition NodeDNSRecordSetStatus_DeepCopy :
    ptr NodeDNSRecordSetStatus → M (ptr NodeDNSRecordSetStatus) :=
  DeepCopy NodeDNSRecordSetStatus_DeepCopyInto.

Definition Match_DeepCopyInto (x : MatchM) : M MatchM :=
  let out := x in
  tolerations ← copy_each Toleration_DeepCopyInto (mm_Tolerations x);
  mret (out <| mm_Tolerations := tolerations |>).
Definition Match_DeepCopy : ptr MatchM → M (ptr MatchM) := DeepCopy Match_DeepCopyInto.

Definition FloatingIPPoolSpec_DeepCopyInto (x : FloatingIPPoolSpecM) : M FloatingIPPoolSpecM :=
  let out := x in
  ips ← copy_slice (ms_IPs x);
  let out := out <| ms_IPs := ips |> in
  match_ ← Match_DeepCopyInto (ms_Match x);
  let out := out <| ms_Match := match_ |> in
  dns ← copy_ptr (ms_DNSRecordSet x);
  mret (out <| ms_DNSRecordSet := dns |>).
Definition FloatingIPPoolSpec_DeepCopy : ptr FloatingIPPoolSpecM → M (ptr FloatingIPPoolSpecM) :=
  DeepCopy FloatingIPPoolSpec_DeepCopyInto.

Definition FloatingIPPoolStatus_DeepCopyInto (x : FloatingIPPoolStatusM)
    : M FloatingIPPoolStatusM :=
  let out := x in
  ips ← copy_gmp (mt_IPs x);
  let out := out <| mt_IPs := ips |> in
  nodeErrors ← copy_slice (mt_NodeErrors x);
  let out := out <| mt_NodeErrors := nodeErrors |> in
  assignableNodes ← copy_slice (mt_AssignableNodes x);
  mret (out <| mt_AssignableNodes := assignableNodes |>).
Definition FloatingIPPoolStatus_DeepCopy :
    ptr FloatingIPPoolStatusM → M (ptr FloatingIPPoolStatusM) :=
  DeepCopy FloatingIPPoolStatus_DeepCopyInto.

Definition FloatingIPPool_DeepCopyInto (x : FloatingIPPoolM) : M FloatingIPPoolM :=
  let out := x <| mp_TypeMeta := mp_TypeMeta x |> in
  meta ← ObjectMeta_DeepCopyInto (mp_ObjectMeta x);
  let out := out <| mp_ObjectMeta := meta |> in
  spec ← FloatingIPPoolSpec_DeepCopyInto (mp_Spec x);
  let out := out <| mp_Spec := spec |> in
  status ← FloatingIPPoolStatus_DeepCopyInto (mp_Status x);
  mret (out <| mp_Status := status |>).
Definition FloatingIPPool_DeepCopy : ptr FloatingIPPoolM → M (ptr FloatingIPPoolM) :=
  DeepCopy FloatingIPPool_DeepCopyInto.

Definition FloatingIPPoolList_DeepCopyInto (x : FloatingIPPoolListM) : M FloatingIPPoolListM :=
  let out := x <| ml_TypeMeta := ml_TypeMeta x |> in
  meta ← ListMeta_DeepCopyInto (ml_ListMeta x);
  let out := out <| ml_ListMeta := meta |> in
  items ← copy_each FloatingIPPool_DeepCopyInto (ml_Items x);
  mret (out <| ml_Items := items |>).
Definition FloatingIPPoolList_DeepCopy : ptr FloatingIPPoolListM → M (ptr FloatingIPPoolListM) :=
  DeepCopy FloatingIPPoolList_DeepCopyInto.

Definition NodeDNSRecordSetSpec_DeepCopyInto (x : NodeDNSRecordSetSpecM)
    : M NodeDNSRecordSetSpecM :=
  let out := x in
  match_ ← Match_DeepCopyInto (mn_Match x);
  let out := out <| mn_Match := match_ |> in
  mret (out <| mn_DNSRecordSet := mn_DNSRecordSet x |>).
Definition NodeDNSRecordSetSpec_DeepCopy :
    ptr NodeDNSRecordSetSpecM → M (ptr NodeDNSRecordSetSpecM) :=
  DeepCopy NodeDNSRecordSetSpec_DeepCopyInto.

Definition NodeDNSRecordSet_DeepCopyInto (x : NodeDNSRecordSetM) : M NodeDNSRecordSetM :=
  let out := x <| mr_TypeMeta := mr_TypeMeta x |> in
  meta ← ObjectMeta_DeepCopyInto (mr_ObjectMeta x);
  let out := out <| mr_ObjectMeta := meta |> in
  spec ← NodeDNSRecordSetSpec_DeepCopyInto (mr_Spec x);
  let out := out <| mr_Spec := spec |> in
  mret (out <| mr_Status := mr_Status x |>).
Definition NodeDNSRecordSet_DeepCopy : ptr NodeDNSRecordSetM → M (ptr NodeDNSRecordSetM) :=
  DeepCopy NodeDNSRecordSet_DeepCopyInto.

Definition NodeDNSRecordSetList_DeepCopyInto (x : NodeDNSRecordSetListM)
    : M NodeDNSRecordSetListM :=
  let out := x <| mrl_TypeMeta := mrl_TypeMeta x |> in
  meta ← ListMeta_DeepCopyInto (mrl_ListMeta x);
  let out := out <| mrl_ListMeta := meta |> in
  items ← copy_each NodeDNSRecordSet_DeepCopyInto (mrl_Items x);
  mret (out <| mrl_Items := items |>).
Definition NodeDNSRecordSetList_DeepCopy :
    ptr NodeDNSRecordSetListM → M (ptr NodeDNSRecordSetListM) :=
  DeepCopy NodeDNSRecordSetList_DeepCopyInto.

(** A [runtime.Object]: [None] is the [nil] interface, and a pointer in it is not
    [nil]. *)
Definition as_object {T} (c : ptr T) : M (option (ptr T)) :=
  match c with Nil => mret None | At _ => mret (Some c) end.
Definition FloatingIPPool_DeepCopyObject (p : ptr FloatingIPPoolM) : M (option (ptr FloatingIPPoolM)) :=
  c ← FloatingIPPool_DeepCopy p; as_object c.
Definition FloatingIPPoolList_DeepCopyObject (p : ptr FloatingIPPoolListM)
    : M (option (ptr FloatingIPPoolListM)) :=
  c ← FloatingIPPoolList_DeepCopy p; as_object c.
Definition NodeDNSRecordSet_DeepCopyObject (p : ptr NodeDNSRecordSetM)
    : M (option (ptr NodeDNSRecordSetM)) :=
  c ← NodeDNSRecordSet_DeepCopy p; as_object c.
Definition NodeDNSRecordSetList_DeepCopyObject (p : ptr NodeDNSRecordSetListM)
    : M (option (ptr NodeDNSRecordSetListM)) :=
  c ← NodeDNSRecordSetList_DeepCopy p; as_object c.
End copies.

(** ** What the structs stand for *)
#[export] Instance string_layout {cell} : Layout cell string string := flat_layout.
#[export] Instance Z_layout {cell} : Layout cell Z Z := flat_layout.
#[export] Instance float_layout {cell} : Layout cell spec_float spec_float := flat_layout.
#[export] Instance TypeMeta_layout {cell} : Layout cell TypeMeta TypeMeta := flat_layout.
#[export] Instance DNSRecordSet_layout {cell} : Layout cell DNSRecordSet DNSRecordSet := flat_layout.
#[export] Instance IPStatus_layout {cell} : Layout cell IPStatus IPStatus := flat_layout.
#[export] Instance NodeDNSStatus_layout {cell} : Layout cell NodeDNSRecordSetStatus NodeDNSRecordSetStatus :=
  flat_layout.

Class ForeignLayouts `{!Foreign} : Type := {
  #[global] Toleration_layout :: Layout cell TolerationM Toleration;
  #[global] ObjectMeta_layout :: Layout cell ObjectMetaM ObjectMetaV;
  #[global] ListMeta_layout :: Layout cell ListMetaM ListMetaV;
}.

(** The structs of Types from their fields. *)
Definition Match_of '(a, (b, (c, d))) : Match := Build_Match a b c d.
Definition Spec_of '(a, (b, (c, (d, (e, (f, g)))))) : FloatingIPPoolSpec :=
  Build_FloatingIPPoolSpec a b c d e f g.
Definition Status_of '(a, (b, (c, d))) : FloatingIPPoolStatus := Build_FloatingIPPoolStatus a b c d.
Definition NodeDNSSpec_of '(a, (b, c)) : NodeDNSRecordSetSpec := Build_NodeDNSRecordSetSpec a b c.

Section layouts.
Context `{!Foreign, !ForeignLayouts}.

#[export] Instance Match_layout : Layout cell MatchM Match :=
  struct_layout
    (λ x, (mm_NodeLabel x, (mm_PodLabel x, (mm_PodNamespace x, mm_Tolerations x))))
    Match_of.
#[export] Instance Spec_layout : Layout cell FloatingIPPoolSpecM FloatingIPPoolSpec :=
  struct_layout
    (λ x, (ms_IPs x, (ms_DesiredIPs x, (ms_Provider x, (ms_Region x, (ms_Match x,
       (ms_DNSRecordSet x, ms_AssignmentCoolOffSeconds x)))))))
    Spec_of.
#[export] Instance Status_layout : Layout cell FloatingIPPoolStatusM FloatingIPPoolStatus :=
  struct_layout
    (λ x, (mt_IPs x, (mt_NodeErrors x, (mt_AssignableNodes x, mt_Error x))))
    Status_of.
(** With all of their metadata, which Types leaves out. *)
Definition PoolV : Type := TypeMeta * (ObjectMetaV * (FloatingIPPoolSpec * FloatingIPPoolStatus)).
Definition PoolListV : Type := TypeMeta * (ListMetaV * slice PoolV).
Definition NodeDNSV : Type := TypeMeta * (ObjectMetaV * (NodeDNSRecordSetSpec * NodeDNSRecordSetStatus)).
Definition NodeDNSListV : Type := TypeMeta * (ListMetaV * slice NodeDNSV).
#[export] Instance Pool_layout : Layout cell FloatingIPPoolM PoolV :=
  struct_layout (λ x, (mp_TypeMeta x, (mp_ObjectMeta x, (mp_Spec x, mp_Status x)))) id.
#[export] Instance PoolList_layout : Layout cell FloatingIPPoolListM PoolListV :=
  struct_layout (λ x, (ml_TypeMeta x, (ml_ListMeta x, ml_Items x))) id.
#[export] Instance NodeDNSSpec_layout : Layout cell NodeDNSRecordSetSpecM NodeDNSRecordSetSpec :=
  struct_layout (λ x, (mn_Match x, (mn_DNSRecordSet x, mn_AddressType x)))
    NodeDNSSpec_of.
#[export] Instance NodeDNS_layout : Layout cell NodeDNSRecordSetM NodeDNSV :=
  struct_layout (λ x, (mr_TypeMeta x, (mr_ObjectMeta x, (mr_Spec x, mr_Status x)))) id.
#[export] Instance NodeDNSList_layout : Layout cell NodeDNSRecordSetListM NodeDNSListV :=
  struct_layout (λ x, (mrl_TypeMeta x, (mrl_ListMeta x, mrl_Items x))) id.
End layouts.

(** The [DeepCopyInto] of the other packages make deep copies. *)
Class ForeignLaws `{ForeignLayouts} (W : Type) `{!MapRange W, !ForeignCopies W} : Prop := {
  #[global] foreign_range :: MapRangeLaws W;
  #[global] Toleration_copies :: DeepCopies (W := W) Toleration_DeepCopyInto;
  #[global] ObjectMeta_copies :: DeepCopies (W := W) ObjectMeta_DeepCopyInto;
  #[global] ListMeta_copies :: DeepCopies (W := W) ListMeta_DeepCopyInto;
}.

#[export] Existing Instances copy_ptr_ok copy_slice_ok copy_gmp_ok copy_each_ok DeepCopy_ok.

(** ** Every [DeepCopyInto] makes deep copies *)

Lemma flat_load_inv {cell T} (h : heap cell) (x v : T) c :
  load (Layout := flat_layout) h x = Some (v, c) → v = x ∧ c = ∅.
Proof. cbn. intros. by simplify_eq. Qed.

(** One field of the struct, whose value in the heap [h0] at the start is known. *)
Lemma wp_copy {cell W T A} `{!Layout cell T A} (f : T → M (heap cell) W T) h0 h w x v c
    (Q : T → heap cell → W → Prop) :
  load h0 x = Some (v, c) → DeepCopies f → h0 ⊆ h →
  (∀ y h' w', h0 ⊆ h' → h ⊆ h' → copied h0 h' y v → Q y h' w') → wp False (f x) Q h w.
Proof.
  intros Hl Hf Hs HQ. eapply wp_mono; [|eapply Hf; by eapply load_grow].
  intros y h' w' Hc. pose proof (proj1 Hc) as Hs'. apply HQ; [by etrans|done|by eapply copied_since].
Qed.

(** [open_load Hl] takes the struct loaded in [Hl] apart; [copy_fields] runs through its
    fields. *)
Ltac open_load Hl :=
  let Hv := fresh "Hvalue" in
  apply load_struct_inv in Hl as (? & Hl & Hv);
  repeat lazymatch type of Hl with
         | load _ (_, _) = _ =>
             let H1 := fresh "Hfield" in
             apply load_pair_inv in Hl as (? & ? & ? & ? & H1 & Hl & -> & ->);
             try (apply flat_load_inv in H1 as [-> ->])
         end;
  try (apply flat_load_inv in Hl as [-> ->]).
Ltac copy_fields :=
  repeat first
    [ progress wp_steps
    | eapply wp_copy; [eassumption|apply _|first [done|by etrans]|];
      intros ? ? ? ? ? ? ].
Ltac close_copy :=
  lazymatch goal with
  | Hv : ?v = _ |- copied _ _ _ ?v => rewrite Hv
  end;
  apply copied_struct; repeat apply copied_pair;
  first [ by apply copied_flat_since | eapply copied_grow; [eassumption|];
          repeat first [done|etrans; [eassumption|]] ].
Ltac solve_copies :=
  let Hl := fresh "Hl" in
  intros ? ? ? ? ? Hl; open_load Hl; copy_fields; close_copy.

Section laws.
Context `{ForeignLaws}.

(** A struct without references is copied by the assignment. *)
Lemma flat_copies {T} (f : T → M (heap cell) W T) :
  (∀ x, f x = mret x) → DeepCopies (Layout0 := flat_layout) f.
Proof.
  intros Hf x h w v c Hl. cbn in Hl. simplify_eq. rewrite Hf. by apply copied_flat_since.
Qed.
#[export] Instance DNSRecordSet_copies : DeepCopies (W := W) DNSRecordSet_DeepCopyInto.
Proof. by apply flat_copies. Qed.
#[export] Instance IPStatus_copies : DeepCopies (W := W) IPStatus_DeepCopyInto.
Proof. by apply flat_copies. Qed.
#[export] Instance NodeDNSStatus_copies : DeepCopies (W := W) NodeDNSRecordSetStatus_DeepCopyInto.
Proof. by apply flat_copies. Qed.
#[export] Instance Match_copies : DeepCopies (W := W) Match_DeepCopyInto.
Proof.
  unfold Match_DeepCopyInto. solve_copies.
Qed.
#[export] Instance Spec_copies : DeepCopies (W := W) FloatingIPPoolSpec_DeepCopyInto.
Proof. unfold FloatingIPPoolSpec_DeepCopyInto. solve_copies. Qed.
#[export] Instance Status_copies : DeepCopies (W := W) FloatingIPPoolStatus_DeepCopyInto.
Proof. unfold FloatingIPPoolStatus_DeepCopyInto. solve_copies. Qed.
#[export] Instance Pool_copies : DeepCopies (W := W) FloatingIPPool_DeepCopyInto.
Proof. unfold FloatingIPPool_DeepCopyInto. solve_copies. Qed.
#[export] Instance PoolList_copies : DeepCopies (W := W) FloatingIPPoolList_DeepCopyInto.
Proof. unfold FloatingIPPoolList_DeepCopyInto. solve_copies. Qed.
#[export] Instance NodeDNSSpec_copies : DeepCopies (W := W) NodeDNSRecordSetSpec_DeepCopyInto.
Proof. unfold NodeDNSRecordSetSpec_DeepCopyInto. solve_copies. Qed.
#[export] Instance NodeDNS_copies : DeepCopies (W := W) NodeDNSRecordSet_DeepCopyInto.
Proof. unfold NodeDNSRecordSet_DeepCopyInto. solve_copies. Qed.
#[export] Instance NodeDNSList_copies : DeepCopies (W := W) NodeDNSRecordSetList_DeepCopyInto.
Proof. unfold NodeDNSRecordSetList_DeepCopyInto. solve_copies. Qed.
End laws.

(** ** Copies are independent of their originals *)
Section independence.
Context {cell W : Type}.

(** [f] gives a pointer to the same value, and to that value whatever is written to the
    cells there were before; and writes to the new cells leave the original alone. *)
Definition independent {T A} `{!Layout cell (ptr T) A} (f : ptr T → M (heap cell) W (ptr T)) : Prop :=
  ∀ p h w v c, load h p = Some (v, c) →
    wp False (f p) (λ q h' _,
      (∀ h'', (∀ l, h !! l = None → h'' !! l = h' !! l) → ∃ c', load h'' q = Some (v, c')) ∧
      (∀ h'', (∀ l, is_Some (h !! l) → h'' !! l = h' !! l) → load h'' p = Some (v, c))) h w.

Lemma copies_independent {T A} `{!Layout cell (ptr T) A} (f : ptr T → M (heap cell) W (ptr T)) :
  DeepCopies f → independent f.
Proof.
  intros Hf p h w v c Hl. eapply wp_mono; [|by eapply Hf].
  intros q h' w' (Hs & c' & Hq & Hc'). split; intros h'' Hh.
  - exists c'. eapply load_local; [exact Hq|]. intros l Hin. by apply Hh, Hc'.
  - eapply load_local; [exact Hl|]. intros l Hin. destruct (load_alloc _ _ _ _ l Hl Hin) as [b Hb].
    rewrite Hh, Hb by eauto. by eapply lookup_weaken.
Qed.
End independence.

(** [f] gives the [nil] interface for a [nil] pointer, and the copy for any other: never
    an interface that holds [nil]. *)
Definition object_copy `{!Foreign} {W T A} `{!Layout cell (ptr T) (option A)}
    (f : ptr T → M (heap cell) W (option (ptr T))) : Prop :=
  ∀ p h w v c, load h p = Some (v, c) →
    wp False (f p) (λ o h' _,
      if v is Some _ then ∃ l, o = Some (At l) ∧ copied h h' (At (T := T) l) v else o = None) h w.

Lemma as_object_copies `{!Foreign} {W T A} `{!Stored cell T, !Layout cell T A}
    (f : ptr T → M (heap cell) W (ptr T)) :
  DeepCopies f → object_copy (λ p, c ← f p; as_object c).
Proof.
  intros Hf p h w v c Hl. wp_steps. eapply wp_mono; [|by eapply Hf].
  intros q h' w' (Hs & c' & Hq & Hc'). destruct v as [v|], q as [|l]; cbn in Hq; simplify_eq.
  - exists l. split; [done|]. split; [done|]. by exists c'.
  - done.
  - destruct (read_cell h' l); cbn in Hq; [|done]. destruct (load h' _) as [[? ?]|]; by simplify_eq.
Qed.

(** C32: a deep copy of a custom resource, of its list or of a part of it stands for the
    same value as the original - slices, maps and pointers that are [nil] stay so - and
    the two share no memory: no write through one of them shows through the other.  As
    a [runtime.Object] the copy of [nil] is the [nil] interface. *)
Theorem deep_copies_are_independent `{ForeignLaws} :
  independent (W := W) FloatingIPPool_DeepCopy ∧ independent (W := W) FloatingIPPoolList_DeepCopy ∧
  independent (W := W) FloatingIPPoolSpec_DeepCopy ∧ independent (W := W) FloatingIPPoolStatus_DeepCopy ∧
  independent (W := W) NodeDNSRecordSet_DeepCopy ∧ independent (W := W) NodeDNSRecordSetList_DeepCopy ∧
  independent (W := W) NodeDNSRecordSetSpec_DeepCopy ∧
  independent (W := W) NodeDNSRecordSetStatus_DeepCopy ∧
  independent (W := W) Match_DeepCopy ∧ independent (W := W) DNSRecordSet_DeepCopy ∧
  independent (W := W) IPStatus_DeepCopy ∧
  object_copy (W := W) FloatingIPPool_DeepCopyObject ∧
  object_copy (W := W) FloatingIPPoolList_DeepCopyObject ∧
  object_copy (W := W) NodeDNSRecordSet_DeepCopyObject ∧
  object_copy (W := W) NodeDNSRecordSetList_DeepCopyObject.
Proof. split_and!; first [apply copies_independent, _|apply as_object_copies, _]. Qed.

(** *** An example memory *)
Module Memory.
(** A toleration with the pointer [TolerationSeconds], metadata without references. *)
Record TolerationX : Type := {
  tx_Key : string; tx_Operator : string; tx_Value : string; tx_Effect : string;
  tx_TolerationSeconds : ptr Z;
}.
#[export] Instance foreign : Foreign := {|
  TolerationM := TolerationX; ObjectMetaM := ObjectMeta; ListMetaM := string;
  ObjectMetaV := ObjectMeta; ListMetaV := string; ForeignCell := Z;
  Toleration_zero := Build_TolerationX "" "" "" "" Nil;
  ObjectMeta_zero := Build_ObjectMeta "" "" ""; ListMeta_zero := "";
|}.
#[export] Program Instance seconds_stored : Stored cell Z :=
  {| box := CForeign; unbox b := match b with CForeign x => Some x | _ => None end |}.
Solve Obligations with done.
#[export] Instance seconds_zero : Zero Z := 0%Z.
Definition Toleration_of '(a, (b, (c, (d, e)))) : Toleration := Build_Toleration a b c d e.
#[export] Instance tolerationX_layout : Layout cell TolerationX Toleration :=
  struct_layout (λ x, (tx_Key x, (tx_Operator x, (tx_Value x, (tx_Effect x, tx_TolerationSeconds x)))))
    Toleration_of.
#[export] Instance layouts : ForeignLayouts :=
  {| Toleration_layout := tolerationX_layout; ObjectMeta_layout := flat_layout; ListMeta_layout := flat_layout |}.
#[export] Instance range : MapRange unit := {| range_order ks w := (ks, w) |}.
#[export] Instance foreign_copies : ForeignCopies unit := {|
  Toleration_DeepCopyInto x :=
    s ← copy_ptr (tx_TolerationSeconds x);
    mret (Build_TolerationX (tx_Key x) (tx_Operator x) (tx_Value x) (tx_Effect x) s);
  ObjectMeta_DeepCopyInto x := mret x;
  ListMeta_DeepCopyInto x := mret x;
|}.
#[export] Instance range_laws : MapRangeLaws unit.
Proof. by split. Qed.
#[export] Instance foreign_laws : ForeignLaws unit.
Proof.
  split; [apply _| |by apply flat_copies..].
  unfold Toleration_DeepCopyInto. cbn. solve_copies.
Qed.

Definition pool : FloatingIPPoolM := {|
  mp_TypeMeta := Build_TypeMeta "FloatingIPPool" "flipop.digitalocean.com/v1alpha1";
  mp_ObjectMeta := Build_ObjectMeta "default" "pool" "uid";
  mp_Spec := {|
    ms_IPs := SliceAt 2 1 2; ms_DesiredIPs := 0; ms_Provider := "digitalocean"; ms_Region := "nyc3";
    ms_Match := {| mm_NodeLabel := "a=b"; mm_PodLabel := ""; mm_PodNamespace := "";
                   mm_Tolerations := SliceAt 3 0 1 |};
    ms_DNSRecordSet := At 5; ms_AssignmentCoolOffSeconds := S754_zero false |};
  mp_Status := {| mt_IPs := MapAt 6; mt_NodeErrors := NilSlice; mt_AssignableNodes := SliceAt 2 0 0;
                  mt_Error := "" |};
|}.
Definition memory : heap cell :=
  {[1 := CPool pool; 2 := CStrings ["10.0.0.1"; "10.0.0.2"; "10.0.0.3"];
    3 := CTolerations [Build_TolerationX "k" "" "" "" (At 4)]; 4 := CForeign 300%Z;
    5 := CDNSRecordSet (Build_DNSRecordSet "" "example.com" "pool" 60);
    6 := CIPStatuses {["10.0.0.1" := Build_IPStatus "active" "a" "do://1" ""]}]}%positive.
Definition value : option PoolV * gset positive :=
  default (None, ∅) (load memory (At (T := FloatingIPPoolM) 1)).
End Memory.
Import Memory.

Lemma deep_copies_are_independent_witness :
  load memory (At (T := FloatingIPPoolM) 1) = Some value ∧
  match value.1 with Some v => fip_IPs v.2.2.1 = Some ["10.0.0.2"; "10.0.0.3"] | None => False end ∧
  wp False (FloatingIPPool_DeepCopy (At 1)) (λ q h' _,
    (∀ h'', (∀ l, memory !! l = None → h'' !! l = h' !! l) →
       ∃ c', load h'' q = Some (value.1, c')) ∧
    (∀ h'', (∀ l, is_Some (memory !! l) → h'' !! l = h' !! l) →
       load h'' (At (T := FloatingIPPoolM) 1) = Some value)) memory tt.
Proof.
  split; [vm_compute; reflexivity|]. split; [vm_compute; reflexivity|].
  apply (proj1 (deep_copies_are_independent (W := unit)) (At 1) memory tt value.1 value.2).
  vm_compute. reflexivity.
Defined.
