(* ===== verification/Provider.v ===== *)
(** * pkg/provider/provider.go: the provider interfaces

    An interface value is a reference; its methods are answered by the world
    the provider runs in.  The clients of a provider are written and proved
    against these classes. *)
From S2P Require Import Prelude Go Retry.

(** A pointer, an interface value or a function value. *)
Definition Ref : Type := positive.

(** [BaseProvider], [IPProvider] and [DNSProvider]. *)
Class BaseProvider (W : Type) : Type := {
  GetProviderName : Ref → string;
}.

Class IPProvider (W : Type) : Type := {
  IPToProviderID : Ref → string → W → (string + error) * W;
  AssignIP : Ref → string → string → W → option error * W;
  NodeToIP : Ref → string → W → (string + error) * W;
  CreateIP : Ref → string → W → (string + error) * W;
}.

Class DNSProvider (W : Type) : Type := {
  EnsureDNSARecordSet :
    Ref → string → string → list string → Z → W → option error * W;
  RecordNameAndZoneToFQDN : Ref → string → string → string;
}.

Definition dnsRecordTypeA : string := "A".
