(* ===== verification/ProviderMetrics.v ===== *)
(** * pkg/metacontext and pkg/provider/metrics.go

    The metadata a context carries about the Kubernetes object that is worked
    on, and the measurement of provider calls. *)
From Stdlib Require Import Ascii.
From S2P Require Import Prelude Go Retry GoText K8s Types Provider.

(** ** pkg/metacontext

    A context is the values stored under [kubeMetadataKey] and under the key of
    the logger, if there are any; whether it is canceled is a matter of the world. *)
Record kubeMetadata : Type := KubeMetadata {
  km_Namespace : string;
  km_Name : string;
  km_Kind : string;
}.
Record Context : Type := Context_ {
  ctx_metadata : option kubeMetadata;
  ctx_logger : option Ref;
}.
Definition Background : Context := Context_ None None.

(** [kind] is what [meta.TypeAccessor] finds: [None] if the object has no type. *)
Definition WithKubeObject (ctx : Context) (obj : ObjectMeta) (kind : option string) : Context :=
  let m := KubeMetadata (meta_Namespace obj) (meta_Name obj) "" in
  Context_ (Some match kind with
                 | Some k => KubeMetadata (km_Namespace m) (km_Name m) k
                 | None => m
                 end) (ctx_logger ctx).

Definition KubeMetadataFromContext (ctx : Context) : bool * string * string * string :=
  match ctx_metadata ctx with
  | Some m => (true, km_Namespace m, km_Name m, km_Kind m)
  | None => (false, "", "", "")
  end.

(** ** pkg/provider/metrics.go *)
Definition Labels : Type := list (string * string).

(** The collectors of the prometheus library. *)
Class Prometheus (W : Type) : Type := {
  MustCurryWith : Ref → Labels → Ref;
  With_Inc : Ref → Labels → W → unit * W;
  With_Observe : Ref → Labels → Duration → W → unit * W;
}.

Record metrics : Type := Metrics {
  callsTotal : Ref;
  callLatency : Ref;
}.

Section metrics.
Context {W : Type} `{!Prometheus W, !Clock W}.

Definition withProvider (m : metrics) (provider : string) : metrics :=
  let l := [("provider", provider)] in
  Metrics (MustCurryWith (callsTotal m) l) (MustCurryWith (callLatency m) l).

(** The last component of the name of the calling function. *)
Definition call_name (funcName : string) : string := default funcName (after_last "."%char funcName).

Definition call_outcome (err : option error) : string :=
  match err with
  | None | Some ErrInProgress => "success"
  | Some _ => "error"
  end.

(** [startCall]: [caller] is the name [runtime.Caller] finds, if it finds one; a
    call that is not measured does not read the clock. *)
Definition startCall {C} (m : option metrics) (ctx : Context) (caller : option string)
    : M C W (option error → M C W unit) :=
  match m with
  | None => mret (λ _, mret tt)
  | Some m =>
      let name_of := match caller with Some f => call_name f | None => "unknown" end in
      start ← call time_Now;
      let '(_, namespace, name, kind) := KubeMetadataFromContext ctx in
      mret (λ err,
        finish ← call time_Now;
        call (With_Inc (callsTotal m)
                [("call", name_of); ("outcome", call_outcome err);
                 ("namespace", namespace); ("name", name); ("kind", kind)]) ;;
        call (With_Observe (callLatency m)
                [("call", name_of); ("namespace", namespace); ("name", name); ("kind", kind)]
                (finish - start)%Z))
  end.

(** [done := m.startCall(ctx); defer done(&err)] around the body of a function. *)
Definition measured {C A} (m : option metrics) (ctx : Context) (caller : string)
    (body : M C W (A + error)) : M C W (A + error) :=
  done ← startCall m ctx (Some caller);
  r ← body;
  done (match r with inl _ => None | inr err => Some err end) ;;
  mret r.

(** Without metrics a call is its body. *)
Lemma measured_None {C A} ctx caller (body : M C W (A + error)) E Q c w :
  wp E body Q c w → wp E (measured None ctx caller body) Q c w.
Proof.
  intros H. unfold measured, startCall. wp_steps. eapply wp_mono; [|exact H].
  intros r c' w' HQ. by wp_steps.
Qed.

(** Measuring a call does not disturb what depends only on a part of the world
    that the clock and the collectors leave alone. *)
Lemma wp_measured {C A T} (part : W → T) m ctx caller (body : M C W (A + error)) E Q c w :
  (∀ w, part (time_Now w).2 = part w) →
  (∀ r l w, part (With_Inc r l w).2 = part w) →
  (∀ r l d w, part (With_Observe r l d w).2 = part w) →
  (∀ r c w w', part w' = part w → Q r c w → Q r c w') →
  (∀ w', part w' = part w → wp E body Q c w') →
  wp E (measured m ctx caller body) Q c w.
Proof.
  intros Hnow Hinc Hobs HQ Hbody. destruct m as [m|]; [|apply measured_None; by apply Hbody].
  unfold measured, startCall. destruct (KubeMetadataFromContext ctx) as [[[? ?] ?] ?].
  wp_steps. apply wp_call. intros start w1 H1. wp_steps.
  eapply wp_mono; [|apply Hbody; by rewrite <- (Hnow w), H1].
  intros r c' w' Hr. wp_steps. apply wp_call. intros finish w2 H2. wp_steps.
  apply wp_call. intros [] w3 H3. wp_steps. apply wp_call. intros [] w4 H4. wp_steps.
  eapply HQ; [|exact Hr].
  apply (f_equal (part ∘ snd)) in H2, H3, H4. unfold compose in H2, H3, H4. cbn [snd] in H2, H3, H4.
  congruence.
Qed.
End metrics.

(** ** Errors that carry a schedule to retry by

    [usable_errors m]: whatever error [m] answers is usable. *)
Definition usable_errors {C W A} (m : M C W (A + error)) : Prop := ∀ c w,
  match m c w with Ret (inr err, _, _) => usable_error err | _ => True end.

Section usable.
Context {C W : Type}.

Lemma usable_ret {A} (r : A + error) : (∀ err, r = inr err → usable_error err) →
  usable_errors (C := C) (W := W) (mret r).
Proof. intros Hr c w. cbn. destruct r; [done|auto]. Qed.
Lemma usable_bind {A B} (m : M C W B) (k : B → M C W (A + error)) :
  (∀ b, usable_errors (k b)) → usable_errors (m ≫= k).
Proof.
  intros Hk c w. unfold mbind, M_bind. destruct (m c w) as [[[b c'] w']| |]; [|done..]. apply Hk.
Qed.
Lemma usable_or_return {A B} (m : M C W (A + error)) (k : A → M C W (B + error)) :
  usable_errors m → (∀ a, usable_errors (k a)) → usable_errors (or_return m k).
Proof.
  intros Hm Hk c w. unfold or_return, mbind, M_bind. specialize (Hm c w).
  destruct (m c w) as [[[[a|e] c'] w']| |]; [|exact Hm|done..]. apply Hk.
Qed.
Lemma usable_for_return {A B} (xs : list A) (b : B) (body : B → A → M C W (B + error)) :
  (∀ b x, usable_errors (body b x)) → usable_errors (for_return xs b body).
Proof.
  intros Hb. revert b. induction xs as [|x xs IH]; intros b; cbn; [by intros c w|].
  by apply usable_or_return.
Qed.
Lemma usable_measured {A} `{!Prometheus W, !Clock W} m ctx caller (body : M C W (A + error)) :
  usable_errors body → usable_errors (measured m ctx caller body).
Proof.
  intros Hb. apply usable_bind. intros done c w. specialize (Hb c w). unfold mbind, M_bind.
  destruct (body c w) as [[[r c'] w']| |]; [|done..].
  destruct (done _ c' w') as [[[u c''] w'']| |]; [|done..]. exact Hb.
Qed.
(** An error of the world is answered as it is, or looked at. *)
Lemma usable_answer {A B} (P : A → Prop) (f : W → A * W) (k : A → M C W (B + error)) :
  (∀ w, P (f w).1) → (∀ a, P a → usable_errors (k a)) → usable_errors (call f ≫= k).
Proof. intros Hf Hk c w. unfold mbind, M_bind, call. apply Hk, Hf. Qed.
End usable.

(** Only [RetryError] carries a schedule of its own. *)
Lemma usable_plain err : as_retryError err = None → usable_error err.
Proof. unfold usable_error, ErrorToRetrySchedule. intros ->. apply usable_RetrySlow. Qed.
