(* ===== verification/IPController.v ===== *)
(** * pkg/floatingip/ip_controller.go

    The controller that keeps floating IPs assigned to active nodes: its state,
    the operations the match controller and the pool controller call on it, and
    the reconciliation loop.  Logging is left out. *)
From S2P Require Import Prelude Go Retry OrderedSet K8s Types Provider.

Definition reconcilePeriod : Duration := Minute.
Definition defaultDNSTTL : Z := 60.
Definition healthyRetrySchedule : RetrySchedule := [5 * Minute]%Z.

(** ** State *)

Record retry : Type := Retry_ {
  attempts : Z;
  nextRetry : Time;
  retrySchedule : RetrySchedule;
}.
Definition eta_retry (r : retry) : retry :=
  Retry_ (attempts r) (nextRetry r) (retrySchedule r).
#[export] Instance set_attempts : Setter attempts := ltac:(derive_setter eta_retry attempts).
#[export] Instance set_nextRetry : Setter nextRetry := ltac:(derive_setter eta_retry nextRetry).
#[export] Instance set_retrySchedule : Setter retrySchedule :=
  ltac:(derive_setter eta_retry retrySchedule).

(** The embedded [retry] is the field [s_retry]. *)
Record ipStatus : Type := IPStatus_ {
  s_retry : retry;
  s_message : string;
  s_nodeProviderID : string;
  s_state : IPState;
  s_assignments : Z;
  s_assignmentErrors : Z;
}.
Definition eta_ipStatus (s : ipStatus) : ipStatus :=
  IPStatus_ (s_retry s) (s_message s) (s_nodeProviderID s) (s_state s)
    (s_assignments s) (s_assignmentErrors s).
#[export] Instance set_s_retry : Setter s_retry := ltac:(derive_setter eta_ipStatus s_retry).
#[export] Instance set_s_message : Setter s_message :=
  ltac:(derive_setter eta_ipStatus s_message).
#[export] Instance set_s_nodeProviderID : Setter s_nodeProviderID :=
  ltac:(derive_setter eta_ipStatus s_nodeProviderID).
#[export] Instance set_s_state : Setter s_state := ltac:(derive_setter eta_ipStatus s_state).
#[export] Instance set_s_assignments : Setter s_assignments :=
  ltac:(derive_setter eta_ipStatus s_assignments).
#[export] Instance set_s_assignmentErrors : Setter s_assignmentErrors :=
  ltac:(derive_setter eta_ipStatus s_assignmentErrors).

(** [i_running] is [cancel != nil]; [i_poked] is whether the channel [pokeChan],
    of capacity one, holds a token.  The callbacks are function values, possibly
    [nil]. *)
Record ipController : Type := IPController_ {
  i_provider : option Ref;
  i_dnsProvider : option Ref;
  i_region : string;
  i_assignmentCoolOff : Duration;
  i_desiredIPs : Z;
  i_disabledIPs : list string;
  i_ips : slice string;
  i_pendingIPs : list string;
  i_onNewIPs : option Ref;
  i_running : bool;
  i_poked : bool;
  i_nextRetry : Time;
  i_createRetrySchedule : RetrySchedule;
  i_createAttempts : Z;
  i_createNextRetry : Time;
  i_createError : string;
  i_nextAssignment : Time;
  i_ipToStatus : gmap string ipStatus;
  i_providerIDToIP : gmap string string;
  i_providerIDToNodeName : gmap string string;
  i_providerIDToRetry : gmap string retry;
  i_assignableIPs : orderedSet;
  i_assignableNodes : orderedSet;
  i_updateStatus : bool;
  i_onStatusUpdate : option Ref;
  i_onAnnotate : option Ref;
  i_dns : option DNSRecordSet;
  i_dnsDirty : bool;
}.
Definition eta_ipController (i : ipController) : ipController :=
  IPController_ (i_provider i) (i_dnsProvider i) (i_region i) (i_assignmentCoolOff i)
    (i_desiredIPs i) (i_disabledIPs i) (i_ips i) (i_pendingIPs i) (i_onNewIPs i)
    (i_running i) (i_poked i) (i_nextRetry i) (i_createRetrySchedule i)
    (i_createAttempts i) (i_createNextRetry i) (i_createError i) (i_nextAssignment i)
    (i_ipToStatus i) (i_providerIDToIP i) (i_providerIDToNodeName i)
    (i_providerIDToRetry i) (i_assignableIPs i) (i_assignableNodes i) (i_updateStatus i)
    (i_onStatusUpdate i) (i_onAnnotate i) (i_dns i) (i_dnsDirty i).
#[export] Instance set_i_provider : Setter i_provider :=
  ltac:(derive_setter eta_ipController i_provider).
#[export] Instance set_i_dnsProvider : Setter i_dnsProvider :=
  ltac:(derive_setter eta_ipController i_dnsProvider).
#[export] Instance set_i_region : Setter i_region :=
  ltac:(derive_setter eta_ipController i_region).
#[export] Instance set_i_assignmentCoolOff : Setter i_assignmentCoolOff :=
  ltac:(derive_setter eta_ipController i_assignmentCoolOff).
#[export] Instance set_i_desiredIPs : Setter i_desiredIPs :=
  ltac:(derive_setter eta_ipController i_desiredIPs).
#[export] Instance set_i_disabledIPs : Setter i_disabledIPs :=
  ltac:(derive_setter eta_ipController i_disabledIPs).
#[export] Instance set_i_ips : Setter i_ips := ltac:(derive_setter eta_ipController i_ips).
#[export] Instance set_i_pendingIPs : Setter i_pendingIPs :=
  ltac:(derive_setter eta_ipController i_pendingIPs).
#[export] Instance set_i_onNewIPs : Setter i_onNewIPs :=
  ltac:(derive_setter eta_ipController i_onNewIPs).
#[export] Instance set_i_running : Setter i_running :=
  ltac:(derive_setter eta_ipController i_running).
#[export] Instance set_i_poked : Setter i_poked :=
  ltac:(derive_setter eta_ipController i_poked).
#[export] Instance set_i_nextRetry : Setter i_nextRetry :=
  ltac:(derive_setter eta_ipController i_nextRetry).
#[export] Instance set_i_createRetrySchedule : Setter i_createRetrySchedule :=
  ltac:(derive_setter eta_ipController i_createRetrySchedule).
#[export] Instance set_i_createAttempts : Setter i_createAttempts :=
  ltac:(derive_setter eta_ipController i_createAttempts).
#[export] Instance set_i_createNextRetry : Setter i_createNextRetry :=
  ltac:(derive_setter eta_ipController i_createNextRetry).
#[export] Instance set_i_createError : Setter i_createError :=
  ltac:(derive_setter eta_ipController i_createError).
#[export] Instance set_i_nextAssignment : Setter i_nextAssignment :=
  ltac:(derive_setter eta_ipController i_nextAssignment).
#[export] Instance set_i_ipToStatus : Setter i_ipToStatus :=
  ltac:(derive_setter eta_ipController i_ipToStatus).
#[export] Instance set_i_providerIDToIP : Setter i_providerIDToIP :=
  ltac:(derive_setter eta_ipController i_providerIDToIP).
#[export] Instance set_i_providerIDToNodeName : Setter i_providerIDToNodeName :=
  ltac:(derive_setter eta_ipController i_providerIDToNodeName).
#[export] Instance set_i_providerIDToRetry : Setter i_providerIDToRetry :=
  ltac:(derive_setter eta_ipController i_providerIDToRetry).
#[export] Instance set_i_assignableIPs : Setter i_assignableIPs :=
  ltac:(derive_setter eta_ipController i_assignableIPs).
#[export] Instance set_i_assignableNodes : Setter i_assignableNodes :=
  ltac:(derive_setter eta_ipController i_assignableNodes).
#[export] Instance set_i_updateStatus : Setter i_updateStatus :=
  ltac:(derive_setter eta_ipController i_updateStatus).
#[export] Instance set_i_onStatusUpdate : Setter i_onStatusUpdate :=
  ltac:(derive_setter eta_ipController i_onStatusUpdate).
#[export] Instance set_i_onAnnotate : Setter i_onAnnotate :=
  ltac:(derive_setter eta_ipController i_onAnnotate).
#[export] Instance set_i_dns : Setter i_dns := ltac:(derive_setter eta_ipController i_dns).
#[export] Instance set_i_dnsDirty : Setter i_dnsDirty :=
  ltac:(derive_setter eta_ipController i_dnsDirty).

(** ** The world the controller runs in

    Its providers, its three callbacks, the controller's [now] function and the
    wall clock, the cancellation of its context, and Go's choice of map order. *)
Class IPEnv (W : Type) : Type := {
  #[global] ipenv_range :: MapRange W;
  #[global] ipenv_clock :: Clock W;
  #[global] ipenv_ipprovider :: IPProvider W;
  #[global] ipenv_dnsprovider :: DNSProvider W;
  env_now : W → Time * W;
  ctx_Err : W → bool * W;                       (* ctx.Err() != nil *)
  call_onNewIPs : Ref → slice string → W → option error * W;
  call_onStatusUpdate : Ref → FloatingIPPoolStatus → W → option error * W;
  call_onAnnotate : Ref → string → string → W → option error * W;
}.

Definition is_nil {A} (o : option A) : bool := match o with None => true | Some _ => false end.
Definition is_ErrNotFound (e : error) : bool := bool_decide (e = ErrNotFound).
Definition is_ErrInProgress (e : error) : bool := bool_decide (e = ErrInProgress).

(** The zero [ipStatus]. *)
Definition zero_retry : retry := Retry_ 0%Z zeroTime [].
Definition zero_ipStatus : ipStatus := IPStatus_ zero_retry "" "" "" 0%Z 0%Z.

Module ipController.

(** [reset]: the maps and the queues, and nothing else. *)
Definition reset (i : ipController) : ipController :=
  i <| i_ipToStatus := ∅ |>
    <| i_providerIDToRetry := ∅ |>
    <| i_providerIDToIP := ∅ |>
    <| i_providerIDToNodeName := ∅ |>
    <| i_assignableIPs := orderedSet.newOrderedSet |>
    <| i_assignableNodes := orderedSet.newOrderedSet |>.

Definition newIPController (onNewIPs onStatusUpdate onAnnotate : option Ref) : ipController :=
  reset (IPController_ None None "" 0%Z 0%Z [] None [] onNewIPs false false zeroTime
           [] 0%Z zeroTime "" zeroTime ∅ ∅ ∅ ∅ orderedSet.newOrderedSet
           orderedSet.newOrderedSet false onStatusUpdate onAnnotate None false).

(** [start] launches the goroutine [run] unless it is running; [stop] cancels it
    and waits for it. *)
Definition start (i : ipController) : ipController :=
  if i_running i then i else i <| i_running := true |>.
Definition stop (i : ipController) : ipController := i <| i_running := false |>.

Definition poke (i : ipController) : ipController := i <| i_poked := true |>.

(** The method [retry]: wake up no later than [next]. *)
Definition retry_ (next : Time) (i : ipController) : ipController :=
  if IsZero (i_nextRetry i) || After (i_nextRetry i) next
  then i <| i_nextRetry := next |> else i.

Definition mark_dirty (i : ipController) : ipController :=
  i <| i_updateStatus := true |> <| i_dnsDirty := true |>.

Definition updateProviders (prov dnsProv : option Ref) (region : string)
    (assignmentCoolOff : Duration) (i : ipController) : bool * ipController :=
  let '(change, i) :=
    if negb (bool_decide (i_provider i = prov)) || negb (bool_decide (i_region i = region))
    then (true, reset (stop i) <| i_region := region |>
                               <| i_provider := prov |>
                               <| i_dnsProvider := dnsProv |>)
    else (false, i) in
  if negb (i_assignmentCoolOff i =? assignmentCoolOff)%Z
  then
    let i := if negb (IsZero (i_nextAssignment i))
             then i <| i_nextAssignment :=
                         Add (i_nextAssignment i)
                             (assignmentCoolOff - i_assignmentCoolOff i)%Z |>
             else i in
    (true, i <| i_assignmentCoolOff := assignmentCoolOff |>)
  else (change, i).

(** [updateDNSSpec] copies the specification and fills in the default TTL. *)
Definition updateDNSSpec (dns : option DNSRecordSet) (i : ipController) : ipController :=
  if bool_decide (dns = i_dns i) then i
  else
    let i := i <| i_dns := None |> <| i_dnsDirty := false |> in
    match dns with
    | None => i
    | Some d =>
        if bool_decide (dns_RecordName d = "") || bool_decide (dns_Zone d = "") then i
        else
          let ttl := if (dns_TTL d =? 0)%Z then defaultDNSTTL else dns_TTL d in
          let d' := {| dns_Provider := dns_Provider d; dns_Zone := dns_Zone d;
                       dns_RecordName := dns_RecordName d; dns_TTL := ttl |} in
          poke (i <| i_dns := Some d' |> <| i_dnsDirty := true |>)
    end.

Section operations.
Context {W : Type} `{!IPEnv W}.
Local Abbreviation M := (M ipController W).

(** [status := i.ipToStatus[ip]] read, and written through: a nil pointer
    panics. *)
Definition get_status (ip : string) : M ipStatus :=
  m ← gets i_ipToStatus; deref (m !! ip).
Definition upd_status (ip : string) (f : ipStatus → ipStatus) : M unit :=
  s ← get_status ip;
  modify (λ i, i <| i_ipToStatus ::= <[ip := f s]> |>).

(** [if i.onAnnotate != nil { i.onAnnotate(...) }]: the error is only logged. *)
Definition annotate (nodeName ip : string) : M unit :=
  cb ← gets i_onAnnotate;
  match cb with
  | Some f => _ ← call (call_onAnnotate f nodeName ip); mret tt
  | None => mret tt
  end.

(** *** updateIPs *)

(** The body of the loop over [ipToStatus], for one IP that was removed. *)
Definition removeIP (ip : string) : M unit :=
  status ← get_status ip;
  let providerID := s_nodeProviderID status in
  (if bool_decide (providerID = "") then mret tt
   else
     names ← gets i_providerIDToNodeName;
     match names !! providerID with
     | Some nodeName =>
         modify (λ i, i <| i_assignableNodes ::= orderedSet.Add providerID true |>) ;;
         annotate nodeName ""
     | None => mret tt
     end ;;
     modify (λ i, i <| i_providerIDToIP ::= <[providerID := ""]> |>
                    <| i_providerIDToRetry ::= delete providerID |>)) ;;
  modify (λ i, i <| i_assignableIPs ::= λ o, (orderedSet.Delete ip o).2 |>
                 <| i_ipToStatus ::= delete ip |>).

(** [ips[desiredIPs:]] and [ips[0:desiredIPs]] panic on a negative bound. *)
Definition limitIPs (ips : slice string) (desiredIPs : Z) : M (slice string) :=
  modify (λ i, i <| i_disabledIPs := [] |>) ;;
  if negb (desiredIPs =? 0)%Z && (desiredIPs <? slen ips)%Z then
    if (desiredIPs <? 0)%Z then panic
    else
      modify (λ i, i <| i_disabledIPs := drop (Z.to_nat desiredIPs) (elems ips) |>) ;;
      mret (Some (take (Z.to_nat desiredIPs) (elems ips)))
  else mret ips.

Definition sameIPs (ips : slice string) (desiredIPs : Z) (i : ipController) : bool :=
  bool_decide (ips = i_ips i) &&
  ((i_desiredIPs i =? desiredIPs)%Z || (desiredIPs =? 0)%Z ||
   ((i_desiredIPs i =? 0)%Z && (desiredIPs =? slen ips)%Z)).

Definition updateIPs (ips : slice string) (desiredIPs : Z) : M unit :=
  ips ← limitIPs ips desiredIPs;
  same ← gets (sameIPs ips desiredIPs);
  if same : bool then modify (λ i, i <| i_desiredIPs := desiredIPs |>)
  else
    modify mark_dirty ;;
    m ← gets i_ipToStatus;
    let knownIPs := filter (λ ip, is_Some (m !! ip)) (elems ips) in
    keys ← range_keys m;
    for_each keys (λ ip, if decide (ip ∈ knownIPs) then mret tt else removeIP ip) ;;
    modify (λ i, poke (i <| i_ips := ips |> <| i_desiredIPs := desiredIPs |>)).

(** *** reconcile *)

(** The iterations of [for j := ...; j < i.desiredIPs; j++], counted down. *)
Fixpoint createIPs (n : nat) : M unit :=
  match n with
  | 0 => mret tt
  | S n' =>
      modify mark_dirty ;;
      prov ← gets i_provider; prov ← deref prov;
      region ← gets i_region;
      res ← call (CreateIP prov region);
      match res with
      | inr err =>
          modify (λ i, i <| i_createRetrySchedule := ErrorToRetrySchedule err |>) ;;
          sched ← gets i_createRetrySchedule;
          n ← gets i_createAttempts;
          next ← Next sched n;
          modify (λ i, retry_ next.2 (i <| i_createAttempts := next.1 |>
                                        <| i_createNextRetry := next.2 |>)
                         <| i_createError := "creating new ip with provider: "
                                             +:+ truncate 1000 (Error err) |>)
      | inl ip =>
          modify (λ i, i <| i_pendingIPs ::= λ l, l ++ [ip] |>
                         <| i_createAttempts := 0%Z |>
                         <| i_createError := "" |>) ;;
          createIPs n'
      end
  end.

Definition reconcileDesiredIPs : M unit :=
  cancelled ← call ctx_Err;
  if cancelled : bool then mret tt
  else
    createNextRetry ← gets i_createNextRetry;
    now ← call env_now;
    if After createNextRetry now then modify (retry_ createNextRetry)
    else
      j ← gets (λ i, slen (i_ips i) + Z.of_nat (length (i_pendingIPs i)))%Z;
      desired ← gets i_desiredIPs;
      createIPs (Z.to_nat (desired - j)).

Definition pendingStatus : ipStatus :=
  zero_ipStatus <| s_retry := zero_retry <| retrySchedule := healthyRetrySchedule |> |>
                <| s_state := IPStateUnassigned |>.

Definition reconcilePendingIPs : M unit :=
  cancelled ← call ctx_Err;
  if cancelled : bool then mret tt
  else
    pendingIPs ← gets i_pendingIPs;
    if bool_decide (pendingIPs = []) then mret tt
    else
      ips ← gets i_ips;
      let allIPs := Some (elems ips ++ pendingIPs) in
      cb ← gets i_onNewIPs;
      err ← match cb with
            | Some f => call (call_onNewIPs f allIPs)
            | None => mret None
            end;
      match err with
      | Some _ => mret tt
      | None =>
          modify mark_dirty ;;
          for_each pendingIPs (λ ip,
            modify (λ i, i <| i_ipToStatus ::= <[ip := pendingStatus]> |>
                           <| i_assignableIPs ::= orderedSet.Add ip true |>)) ;;
          modify (λ i, i <| i_ips := allIPs |> <| i_pendingIPs := [] |>)
      end.

(** *** reconcileIPStatus *)

Definition unknownStatus : ipStatus :=
  zero_ipStatus <| s_retry := zero_retry <| retrySchedule := RetryFast |> |>.
Definition mismatchStatus : ipStatus :=
  unknownStatus <| s_state := IPStateError |>
                <| s_message := "state unknown; cache / provider mismatch" |>.

(** [if originalState != status.state || originalMessage != status.message]. *)
Definition note_change (ip : string) (originalState : IPState) (originalMessage : string)
    : M unit :=
  status ← get_status ip;
  when (negb (bool_decide (originalState = s_state status)) ||
        negb (bool_decide (originalMessage = s_message status)))
       (modify mark_dirty).

(** The provider could not tell which node holds [ip]. *)
Definition lookupFailed (ip : string) (err : error) : M unit :=
  status ← get_status ip;
  (if is_ErrNotFound err then
     let oldProviderID := s_nodeProviderID status in
     upd_status ip (λ s, s <| s_nodeProviderID := "" |>) ;;
     modify (λ i, i <| i_providerIDToIP ::= delete oldProviderID |>) ;;
     names ← gets i_providerIDToNodeName;
     match names !! oldProviderID with
     | Some _ => modify (λ i, i <| i_assignableNodes ::= orderedSet.Add oldProviderID true |>)
     | None => modify (λ i, i <| i_assignableIPs ::= λ o, (orderedSet.Delete ip o).2 |>)
     end
   else mret tt) ;;
  (if is_ErrInProgress err
   then upd_status ip (λ s, s <| s_state := IPStateInProgress |> <| s_message := "" |>)
   else upd_status ip (λ s, s <| s_state := IPStateError |>
                              <| s_message := "retrieving IPs current provider ID: "
                                              +:+ truncate 1000 (Error err) |>)) ;;
  let sched := ErrorToRetrySchedule err in
  next ← Next sched (attempts (s_retry status));
  upd_status ip (λ s, s <| s_retry := Retry_ next.1 next.2 sched |>) ;;
  modify (retry_ next.2).

(** The provider's answer differs from the record: update the record. *)
Definition adoptProviderID (ip providerID expectedProviderID : string)
    (ipInitialized isProviderIDActiveNode : bool) : M unit :=
  upd_status ip (λ s, s <| s_nodeProviderID := providerID |>) ;;
  (if ipInitialized then mret tt
   else if isProviderIDActiveNode then
     modify (λ i, i <| i_assignableNodes ::= λ o, (orderedSet.Delete providerID o).2 |>) ;;
     names ← gets i_providerIDToNodeName;
     annotate (map_get names providerID) ip
   else modify (λ i, i <| i_assignableIPs ::= orderedSet.Add ip false |>)) ;;
  toIP ← gets i_providerIDToIP;
  let expectedIP := map_get toIP providerID in
  (if negb (bool_decide (expectedIP = "")) && negb (bool_decide (expectedIP = ip))
   then modify (λ i, i <| i_assignableIPs ::= orderedSet.Add expectedIP false |>
                       <| i_ipToStatus ::= <[expectedIP := mismatchStatus]> |>)
   else mret tt) ;;
  (if bool_decide (providerID = "") then mret tt
   else modify (λ i, i <| i_providerIDToIP ::= <[providerID := ip]> |>)) ;;
  modify (λ i, i <| i_providerIDToIP ::= delete expectedProviderID |>) ;;
  names ← gets i_providerIDToNodeName;
  match names !! expectedProviderID with
  | Some _ =>
      modify (λ i, i <| i_assignableNodes ::= orderedSet.Add expectedProviderID true |>)
  | None => mret tt
  end.

(** The provider told that the node [providerID], or none, holds [ip]. *)
Definition lookupSucceeded (ip providerID : string) (ipInitialized : bool) : M unit :=
  status ← get_status ip;
  let expectedProviderID := s_nodeProviderID status in
  (if bool_decide (providerID = "")
   then modify (λ i, i <| i_assignableIPs ::= orderedSet.Add ip true |>)
   else mret tt) ;;
  names ← gets i_providerIDToNodeName;
  let isProviderIDActiveNode :=
    negb (bool_decide (providerID = "")) && negb (is_nil (names !! providerID)) in
  (if bool_decide (expectedProviderID = providerID) then mret tt
   else adoptProviderID ip providerID expectedProviderID ipInitialized
          isProviderIDActiveNode) ;;
  status ← get_status ip;
  names ← gets i_providerIDToNodeName;
  let held := negb (bool_decide (s_nodeProviderID status = "")) in
  let state :=
    if held && negb (bool_decide (map_get names (s_nodeProviderID status) = ""))
    then IPStateActive
    else if held then IPStateNoMatch else IPStateUnassigned in
  next ← Next healthyRetrySchedule 0;
  upd_status ip (λ s, s <| s_state := state |> <| s_message := "" |>
                        <| s_retry := Retry_ 0 next.2 healthyRetrySchedule |>).

(** The body of the loop over [i.ips]; [false] when the context is canceled. *)
Definition reconcileOneIP (ip : string) : M bool :=
  cancelled ← call ctx_Err;
  if cancelled : bool then mret false
  else
    m ← gets i_ipToStatus;
    let ipInitialized := negb (is_nil (m !! ip)) in
    (if ipInitialized then mret tt
     else modify (λ i, i <| i_ipToStatus ::= <[ip := unknownStatus]> |>)) ;;
    status ← get_status ip;
    now ← call env_now;
    if After (nextRetry (s_retry status)) now
    then modify (retry_ (nextRetry (s_retry status))) ;; mret true
    else
      prov ← gets i_provider; prov ← deref prov;
      res ← call (IPToProviderID prov ip);
      match res with
      | inr err => lookupFailed ip err
      | inl providerID => lookupSucceeded ip providerID ipInitialized
      end ;;
      note_change ip (s_state status) (s_message status) ;;
      mret true.

Definition reconcileIPStatus : M unit :=
  ips ← gets i_ips;
  _ ← for_until (elems ips) reconcileOneIP;
  mret tt.

(** *** reconcileAssignment *)

(** [AssignIP] succeeded, or is under way. *)
Definition assigned (ip providerID : string) : M unit :=
  upd_status ip (λ s, s <| s_message := "" |> <| s_state := IPStateInProgress |>
                        <| s_retry ::= λ r, r <| retrySchedule := RetryFast |>
                                              <| attempts := 0%Z |> |>) ;;
  modify (λ i, i <| i_providerIDToRetry ::= delete providerID |>) ;;
  now ← call env_now;
  modify (λ i, i <| i_nextAssignment := Add now (i_assignmentCoolOff i) |>) ;;
  upd_status ip (λ s, s <| s_assignments ::= λ n, (n + 1)%Z |>) ;;
  names ← gets i_providerIDToNodeName;
  annotate (map_get names providerID) ip.

(** [AssignIP] failed: back off, and roll the claim back. *)
Definition assignFailed (ip providerID : string) (err : error) : M unit :=
  let sched := ErrorToRetrySchedule err in
  upd_status ip (λ s, s <| s_state := IPStateError |>
                        <| s_retry ::= λ r, r <| retrySchedule := sched |> |>
                        <| s_message := "assigning IP to node: "
                                        +:+ truncate 1000 (Error err) |>
                        <| s_assignmentErrors ::= λ n, (n + 1)%Z |>) ;;
  retries ← gets i_providerIDToRetry;
  let nRetry := default (zero_retry <| retrySchedule := sched |>) (retries !! providerID) in
  next ← Next (retrySchedule nRetry) (attempts nRetry);
  modify (λ i, retry_ next.2
                 (i <| i_providerIDToRetry ::=
                         <[providerID := Retry_ next.1 next.2 (retrySchedule nRetry)]> |>)) ;;
  upd_status ip (λ s, s <| s_nodeProviderID := "" |>) ;;
  modify (λ i, i <| i_providerIDToIP ::= delete providerID |>).

(** One assignment, after both back-off tests passed.  It answers whether the
    pair must be queued again. *)
Definition assignOne (ip providerID : string) : M bool :=
  status ← get_status ip;
  modify (λ i, i <| i_providerIDToIP ::= delete (s_nodeProviderID status) |>) ;;
  upd_status ip (λ s, s <| s_nodeProviderID := providerID |>) ;;
  modify (λ i, i <| i_providerIDToIP ::= <[providerID := ip]> |>) ;;
  prov ← gets i_provider; prov ← deref prov;
  err ← call (AssignIP prov ip providerID);
  failed ← match err with
           | None => assigned ip providerID ;; mret false
           | Some e => if is_ErrInProgress e
                       then assigned ip providerID ;; mret false
                       else assignFailed ip providerID e ;; mret true
           end;
  modify (λ i, i <| i_dnsDirty := true |>) ;;
  status' ← get_status ip;
  next ← Next (retrySchedule (s_retry status')) (attempts (s_retry status'));
  upd_status ip (λ s, s <| s_retry ::= λ r, r <| nextRetry := next.2 |> |>) ;;
  modify (retry_ next.2) ;;
  note_change ip (s_state status) (s_message status) ;;
  mret failed.

(** The loop, which returns [retryIPs] and [retryProviders] to the deferred
    function.  Each iteration pops [assignableIPs]. *)
Fixpoint assignLoop (fuel : nat) (retryIPs retryProviders : list string)
    : M (list string * list string) :=
  match fuel with
  | 0 => out_of_fuel
  | S fuel' =>
      nIPs ← gets (λ i, orderedSet.Len (i_assignableIPs i));
      nNodes ← gets (λ i, orderedSet.Len (i_assignableNodes i));
      if (nIPs =? 0)%nat || (nNodes =? 0)%nat then mret (retryIPs, retryProviders)
      else
        cancelled ← call ctx_Err;
        if cancelled : bool then mret (retryIPs, retryProviders)
        else
          now ← call env_now;
          i ← gets id;
          if negb (i_assignmentCoolOff i =? 0)%Z && negb (After now (i_nextAssignment i))
          then modify (retry_ (i_nextAssignment i)) ;; mret (retryIPs, retryProviders)
          else
            let '(ip, ipQueue) := orderedSet.Front (i_assignableIPs i) in
            modify (λ i, i <| i_assignableIPs := ipQueue |>) ;;
            status ← get_status ip;
            if bool_decide (s_state status = IPStateError) &&
               After (nextRetry (s_retry status)) now
            then
              modify (retry_ (nextRetry (s_retry status))) ;;
              assignLoop fuel' (retryIPs ++ [ip]) retryProviders
            else
              let '(providerID, nodeQueue) := orderedSet.Front (i_assignableNodes i) in
              modify (λ i, i <| i_assignableNodes := nodeQueue |>) ;;
              let backoff := match i_providerIDToRetry i !! providerID with
                             | Some r => if After (nextRetry r) now
                                         then Some (nextRetry r) else None
                             | None => None
                             end in
              match backoff with
              | Some next =>
                  modify (retry_ next) ;;
                  assignLoop fuel' (retryIPs ++ [ip]) (retryProviders ++ [providerID])
              | None =>
                  failed ← assignOne ip providerID;
                  if failed : bool
                  then assignLoop fuel' (retryIPs ++ [ip]) (retryProviders ++ [providerID])
                  else assignLoop fuel' retryIPs retryProviders
              end
  end.

Definition requeue (retryIPs retryProviders : list string) (i : ipController)
    : ipController :=
  i <| i_assignableIPs ::=
         λ o, foldl (λ o ip, orderedSet.Add ip false o) o retryIPs |>
    <| i_assignableNodes ::=
         λ o, foldl (λ o p, orderedSet.Add p false o) o retryProviders |>.

Definition reconcileAssignment : M unit :=
  n ← gets (λ i, orderedSet.Len (i_assignableIPs i));
  q ← assignLoop (S n) [] [];
  modify (requeue q.1 q.2).

(** *** reconcileDNS *)

(** The addresses to publish: the loop dereferences every IP's status. *)
Fixpoint activeIPs (m : gmap string ipStatus) (ips : list string) : option (list string) :=
  match ips with
  | [] => Some []
  | ip :: ips' =>
      status ← m !! ip;
      rest ← activeIPs m ips';
      Some (if bool_decide (s_state status = IPStateActive) then ip :: rest else rest)
  end.

Definition reconcileDNS : M unit :=
  i ← gets id;
  match i_dns i with
  | None => mret tt
  | Some dns =>
      if bool_decide (elems (i_ips i) = []) || negb (i_dnsDirty i) then mret tt
      else
        assignedIPs ← deref (activeIPs (i_ipToStatus i) (elems (i_ips i)));
        if bool_decide (assignedIPs = []) then mret tt
        else
          prov ← deref (i_dnsProvider i);
          err ← call (EnsureDNSARecordSet prov (dns_Zone dns) (dns_RecordName dns)
                        assignedIPs (dns_TTL dns));
          match err with
          | Some _ => mret tt
          | None => modify (λ i, i <| i_dnsDirty := false |>)
          end
  end.

(** *** buildStatusUpdate *)

Definition statusOf (names : gmap string string) (s : ipStatus) : IPStatus :=
  {| State := s_state s; NodeName := map_get names (s_nodeProviderID s);
     ProviderID := s_nodeProviderID s; IPStatus_Error := s_message s |}.
Definition disabledStatus : IPStatus :=
  {| State := IPStateDisabled; NodeName := ""; ProviderID := ""; IPStatus_Error := "" |}.

(** Filling [status.IPs] from [ipToStatus] does not depend on the order of the
    range; the order of [NodeErrors] and of [AssignableNodes] does. *)
Definition statusIPs (i : ipController) : gmap string IPStatus :=
  foldl (λ m ip, <[ip := disabledStatus]> m)
    (statusOf (i_providerIDToNodeName i) <$> i_ipToStatus i) (i_disabledIPs i).

Definition buildStatusUpdate : M FloatingIPPoolStatus :=
  i ← gets id;
  retries ← range_keys (i_providerIDToRetry i);
  nodes ← orderedSet.AsList (i_assignableNodes i);
  mret {| status_IPs := Some (statusIPs i);
          status_NodeErrors :=
            append None (omap (λ p, i_providerIDToNodeName i !! p) retries);
          status_AssignableNodes :=
            append None (map_get (i_providerIDToNodeName i) <$> nodes);
          status_Error := i_createError i |}.

Definition reconcile : M unit :=
  now ← call env_now;
  modify (λ i, i <| i_nextRetry := Add now reconcilePeriod |>) ;;
  reconcileDesiredIPs ;;
  reconcilePendingIPs ;;
  reconcileIPStatus ;;
  reconcileAssignment ;;
  reconcileDNS ;;
  i ← gets id;
  match i_onStatusUpdate i with
  | Some f =>
      if i_updateStatus i then
        status ← buildStatusUpdate;
        err ← call (call_onStatusUpdate f status);
        match err with
        | Some _ => mret tt
        | None => modify (λ i, i <| i_updateStatus := false |>)
        end
      else mret tt
  | None => mret tt
  end.

(** *** Nodes *)

(** The body of the loop of [DisableNodes]; whether it changed anything. *)
Definition disableNode (changed : bool) (node : Node) : M bool :=
  let providerID := node_ProviderID node in
  if bool_decide (providerID = "") then mret changed
  else
    names ← gets i_providerIDToNodeName;
    match names !! providerID with
    | None => mret changed
    | Some _ =>
        modify (λ i, i <| i_providerIDToNodeName ::= delete providerID |>) ;;
        toIP ← gets i_providerIDToIP;
        let ip := map_get toIP providerID in
        (if bool_decide (ip = "") then mret tt
         else
           modify (λ i, i <| i_assignableIPs ::= orderedSet.Add ip false |>) ;;
           _ ← get_status ip;
           next ← Next RetrySlow 0;
           upd_status ip (λ s, s <| s_state := IPStateNoMatch |> <| s_message := "" |>
                                 <| s_retry := Retry_ 0 next.2 RetrySlow |>) ;;
           annotate (node_Name node) "" ;;
           modify mark_dirty) ;;
        modify (λ i, i <| i_assignableNodes ::= λ o, (orderedSet.Delete providerID o).2 |>) ;;
        mret true
    end.

Definition DisableNodes (nodes : list Node) : M unit :=
  changed ← for_fold nodes false disableNode;
  when changed (modify poke).

Definition enableNode (changed : bool) (node : Node) : M bool :=
  let providerID := node_ProviderID node in
  if bool_decide (providerID = "") then mret changed
  else
    names ← gets i_providerIDToNodeName;
    match names !! providerID with
    | Some _ => mret changed
    | None =>
        modify (λ i, i <| i_providerIDToNodeName ::= <[providerID := node_Name node]> |>) ;;
        toIP ← gets i_providerIDToIP;
        let ip := map_get toIP providerID in
        (if bool_decide (ip = "") then
           modify (λ i, i <| i_assignableNodes ::= orderedSet.Add providerID false |>)
         else
           _ ← get_status ip;
           next ← Next RetryFast 0;
           upd_status ip (λ s, s <| s_nodeProviderID := providerID |>
                                 <| s_state := IPStateInProgress |> <| s_message := "" |>
                                 <| s_retry := Retry_ 0 next.2 RetryFast |>) ;;
           modify (λ i, i <| i_assignableIPs ::= λ o, (orderedSet.Delete ip o).2 |>) ;;
           names ← gets i_providerIDToNodeName;
           annotate (map_get names providerID) ip ;;
           modify mark_dirty) ;;
        mret true
    end.

Definition EnableNodes (nodes : list Node) : M unit :=
  changed ← for_fold nodes false enableNode;
  when changed (modify poke).

(** *** The goroutine *)

(** How long [run] sleeps before it reconciles on its own. *)
Definition retryTimerDuration : M Duration :=
  now ← call time_Now;
  next ← gets i_nextRetry;
  let dur := (next - now)%Z in
  mret (if (dur <? 0)%Z then 0%Z else dur).
End operations.
End ipController.

(** [solve_frame] and [solve_preserves] look into the operations. *)
#[export] Hint Unfold range_keys orderedSet.AsList ipController.get_status
  ipController.upd_status ipController.annotate ipController.removeIP
  ipController.limitIPs ipController.updateIPs ipController.reconcileDesiredIPs
  ipController.reconcilePendingIPs ipController.note_change ipController.lookupFailed
  ipController.adoptProviderID ipController.lookupSucceeded ipController.reconcileOneIP
  ipController.reconcileIPStatus ipController.assigned ipController.assignFailed
  ipController.assignOne ipController.reconcileAssignment ipController.reconcileDNS
  ipController.buildStatusUpdate ipController.reconcile ipController.disableNode
  ipController.DisableNodes ipController.enableNode ipController.EnableNodes
  ipController.retryTimerDuration : frame.
