(* ===== verification/IPInvariant.v ===== *)
(** * The invariant of the IP controller

    What the records of an [ipController] satisfy between any two operations,
    the laws of the world it relies on, and the proof that every operation
    preserves the invariant and does not panic. *)
From S2P Require Import Prelude Go Retry OrderedSet K8s Types Provider IPController.

(** ** Laws of the world

    What the code cannot see of the world: [allocated w], the addresses that
    exist at the provider; [assign_trace w], the calls of [AssignIP] so far, as
    pairs of an address and a node, oldest first; [alive w], that nobody is going
    to cancel the controller's context; [holder w], the node that holds an address
    at the provider; [cooperative w], that nobody else changes the assignments and
    the provider does what it is asked. *)
Class IPGhost (W : Type) : Type := {
  allocated : W → gset string;
  assign_trace : W → list (string * string);
  alive : W → Prop;
  holder : W → gmap string string;
  cooperative : W → Prop;
}.

(** [quiet w w']: between [w] and [w'] no address was withdrawn and [AssignIP]
    was not called; if the world is cooperative no assignment changed. *)
Record quiet `{!IPGhost W} (w w' : W) : Prop := {
  quiet_alloc : allocated w ⊆ allocated w';
  quiet_trace : assign_trace w' = assign_trace w;
  quiet_alive : alive w → alive w';
  quiet_coop : cooperative w → cooperative w' ∧ holder w' = holder w;
}.

#[export] Instance quiet_preorder `{!IPGhost W} : PreOrder quiet.
Proof.
  split; [by split|]. intros w1 w2 w3 [? ? ? Hc1] [? ? ? Hc2]. split; [by etrans|congruence|auto|].
  intros [H2 Ho2]%Hc1. apply Hc2 in H2 as [? Ho3]. by rewrite Ho3.
Qed.

(** A new address was not allocated before, and addresses are not withdrawn
    behind the controller's back.  The errors of the provider carry usable
    retry schedules, and no clock reads the zero time. *)
Class IPEnvLaws (W : Type) `{!IPEnv W, !IPGhost W} : Prop := {
  #[global] ipenv_range_laws :: MapRangeLaws W;
  range_quiet ks w : quiet w (range_order ks w).2;
  time_Now_quiet w : quiet w (time_Now w).2;
  env_now_quiet w : quiet w (env_now w).2;
  ctx_Err_quiet w : quiet w (ctx_Err w).2;
  CreateIP_quiet p r w : quiet w (CreateIP p r w).2;
  IPToProviderID_quiet p ip w : quiet w (IPToProviderID p ip w).2;
  EnsureDNS_quiet p z r ips t w : quiet w (EnsureDNSARecordSet p z r ips t w).2;
  onNewIPs_quiet f ips w : quiet w (call_onNewIPs f ips w).2;
  onStatusUpdate_quiet f s w : quiet w (call_onStatusUpdate f s w).2;
  onAnnotate_quiet f n ip w : quiet w (call_onAnnotate f n ip w).2;
  AssignIP_alloc p ip n w : allocated w ⊆ allocated (AssignIP p ip n w).2;
  AssignIP_alive p ip n w : alive w → alive (AssignIP p ip n w).2;
  ctx_Err_alive w : alive w → (ctx_Err w).1 = false;
  AssignIP_trace p ip n w :
    assign_trace (AssignIP p ip n w).2 = assign_trace w ++ [(ip, n)];
  CreateIP_fresh p r w ip w' :
    CreateIP p r w = (inl ip, w') → (ip ∉ allocated w) ∧ ip ∈ allocated w';
  CreateIP_err p r w e w' : CreateIP p r w = (inr e, w') → usable_error e;
  IPToProviderID_err p ip w e w' : IPToProviderID p ip w = (inr e, w') → usable_error e;
  AssignIP_err p ip n w e w' : AssignIP p ip n w = (Some e, w') → usable_error e;
  env_now_pos w : (0 < (env_now w).1)%Z;
  time_Now_pos w : (0 < (time_Now w).1)%Z;
}.

(** ** The invariant *)

(** [Claim st toIP]: if the cache says that node [p] holds [ip], the status of
    [ip] says so too; nodes without a provider ID hold nothing. *)
Definition Claim (st : gmap string ipStatus) (toIP : gmap string string) : Prop :=
  ∀ p ip, toIP !! p = Some ip →
    p ≠ "" ∧ (ip ≠ "" → ∃ s, st !! ip = Some s ∧ s_nodeProviderID s = p).

(** A back-off record from which the next attempt can be computed. *)
Definition retry_ok (r : retry) : Prop := usable (retrySchedule r) ∧ (0 ≤ attempts r)%Z.

Record InvBody (st : gmap string ipStatus) (toIP names : gmap string string)
    (retries : gmap string retry) (ipq nodeq : orderedSet) (ips pending : list string)
    (createAttempts : Z) (alloc : gset string) : Prop := {
  inv_claim : Claim st toIP;
  inv_ipq_wf : os_wf ipq;
  inv_nodeq_wf : os_wf nodeq;
  inv_ipq : ∀ ip, ip ∈ os_list ipq → is_Some (st !! ip);
  inv_nodeq : ∀ p, p ∈ os_list nodeq → is_Some (names !! p);
  inv_names : names !! "" = None;
  inv_dom : ∀ ip, is_Some (st !! ip) → ip ∈ ips;
  inv_pending : ∀ ip, ip ∈ pending → ip ∉ ips;
  inv_alloc : ∀ ip, ip ∈ ips ∨ ip ∈ pending → ip ∈ alloc;
  inv_status : ∀ ip s, st !! ip = Some s → retry_ok (s_retry s);
  inv_retries : ∀ p r, retries !! p = Some r → retry_ok r;
  inv_create : (0 ≤ createAttempts)%Z;
}.

Arguments inv_claim {_ _ _ _ _ _ _ _ _ _} _.
Arguments inv_ipq_wf {_ _ _ _ _ _ _ _ _ _} _.
Arguments inv_nodeq_wf {_ _ _ _ _ _ _ _ _ _} _.
Arguments inv_ipq {_ _ _ _ _ _ _ _ _ _} _.
Arguments inv_nodeq {_ _ _ _ _ _ _ _ _ _} _.
Arguments inv_names {_ _ _ _ _ _ _ _ _ _} _.
Arguments inv_dom {_ _ _ _ _ _ _ _ _ _} _.
Arguments inv_pending {_ _ _ _ _ _ _ _ _ _} _.
Arguments inv_alloc {_ _ _ _ _ _ _ _ _ _} _.
Arguments inv_status {_ _ _ _ _ _ _ _ _ _} _.
Arguments inv_retries {_ _ _ _ _ _ _ _ _ _} _.
Arguments inv_create {_ _ _ _ _ _ _ _ _ _} _.

Definition Inv `{!IPGhost W} (i : ipController) (w : W) : Prop :=
  InvBody (i_ipToStatus i) (i_providerIDToIP i) (i_providerIDToNodeName i)
    (i_providerIDToRetry i) (i_assignableIPs i) (i_assignableNodes i)
    (elems (i_ips i)) (i_pendingIPs i) (i_createAttempts i) (allocated w).

(** ** Lemmas on [Claim] *)

(** No node claims [ip]. *)
Definition unclaimed (toIP : gmap string string) (ip : string) : Prop :=
  ∀ p, toIP !! p = Some ip → ip = "".

Section claim.
Implicit Types (st : gmap string ipStatus) (toIP : gmap string string).

Lemma claim_same st toIP ip s s' :
  st !! ip = Some s → s_nodeProviderID s' = s_nodeProviderID s →
  Claim st toIP → Claim (<[ip := s']> st) toIP.
Proof.
  intros Hs Hn HC p ip' Hp. destruct (HC p ip' Hp) as [Hpn Hst]. split; [done|].
  intros Hne. destruct (Hst Hne) as (t & Ht & Hnode).
  destruct (decide (ip = ip')) as [<-|]; simplify_map_eq; eauto.
Qed.

Lemma claim_delete st toIP p : Claim st toIP → Claim st (delete p toIP).
Proof. intros HC q ip [_ Hq]%lookup_delete_Some. by apply HC. Qed.

Lemma claim_clear st toIP p : p ≠ "" → Claim st toIP → Claim st (<[p := ""]> toIP).
Proof. intros Hp HC q ip [[<- <-]|[_ Hq]]%lookup_insert_Some; [done|by apply HC]. Qed.

(** A change of the statuses that only concerns [ip], which nobody claims. *)
Lemma claim_unheld st st' toIP ip :
  unclaimed toIP ip → (∀ x, x ≠ ip → st' !! x = st !! x) →
  Claim st toIP → Claim st' toIP.
Proof.
  intros Hun Hst HC q x Hq. destruct (HC q x Hq) as [Hqn Hx]. split; [done|].
  intros Hne. rewrite Hst; [by apply Hx|]. intros ->. by apply Hne, Hun with q.
Qed.

Lemma claim_forget st toIP ip :
  unclaimed toIP ip → Claim st toIP → Claim (delete ip st) toIP.
Proof.
  intros Hun. apply claim_unheld with ip; [done|].
  intros x Hx. by apply lookup_delete_ne.
Qed.

Lemma claim_reset st toIP ip s' :
  unclaimed toIP ip → Claim st toIP → Claim (<[ip := s']> st) toIP.
Proof.
  intros Hun. apply claim_unheld with ip; [done|].
  intros x Hx. by apply lookup_insert_ne.
Qed.

(** Taking a claim over: nobody but [p] may claim [ip] before. *)
Lemma claim_take st toIP p ip s' :
  p ≠ "" → unclaimed (delete p toIP) ip → s_nodeProviderID s' = p →
  Claim st toIP → Claim (<[ip := s']> st) (<[p := ip]> toIP).
Proof.
  intros Hp Hun Hn HC q x [[<- <-]|[Hpq Hq]]%lookup_insert_Some.
  { split; [done|]. intros _. exists s'. by simplify_map_eq. }
  pose proof (claim_reset st (delete p toIP) ip s' Hun (claim_delete _ _ p HC)) as HC'.
  apply HC'. by rewrite lookup_delete_ne.
Qed.

(** The only node that can claim [ip] is the one in its status. *)
Lemma claim_unclaimed st toIP ip s :
  Claim st toIP → st !! ip = Some s → unclaimed (delete (s_nodeProviderID s) toIP) ip.
Proof.
  intros HC Hs q [Hne Hq]%lookup_delete_Some.
  destruct (decide (ip = "")) as [|Hip]; [done|].
  destruct (HC q ip Hq) as [_ Hx]. destruct (Hx Hip) as (s' & Hs' & Hn). by simplify_eq.
Qed.

Lemma claim_unclaimed_none st toIP ip :
  Claim st toIP → st !! ip = None → unclaimed toIP ip.
Proof.
  intros HC Hs q Hq. destruct (decide (ip = "")) as [|Hip]; [done|].
  destruct (HC q ip Hq) as [_ Hx]. destruct (Hx Hip) as (s' & Hs' & Hn). congruence.
Qed.

(** A status without a node: nobody claims the address. *)
Lemma claim_unclaimed_free st toIP ip s :
  Claim st toIP → st !! ip = Some s → s_nodeProviderID s = "" → unclaimed toIP ip.
Proof.
  intros HC Hs Hn q Hq. destruct (decide (ip = "")) as [|Hip]; [done|].
  destruct (HC q ip Hq) as [Hq0 Hx]. destruct (Hx Hip) as (s' & Hs' & Hn').
  by simplify_eq.
Qed.

Lemma unclaimed_delete toIP ip p : unclaimed toIP ip → unclaimed (delete p toIP) ip.
Proof. intros Hun q [_ Hq]%lookup_delete_Some. eauto. Qed.

Lemma unclaimed_clear toIP ip p :
  unclaimed (delete p toIP) ip → unclaimed (<[p := ""]> toIP) ip.
Proof.
  intros Hun q [[_ <-]|[Hne Hq]]%lookup_insert_Some; [done|].
  apply Hun with q. by rewrite lookup_delete_ne.
Qed.

(** At most one node claims an address. *)
Lemma claim_inj st toIP p q ip :
  Claim st toIP → toIP !! p = Some ip → toIP !! q = Some ip → ip ≠ "" → p = q.
Proof.
  intros HC Hp Hq Hne. destruct (HC p ip Hp) as [_ HCp], (HC q ip Hq) as [_ HCq].
  destruct (HCp Hne) as (s & Hs & <-), (HCq Hne) as (s' & Hs' & <-). by simplify_eq.
Qed.
End claim.

Create HintDb grow.
#[export] Hint Resolve range_quiet time_Now_quiet env_now_quiet ctx_Err_quiet
  CreateIP_quiet IPToProviderID_quiet EnsureDNS_quiet onNewIPs_quiet
  onStatusUpdate_quiet onAnnotate_quiet : grow.
#[export] Hint Extern 2 (alive (?f ?w).2) =>
  apply (quiet_alive w (f w).2); [solve [auto with grow]|assumption] : preserves.
#[export] Hint Resolve AssignIP_alive : preserves.
Create HintDb inv.
#[export] Hint Resolve claim_same claim_delete claim_clear claim_forget claim_reset
  unclaimed_delete unclaimed_clear claim_unclaimed claim_unclaimed_none : inv.

(** ** Rules of the helper operations *)
Section rules.
Context `{IPEnvLaws W} (E : Prop).
Implicit Types (c : ipController) (w : W).

Lemma wp_env {A} (f : W → A * W) (Q : A → ipController → W → Prop) c w :
  (∀ w, quiet w (f w).2) →
  (∀ a w', f w = (a, w') → quiet w w' → Q a c w') →
  wp E (call f) Q c w.
Proof.
  intros Hg HQ. apply wp_call. intros a w' Hf. apply HQ; [done|].
  specialize (Hg w). by rewrite Hf in Hg.
Qed.

Lemma wp_AssignIP p ip n (Q : option error → ipController → W → Prop) c w :
  (∀ e w', AssignIP p ip n w = (e, w') → allocated w ⊆ allocated w' →
     assign_trace w' = assign_trace w ++ [(ip, n)] → Q e c w') →
  wp E (call (AssignIP p ip n)) Q c w.
Proof.
  intros HQ. apply wp_call. intros e w' Ha.
  pose proof (AssignIP_alloc p ip n w) as Hg. pose proof (AssignIP_trace p ip n w) as Ht.
  rewrite Ha in Hg, Ht. by apply HQ.
Qed.

Lemma wp_get_status ip s (Q : ipStatus → ipController → W → Prop) c w :
  i_ipToStatus c !! ip = Some s → Q s c w → wp E (ipController.get_status ip) Q c w.
Proof. intros Hs HQ. unfold ipController.get_status. wp_steps. by rewrite Hs. Qed.

Lemma wp_upd_status ip f s (Q : unit → ipController → W → Prop) c w :
  i_ipToStatus c !! ip = Some s →
  Q tt (c <| i_ipToStatus := <[ip := f s]> (i_ipToStatus c) |>) w →
  wp E (ipController.upd_status ip f) Q c w.
Proof.
  intros Hs HQ. unfold ipController.upd_status. wp_steps.
  eapply wp_get_status; [done|]. by wp_steps.
Qed.

Lemma wp_annotate n ip (Q : unit → ipController → W → Prop) c w :
  (∀ w', quiet w w' → Q tt c w') →
  wp E (ipController.annotate n ip) Q c w.
Proof.
  intros HQ. unfold ipController.annotate. wp_steps. destruct (i_onAnnotate c); wp_steps.
  - eapply wp_env; [by auto with grow|]. intros _ w' _ Hg. wp_steps. by apply HQ.
  - by apply HQ.
Qed.

Lemma wp_Next_env (r : RetrySchedule) n (Q : Z * Time → ipController → W → Prop) c w :
  usable r → (0 ≤ n)%Z →
  (∀ next w', quiet w w' → next.1 = (n + 1)%Z → (0 < next.2)%Z →
     Q next c w') →
  wp E (Next r n) Q c w.
Proof.
  intros Hu Hn HQ. apply wp_Next; [done..|]. intros now d w' Ht Hd Hd0.
  pose proof (time_Now_quiet w) as Hg. pose proof (time_Now_pos w) as Hp.
  rewrite Ht in Hg, Hp. apply HQ; [done|done|]. unfold Add. cbn in *. lia.
Qed.

(** [note_change] may only raise the two dirty flags. *)
Lemma wp_note_change ip o m s (Q : unit → ipController → W → Prop) c w :
  i_ipToStatus c !! ip = Some s →
  Q tt c w → Q tt (ipController.mark_dirty c) w →
  wp E (ipController.note_change ip o m) Q c w.
Proof.
  intros Hs HQ HQ'. unfold ipController.note_change. wp_steps.
  eapply wp_get_status; [done|]. by apply wp_when; intros _; wp_steps.
Qed.

(** [retry_] only changes the wake-up time. *)
Lemma retry_spec t c :
  ∃ t', ipController.retry_ t c = c <| i_nextRetry := t' |>.
Proof.
  unfold ipController.retry_. destruct (_ || _); [by exists t|].
  exists (i_nextRetry c). by destruct c.
Qed.

Lemma Inv_grow c w w' : allocated w ⊆ allocated w' → Inv c w → Inv c w'.
Proof. intros Hg []. split; try done. intros ip Hip. apply Hg. auto. Qed.
End rules.
#[export] Hint Resolve Inv_grow : inv.

(** [go_step] runs one operation of the controller symbolically; [go] runs on
    until a case split, a loop or a sub-procedure. *)
Ltac carry_inv Hg :=
  lazymatch type of Hg with
  | quiet ?w ?w' =>
      repeat match goal with
             | HI : Inv ?c w |- _ => apply (Inv_grow c w w' (quiet_alloc _ _ Hg)) in HI
             end
  | allocated ?w ⊆ allocated ?w' =>
      repeat match goal with
             | HI : Inv ?c w |- _ => apply (Inv_grow c w w' Hg) in HI
             end
  end.
Ltac find_status := cbn; first [eassumption | apply lookup_insert_eq | by simplify_map_eq].
Ltac go_step :=
  lazymatch goal with
  | |- wp _ (call (AssignIP _ _ _)) _ _ _ =>
      let a := fresh "a" in let w := fresh "w" in let H := fresh "Hcall" in
      let Hg := fresh "Hgrow" in let Ht := fresh "Htrace" in
      apply wp_AssignIP; intros a w H Hg Ht; carry_inv Hg
  | |- wp _ (call _) _ _ _ =>
      let a := fresh "a" in let w := fresh "w" in
      let H := fresh "Hcall" in let Hg := fresh "Hgrow" in
      eapply wp_env; [by auto with grow|]; intros a w H Hg; carry_inv Hg
  | |- wp _ (ipController.annotate _ _) _ _ _ =>
      let w := fresh "w" in let Hg := fresh "Hgrow" in
      apply wp_annotate; intros w Hg; carry_inv Hg
  | |- wp _ (ipController.get_status _) _ _ _ => eapply wp_get_status; [find_status|]
  | |- wp _ (ipController.upd_status _ _) _ _ _ => eapply wp_upd_status; [find_status|]
  | |- wp _ (Next _ _) _ _ _ =>
      let n := fresh "next" in let w := fresh "w" in let Hg := fresh "Hgrow" in
      let Hn := fresh "Hnext" in let Ht := fresh "Htime" in
      eapply wp_Next_env; [cbn; solve [auto with retry]|cbn; try lia|intros n w Hg Hn Ht; carry_inv Hg]
  | |- context [ipController.retry_ ?t ?c] =>
      let t' := fresh "t" in destruct (retry_spec t c) as [t' ->]
  | |- _ => wp_step
  end.
Ltac go := repeat go_step.

(** ** Elementary changes that keep the invariant *)
Section changes.
Context (st : gmap string ipStatus) (toIP names : gmap string string)
  (retries : gmap string retry) (ipq nodeq : orderedSet) (ips pending : list string)
  (n : Z) (alloc : gset string).
Implicit Types (ip p : string) (s : ipStatus).
Hypothesis HI : InvBody st toIP names retries ipq nodeq ips pending n alloc.

Lemma inv_dom_insert ip s s' :
  st !! ip = Some s →
  ∀ ip', is_Some (<[ip := s']> st !! ip') ↔ is_Some (st !! ip').
Proof.
  intros Hs ip'. destruct (decide (ip = ip')) as [<-|Hne].
  - rewrite lookup_insert_eq, Hs. split; eauto.
  - by rewrite lookup_insert_ne.
Qed.

(** A new status for a known address, with a change of claims. *)
Lemma inv_set_status ip s s' toIP' :
  st !! ip = Some s → retry_ok (s_retry s') → Claim (<[ip := s']> st) toIP' →
  InvBody (<[ip := s']> st) toIP' names retries ipq nodeq ips pending n alloc.
Proof.
  intros Hs Hok HC. destruct HI. pose proof (inv_dom_insert ip s s' Hs) as Hd.
  split; try done.
  - intros ip' Hip'. apply Hd. auto.
  - intros ip' Hip'. apply Hd in Hip'. auto.
  - intros ip' t [[<- <-]|[_ Ht]]%lookup_insert_Some; eauto.
Qed.

Lemma inv_upd_status ip s s' :
  st !! ip = Some s → retry_ok (s_retry s') → s_nodeProviderID s' = s_nodeProviderID s →
  InvBody (<[ip := s']> st) toIP names retries ipq nodeq ips pending n alloc.
Proof.
  intros Hs Hok Hn. eapply inv_set_status; [done..|].
  eapply claim_same; [done..|]. apply HI.
Qed.

(** The claim on [ip] is given up. *)
Lemma inv_release ip s s' :
  st !! ip = Some s → retry_ok (s_retry s') →
  InvBody (<[ip := s']> st) (delete (s_nodeProviderID s) toIP) names retries ipq nodeq
    ips pending n alloc.
Proof.
  intros Hs Hok. eapply inv_set_status; [done..|]. pose proof (inv_claim HI).
  apply claim_reset; [by eapply claim_unclaimed|]. by apply claim_delete.
Qed.

(** The claim on [ip] moves from the node in its status to [p]. *)
Lemma inv_take ip s s' p :
  p ≠ "" → st !! ip = Some s → retry_ok (s_retry s') → s_nodeProviderID s' = p →
  InvBody (<[ip := s']> st) (<[p := ip]> (delete (s_nodeProviderID s) toIP)) names
    retries ipq nodeq ips pending n alloc.
Proof.
  intros Hp Hs Hok Hn. eapply inv_set_status; [done..|].
  pose proof (inv_claim HI) as HC.
  apply claim_take; [done| |done|by apply claim_delete].
  apply unclaimed_delete. by eapply claim_unclaimed.
Qed.

(** The cache takes the provider's word that [p] holds [ip]. *)
Lemma inv_adopt ip s s' p :
  p ≠ "" → st !! ip = Some s → retry_ok (s_retry s') → s_nodeProviderID s' = p →
  s_nodeProviderID s ≠ p →
  InvBody (<[ip := s']> st) (delete (s_nodeProviderID s) (<[p := ip]> toIP))
    names retries ipq nodeq ips pending n alloc.
Proof.
  intros Hp Hs Hok Hn Hne. rewrite delete_insert_ne by done. by eapply inv_take.
Qed.

(** What [p] was recorded to hold is in an unknown state. *)
Lemma inv_mismatch x p s' :
  toIP !! p = Some x → x ≠ "" → retry_ok (s_retry s') →
  InvBody (<[x := s']> st) (delete p toIP) names retries ipq nodeq ips pending n alloc.
Proof.
  intros Hp Hne Hok. pose proof (inv_claim HI) as HC.
  destruct (HC p x Hp) as [_ Hx]. destruct (Hx Hne) as (s & Hs & <-).
  by eapply inv_release.
Qed.

Lemma inv_new_status ip s' :
  unclaimed toIP ip → ip ∈ ips → retry_ok (s_retry s') →
  InvBody (<[ip := s']> st) toIP names retries ipq nodeq ips pending n alloc.
Proof.
  intros Hun Hin Hok. destruct HI. split; try done.
  - by apply claim_reset.
  - intros ip' Hip'. rewrite lookup_insert_is_Some'. auto.
  - intros ip' [->|Hip']%lookup_insert_is_Some'; auto.
  - intros ip' t [[<- <-]|[_ Ht]]%lookup_insert_Some; eauto.
Qed.

Lemma inv_claims toIP' :
  Claim st toIP' → InvBody st toIP' names retries ipq nodeq ips pending n alloc.
Proof. intros HC. by destruct HI. Qed.

(** Queues. *)
Lemma inv_ipq_add ip b :
  is_Some (st !! ip) →
  InvBody st toIP names retries (orderedSet.Add ip b ipq) nodeq ips pending n alloc.
Proof.
  intros Hs. destruct HI. split; try done; [by apply wf_Add|].
  intros ip'. rewrite Add_list, Queue_add_elem by done. intros [->|?]; auto.
Qed.

Lemma inv_ipq_delete ip :
  InvBody st toIP names retries (orderedSet.Delete ip ipq).2 nodeq ips pending n alloc.
Proof.
  destruct HI. destruct (Delete_list ipq ip) as (Hl & _ & Hwf); [done|].
  split; try done. intros ip'. rewrite Hl, Queue_remove_elem. intros [_ ?]; auto.
Qed.

Lemma inv_nodeq_add p b :
  is_Some (names !! p) →
  InvBody st toIP names retries ipq (orderedSet.Add p b nodeq) ips pending n alloc.
Proof.
  intros Hs. destruct HI. split; try done; [by apply wf_Add|].
  intros p'. rewrite Add_list, Queue_add_elem by done. intros [->|?]; auto.
Qed.

Lemma inv_nodeq_delete p :
  InvBody st toIP names retries ipq (orderedSet.Delete p nodeq).2 ips pending n alloc.
Proof.
  destruct HI. destruct (Delete_list nodeq p) as (Hl & _ & Hwf); [done|].
  split; try done. intros p'. rewrite Hl, Queue_remove_elem. intros [_ ?]; auto.
Qed.

Lemma inv_ipq_pop ip l :
  os_list ipq = ip :: l →
  InvBody st toIP names retries (orderedSet.Front ipq).2 nodeq ips pending n alloc.
Proof.
  intros Hl. destruct HI. destruct (Front_cons ipq ip l) as (_ & Hl' & Hwf); [done..|].
  split; try done. intros ip'. rewrite Hl'. intros Hin. apply inv_ipq0. rewrite Hl. by right.
Qed.

Lemma inv_nodeq_pop p l :
  os_list nodeq = p :: l →
  InvBody st toIP names retries ipq (orderedSet.Front nodeq).2 ips pending n alloc.
Proof.
  intros Hl. destruct HI. destruct (Front_cons nodeq p l) as (_ & Hl' & Hwf); [done..|].
  split; try done. intros p'. rewrite Hl'. intros Hin. apply inv_nodeq0. rewrite Hl. by right.
Qed.

(** Nodes. *)
Lemma inv_enable p name :
  p ≠ "" → InvBody st toIP (<[p := name]> names) retries ipq nodeq ips pending n alloc.
Proof.
  intros Hp. destruct HI. split; try done.
  - intros q Hq. rewrite lookup_insert_is_Some'. auto.
  - by rewrite lookup_insert_ne.
Qed.

Lemma inv_disable p :
  InvBody st toIP (delete p names) retries ipq (orderedSet.Delete p nodeq).2 ips pending
    n alloc.
Proof.
  destruct HI. destruct (Delete_list nodeq p) as (Hl & _ & Hwf); [done|].
  split; try done.
  - intros q. rewrite Hl, Queue_remove_elem, lookup_delete_is_Some. intros [? ?]; auto.
  - by apply lookup_delete_None; right.
Qed.

(** Back-off records. *)
Lemma inv_retries_insert p r :
  retry_ok r → InvBody st toIP names (<[p := r]> retries) ipq nodeq ips pending n alloc.
Proof.
  intros Hr. destruct HI. split; try done.
  intros q r' [[_ <-]|[_ Hq]]%lookup_insert_Some; eauto.
Qed.

Lemma inv_retries_delete p :
  InvBody st toIP names (delete p retries) ipq nodeq ips pending n alloc.
Proof.
  destruct HI. split; try done. intros q r' [_ Hq]%lookup_delete_Some; eauto.
Qed.

(** An address is no longer managed. *)
Lemma inv_forget ip toIP' :
  unclaimed toIP' ip → Claim st toIP' →
  InvBody (delete ip st) toIP' names retries (orderedSet.Delete ip ipq).2 nodeq ips
    pending n alloc.
Proof.
  intros Hun HC. destruct HI. destruct (Delete_list ipq ip) as (Hl & _ & Hwf); [done|].
  split; try done.
  - by apply claim_forget.
  - intros ip'. rewrite Hl, Queue_remove_elem, lookup_delete_is_Some. intros [? ?]; auto.
  - intros ip' [_ ?]%lookup_delete_is_Some; auto.
  - intros ip' s [_ ?]%lookup_delete_Some; eauto.
Qed.

Lemma inv_grow alloc' :
  alloc ⊆ alloc' → InvBody st toIP names retries ipq nodeq ips pending n alloc'.
Proof. intros Hg. destruct HI. split; try done. intros ip Hip. apply Hg. auto. Qed.
End changes.

(** The provider says that [p] holds [ip], where [x] was recorded: the claim on
    [ip] moves, and the state of [x] is unknown. *)
Lemma inv_adopt_mismatch st toIP names retries ipq nodeq ips pending n alloc ip s s' p x t :
  InvBody st toIP names retries ipq nodeq ips pending n alloc →
  toIP !! p = Some x → x ≠ "" → x ≠ ip → st !! ip = Some s →
  s_nodeProviderID s' = p → s_nodeProviderID s ≠ p →
  retry_ok (s_retry s') → retry_ok (s_retry t) →
  InvBody (<[x := t]> (<[ip := s']> st)) (delete (s_nodeProviderID s) (<[p := ip]> toIP))
    names retries ipq nodeq ips pending n alloc.
Proof.
  intros HI Hp Hx Hxip Hs Hn Hne Hok Hok'.
  pose proof (inv_mismatch _ _ _ _ _ _ _ _ _ _ HI x p t Hp Hx Hok') as HI'.
  rewrite insert_insert_ne by done.
  rewrite <- (insert_delete_eq toIP p ip).
  eapply inv_adopt; [exact HI'| |by rewrite lookup_insert_ne|done..].
  by apply (inv_claim HI p x).
Qed.

(** ** Operations of the match controller and of the pool controller *)
Section operations.
Context `{IPEnvLaws W}.
Implicit Types (c : ipController) (w : W).

Lemma map_get_claim c w p :
  Inv c w → map_get (i_providerIDToIP c) p ≠ "" →
  ∃ s, i_ipToStatus c !! map_get (i_providerIDToIP c) p = Some s ∧
       s_nodeProviderID s = p.
Proof.
  intros HI. unfold map_get. destruct (i_providerIDToIP c !! p) as [ip|] eqn:Hp; [|done].
  cbn. by apply (inv_claim HI).
Qed.

Lemma enableNode_inv b node c w :
  Inv c w → wp False (ipController.enableNode b node) (λ _, Inv) c w.
Proof.
  intros HI. unfold ipController.enableNode.
  case_bool_decide as Hp; [by go|]. go.
  destruct (i_providerIDToNodeName c !! _) as [name|] eqn:Hname; [by go|]. go.
  case_bool_decide as Hip; cbn in Hip.
  - go. unfold Inv; cbn. apply inv_nodeq_add; [by apply inv_enable|].
    rewrite lookup_insert_eq; eauto.
  - destruct (map_get_claim c w _ HI Hip) as (s & Hs & Hn). cbn. go.
    unfold Inv; cbn. apply inv_ipq_delete, inv_enable; [|done].
    eapply inv_upd_status; [exact HI|done| |by symmetry].
    split; [auto with retry|done].
Qed.

Lemma disableNode_inv b node c w :
  Inv c w → wp False (ipController.disableNode b node) (λ _, Inv) c w.
Proof.
  intros HI. unfold ipController.disableNode.
  case_bool_decide as Hp; [by go|]. go.
  destruct (i_providerIDToNodeName c !! _) as [name|] eqn:Hname; [|by go]. go.
  case_bool_decide as Hip; cbn in Hip.
  - go. unfold Inv; cbn. by apply inv_disable.
  - destruct (map_get_claim c w _ HI Hip) as (s & Hs & Hn). cbn. go.
    unfold Inv; cbn. apply inv_disable. apply inv_ipq_add.
    + eapply inv_upd_status; [exact HI|done| |done].
      split; [auto with retry|done].
    + rewrite lookup_insert_eq; eauto.
Qed.


(** [removed c c' ip]: [ip] is forgotten, its node waits for another address,
    and nothing else about addresses or nodes changed. *)
Record removed (ip : string) c c' : Prop := {
  rm_status : i_ipToStatus c' = delete ip (i_ipToStatus c);
  rm_ips : i_ips c' = i_ips c;
  rm_pending : i_pendingIPs c' = i_pendingIPs c;
  rm_names : i_providerIDToNodeName c' = i_providerIDToNodeName c;
  rm_disabled : i_disabledIPs c' = i_disabledIPs c;
  rm_nodeq : ∀ p, p ∈ os_list (i_assignableNodes c') ↔
    p ∈ os_list (i_assignableNodes c) ∨
    (∃ s, i_ipToStatus c !! ip = Some s ∧ s_nodeProviderID s = p ∧ p ≠ "" ∧
          is_Some (i_providerIDToNodeName c !! p));
}.

Lemma removeIP_inv ip c w :
  is_Some (i_ipToStatus c !! ip) → Inv c w →
  wp False (ipController.removeIP ip)
    (λ _ c' w', Inv c' w' ∧ removed ip c c' ∧ quiet w w') c w.
Proof.
  intros [s Hs] HI. unfold ipController.removeIP. go.
  pose proof (inv_claim HI) as HC.
  case_bool_decide as Hp.
  - go. split_and!; [| |reflexivity].
    + unfold Inv; cbn. eapply inv_forget; [done| |done]. by eapply claim_unclaimed_free.
    + split; cbn; try done. intros p. rewrite Hs. naive_solver.
  - pose proof (unclaimed_clear _ _ _ (claim_unclaimed _ _ _ _ HC Hs)) as Hun.
    go. destruct (i_providerIDToNodeName c !! s_nodeProviderID s) as [name|] eqn:Hname; go;
      (split_and!; [| |by first [reflexivity|assumption]]).
    1,3: unfold Inv; cbn; (eapply inv_forget; [|done|by apply claim_clear]);
      apply inv_retries_delete; first [apply inv_nodeq_add; by eauto|exact HI].
    1,2: split; cbn; try done; intros p; rewrite Hs.
    + rewrite Add_list, Queue_add_elem by apply HI. naive_solver.
    + split; [by left|]. intros [?|(s' & [= <-] & <- & _ & [n Hn])]; [done|congruence].
Qed.

(** What the loop over [ipToStatus] has done once [done] is visited. *)
Record pruned (known done : list string) c c' : Prop := {
  pn_status : ∀ ip, i_ipToStatus c' !! ip =
    (if decide (ip ∈ done ∧ ip ∉ known) then None else i_ipToStatus c !! ip);
  pn_ips : i_ips c' = i_ips c;
  pn_pending : i_pendingIPs c' = i_pendingIPs c;
  pn_names : i_providerIDToNodeName c' = i_providerIDToNodeName c;
  pn_disabled : i_disabledIPs c' = i_disabledIPs c;
  pn_nodeq : ∀ p, p ∈ os_list (i_assignableNodes c') ↔
    p ∈ os_list (i_assignableNodes c) ∨
    (∃ ip s, (ip ∈ done ∧ ip ∉ known) ∧ i_ipToStatus c !! ip = Some s ∧
       s_nodeProviderID s = p ∧ p ≠ "" ∧ is_Some (i_providerIDToNodeName c !! p));
}.

Lemma pruned_skip known done x c c' :
  x ∈ known → pruned known done c c' → pruned known (done ++ [x]) c c'.
Proof.
  intros Hx []. assert (∀ ip, (ip ∈ done ++ [x] ∧ ip ∉ known) ↔ (ip ∈ done ∧ ip ∉ known)) as Hd.
  { intros ip. rewrite elem_of_app, list_elem_of_singleton. naive_solver. }
  split; try done.
  - intros ip. rewrite pn_status0. by apply decide_ext.
  - intros p. rewrite pn_nodeq0. by setoid_rewrite Hd.
Qed.

Lemma pruned_remove known done x c c1 c2 :
  x ∉ known → x ∉ done → pruned known done c c1 → removed x c1 c2 →
  pruned known (done ++ [x]) c c2.
Proof.
  intros Hx Hxd [] [].
  assert (∀ ip, (ip ∈ done ++ [x] ∧ ip ∉ known) ↔ (ip = x ∨ ip ∈ done ∧ ip ∉ known)) as Hd.
  { intros ip. rewrite elem_of_app, list_elem_of_singleton. naive_solver. }
  split; [|congruence..|].
  - intros ip. rewrite rm_status0, (decide_ext _ _ _ _ (Hd ip)).
    destruct (decide (ip = x)) as [->|Hne].
    + rewrite lookup_delete_eq, decide_True by auto. done.
    + rewrite lookup_delete_ne, pn_status0 by done. apply decide_ext. tauto.
  - intros p. rewrite rm_nodeq0, pn_nodeq0, pn_status0, pn_names0.
    setoid_rewrite Hd. rewrite decide_False by tauto. naive_solver.
Qed.

(** The loop forgets the addresses that are not known. *)
Lemma removeIPs_inv keys known c w :
  Inv c w → NoDup keys → (∀ ip, ip ∈ keys ↔ is_Some (i_ipToStatus c !! ip)) →
  wp False
    (for_each keys (λ ip, if decide (ip ∈ (known : list string)) then mret tt
                          else ipController.removeIP ip))
    (λ _ c' w', Inv c' w' ∧ pruned known keys c c' ∧ quiet w w') c w.
Proof.
  intros HI Hnd Hkeys.
  apply (wp_for_each_prefix _ (λ done c' w', Inv c' w' ∧ pruned known done c c' ∧ quiet w w')).
  - split_and!; [exact HI| |reflexivity]. split; try done.
    intros p. split; [by left|]. by intros [?|(ip & s & [?%elem_of_nil _] & _)].
  - intros done x todo c1 w1 Hd (HI1 & Hpr & Hg1).
    assert (is_Some (i_ipToStatus c !! x)) as Hx by (apply Hkeys; set_solver).
    rewrite Hd in Hnd. apply NoDup_app in Hnd as (_ & Hnd & _).
    destruct (decide (x ∈ known)) as [Hk|Hk].
    { go. split_and!; [done|by apply pruned_skip|done]. }
    assert (x ∉ done) as Hxd by (intros Hin; eapply Hnd; [done|by left]).
    eapply wp_mono; [|apply removeIP_inv; [|exact HI1]].
    + intros _ c2 w2 (HI2 & Hrm & Hg2).
      split_and!; [done|by eapply pruned_remove|by etrans].
    + rewrite (pn_status _ _ _ _ Hpr), decide_False by tauto. done.
Qed.

(** The addresses a specification manages, and those it disables. *)
Definition managed (ips : slice string) (n : Z) : list string :=
  if (n =? 0)%Z then elems ips else take (Z.to_nat n) (elems ips).
Definition disabled (ips : slice string) (n : Z) : list string :=
  if (n =? 0)%Z then [] else drop (Z.to_nat n) (elems ips).

Lemma limitIPs_spec ips n c w :
  (0 ≤ n)%Z →
  wp False (ipController.limitIPs ips n)
    (λ ips' c' w', c' = c <| i_disabledIPs := disabled ips n |> ∧ w' = w ∧
                   elems ips' = managed ips n) c w.
Proof.
  intros Hn. unfold ipController.limitIPs, managed, disabled. go.
  destruct (Z.eqb_spec n 0) as [->|Hne]; cbn [negb andb].
  { go. by destruct c. }
  destruct (Z.ltb_spec n (slen ips)) as [Hlt|Hge].
  - destruct (Z.ltb_spec n 0); [lia|]. by go.
  - unfold slen in Hge. rewrite drop_ge, take_ge by lia. by go.
Qed.

(** What [updateIPs] does to the addresses. *)
Record updated (ips : slice string) (n : Z) c c' : Prop := {
  up_ips : elems (i_ips c') = managed ips n;
  up_disabled : i_disabledIPs c' = disabled ips n;
  up_desired : i_desiredIPs c' = n;
  up_pending : i_pendingIPs c' = i_pendingIPs c;
  up_names : i_providerIDToNodeName c' = i_providerIDToNodeName c;
  up_status : ∀ ip, i_ipToStatus c' !! ip =
    (if decide (ip ∈ managed ips n) then i_ipToStatus c !! ip else None);
  up_nodeq : ∀ p, p ∈ os_list (i_assignableNodes c') ↔
    p ∈ os_list (i_assignableNodes c) ∨
    (∃ ip s, (ip ∉ managed ips n) ∧ i_ipToStatus c !! ip = Some s ∧
       s_nodeProviderID s = p ∧ p ≠ "" ∧ is_Some (i_providerIDToNodeName c !! p));
}.

(** The specification lists addresses that exist, and none that is waiting to
    be added to it. *)
Lemma updateIPs_spec ips n c w :
  (0 ≤ n)%Z → (∀ ip, ip ∈ elems ips → ip ∈ allocated w ∧ ip ∉ i_pendingIPs c) →
  Inv c w →
  wp False (ipController.updateIPs ips n) (λ _ c' w', Inv c' w' ∧ updated ips n c c') c w.
Proof.
  intros Hn Hips HI. unfold ipController.updateIPs. wp_steps.
  assert (∀ ip, ip ∈ managed ips n → ip ∈ elems ips) as Hsub.
  { unfold managed. destruct (_ =? _)%Z; [done|]. intros ip. apply subseteq_take. }
  eapply wp_mono; [|by apply limitIPs_spec].
  intros ips' c' w' (-> & -> & Hm). go.
  destruct (ipController.sameIPs _ _ _) eqn:Hsame.
  { go. split; [done|]. apply andb_true_iff in Hsame as [Hsame%bool_decide_eq_true _].
    cbn in Hsame. subst ips'. split; cbn; try done.
    - intros ip. case_decide as Hin; [done|]. apply eq_None_not_Some.
      rewrite <- Hm in Hin. intros Hs%(inv_dom HI). done.
    - intros p. split; [by left|]. intros [?|(ip & s & Hin & Hs & _)]; [done|].
      exfalso. apply Hin. rewrite <- Hm. apply (inv_dom HI). eauto. }
  go. unfold range_keys. eapply wp_env; [by auto with grow|].
  intros keys w' Hkeys Hgrow. carry_inv Hgrow. wp_step.
  assert (∀ ip, ip ∈ keys ↔ is_Some (i_ipToStatus c !! ip)) as Hk
    by (intros ip; by eapply range_order_elem).
  eapply wp_mono; [|apply removeIPs_inv; [exact HI|by eapply range_order_nodup|exact Hk]].
  cbn [i_ipToStatus]. intros [] c1 w1 (HI1 & [] & Hg1). go.
  assert (∀ ip, i_ipToStatus c1 !! ip =
            if decide (ip ∈ managed ips n) then i_ipToStatus c !! ip else None) as Hst.
  { intros ip. rewrite pn_status0. case_decide as H1; case_decide as H2; [|done..|];
      rewrite Hk, list_elem_of_filter, Hm in H1; [tauto|].
    apply eq_None_not_Some. tauto. }
  split.
  - destruct HI1. split; cbn; fold (elems ips'); try done.
    + intros ip. rewrite Hst, Hm. case_decide; [done|by intros []].
    + intros ip Hip Hin. rewrite pn_pending0 in Hip. rewrite Hm in Hin.
      by apply Hsub, Hips in Hin as [_ ?].
    + intros ip [Hin|Hip]; [|by auto]. rewrite Hm in Hin.
      apply (quiet_alloc _ _ Hg1), (quiet_alloc _ _ Hgrow). by apply Hsub, Hips in Hin as [? _].
  - split; cbn; try done. intros p. rewrite pn_nodeq0. cbn.
    setoid_rewrite Hk. setoid_rewrite list_elem_of_filter. rewrite <- Hm. naive_solver.
Qed.

Lemma updateIPs_inv ips n c w :
  (0 ≤ n)%Z → (∀ ip, ip ∈ elems ips → ip ∈ allocated w ∧ ip ∉ i_pendingIPs c) →
  Inv c w → wp False (ipController.updateIPs ips n) (λ _, Inv) c w.
Proof.
  intros Hn Hips HI. eapply wp_mono; [|by apply updateIPs_spec]. by intros _ c' w' [? _].
Qed.

Lemma poke_inv (changed : bool) c w :
  Inv c w → wp False (when changed (modify ipController.poke)) (λ _, Inv) c w.
Proof. intros HI. by apply wp_when; intros _; go. Qed.

Lemma EnableNodes_inv nodes c w :
  Inv c w → wp False (ipController.EnableNodes nodes) (λ _, Inv) c w.
Proof.
  intros HI. unfold ipController.EnableNodes. wp_step. eapply wp_mono; last first.
  - apply (wp_for_fold _ (λ _, Inv)); [done|]. intros. by apply enableNode_inv.
  - intros changed c' w' HI'. by apply poke_inv.
Qed.

Lemma DisableNodes_inv nodes c w :
  Inv c w → wp False (ipController.DisableNodes nodes) (λ _, Inv) c w.
Proof.
  intros HI. unfold ipController.DisableNodes. wp_step. eapply wp_mono; last first.
  - apply (wp_for_fold _ (λ _, Inv)); [done|]. intros. by apply disableNode_inv.
  - intros changed c' w' HI'. by apply poke_inv.
Qed.

Lemma reset_inv c w : Inv c w → Inv (ipController.reset c) w.
Proof.
  intros []. split; cbn; try done; try apply new_wf; try (by intros ? ?%elem_of_nil);
    try (by intros ? [? ?]).
Qed.

Lemma new_inv f g h w : Inv (ipController.newIPController f g h) w.
Proof.
  split; cbn; try done; try apply new_wf; try (by intros ? ?%elem_of_nil);
    try (by intros ? [? ?]). by intros ip [?%elem_of_nil|?%elem_of_nil].
Qed.

Lemma updateProviders_inv prov dnsProv region coolOff c w :
  Inv c w → Inv (ipController.updateProviders prov dnsProv region coolOff c).2 w.
Proof.
  intros HI. unfold ipController.updateProviders.
  destruct (_ || _); (destruct (_ =? _)%Z; cbn [negb]; [|destruct (negb _)]);
    first [exact HI | exact (reset_inv c w HI)].
Qed.

Lemma updateDNSSpec_inv dns c w : Inv c w → Inv (ipController.updateDNSSpec dns c) w.
Proof.
  intros HI. unfold ipController.updateDNSSpec. case_bool_decide; [done|].
  destruct dns as [d|]; [|done]. by destruct (_ || _).
Qed.
End operations.
