(* ===== verification/IPReconcile.v ===== *)
(** * Reconciliation keeps the invariant

    The steps of [ipController.reconcile], one lemma each: the invariant is
    preserved, the configuration is left alone, and the only panics are those of
    [reconcileDNS] - a [nil] DNS provider, an address without a status. *)
From S2P Require Import Prelude Go Retry OrderedSet K8s Types Provider IPController.
From S2P Require Import IPInvariant.

(** What [reconcile] never assigns: the configuration and the active nodes. *)
Definition config (c : ipController) :=
  (i_provider c, i_dnsProvider c, i_region c, i_assignmentCoolOff c, i_desiredIPs c,
   i_disabledIPs c, i_onNewIPs c, i_onStatusUpdate c, i_onAnnotate c, i_dns c,
   i_providerIDToNodeName c, i_running c).

(** [stable c c']: the same configuration, the same addresses, and no address
    lost its status. *)
Record stable (c c' : ipController) : Prop := {
  stable_config : config c' = config c;
  stable_ips : i_ips c' = i_ips c;
  stable_pending : i_pendingIPs c' = i_pendingIPs c;
  stable_dom : ∀ ip, is_Some (i_ipToStatus c !! ip) → is_Some (i_ipToStatus c' !! ip);
}.
#[export] Instance stable_preorder : PreOrder stable.
Proof.
  split; [by split|]. intros c1 c2 c3 [] []. split; [congruence..|auto].
Qed.

Lemma config_provider c c' : config c' = config c → i_provider c' = i_provider c.
Proof. unfold config. by intros [= ]. Qed.
Lemma config_names c c' :
  config c' = config c → i_providerIDToNodeName c' = i_providerIDToNodeName c.
Proof. unfold config. by intros [= ]. Qed.

Lemma config_dns c c' :
  config c' = config c → i_dns c' = i_dns c ∧ i_dnsProvider c' = i_dnsProvider c.
Proof. unfold config. by intros [= ]. Qed.

(** [solve_stable] closes [stable] between explicit states. *)
Ltac solve_stable :=
  split; [reflexivity|reflexivity|reflexivity|];
  let ip := fresh in intros ip; cbn; rewrite ?lookup_insert_is_Some'; by auto.

Lemma usable_healthy : usable healthyRetrySchedule.
Proof. split; [done|]. by repeat constructor. Qed.
#[export] Hint Resolve usable_healthy : retry.

Section reconcile.
Context `{IPEnvLaws W}.
Implicit Types (c : ipController) (w : W).

(** No operation cancels the context. *)
Lemma createIPs_alive n : preserves (alive (W := W)) (ipController.createIPs n).
Proof. induction n; cbn [ipController.createIPs]; solve_preserves. Qed.
Lemma assignLoop_alive fuel r n : preserves (alive (W := W)) (ipController.assignLoop fuel r n).
Proof.
  revert r n. induction fuel; intros r n; cbn [ipController.assignLoop]; solve_preserves.
Qed.
#[local] Hint Resolve createIPs_alive assignLoop_alive : preserves.

Lemma reconcileDesiredIPs_alive : preserves (alive (W := W)) ipController.reconcileDesiredIPs.
Proof. unfold ipController.reconcileDesiredIPs. solve_preserves. Qed.
Lemma reconcilePendingIPs_alive : preserves (alive (W := W)) ipController.reconcilePendingIPs.
Proof. unfold ipController.reconcilePendingIPs. solve_preserves. Qed.
Lemma reconcileOneIP_alive ip : preserves (alive (W := W)) (ipController.reconcileOneIP ip).
Proof. unfold ipController.reconcileOneIP. solve_preserves. Qed.
Lemma assignOne_alive ip p : preserves (alive (W := W)) (ipController.assignOne ip p).
Proof. unfold ipController.assignOne. solve_preserves. Qed.
Lemma reconcileAssignment_alive : preserves (alive (W := W)) ipController.reconcileAssignment.
Proof. unfold ipController.reconcileAssignment. solve_preserves. Qed.

Lemma createIPs_inv n c w :
  Inv c w → is_Some (i_provider c) →
  wp False (ipController.createIPs n)
    (λ _ c' w', Inv c' w' ∧ config c' = config c) c w.
Proof.
  revert c w. induction n as [|n IH]; intros c w HI [p Hp]; cbn [ipController.createIPs].
  { by go. }
  pose proof (inv_alloc HI) as Halloc.
  go. eapply wp_deref_some; [exact Hp|]. go. destruct a as [ip|err].
  - destruct (CreateIP_fresh _ _ _ _ _ Hcall) as [Hni Hin].
    go. eapply wp_mono; [|apply IH; [|by exists p]].
    { intros _ c' w' [HI' Hc']. by split. }
    pose proof HI as []. split; cbn; try done.
    + intros ip' [?|Heq%list_elem_of_singleton]%elem_of_app Hips; [by apply (inv_pending ip')|].
      subst ip'. apply Hni. auto.
    + intros ip' [?|[?|Heq%list_elem_of_singleton]%elem_of_app]; [by auto..|by subst].
  - pose proof (CreateIP_err _ _ _ _ _ Hcall) as Herr. unfold usable_error in Herr.
    pose proof (inv_create HI) as Hn.
    go. split; [|done]. pose proof HI as []. cbn in Hnext. split; cbn; try done. lia.
Qed.

Lemma reconcileDesiredIPs_inv c w :
  Inv c w → is_Some (i_provider c) →
  wp False ipController.reconcileDesiredIPs
    (λ _ c' w', Inv c' w' ∧ config c' = config c) c w.
Proof.
  intros HI Hp. unfold ipController.reconcileDesiredIPs. go.
  destruct a; [by go|]. go. destruct (After _ _); go; [by split|].
  by apply createIPs_inv.
Qed.

(** The invariant as it will be once the pending addresses are listed. *)
Definition InvListed (ips : list string) c w : Prop :=
  InvBody (i_ipToStatus c) (i_providerIDToIP c) (i_providerIDToNodeName c)
    (i_providerIDToRetry c) (i_assignableIPs c) (i_assignableNodes c)
    ips [] (i_createAttempts c) (allocated w).

Lemma Inv_listed c w : Inv c w → InvListed (elems (i_ips c) ++ i_pendingIPs c) c w.
Proof.
  intros []. split; try done.
  - intros ip Hip. apply elem_of_app. left. auto.
  - intros ip Hip. by apply elem_of_nil in Hip.
  - intros ip [Hip%elem_of_app|Hip%elem_of_nil]; [auto|done].
Qed.
Lemma pending_unclaimed c w ip :
  Inv c w → ip ∈ i_pendingIPs c → unclaimed (i_providerIDToIP c) ip.
Proof.
  intros HI Hip. eapply claim_unclaimed_none; [apply HI|].
  apply eq_None_not_Some. intros Hs%(inv_dom HI). by apply (inv_pending HI ip).
Qed.

Lemma addPending_inv l ips c w :
  InvListed ips c w → (∀ ip, ip ∈ l → ip ∈ ips ∧ unclaimed (i_providerIDToIP c) ip) →
  wp False
    (for_each l (λ ip,
       modify (λ i, i <| i_ipToStatus ::= <[ip := ipController.pendingStatus]> |>
                      <| i_assignableIPs ::= orderedSet.Add ip true |>)))
    (λ _ c' w', InvListed ips c' w' ∧ config c' = config c) c w.
Proof.
  intros HI Hl. eapply wp_mono; last first.
  - apply (wp_for_each _ (λ c' w', InvListed ips c' w' ∧ config c' = config c ∧
             i_providerIDToIP c' = i_providerIDToIP c)); [done|].
    intros ip c' w' Hin (HI' & Hc & Ht). destruct (Hl ip Hin) as [Hips Hun]. go.
    split_and!; [|done..]. unfold InvListed; cbn. apply inv_ipq_add.
    + apply inv_new_status; [exact HI'|by rewrite Ht|done|]. split; [|done].
      apply usable_healthy.
    + rewrite lookup_insert_eq; eauto.
  - by intros _ c' w' (? & ? & _).
Qed.

Lemma reconcilePendingIPs_inv c w :
  Inv c w →
  wp False ipController.reconcilePendingIPs
    (λ _ c' w', Inv c' w' ∧ config c' = config c) c w.
Proof.
  intros HI. unfold ipController.reconcilePendingIPs. go. destruct a; [by go|]. go.
  case_bool_decide as Hnil; [by go|]. go.
  pose proof (Inv_listed c w0 HI) as HL.
  assert (∀ w', quiet w0 w' →
    wp False
      (modify ipController.mark_dirty ;;
       for_each (i_pendingIPs c) (λ ip,
         modify (λ i, i <| i_ipToStatus ::= <[ip := ipController.pendingStatus]> |>
                        <| i_assignableIPs ::= orderedSet.Add ip true |>)) ;;
       modify (λ i, i <| i_ips := Some (elems (i_ips c) ++ i_pendingIPs c) |>
                      <| i_pendingIPs := [] |>))
      (λ _ c' w', Inv c' w' ∧ config c' = config c) c w') as Hadd.
  { intros w' Hg. go. eapply wp_mono; [|eapply addPending_inv].
    - intros [] c' w'' [HI' Hc']. go. split; [exact HI'|exact Hc'].
    - eapply inv_grow; [exact HL|exact (quiet_alloc _ _ Hg)].
    - intros ip Hip. split; [set_solver|]. by eapply pending_unclaimed. }
  destruct (i_onNewIPs c) as [f|]; go_step; [|by apply Hadd].
  destruct a; [by go|]. by apply Hadd.
Qed.

(** A looked-up status, and what is known of it. *)
Lemma inv_status_ok c w ip s :
  Inv c w → i_ipToStatus c !! ip = Some s →
  usable (retrySchedule (s_retry s)) ∧ (0 ≤ attempts (s_retry s))%Z.
Proof. intros HI Hs. exact (inv_status HI ip s Hs). Qed.

Lemma lookupFailed_inv ip err s c w :
  i_ipToStatus c !! ip = Some s → usable_error err → Inv c w →
  wp False (ipController.lookupFailed ip err)
    (λ _ c' w', Inv c' w' ∧ stable c c' ∧ is_Some (i_ipToStatus c' !! ip)) c w.
Proof.
  intros Hs Herr HI. unfold ipController.lookupFailed.
  destruct (inv_status_ok c w ip s HI Hs) as [_ Hatt]. unfold usable_error in Herr.
  go. unfold is_ErrNotFound. case_bool_decide as Hnf.
  - go. destruct (i_providerIDToNodeName _ !! _) as [name|] eqn:Hname; cbn in Hname; go;
      (destruct (is_ErrInProgress err); go; (split_and!; [|solve_stable|
         cbn; rewrite lookup_insert_eq; eauto]));
      unfold Inv; cbn; rewrite !insert_insert_eq;
      (apply inv_nodeq_add || apply inv_ipq_delete); try (by eauto);
      (eapply inv_release; [exact HI|exact Hs|]); (split; cbn; [done|lia]).
  - destruct (is_ErrInProgress err); go; (split_and!; [|solve_stable|
      cbn; rewrite lookup_insert_eq; eauto]);
      unfold Inv; cbn; rewrite !insert_insert_eq;
      (eapply inv_upd_status; [exact HI|exact Hs| |done]); (split; cbn; [done|lia]).
Qed.

(** [adopt_solve]: the invariant of the final state of [adoptProviderID]. *)
Ltac queues :=
  repeat first
    [ apply inv_nodeq_add; [|by eauto]
    | apply inv_nodeq_delete
    | apply inv_ipq_add; [|by rewrite ?lookup_insert_is_Some'; eauto 10] ].

Lemma map_get_keyed c w p :
  Inv c w → map_get (i_providerIDToIP c) p ≠ "" → p ≠ "".
Proof. intros HI Hx%map_get_Some. by apply (inv_claim HI _ _ Hx). Qed.

Lemma adoptProviderID_inv ip p s init active c w :
  i_ipToStatus c !! ip = Some s → s_nodeProviderID s ≠ p → Inv c w →
  wp False (ipController.adoptProviderID ip p (s_nodeProviderID s) init active)
    (λ _ c' w', Inv c' w' ∧ stable c c' ∧ is_Some (i_ipToStatus c' !! ip)) c w.
Proof.
  intros Hs Hne HI. unfold ipController.adoptProviderID.
  pose proof (inv_status_ok c w ip s HI Hs) as Hok.
  assert (retry_ok (s_retry ipController.mismatchStatus)) as Hok'.
  { split; [apply usable_RetryFast|done]. }
  go. destruct init; [|destruct active]; go;
    (match goal with |- context [map_get ?m p] =>
       change (map_get m p) with (map_get (i_providerIDToIP c) p) end);
    (decide_bool (map_get (i_providerIDToIP c) p = "") as Hx;
       [|decide_bool (map_get (i_providerIDToIP c) p = ip) as Hxip]);
    go; (decide_bool (p = "") as Hp); go;
    (destruct (i_providerIDToNodeName _ !! _) as [name|] eqn:Hname; cbn in Hname); go.
  all: split_and!;
    [ unfold Inv; cbn; queues | solve_stable | cbn; rewrite ?lookup_insert_is_Some'; by auto ].
  all: first
    [ eapply inv_adopt_mismatch; [exact HI|by apply map_get_Some|done..]
    | eapply inv_adopt; [exact HI|done|exact Hs|done..]
    | eapply inv_release; [exact HI|exact Hs|done]
    | exfalso; exact (map_get_keyed c _ p HI Hx Hp) ].
Qed.

Lemma lookupSucceeded_inv ip p init c w :
  is_Some (i_ipToStatus c !! ip) → Inv c w →
  wp False (ipController.lookupSucceeded ip p init)
    (λ _ c' w', Inv c' w' ∧ stable c c' ∧ is_Some (i_ipToStatus c' !! ip)) c w.
Proof.
  intros [s Hs] HI. unfold ipController.lookupSucceeded. go.
  set (c1 := if bool_decide (p = "")
             then c <| i_assignableIPs ::= orderedSet.Add ip true |> else c).
  assert (Inv c1 w ∧ stable c c1 ∧ i_ipToStatus c1 !! ip = Some s) as (HI1 & Hst1 & Hs1).
  { unfold c1. case_bool_decide; [|done]. split_and!; [|solve_stable|done].
    unfold Inv; cbn. apply inv_ipq_add; [exact HI|eauto]. }
  apply wp_if_modify. fold c1. go.
  apply (wp_mono _ _ (λ _ c' w', Inv c' w' ∧ stable c c' ∧ is_Some (i_ipToStatus c' !! ip))).
  - intros _ c2 w2 (HI2 & Hst2 & [s2 Hs2]). go. split_and!.
    + unfold Inv; cbn. eapply inv_upd_status; [exact HI2|exact Hs2| |done].
      split; [apply usable_healthy|done].
    + etrans; [exact Hst2|]. solve_stable.
    + cbn. rewrite lookup_insert_eq. eauto.
  - decide_bool (s_nodeProviderID s = p) as Hp; [go; by eauto|].
    eapply wp_mono; [|by apply adoptProviderID_inv].
    intros _ c2 w2 (HI2 & Hst2 & Hs2). split_and!; [done|by etrans|done].
Qed.

Lemma note_change_inv ip o m c c0 w :
  Inv c w → stable c0 c → is_Some (i_ipToStatus c !! ip) →
  wp False (ipController.note_change ip o m)
    (λ _ c' w', Inv c' w' ∧ stable c0 c' ∧ is_Some (i_ipToStatus c' !! ip)) c w.
Proof.
  intros HI Hst [s Hs]. eapply wp_note_change; [exact Hs| |].
  - split_and!; [done..|eauto].
  - split_and!; [done| |by eexists]. etrans; [exact Hst|solve_stable].
Qed.

Lemma reconcileOneIP_inv ip c w :
  Inv c w → ip ∈ elems (i_ips c) → is_Some (i_provider c) →
  wp False (ipController.reconcileOneIP ip)
    (λ (b : bool) c' w', Inv c' w' ∧ stable c c' ∧
       if b then is_Some (i_ipToStatus c' !! ip) else ¬ alive w) c w.
Proof.
  intros HI Hip [prov Hprov]. unfold ipController.reconcileOneIP. go.
  destruct a; [go; split_and!; [done..|]; intros Hl%ctx_Err_alive; by rewrite Hcall in Hl|].
  go. set (c1 := if negb (is_nil (i_ipToStatus c !! ip)) then c
                 else c <| i_ipToStatus ::= <[ip := ipController.unknownStatus]> |>).
  assert (∃ s, Inv c1 w0 ∧ stable c c1 ∧ i_ipToStatus c1 !! ip = Some s)
    as (s & HI1 & Hst1 & Hs1).
  { unfold c1. destruct (i_ipToStatus c !! ip) as [s|] eqn:Hs; cbn; [by exists s|].
    exists ipController.unknownStatus. split_and!; [|solve_stable|apply lookup_insert_eq].
    unfold Inv; cbn. apply inv_new_status; [exact HI| |done|split; [apply usable_RetryFast|done]].
    eapply claim_unclaimed_none; [apply HI|done]. }
  apply wp_unless_modify. fold c1. go. destruct (After _ _).
  { go. split_and!; [exact HI1|etrans; [exact Hst1|solve_stable]|by eexists]. }
  go. eapply wp_deref_some; [rewrite <- Hprov; by apply config_provider, Hst1|]. go.
  apply (wp_mono _ _ (λ _ c' w', Inv c' w' ∧ stable c1 c' ∧ is_Some (i_ipToStatus c' !! ip))).
  - intros _ c2 v2 (HI2 & Hst2 & Hs2). wp_steps.
    eapply wp_mono; [|by apply (note_change_inv _ _ _ _ c1)].
    intros _ c3 v3 (HI3 & Hst3 & Hs3). go. split_and!; [done|by etrans|done].
  - destruct a0 as [p|err].
    + apply lookupSucceeded_inv; [by eexists|done].
    + eapply lookupFailed_inv; [done| |done]. by eapply IPToProviderID_err.
Qed.

Lemma reconcileIPStatus_inv c w :
  Inv c w → is_Some (i_provider c) →
  wp False ipController.reconcileIPStatus
    (λ _ c' w', Inv c' w' ∧ stable c c' ∧
       (alive w → ∀ ip, ip ∈ elems (i_ips c') → is_Some (i_ipToStatus c' !! ip))) c w.
Proof.
  intros HI Hp. unfold ipController.reconcileIPStatus. go. eapply wp_mono; last first.
  - apply (wp_for_until_prefix _
      (λ done c' w', Inv c' w' ∧ stable c c' ∧ (alive w → alive w') ∧
         ∀ ip, ip ∈ done → is_Some (i_ipToStatus c' !! ip))
      (λ c' w', Inv c' w' ∧ stable c c' ∧ ¬ alive w)).
    + split_and!; [done..|]. intros ip Hip. by apply elem_of_nil in Hip.
    + intros done ip todo c1 w1 Hd (HI1 & Hst1 & Hal1 & Hdone).
      eapply wp_mono; [|apply wp_preserves;
        [apply reconcileOneIP_alive|apply reconcileOneIP_inv; [done| |]]].
      * intros [] c2 w2 [(HI2 & Hst2 & Hs2) Hal2]; (split_and!; [done|by etrans|..]);
          [by auto| |by auto].
        intros ip' [Hin|Hin%list_elem_of_singleton]%elem_of_app; [|by subst].
        by apply Hst2, Hdone.
      * rewrite (stable_ips _ _ Hst1), Hd. set_solver.
      * by rewrite (config_provider _ _ (stable_config _ _ Hst1)).
  - intros [] c1 w1 (HI1 & Hst1 & H1); go; (split_and!; [done..|]); [|done].
    destruct H1 as [_ H1]. intros _ ip. rewrite (stable_ips _ _ Hst1). apply H1.
Qed.

(** The queues of [c'] are those of [c]. *)
Definition same_queues c c' : Prop :=
  i_assignableIPs c' = i_assignableIPs c ∧ i_assignableNodes c' = i_assignableNodes c.

Lemma assigned_inv ip p c w :
  is_Some (i_ipToStatus c !! ip) → Inv c w →
  wp False (ipController.assigned ip p)
    (λ _ c' w', Inv c' w' ∧ stable c c' ∧ same_queues c c') c w.
Proof.
  intros [s Hs] HI. unfold ipController.assigned. go.
  split_and!; [|solve_stable|done].
  unfold Inv; cbn. rewrite insert_insert_eq. apply inv_retries_delete.
  eapply inv_upd_status; [exact HI|exact Hs| |done].
  split; [apply usable_RetryFast|done].
Qed.

(** The back-off record of a node, or a new one with the error's schedule. *)
Lemma retry_for_ok c w p err :
  Inv c w → usable_error err →
  retry_ok (default (zero_retry <| retrySchedule := ErrorToRetrySchedule err |>)
              (i_providerIDToRetry c !! p)).
Proof.
  intros HI Herr.
  destruct (_ !! p) as [r|] eqn:Hr; [by apply (inv_retries HI _ _ Hr)|by split].
Qed.

Lemma assignFailed_inv ip p err s c w :
  i_ipToStatus c !! ip = Some s → s_nodeProviderID s = p → usable_error err → Inv c w →
  wp False (ipController.assignFailed ip p err)
    (λ _ c' w', Inv c' w' ∧ stable c c' ∧ same_queues c c') c w.
Proof.
  intros Hs Hp Herr HI. unfold ipController.assignFailed, usable_error in *.
  destruct (inv_status_ok c w ip s HI Hs) as [_ Hatt].
  destruct (retry_for_ok c w p err HI Herr) as [Hu Ha].
  go; [exact Ha|]. split_and!; [|solve_stable|done].
  unfold Inv; cbn. rewrite insert_insert_eq. cbn in Hnext, Ha. apply inv_retries_insert.
  - rewrite <- Hp. eapply inv_release; [exact HI|exact Hs|]. by split.
  - split; cbn; [done|lia].
Qed.

Lemma assignOne_inv ip p c w :
  is_Some (i_ipToStatus c !! ip) → is_Some (i_providerIDToNodeName c !! p) →
  is_Some (i_provider c) → Inv c w →
  wp False (ipController.assignOne ip p)
    (λ _ c' w', Inv c' w' ∧ stable c c' ∧ same_queues c c') c w.
Proof.
  intros [s Hs] Hact [prov Hprov] HI. unfold ipController.assignOne.
  assert (p ≠ "") as Hp.
  { intros ->. rewrite (inv_names HI) in Hact. by destruct Hact. }
  go. eapply wp_deref_some; [exact Hprov|]. go.
  match goal with |- wp _ _ _ ?c1 _ => set (ca := c1) end.
  assert (Inv ca w0) as HIa.
  { unfold Inv, ca; cbn. eapply inv_take; [exact HI|done|exact Hs| |done].
    by apply (inv_status_ok c w0 ip s). }
  assert (i_ipToStatus ca !! ip = Some (s <| s_nodeProviderID := p |>)) as Hsa
    by apply lookup_insert_eq.
  assert (stable c ca ∧ same_queues c ca) as [Hsta Hqa] by (split; [solve_stable|done]).
  clearbody ca.
  apply (wp_mono _ _ (λ _ c' w', Inv c' w' ∧ stable ca c' ∧ same_queues ca c')).
  - intros b c1 v1 (HI1 & Hst1 & Hq1). go.
    destruct (stable_dom _ _ Hst1 ip) as [s1 Hs1]; [by eexists|].
    destruct (inv_status_ok c1 v1 ip s1 HI1 Hs1) as [Hu Ha]. go.
    destruct Hq1 as [Hq1 Hq1'], Hqa as [Hqa Hqa'].
    eapply wp_note_change; [find_status| |]; go;
      (split_and!; [|etrans; [exact Hsta|]; etrans; [exact Hst1|solve_stable]
                    |by split; cbn; congruence]);
      unfold Inv; cbn; (eapply inv_upd_status; [exact HI1|exact Hs1|by split|done]).
  - destruct a as [e|]; [unfold is_ErrInProgress; case_bool_decide|]; wp_steps.
    + eapply wp_mono; [|by apply assigned_inv]. by intros; go.
    + eapply wp_mono; [|eapply assignFailed_inv; [exact Hsa|done| |done]].
      * by intros; go.
      * by eapply AssignIP_err.
    + eapply wp_mono; [|by apply assigned_inv]. by intros; go.
Qed.

(** Everything [retryIPs] and [retryProviders] hold may be queued again. *)
Definition requeueable c (q : list string * list string) : Prop :=
  (∀ ip, ip ∈ q.1 → is_Some (i_ipToStatus c !! ip)) ∧
  (∀ p, p ∈ q.2 → is_Some (i_providerIDToNodeName c !! p)).

Lemma requeueable_stable c c' q : stable c c' → requeueable c q → requeueable c' q.
Proof.
  intros Hst [H1 H2]. split; [intros; by apply Hst, H1|].
  rewrite (config_names _ _ (stable_config _ _ Hst)). done.
Qed.

Lemma requeueable_app c rIPs rNodes lIPs lNodes :
  requeueable c (rIPs, rNodes) → requeueable c (lIPs, lNodes) →
  requeueable c (rIPs ++ lIPs, rNodes ++ lNodes).
Proof.
  intros [H1 H2] [H3 H4]. split; intros x [?|?]%elem_of_app; auto.
Qed.

Lemma requeueable_fronts c w ip l p l' :
  Inv c w → os_list (i_assignableIPs c) = ip :: l →
  os_list (i_assignableNodes c) = p :: l' → requeueable c ([ip], [p]).
Proof.
  intros HI Hl Hl'. split; cbn; intros x ->%list_elem_of_singleton.
  - apply (inv_ipq HI). rewrite Hl. by left.
  - apply (inv_nodeq HI). rewrite Hl'. by left.
Qed.

(** The rule of the assignment loop.  [I] is kept by a read of the clock or of
    the context, by a change of the wake-up time, and by the three bodies of
    an iteration: the address is in back-off, the node is in back-off, the
    pair is assigned.  A loop that is not cut short ends with an empty
    queue. *)
Section assignLoop_rule.
Context (I : list string → list string → ipController → W → Prop).
Hypothesis I_inv : ∀ r n c w, I r n c w → Inv c w.
Hypothesis I_quiet : ∀ r n c w w', I r n c w → quiet w w' → I r n c w'.
Hypothesis I_timer : ∀ r n c w t, I r n c w → I r n (c <| i_nextRetry := t |>) w.
Hypothesis I_skip_ip : ∀ r n c w ip l s,
  I r n c w → os_list (i_assignableIPs c) = ip :: l →
  i_ipToStatus c !! ip = Some s → s_state s = IPStateError →
  I (r ++ [ip]) n (c <| i_assignableIPs := (orderedSet.Front (i_assignableIPs c)).2 |>) w.
Hypothesis I_skip_both : ∀ r n c w ip l p l',
  I r n c w → os_list (i_assignableIPs c) = ip :: l →
  os_list (i_assignableNodes c) = p :: l' → is_Some (i_providerIDToRetry c !! p) →
  I (r ++ [ip]) (n ++ [p])
    (c <| i_assignableIPs := (orderedSet.Front (i_assignableIPs c)).2 |>
       <| i_assignableNodes := (orderedSet.Front (i_assignableNodes c)).2 |>) w.
Hypothesis I_assign : ∀ r n c w ip l p l',
  I r n c w → os_list (i_assignableIPs c) = ip :: l →
  os_list (i_assignableNodes c) = p :: l' →
  let c1 := c <| i_assignableIPs := (orderedSet.Front (i_assignableIPs c)).2 |>
              <| i_assignableNodes := (orderedSet.Front (i_assignableNodes c)).2 |> in
  wp False (ipController.assignOne ip p)
    (λ (failed : bool) c' w',
       I (if failed then r ++ [ip] else r) (if failed then n ++ [p] else n) c' w' ∧
       i_assignableIPs c' = i_assignableIPs c1) c1 w.

Definition drained c : Prop :=
  os_list (i_assignableIPs c) = [] ∨ os_list (i_assignableNodes c) = [].

Lemma Len_zero o : orderedSet.Len o = 0 → os_list o = [].
Proof. unfold orderedSet.Len, os_list. by destruct (os_l o). Qed.
Lemma Len_nonzero o : orderedSet.Len o ≠ 0 → ∃ v l, os_list o = v :: l.
Proof. unfold orderedSet.Len, os_list. destruct (os_l o); [done|]. cbn. eauto. Qed.

Lemma assignLoop_rule fuel r n c w :
  length (os_list (i_assignableIPs c)) < fuel → I r n c w →
  wp False (ipController.assignLoop fuel r n)
    (λ q c' w', I q.1 q.2 c' w' ∧
       (i_assignmentCoolOff c' = 0%Z → (∀ w0, I q.1 q.2 c' w0 → alive w0) → drained c'))
    c w.
Proof.
  revert r n c w. induction fuel as [|fuel IH]; intros r n c w Hf HI; [lia|].
  cbn [ipController.assignLoop]. go. destruct (_ || _) eqn:Hlen.
  { go. split; [done|]. intros _ _. apply orb_true_iff in Hlen.
    destruct Hlen as [Hl%Nat.eqb_eq|Hl%Nat.eqb_eq]; [left|right]; by apply Len_zero. }
  apply orb_false_iff in Hlen as [HlI%Nat.eqb_neq HlN%Nat.eqb_neq].
  apply Len_nonzero in HlI as (ip & l & Hl). apply Len_nonzero in HlN as (p & l' & Hl').
  assert (∀ w', quiet w w' → I r n c w') as HQ by eauto.
  go. destruct a.
  { go. split; [by eauto|]. intros _ Hal. pose proof (ctx_Err_alive w (Hal w HI)) as Hlive.
    by rewrite Hcall in Hlive. }
  go. assert (I r n c w1) as HI1 by (apply HQ; by etrans). clear HQ.
  destruct (_ && _) eqn:Hcool.
  { go. split; [by apply I_timer|]. intros Hz _. cbn in Hz. by rewrite Hz in Hcool. }
  clear Hcool.
  pose proof (I_inv _ _ _ _ HI1) as HInv.
  destruct (Front_cons _ ip l (inv_ipq_wf HInv) Hl) as (Hfi & Hli & _).
  destruct (Front_cons _ p l' (inv_nodeq_wf HInv) Hl') as (Hfn & _ & _).
  destruct (inv_ipq HInv ip) as [s Hs]; [rewrite Hl; by left|].
  pose proof (λ s, I_skip_ip _ _ _ _ ip l s HI1 Hl) as Hskip.
  pose proof (I_skip_both _ _ _ _ ip l p l' HI1 Hl Hl') as Hboth.
  pose proof (I_assign _ _ _ _ ip l p l' HI1 Hl Hl') as Hassign.
  destruct (orderedSet.Front (i_assignableIPs c)) as [ip0 ipQueue].
  destruct (orderedSet.Front (i_assignableNodes c)) as [p0 nodeQueue].
  cbn in Hfi, Hli, Hskip, Hboth, Hfn. cbn [snd] in Hassign. subst ip0 p0.
  assert (length (os_list ipQueue) < fuel) as Hf'
    by (rewrite Hl in Hf; cbn in Hf; subst l; lia).
  go. destruct (bool_decide (s_state s = IPStateError) && _) eqn:Herr.
  { apply andb_true_iff in Herr as [Herr%bool_decide_eq_true _].
    go. apply IH; [done|]. apply (I_timer _ _ (c <| i_assignableIPs := ipQueue |>)).
    by eapply Hskip. }
  go. destruct (i_providerIDToRetry c !! p) as [nr|]; [destruct (After (nextRetry nr) a)|].
  { go. apply IH; [done|].
    apply (I_timer _ _ (c <| i_assignableIPs := ipQueue |> <| i_assignableNodes := nodeQueue |>)).
    by apply Hboth. }
  all: wp_steps; (eapply wp_mono; [|exact Hassign]);
    intros failed c2 v2 [HI2 Hq2]; cbn in Hq2; destruct failed; (apply IH; [by rewrite Hq2|done]).
Qed.
End assignLoop_rule.

Lemma assignLoop_inv fuel r n c w :
  length (os_list (i_assignableIPs c)) < fuel →
  Inv c w → is_Some (i_provider c) → requeueable c (r, n) →
  wp False (ipController.assignLoop fuel r n)
    (λ q c' w', Inv c' w' ∧ stable c c' ∧ requeueable c' q) c w.
Proof.
  intros Hf HI Hprov Hr. eapply wp_mono; last first.
  - apply (assignLoop_rule (λ r n c' w', Inv c' w' ∧ stable c c' ∧ requeueable c' (r, n)));
      [..|done|by split_and!]; clear r n w Hf HI Hr.
    + by intros r n c1 w (? & ? & ?).
    + intros r n c1 w w' (HI & Hst & Hr) Hq. split_and!; [|done..].
      by apply (Inv_grow c1 w w' (quiet_alloc _ _ Hq)).
    + intros r n c1 w t (HI & Hst & Hr). split_and!; [done| |done].
      etrans; [exact Hst|solve_stable].
    + intros r n c1 w ip l s (HI & Hst & Hr) Hl Hs _. split_and!.
      * by eapply inv_ipq_pop.
      * etrans; [exact Hst|solve_stable].
      * rewrite <- (app_nil_r n). apply requeueable_app; [done|]. split; cbn; [|set_solver].
        intros x ->%list_elem_of_singleton. eauto.
    + intros r n c1 w ip l p l' (HI & Hst & Hr) Hl Hl' _. split_and!.
      * eapply inv_nodeq_pop; [by eapply inv_ipq_pop|done].
      * etrans; [exact Hst|solve_stable].
      * apply requeueable_app; [done|]. exact (requeueable_fronts c1 w ip l p l' HI Hl Hl').
    + intros r n c1 w ip l p l' (HI & Hst & Hr) Hl Hl' c2.
      destruct (requeueable_fronts c1 w ip l p l' HI Hl Hl') as [H1 H2].
      eapply wp_mono; [|apply assignOne_inv; [by apply H1, list_elem_of_here|by apply H2, list_elem_of_here| |]].
      * intros failed c3 v3 (HI3 & Hst3 & [Hq3 _]).
        assert (stable c1 c3) as Hst13 by (etrans; [|exact Hst3]; solve_stable).
        split_and!; [done|by etrans| |done].
        destruct failed; [|by eapply requeueable_stable].
        apply requeueable_app; (eapply requeueable_stable; [exact Hst13|]); [done|].
        by eapply requeueable_fronts.
      * cbn. by rewrite (config_provider _ _ (stable_config _ _ Hst)).
      * eapply inv_nodeq_pop; [by eapply inv_ipq_pop|done].
  - by intros q c1 w1 [(HI1 & Hst1 & Hr1) _]; destruct q.
Qed.

Lemma requeue_inv q c w :
  Inv c w → requeueable c q → Inv (ipController.requeue q.1 q.2 c) w.
Proof.
  intros HI [Hips Hnodes]. unfold ipController.requeue, Inv; cbn.
  assert (∀ l o, (∀ p, p ∈ l → is_Some (i_providerIDToNodeName c !! p)) →
    InvBody (i_ipToStatus c) (i_providerIDToIP c) (i_providerIDToNodeName c)
      (i_providerIDToRetry c) (i_assignableIPs c) o (elems (i_ips c)) (i_pendingIPs c)
      (i_createAttempts c) (allocated w) →
    InvBody (i_ipToStatus c) (i_providerIDToIP c) (i_providerIDToNodeName c)
      (i_providerIDToRetry c) (i_assignableIPs c)
      (foldl (λ o p, orderedSet.Add p false o) o l) (elems (i_ips c)) (i_pendingIPs c)
      (i_createAttempts c) (allocated w)) as HN.
  { induction l as [|p l IH]; intros o Hl Ho; cbn; [done|]. apply IH; [set_solver|].
    apply inv_nodeq_add; [done|]. apply Hl. by left. }
  specialize (HN _ _ Hnodes HI). revert HN.
  generalize (foldl (λ o p, orderedSet.Add p false o) (i_assignableNodes c) q.2) as nq.
  generalize (i_assignableIPs c) as iq. clear HI Hnodes.
  induction q.1 as [|ip l IH]; intros iq nq HI; cbn; [done|].
  apply IH; [set_solver|]. apply inv_ipq_add; [done|]. apply Hips. by left.
Qed.

Lemma reconcileAssignment_inv c w :
  Inv c w → is_Some (i_provider c) →
  wp False ipController.reconcileAssignment (λ _ c' w', Inv c' w' ∧ stable c c') c w.
Proof.
  intros HI Hp. unfold ipController.reconcileAssignment. go.
  eapply wp_mono; [|apply assignLoop_inv; [|done|done|by split; set_solver]].
  - intros q c' w' (HI' & Hst & Hr). go. split; [by apply requeue_inv|].
    etrans; [exact Hst|]. solve_stable.
  - unfold os_list, orderedSet.Len. rewrite length_fmap. lia.
Qed.

(** The addresses to publish exist as soon as every address has a status. *)
Lemma activeIPs_Some m ips :
  (∀ ip, ip ∈ ips → is_Some (m !! ip)) → is_Some (ipController.activeIPs m ips).
Proof.
  induction ips as [|ip ips IH]; intros Hm; cbn; [eauto|].
  destruct (Hm ip) as [s Hs]; [by left|]. destruct IH as [l Hl]; [set_solver|].
  rewrite Hs, Hl. cbn. eauto.
Qed.

(** What [reconcileDNS] needs in order not to panic. *)
Definition dns_ready c : Prop :=
  (is_Some (i_dns c) → is_Some (i_dnsProvider c)) ∧
  ∀ ip, ip ∈ elems (i_ips c) → is_Some (i_ipToStatus c !! ip).

Lemma reconcileDNS_inv E c w :
  Inv c w → E ∨ dns_ready c →
  wp E ipController.reconcileDNS (λ _ c' w', Inv c' w' ∧ stable c c') c w.
Proof.
  intros HI HE. unfold ipController.reconcileDNS. go.
  destruct (i_dns _) as [dns|] eqn:Hdns; [|by go].
  destruct (_ || _); [by go|]. go. apply wp_deref.
  2: { intros Hn. destruct HE as [|[_ Hst]]; [done|].
       destruct (activeIPs_Some _ _ Hst) as [l Hl]. by rewrite Hl in Hn. }
  intros ips _. case_bool_decide; [by go|]. go. apply wp_deref.
  2: { intros Hn. destruct HE as [|[Hp _]]; [done|].
       destruct Hp as [p Hp]; [by rewrite Hdns|]. by rewrite Hp in Hn. }
  intros prov _. go. destruct a; go; (split; [exact HI|solve_stable]).
Qed.

(** *** The whole pass *)

(** [E] is whether the pass may panic: at all, or only under a cancelled
    context or without a DNS provider. *)
Lemma reconcile_inv E c w :
  Inv c w → is_Some (i_provider c) →
  E ∨ (alive w ∧ (is_Some (i_dns c) → is_Some (i_dnsProvider c))) →
  wp E ipController.reconcile (λ _ c' w', Inv c' w' ∧ config c' = config c) c w.
Proof.
  intros HI Hp HE. unfold ipController.reconcile. go.
  pose proof (quiet_alive _ _ Hgrow) as Hal0.
  match goal with |- wp _ _ _ ?c1 _ => set (c0 := c1) end.
  assert (Inv c0 w0 ∧ config c0 = config c) as [HI0 Hc0] by done. clearbody c0.
  assert (∀ c', config c' = config c → is_Some (i_provider c')) as Hprov
    by (intros c' Hc'; by rewrite (config_provider _ _ Hc')).
  eapply wp_mono; [|apply wp_weaken, wp_preserves; [apply reconcileDesiredIPs_alive|
    apply reconcileDesiredIPs_inv; [done|by apply Hprov]]].
  intros [] c1 v1 [[HI1 Hc1] Hal1]. rewrite Hc0 in Hc1. wp_step.
  eapply wp_mono; [|apply wp_weaken, wp_preserves; [apply reconcilePendingIPs_alive|
    apply reconcilePendingIPs_inv; exact HI1]].
  intros [] c2 v2 [[HI2 Hc2] Hal2]. rewrite Hc1 in Hc2. wp_step.
  eapply wp_mono; [|apply wp_weaken, reconcileIPStatus_inv; [done|by apply Hprov]].
  intros [] c3 v3 (HI3 & [Hc3 _ _ _] & Hall3). rewrite Hc2 in Hc3. wp_step.
  eapply wp_mono; [|apply wp_weaken, reconcileAssignment_inv; [done|by apply Hprov]].
  intros [] c4 v4 (HI4 & [Hc4 Hips4 _ Hdom4]). rewrite Hc3 in Hc4.
  wp_step. eapply wp_mono; [|apply reconcileDNS_inv; [done|]].
  2: { destruct HE as [|[Hl Hdns]]; [by left|right]. split.
       - by destruct (config_dns _ _ Hc4) as [-> ->].
       - rewrite Hips4. intros ip Hip. apply Hdom4, Hall3; auto. }
  intros [] c5 v5 (HI5 & [Hc5 _ _ _]). rewrite Hc4 in Hc5. go.
  destruct (i_onStatusUpdate c5); [|by go]. destruct (i_updateStatus c5); [|by go].
  unfold ipController.buildStatusUpdate, orderedSet.AsList, range_keys. go.
  match goal with Ha : _ = (?r, _) |- context [match ?r with _ => _ end] => destruct r end;
    by go.
Qed.
End reconcile.
