(* ===== verification/Sim.v ===== *)
(** * A simulated world

    A concrete world in which every law assumed of the environment holds: a
    provider with a stock of addresses, a DNS service, a clock that stands still,
    a context that may be canceled, callbacks that record their arguments.  The
    witnesses of the theorems run the controllers in it. *)
From S2P Require Import Prelude Go Retry OrderedSet K8s Types Provider IPController.
From S2P Require Import IPInvariant.

(** [sim_live] is the number of calls of [ctx.Err] that still find the context
    alive, [None] if it is never canceled; an error that is set is what the
    corresponding call answers. *)
Record Sim : Type := Sim_ {
  sim_time : Z;
  sim_live : option nat;
  sim_allocated : gset string;
  sim_spare : list string;
  sim_holder : gmap string string;
  sim_trace : list (string * string);
  sim_lookup_error : option error;
  sim_assign_error : option error;
  sim_dns_error : option error;
  sim_newips_error : option error;
  sim_dns : gmap (string * string) (list string);
  sim_newips : list (slice string);
  sim_status : list FloatingIPPoolStatus;
  sim_annotations : gmap string string;
}.
Definition eta_Sim (s : Sim) : Sim :=
  Sim_ (sim_time s) (sim_live s) (sim_allocated s) (sim_spare s) (sim_holder s)
    (sim_trace s) (sim_lookup_error s) (sim_assign_error s) (sim_dns_error s)
    (sim_newips_error s) (sim_dns s) (sim_newips s) (sim_status s) (sim_annotations s).
#[export] Instance set_sim_time : Setter sim_time := ltac:(derive_setter eta_Sim sim_time).
#[export] Instance set_sim_live : Setter sim_live := ltac:(derive_setter eta_Sim sim_live).
#[export] Instance set_sim_allocated : Setter sim_allocated :=
  ltac:(derive_setter eta_Sim sim_allocated).
#[export] Instance set_sim_spare : Setter sim_spare :=
  ltac:(derive_setter eta_Sim sim_spare).
#[export] Instance set_sim_holder : Setter sim_holder :=
  ltac:(derive_setter eta_Sim sim_holder).
#[export] Instance set_sim_trace : Setter sim_trace :=
  ltac:(derive_setter eta_Sim sim_trace).
#[export] Instance set_sim_lookup_error : Setter sim_lookup_error :=
  ltac:(derive_setter eta_Sim sim_lookup_error).
#[export] Instance set_sim_assign_error : Setter sim_assign_error :=
  ltac:(derive_setter eta_Sim sim_assign_error).
#[export] Instance set_sim_dns_error : Setter sim_dns_error :=
  ltac:(derive_setter eta_Sim sim_dns_error).
#[export] Instance set_sim_newips_error : Setter sim_newips_error :=
  ltac:(derive_setter eta_Sim sim_newips_error).
#[export] Instance set_sim_dns : Setter sim_dns := ltac:(derive_setter eta_Sim sim_dns).
#[export] Instance set_sim_newips : Setter sim_newips :=
  ltac:(derive_setter eta_Sim sim_newips).
#[export] Instance set_sim_status : Setter sim_status :=
  ltac:(derive_setter eta_Sim sim_status).
#[export] Instance set_sim_annotations : Setter sim_annotations :=
  ltac:(derive_setter eta_Sim sim_annotations).

(** The error a call answers carries a usable schedule. *)
Definition sane (e : error) : error := if decide (usable_error e) then e else ErrNotFound.
Lemma sane_usable e : usable_error (sane e).
Proof. unfold sane. case_decide; [done|apply usable_ErrNotFound]. Qed.

Definition sim_now (s : Sim) : Time * Sim := (Z.max 1 (sim_time s), s).

#[export] Instance sim_range : MapRange Sim := {| range_order ks s := (ks, s) |}.
#[export] Instance sim_clock : Clock Sim := {| time_Now := sim_now |}.

Definition sim_CreateIP (s : Sim) : (string + error) * Sim :=
  match sim_spare s with
  | [] => (inr ErrNotFound, s)
  | ip :: spare =>
      if decide (ip ∈ sim_allocated s) then (inr ErrNotFound, s <| sim_spare := spare |>)
      else (inl ip, s <| sim_spare := spare |> <| sim_allocated ::= union {[ip]} |>)
  end.

Definition sim_AssignIP (ip node : string) (s : Sim) : option error * Sim :=
  let s := s <| sim_trace ::= λ l, l ++ [(ip, node)] |> in
  match sim_assign_error s with
  | Some e => (Some (sane e), s)
  | None => (None, s <| sim_holder ::= <[ip := node]> |>)
  end.

#[export] Instance sim_ipprovider : IPProvider Sim := {|
  IPToProviderID _ ip s :=
    match sim_lookup_error s with
    | Some e => (inr (sane e), s)
    | None => (inl (map_get (sim_holder s) ip), s)
    end;
  AssignIP _ := sim_AssignIP;
  NodeToIP _ node s :=
    (match filter (λ x, x.2 = node) (map_to_list (sim_holder s)) with
     | [] => inr ErrNotFound
     | x :: _ => inl x.1
     end, s);
  CreateIP _ _ := sim_CreateIP;
|}.

#[export] Instance sim_dnsprovider : DNSProvider Sim := {|
  EnsureDNSARecordSet _ zone record ips _ s :=
    match sim_dns_error s with
    | Some e => (Some e, s)
    | None => (None, s <| sim_dns ::= <[(zone, record) := ips]> |>)
    end;
  RecordNameAndZoneToFQDN _ zone record := record +:+ "." +:+ zone;
|}.

Definition sim_ctx_Err (s : Sim) : bool * Sim :=
  match sim_live s with
  | None => (false, s)
  | Some 0 => (true, s)
  | Some (S n) => (false, s <| sim_live := Some n |>)
  end.

#[export] Instance sim_env : IPEnv Sim := {|
  env_now := sim_now;
  ctx_Err := sim_ctx_Err;
  call_onNewIPs _ ips s := (sim_newips_error s, s <| sim_newips ::= λ l, l ++ [ips] |>);
  call_onStatusUpdate _ st s := (None, s <| sim_status ::= λ l, l ++ [st] |>);
  call_onAnnotate _ node ip s := (None, s <| sim_annotations ::= <[node := ip]> |>);
|}.

(** The provider answers every question and refuses nothing. *)
Record sim_cooperative (s : Sim) : Prop := {
  sc_live : sim_live s = None;
  sc_lookup : sim_lookup_error s = None;
  sc_assign : sim_assign_error s = None;
  sc_spare : "" ∉ sim_spare s;
  sc_alloc : ∀ ip, is_Some (sim_holder s !! ip) → ip ∈ sim_allocated s;
  sc_value : ∀ ip, sim_holder s !! ip ≠ Some "";
  sc_one : ∀ x y n, sim_holder s !! x = Some n → sim_holder s !! y = Some n → x = y;
}.

#[export] Instance sim_ghost : IPGhost Sim := {|
  allocated := sim_allocated;
  assign_trace := sim_trace;
  alive s := sim_live s = None;
  holder := sim_holder;
  cooperative := sim_cooperative;
|}.

#[export] Instance sim_laws : IPEnvLaws Sim.
Proof.
  assert (∀ s s' : Sim, sim_allocated s ⊆ sim_allocated s' → sim_trace s' = sim_trace s →
            sim_live s' = sim_live s → sim_lookup_error s' = sim_lookup_error s →
            sim_assign_error s' = sim_assign_error s → sim_holder s' = sim_holder s →
            (∀ ip, ip ∈ sim_spare s' → ip ∈ sim_spare s) → quiet s s') as Hq.
  { intros s s' Ha Ht Hl He1 He2 Hh Hs. split; cbn; [done..|by rewrite Hl|].
    intros []. split; [|done]. split; rewrite ?Hl, ?He1, ?He2, ?Hh; try done; auto. }
  split; try (intros; by apply Hq); cbn; intros.
  - by split.
  - unfold sim_ctx_Err. destruct (sim_live w) as [[|n]|] eqn:Hl; (split; cbn; rewrite ?Hl; try done);
      intros []; congruence.
  - unfold sim_CreateIP. destruct (sim_spare w) as [|ip l] eqn:Hsp; [done|].
    case_decide; apply Hq; cbn; rewrite ?Hsp; try done; set_solver.
  - by destruct (sim_lookup_error w).
  - by destruct (sim_dns_error w); apply Hq.
  - unfold sim_AssignIP. cbn. by destruct (sim_assign_error w).
  - unfold sim_AssignIP. cbn. by destruct (sim_assign_error w).
  - unfold sim_ctx_Err. by rewrite H.
  - unfold sim_AssignIP. cbn. by destruct (sim_assign_error w).
  - unfold sim_CreateIP in *. destruct (sim_spare w) as [|ip' l]; [done|].
    case_decide; simplify_eq. split; [done|set_solver].
  - unfold sim_CreateIP in *. destruct (sim_spare w) as [|ip' l];
      [|case_decide]; simplify_eq; apply usable_ErrNotFound.
  - destruct (sim_lookup_error w); simplify_eq. apply sane_usable.
  - unfold sim_AssignIP in *. cbn in *. destruct (sim_assign_error w); simplify_eq.
    apply sane_usable.
  - lia.
  - lia.
Qed.

(** A world at time 1000 s whose provider has two addresses, of nobody. *)
Definition sim0 : Sim :=
  Sim_ (1000 * Second) None {["10.0.0.1"; "10.0.0.2"]} ["10.0.0.3"] ∅ [] None None None None
    ∅ [] [] ∅.

Definition example_node (name id : string) : Node := {|
  node_Name := name; node_ProviderID := id; node_Labels := ∅; node_Annotations := ∅;
  node_Deleting := false; node_Taints := []; node_Conditions := [];
  node_Addresses := [] |}.

(** The final state of a run, and what it returned. *)
Definition ran {C W A} (o : outcome (A * C * W)) (default : C * W) : C * W :=
  match o with Ret (_, c, w) => (c, w) | _ => default end.
Definition panicked {A} (o : outcome A) : bool := match o with Panic => true | _ => false end.

Lemma wp_ran {C W A} (m : M C W A) Q c w d :
  wp False m Q c w → ∃ a, Q a (ran (m c w) d).1 (ran (m c w) d).2.
Proof. unfold wp. destruct (m c w) as [[[a c'] w']| |]; [|done..]. cbn. eauto. Qed.
