(* ===== verification/IPSystem.v ===== *)
(** * The IP controller as a system

    The goroutine [run] and the operations of the other goroutines interleave,
    each of them under the controller's lock.  The system is a step relation;
    what holds in its reachable states is proved by induction on the steps. *)
From S2P Require Import Prelude Go Retry OrderedSet K8s Types Provider IPController.
From S2P Require Import IPInvariant IPReconcile Sim.

(** ** Operations of the other goroutines *)
Inductive op : Type :=
  | OpUpdateProviders (prov dnsProv : option Ref) (region : string) (coolOff : Duration)
  | OpUpdateIPs (ips : slice string) (desiredIPs : Z)
  | OpUpdateDNSSpec (dns : option DNSRecordSet)
  | OpEnableNodes (nodes : list Node)
  | OpDisableNodes (nodes : list Node)
  | OpStart.

(** Where the goroutine [run] is: not started or returned, before its first
    reconciliation, or in its [select] with the timer set. *)
Inductive pc : Type :=
  | Idle
  | Starting
  | Selecting (timer : Time).

Section system.
Context {W : Type} `{!IPEnv W, !IPGhost W}.
Implicit Types (c : ipController) (w : W).

Definition exec (o : op) : M ipController W unit :=
  match o with
  | OpUpdateProviders prov dnsProv region coolOff =>
      modify (λ c, (ipController.updateProviders prov dnsProv region coolOff c).2)
  | OpUpdateIPs ips n => ipController.updateIPs ips n
  | OpUpdateDNSSpec dns => modify (ipController.updateDNSSpec dns)
  | OpEnableNodes nodes => ipController.EnableNodes nodes
  | OpDisableNodes nodes => ipController.DisableNodes nodes
  | OpStart => modify ipController.start
  end.

(** What the callers guarantee: a provider is set, before the goroutine is
    started; the specification wants no negative number of addresses, and
    lists addresses that exist and that the controller is not about to add. *)
Definition allowed (o : op) c w : Prop :=
  match o with
  | OpUpdateProviders prov _ _ _ => is_Some prov
  | OpUpdateIPs ips n =>
      (0 ≤ n)%Z ∧ ∀ ip, ip ∈ elems ips → ip ∈ allocated w ∧ ip ∉ i_pendingIPs c
  | OpStart => is_Some (i_provider c)
  | _ => True
  end.

(** Reconcile, then set the timer. *)
Definition iterate : M ipController W Time :=
  ipController.reconcile ;;
  d ← ipController.retryTimerDuration;
  now ← call time_Now;
  mret (Add now d).

(** The goroutine follows [i_running]: [start] starts it, [stop] waits for it
    to return. *)
Definition follow (p : pc) c : pc :=
  if i_running c then match p with Idle => Starting | _ => p end else Idle.

Inductive step : pc * ipController * W → pc * ipController * W → Prop :=
  | step_op o p c w c' w' :
      allowed o c w → exec o c w = Ret (tt, c', w') →
      step (p, c, w) (follow p c', c', w')
  | step_first c w c' w' t :
      iterate c w = Ret (t, c', w') → step (Starting, c, w) (Selecting t, c', w')
  | step_poke t c w c' w' t' :
      i_poked c = true → iterate (c <| i_poked := false |>) w = Ret (t', c', w') →
      step (Selecting t, c, w) (Selecting t', c', w')
  | step_timer t c w now w1 c' w' t' :
      time_Now w = (now, w1) → (t ≤ now)%Z → iterate c w1 = Ret (t', c', w') →
      step (Selecting t, c, w) (Selecting t', c', w')
  | step_world p c w w' :
      allocated w ⊆ allocated w' → step (p, c, w) (p, c, w').

Definition initial f g h w : pc * ipController * W :=
  (Idle, ipController.newIPController f g h, w).
Definition reachable (s : pc * ipController * W) : Prop :=
  ∃ f g h w, rtc step (initial f g h w) s.
End system.

Section invariant.
Context `{IPEnvLaws W}.
Implicit Types (c : ipController) (w : W).

(** The invariant, and the goroutine has a provider while it runs. *)
Definition SysInv (s : pc * ipController * W) : Prop :=
  let '(p, c, w) := s in
  Inv c w ∧ (i_running c = true → is_Some (i_provider c)) ∧
  (p ≠ Idle → i_running c = true).

Lemma exec_inv o c w :
  Inv c w → allowed o c w → wp False (exec o) (λ _, Inv) c w.
Proof.
  intros HI Ha. destruct o; cbn [exec].
  - wp_steps. by apply updateProviders_inv.
  - destruct Ha. by apply updateIPs_inv.
  - wp_steps. by apply updateDNSSpec_inv.
  - by apply EnableNodes_inv.
  - by apply DisableNodes_inv.
  - wp_steps. unfold ipController.start. by destruct (i_running c).
Qed.

(** What only [updateProviders] and [start] assign. *)
Definition running c := (i_provider c, i_running c).

Lemma frame_exec o :
  match o with OpUpdateProviders _ _ _ _ | OpStart => True
          | _ => frame running (exec (W := W) o) end.
Proof.
  destruct o as [| ips n | dns | nodes | nodes |]; cbn [exec]; try done; solve_frame.
  unfold ipController.updateDNSSpec. case_bool_decide; [done|].
  destruct dns as [d|]; [|done]. by destruct (_ || _).
Qed.

Lemma updateProviders_running prov dnsProv region coolOff c :
  let c' := (ipController.updateProviders prov dnsProv region coolOff c).2 in
  is_Some prov → (i_running c = true → is_Some (i_provider c)) →
  i_running c' = true → is_Some (i_provider c').
Proof.
  cbn. unfold ipController.updateProviders. intros Hp Hc.
  destruct (_ || _); (destruct (_ =? _)%Z; cbn [negb]; [|destruct (negb _)]); cbn; auto.
Qed.

Lemma exec_running o c w c' w' :
  exec o c w = Ret (tt, c', w') → allowed o c w →
  (i_running c = true → is_Some (i_provider c)) →
  i_running c' = true → is_Some (i_provider c').
Proof.
  intros He Ha Hc. pose proof (frame_exec o) as Hf.
  assert (running c' = running c → i_running c' = true → is_Some (i_provider c')) as Hsame.
  { unfold running. intros [= -> ->]. exact Hc. }
  destruct o; cbn [exec] in *; try (specialize (Hf c w); rewrite He in Hf; by apply Hsame).
  - injection He as <- <-. by apply updateProviders_running.
  - injection He as <- <-. unfold ipController.start. cbn in Ha. by destruct (i_running c).
Qed.

Lemma iterate_inv E c w :
  Inv c w → is_Some (i_provider c) →
  E ∨ (alive w ∧ (is_Some (i_dns c) → is_Some (i_dnsProvider c))) →
  wp E iterate (λ _ c' w', Inv c' w' ∧ config c' = config c) c w.
Proof.
  intros HI Hp HE. unfold iterate. wp_step.
  eapply wp_mono; [|by apply reconcile_inv].
  intros _ c' w' [HI' Hc']. unfold ipController.retryTimerDuration. by go.
Qed.

Lemma iterate_step c w t c' w' :
  iterate c w = Ret (t, c', w') → Inv c w → is_Some (i_provider c) → i_running c = true →
  SysInv (Selecting t, c', w').
Proof.
  intros He HI Hp Hr. pose proof (iterate_inv True c w HI Hp) as Hwp.
  unfold wp in Hwp. rewrite He in Hwp. destruct Hwp as [HI' Hc']; [by left|].
  assert (i_provider c' = i_provider c ∧ i_running c' = i_running c) as [Hp' Hr']
    by (unfold config in Hc'; by injection Hc').
  cbn. rewrite Hp', Hr'. done.
Qed.

Lemma step_inv s s' : step s s' → SysInv s → SysInv s'.
Proof.
  intros Hs. destruct Hs as [o p c w c' w' Ha He|c w c' w' t He|t c w c' w' t' Hpk He
    |t c w now w1 c' w' t' Ht Hle He|p c w w' Hg]; intros (HI & Hr & Hp).
  - split_and!.
    + pose proof (exec_inv o c w HI Ha) as Hwp. unfold wp in Hwp. by rewrite He in Hwp.
    + by eapply exec_running.
    + unfold follow. by destruct (i_running c').
  - apply (iterate_step c w t c' w'); auto.
  - apply (iterate_step (c <| i_poked := false |>) w t' c' w'); auto. 
  - apply (iterate_step c w1 t' c' w'); auto.
    eapply Inv_grow; [|exact HI]. pose proof (time_Now_quiet w) as [Hg _].
    by rewrite Ht in Hg.
  - split_and!; [by eapply Inv_grow|done..].
Qed.

Lemma initial_inv f g h w : SysInv (initial f g h w).
Proof. split_and!; [apply new_inv|done|done]. Qed.

Lemma reachable_inv s : reachable s → SysInv s.
Proof.
  intros (f & g & h & w & Hs). pose proof (initial_inv f g h w) as HI. revert HI.
  induction Hs as [|s1 s2 s3 H12 _ IH]; [done|]. intros HI. by apply IH, (step_inv s1).
Qed.
End invariant.

(** ** Properties *)

(** C1: whatever the interleaving of the goroutine with the operations of the
    other goroutines and with the provider, the controller's records stay
    consistent: the cached claims agree with the statuses, so no address is
    recorded for two nodes; the assignment queues hold no duplicates, only
    addresses that are managed and only nodes that are active; every managed
    address is listed and exists; and every back-off record can be continued. *)
Theorem reachable_consistent `{IPEnvLaws W} (p : pc) (c : ipController) (w : W) :
  reachable (p, c, w) →
  Inv c w ∧
  (∀ n n' ip, i_providerIDToIP c !! n = Some ip → i_providerIDToIP c !! n' = Some ip →
     ip ≠ "" → n = n') ∧
  NoDup (os_list (i_assignableIPs c)) ∧ NoDup (os_list (i_assignableNodes c)).
Proof.
  intros (HI & _ & _)%reachable_inv. split_and!; [done| |apply os_list_nodup, HI..].
  intros n n' ip. apply (claim_inj (i_ipToStatus c)), HI.
Qed.

(** C6: in a reachable state no operation panics or hangs: an allowed operation
    of another goroutine returns; an iteration of the goroutine returns if the
    context is not canceled and a DNS provider accompanies the DNS record. *)
Theorem reachable_no_panic `{IPEnvLaws W} (p : pc) (c : ipController) (w : W) :
  reachable (p, c, w) →
  (∀ o, allowed o c w → ∃ c' w', exec o c w = Ret (tt, c', w')) ∧
  (p ≠ Idle → alive w → (is_Some (i_dns c) → is_Some (i_dnsProvider c)) →
     ∃ t c' w', iterate c w = Ret (t, c', w')).
Proof.
  intros (HI & Hr & Hp)%reachable_inv. split.
  - intros o Ha. pose proof (exec_inv o c w HI Ha) as Hwp. unfold wp in Hwp.
    destruct (exec o c w) as [[[[] c'] w']| |]; [by eauto|done..].
  - intros Hpc Hl Hd. pose proof (iterate_inv False c w HI (Hr (Hp Hpc))) as Hwp.
    unfold wp in Hwp. destruct (iterate c w) as [[[t c'] w']| |]; [by eauto|..];
      exfalso; apply Hwp; by right.
Qed.

(** ** A run

    The operations of [ops], one after the other, each checked to be allowed. *)
Module Example.
Definition cb : option Ref := Some 1%positive.
Definition prov : option Ref := Some 2%positive.
Definition dns : DNSRecordSet :=
  {| dns_Provider := ""; dns_Zone := "example.com"; dns_RecordName := "pool"; dns_TTL := 0 |}.
Definition nodes : list Node := [example_node "a" "do://1"; example_node "b" "do://2"].
Definition ops : list op :=
  [OpUpdateProviders prov prov "nyc3" 0; OpUpdateIPs (Some ["10.0.0.1"; "10.0.0.2"]) 3;
   OpUpdateDNSSpec (Some dns); OpEnableNodes nodes; OpStart].

Definition state : Type := pc * ipController * Sim.
Definition allowed_dec (o : op) (c : ipController) (w : Sim) : bool :=
  match o with
  | OpUpdateProviders prov _ _ _ => bool_decide (is_Some prov)
  | OpUpdateIPs ips n =>
      (0 <=? n)%Z && bool_decide (Forall (λ ip, ip ∈ sim_allocated w ∧ ip ∉ i_pendingIPs c)
                                    (elems ips))
  | OpStart => bool_decide (is_Some (i_provider c))
  | _ => true
  end.
Definition run_op (s : state) (o : op) : option state :=
  let '(p, c, w) := s in
  if allowed_dec o c w then
    match exec o c w with
    | Ret (_, c', w') => Some (follow p c', c', w')
    | _ => None
    end
  else None.
Definition run_ops (ops : list op) (s : state) : option state :=
  foldl (λ s o, s ← s; run_op s o) (Some s) ops.

Lemma allowed_dec_ok o c w : allowed_dec o c w = true → allowed o c w.
Proof.
  destruct o; cbn; try done; try (by intros ?%bool_decide_eq_true).
  intros [Hn Hips%bool_decide_eq_true]%andb_true_iff. split; [lia|].
  by apply Forall_forall.
Qed.

Lemma run_ops_steps ops s s' : run_ops ops s = Some s' → rtc step s s'.
Proof.
  unfold run_ops. revert s. induction ops as [|o ops IH]; intros s; cbn.
  { by intros [= ->]. }
  assert (∀ l, foldl (λ s o, s ← s; run_op s o) None l = None) as Hnone
    by (induction l; cbn; congruence).
  destruct s as [[p c] w]; cbn. destruct (allowed_dec o c w) eqn:Ha; [|by rewrite Hnone].
  destruct (exec o c w) as [[[[] c'] w']| |] eqn:He; rewrite ?Hnone; try done.
  intros Hr. eapply rtc_l; [apply (step_op o)|by apply IH]; [by apply allowed_dec_ok|done].
Qed.

(** The controller before its first reconciliation. *)
Definition before (w : Sim) : state :=
  default (initial cb cb cb w) (run_ops ops (initial cb cb cb w)).
Definition ctl : ipController := (before sim0).1.2.
Definition world : Sim := (before sim0).2.
(** The same in a world whose context was canceled. *)
Definition canceled : Sim := (before (sim0 <| sim_live := Some 0 |>)).2.

Lemma reachable_ctl : reachable (Starting, ctl, world).
Proof.
  exists cb, cb, cb, sim0. apply (run_ops_steps ops). vm_compute. reflexivity.
Qed.
Lemma ctl_inv : Inv ctl world.
Proof. by destruct (reachable_inv _ reachable_ctl) as [? _]. Qed.
Lemma reachable_canceled : reachable (Starting, ctl, canceled).
Proof.
  exists cb, cb, cb, (sim0 <| sim_live := Some 0 |>). apply (run_ops_steps ops).
  vm_compute. reflexivity.
Qed.
(** And after it, and after a second one. *)
Definition after_first : ipController * Sim := ran (iterate ctl world) (ctl, world).
Lemma reachable_first : ∃ t, reachable (Selecting t, after_first.1, after_first.2).
Proof.
  destruct reachable_ctl as (f & g & h & w & Hs). eexists. exists f, g, h, w.
  eapply rtc_r; [exact Hs|]. apply step_first. vm_compute. reflexivity.
Qed.
Lemma first_inv : Inv after_first.1 after_first.2.
Proof. destruct reachable_first as [t Hr]. by destruct (reachable_inv _ Hr) as [? _]. Qed.
End Example.

Lemma reachable_consistent_witness :
  ∃ t, reachable (Selecting t, Example.after_first.1, Example.after_first.2) ∧
  sim_trace Example.after_first.2 = [("10.0.0.3", "do://1"); ("10.0.0.2", "do://2")] ∧
  ∀ n n' ip, i_providerIDToIP Example.after_first.1 !! n = Some ip →
    i_providerIDToIP Example.after_first.1 !! n' = Some ip → ip ≠ "" → n = n'.
Proof.
  destruct Example.reachable_first as [t Hr]. exists t. split; [exact Hr|].
  split; [vm_compute; reflexivity|]. apply (reachable_consistent _ _ _ Hr).
Defined.

Lemma reachable_no_panic_witness :
  reachable (Starting, Example.ctl, Example.world) ∧
  (∃ c' w', exec (OpDisableNodes Example.nodes) Example.ctl Example.world = Ret (tt, c', w')).
Proof.
  split; [exact Example.reachable_ctl|].
  apply (reachable_no_panic _ _ _ Example.reachable_ctl). exact I.
Defined.

