(* ===== verification/IPAssign.v ===== *)
(** * Assignment

    What one attempt to assign an address does, and which attempts a pass of
    [reconcileAssignment] makes. *)
From S2P Require Import Prelude Go Retry OrderedSet K8s Types Provider IPController.
From S2P Require Import IPInvariant IPReconcile Sim IPSystem.

(** The outcome of handing [ip], whose status was [s], to node [p]: [failed]
    tells whether the pair is to be queued again. *)
Record assign_outcome (ip p : string) (s : ipStatus) (c : ipController) (failed : bool)
    (c' : ipController) : Prop := {
  ao_names : i_providerIDToNodeName c' = i_providerIDToNodeName c;
  ao_ipq : i_assignableIPs c' = i_assignableIPs c;
  ao_nodeq : i_assignableNodes c' = i_assignableNodes c;
  ao_status : ∃ s', i_ipToStatus c' = <[ip := s']> (i_ipToStatus c) ∧
    retry_ok (s_retry s') ∧ s_nodeProviderID s' = (if failed then "" else p) ∧
    s_state s' = (if failed then IPStateError else IPStateInProgress) ∧
    s_assignments s' = (s_assignments s + (if failed then 0 else 1))%Z ∧
    s_assignmentErrors s' = (s_assignmentErrors s + (if failed then 1 else 0))%Z;
  ao_claims : i_providerIDToIP c' =
    if failed then delete p (delete (s_nodeProviderID s) (i_providerIDToIP c))
    else <[p := ip]> (delete (s_nodeProviderID s) (i_providerIDToIP c));
  ao_retries : if failed
    then ∃ r, i_providerIDToRetry c' = <[p := r]> (i_providerIDToRetry c)
    else i_providerIDToRetry c' = delete p (i_providerIDToRetry c);
  ao_cooloff : if failed then i_nextAssignment c' = i_nextAssignment c
    else ∃ now, i_nextAssignment c' = Add now (i_assignmentCoolOff c) ∧ (0 < now)%Z;
}.

Section assign.
Context `{IPEnvLaws W}.
Implicit Types (c : ipController) (w : W) (ip p : string).

(** What follows the call leaves the outcome as it is. *)
Lemma outcome_tail ip p s c failed c1 c2 s1 t :
  i_ipToStatus c1 !! ip = Some s1 → assign_outcome ip p s c failed c1 →
  i_providerIDToNodeName c2 = i_providerIDToNodeName c1 →
  i_assignableIPs c2 = i_assignableIPs c1 → i_assignableNodes c2 = i_assignableNodes c1 →
  i_ipToStatus c2 = <[ip := s1 <| s_retry ::= λ r, r <| nextRetry := t |> |>]>
                      (i_ipToStatus c1) →
  i_providerIDToIP c2 = i_providerIDToIP c1 →
  i_providerIDToRetry c2 = i_providerIDToRetry c1 →
  i_nextAssignment c2 = i_nextAssignment c1 →
  assign_outcome ip p s c failed c2.
Proof.
  intros Hs1 [] Hn Hq Hnq Hst2 Hcl Hr Hna. destruct ao_status0 as (s' & Hst & Hrest).
  assert (s' = s1) as -> by (rewrite Hst, lookup_insert_eq in Hs1; by simplify_eq).
  split; rewrite ?Hn, ?Hq, ?Hnq, ?Hcl, ?Hr, ?Hna; try done.
  exists (s1 <| s_retry ::= λ r, r <| nextRetry := t |> |>).
  split; [by rewrite Hst2, Hst, insert_insert_eq|]. by destruct failed.
Qed.

(** The record once the claim is staked, before the provider is called. *)
Definition staked ip p s c : ipController :=
  c <| i_providerIDToIP := <[p := ip]> (delete (s_nodeProviderID s) (i_providerIDToIP c)) |>
    <| i_ipToStatus := <[ip := s <| s_nodeProviderID := p |>]> (i_ipToStatus c) |>.

Lemma assigned_outcome ip p s c w :
  wp False (ipController.assigned ip p)
    (λ _ c1 w1, assign_outcome ip p s c false c1 ∧ assign_trace w1 = assign_trace w)
    (staked ip p s c) w.
Proof.
  unfold ipController.assigned, staked. go.
  pose proof (env_now_pos w) as Hpos. rewrite Hcall in Hpos. cbn in Hpos.
  split; [|by rewrite (quiet_trace _ _ Hgrow0), (quiet_trace _ _ Hgrow)].
  split; cbn; try done; [|by exists a]. rewrite !insert_insert_eq.
  eexists; split_and!; [done|split; [apply usable_RetryFast|done]|done..|cbn; lia].
Qed.

Lemma assignFailed_outcome ip p err s c w :
  Inv c w → i_ipToStatus c !! ip = Some s → usable_error err →
  wp False (ipController.assignFailed ip p err)
    (λ _ c1 w1, assign_outcome ip p s c true c1 ∧ assign_trace w1 = assign_trace w)
    (staked ip p s c) w.
Proof.
  intros HI Hs Herr. unfold ipController.assignFailed, usable_error, staked in *.
  destruct (inv_status_ok c w ip s HI Hs) as [_ Hatt].
  destruct (retry_for_ok c w p err HI Herr) as [Hu Ha].
  go; [exact Ha|]. split; [|by rewrite (quiet_trace _ _ Hgrow)].
  split; cbn; try done; [| |by eexists].
  - rewrite !insert_insert_eq. eexists; split_and!; [done|by split|done..|cbn; lia|done].
  - by rewrite delete_insert_eq.
Qed.
Lemma assignOne_outcome ip p s c w :
  i_ipToStatus c !! ip = Some s → is_Some (i_provider c) → Inv c w →
  wp False (ipController.assignOne ip p)
    (λ failed c' w', assign_outcome ip p s c failed c' ∧ i_dnsDirty c' = true ∧
       assign_trace w' = assign_trace w ++ [(ip, p)]) c w.
Proof.
  intros Hs [prov Hprov] HI. unfold ipController.assignOne.
  go. eapply wp_deref_some; [exact Hprov|]. go. change (c <| i_providerIDToIP ::= _ |> <| i_ipToStatus := _ |>
    <| i_providerIDToIP ::= _ |>) with (staked ip p s c).
  apply (wp_mono _ _ (λ failed c1 w1, assign_outcome ip p s c failed c1 ∧
           assign_trace w1 = assign_trace w0)).
  - intros failed c1 w1 [Hout Ht]. go.
    destruct (ao_status _ _ _ _ _ _ Hout) as (s1 & Hst1 & [Hu Ha] & _).
    assert (i_ipToStatus c1 !! ip = Some s1) as Hs1 by (rewrite Hst1; apply lookup_insert_eq).
    go. eapply wp_note_change; [find_status| |]; go;
      (split_and!; [by eapply outcome_tail|done|
         by rewrite (quiet_trace _ _ Hgrow0), Ht, Htrace]).
  - destruct a as [e|]; [unfold is_ErrInProgress; case_bool_decide|]; wp_steps.
    + eapply wp_mono; [|by apply assigned_outcome]. by intros; go.
    + eapply wp_mono; [|eapply assignFailed_outcome; [exact HI|done|by eapply AssignIP_err]].
      by intros; go.
    + eapply wp_mono; [|by apply assigned_outcome]. by intros; go.
Qed.

(** [given c new ip p]: [AssignIP] was called for [ip] and [p], and did not
    fail. *)
Definition given c (new : list (string * string)) ip p : Prop :=
  (ip, p) ∈ new ∧
  ∃ s, i_ipToStatus c !! ip = Some s ∧ s_state s = IPStateInProgress ∧
       s_nodeProviderID s = p.

(** What the loop did so far, from [c0] and [w0]: the addresses and the nodes
    it took off the queues, the calls it made, and what it set aside. *)
Record progress (c0 : ipController) (w0 : W) (r n dip dn : list string)
    (new : list (string * string)) (c : ipController) (w : W) : Prop := {
  pr_inv : Inv c w;
  pr_stable : stable c0 c;
  pr_ipq : dip ++ os_list (i_assignableIPs c) = os_list (i_assignableIPs c0);
  pr_nodeq : dn ++ os_list (i_assignableNodes c) = os_list (i_assignableNodes c0);
  pr_new : assign_trace w = assign_trace w0 ++ new;
  pr_sub_ip : new.*1 `sublist_of` dip;
  pr_sub_node : new.*2 `sublist_of` dn;
  pr_left_ip : ∀ ip, ip ∈ dip → ip ∈ r ∨ ∃ p, given c new ip p;
  pr_left_node : ∀ p, p ∈ dn → p ∈ n ∨ ∃ ip, given c new ip p;
  pr_nodup : NoDup (os_list (i_assignableIPs c0));
}.

Arguments pr_inv {_ _ _ _ _ _ _ _ _} _.
Arguments pr_stable {_ _ _ _ _ _ _ _ _} _.
Arguments pr_ipq {_ _ _ _ _ _ _ _ _} _.
Arguments pr_nodeq {_ _ _ _ _ _ _ _ _} _.
Arguments pr_new {_ _ _ _ _ _ _ _ _} _.
Arguments pr_sub_ip {_ _ _ _ _ _ _ _ _} _.
Arguments pr_sub_node {_ _ _ _ _ _ _ _ _} _.
Arguments pr_left_ip {_ _ _ _ _ _ _ _ _} _.
Arguments pr_left_node {_ _ _ _ _ _ _ _ _} _.
Arguments pr_nodup {_ _ _ _ _ _ _ _ _} _.

Lemma progress_start c w : Inv c w → progress c w [] [] [] [] [] c w.
Proof.
  intros HI. split; try done; try set_solver; [by rewrite app_nil_r|].
  apply os_list_nodup, (inv_ipq_wf HI).
Qed.

Lemma progress_quiet c0 w0 r n dip dn new c w w' :
  progress c0 w0 r n dip dn new c w → quiet w w' → progress c0 w0 r n dip dn new c w'.
Proof.
  intros [] Hq. split; try done; [by eapply Inv_grow; [apply Hq|]|].
  by rewrite (quiet_trace _ _ Hq).
Qed.

Lemma progress_timer c0 w0 r n dip dn new c w t :
  progress c0 w0 r n dip dn new c w →
  progress c0 w0 r n dip dn new (c <| i_nextRetry := t |>) w.
Proof. intros []. split; try done. etrans; [done|solve_stable]. Qed.

Lemma pop_app (d l : list string) x : d ++ x :: l = (d ++ [x]) ++ l.
Proof. by rewrite <- app_assoc. Qed.

Lemma left_app (d r : list string) x (P : string → Prop) :
  (∀ y, y ∈ d → y ∈ r ∨ P y) → ∀ y, y ∈ d ++ [x] → y ∈ r ++ [x] ∨ P y.
Proof. intros Hd y. rewrite !elem_of_app. intros [Hy|Hy]; [|by auto]. apply Hd in Hy. tauto. Qed.

Lemma progress_skip_ip c0 w0 r n dip dn new c w ip l :
  progress c0 w0 r n dip dn new c w → os_list (i_assignableIPs c) = ip :: l →
  progress c0 w0 (r ++ [ip]) n (dip ++ [ip]) dn new
    (c <| i_assignableIPs := (orderedSet.Front (i_assignableIPs c)).2 |>) w.
Proof.
  intros [] Hl. destruct (Front_cons _ ip l (inv_ipq_wf pr_inv0) Hl) as (_ & Hl2 & _).
  split; cbn; try done.
  - by eapply inv_ipq_pop.
  - etrans; [done|solve_stable].
  - by rewrite Hl2, <- pop_app, <- Hl.
  - by apply sublist_inserts_r.
  - by apply left_app.
Qed.

Lemma progress_skip_node c0 w0 r n dip dn new c w p l :
  progress c0 w0 r n dip dn new c w → os_list (i_assignableNodes c) = p :: l →
  progress c0 w0 r (n ++ [p]) dip (dn ++ [p]) new
    (c <| i_assignableNodes := (orderedSet.Front (i_assignableNodes c)).2 |>) w.
Proof.
  intros [] Hl. destruct (Front_cons _ p l (inv_nodeq_wf pr_inv0) Hl) as (_ & Hl2 & _).
  split; cbn; try done.
  - by eapply inv_nodeq_pop.
  - etrans; [done|solve_stable].
  - by rewrite Hl2, <- pop_app, <- Hl.
  - by apply sublist_inserts_r.
  - by apply left_app.
Qed.

(** An earlier assignment is not disturbed by the next one. *)
Lemma given_next c0 w0 r n dip dn new c w ip l p ip' p' t c' :
  progress c0 w0 r n dip dn new c w → os_list (i_assignableIPs c) = ip :: l →
  i_ipToStatus c' = <[ip := t]> (i_ipToStatus c) → given c new ip' p' →
  given c' (new ++ [(ip, p)]) ip' p'.
Proof.
  intros [] Hl Hst (Hin & s' & Hs' & Hrest). split; [set_solver|].
  exists s'. split; [|done]. rewrite Hst.
  rewrite lookup_insert_ne; [done|]. intros <-.
  assert (ip ∈ dip) as Hd.
  { eapply elem_of_submseteq; [|by apply sublist_submseteq].
    apply list_elem_of_fmap. by exists (ip, p'). }
  assert (NoDup (dip ++ ip :: l)) as Hnd by by rewrite <- Hl, pr_ipq0.
  apply NoDup_app in Hnd as (_ & Hnd & _). eapply Hnd; [done|by left].
Qed.

Lemma given_last ip p s c c' new :
  assign_outcome ip p s c false c' → given c' (new ++ [(ip, p)]) ip p.
Proof.
  intros Hout. split; [set_solver|].
  destruct (ao_status _ _ _ _ _ _ Hout) as (t & -> & _ & Hn & Hst & _).
  exists t. by rewrite lookup_insert_eq.
Qed.

Lemma progress_assign c0 w0 r n dip dn new c w ip l p l' :
  progress c0 w0 r n dip dn new c w → is_Some (i_provider c0) →
  os_list (i_assignableIPs c) = ip :: l → os_list (i_assignableNodes c) = p :: l' →
  let c1 := c <| i_assignableIPs := (orderedSet.Front (i_assignableIPs c)).2 |>
              <| i_assignableNodes := (orderedSet.Front (i_assignableNodes c)).2 |> in
  wp False (ipController.assignOne ip p)
    (λ (failed : bool) c' w',
       progress c0 w0 (if failed then r ++ [ip] else r) (if failed then n ++ [p] else n)
         (dip ++ [ip]) (dn ++ [p]) (new ++ [(ip, p)]) c' w' ∧
       i_assignableIPs c' = i_assignableIPs c1 ∧
       i_assignableNodes c' = i_assignableNodes c1 ∧
       ∃ s, assign_outcome ip p s c1 failed c') c1 w.
Proof.
  intros Hpr Hprov Hl Hl' c1.
  pose proof (progress_skip_node _ _ _ _ _ _ _ _ _ p l' (progress_skip_ip _ _ _ _ _ _ _ _ _ ip l Hpr Hl) Hl') as Hpr1.
  pose proof (pr_inv Hpr) as HI. pose proof (pr_inv Hpr1) as HI1.
  destruct (inv_ipq HI ip) as [s Hs]; [rewrite Hl; by left|].
  assert (is_Some (i_provider c1)) as Hprov1.
  { change (is_Some (i_provider c)).
    by rewrite (config_provider _ _ (stable_config _ _ (pr_stable Hpr))). }
  pose proof (requeueable_fronts c w ip l p l' HI Hl Hl') as [_ Hact].
  eapply wp_mono; [|apply wp_and;
    [apply (assignOne_inv ip p); [by eexists|by apply Hact, list_elem_of_here|done|done]
    |by eapply (assignOne_outcome ip p s)]].
  intros failed c2 w2 [(HI2 & Hst2 & [Hq2 Hn2]) (Hout & _ & Ht)].
  split_and!; [|done..|by exists s].
  assert (∀ ip' p', given c new ip' p' → given c2 (new ++ [(ip, p)]) ip' p') as Hgiven.
  { intros ip' p' Hg. destruct (ao_status _ _ _ _ _ _ Hout) as (t & Ht' & _).
    by eapply (given_next _ _ _ _ _ _ _ c w ip l). }
  destruct Hpr1. split; try done.
  - by etrans.
  - by rewrite Hq2.
  - by rewrite Hn2.
  - by rewrite Ht, pr_new0, app_assoc.
  - rewrite fmap_app. apply sublist_app; [|done]. apply Hpr.
  - rewrite fmap_app. apply sublist_app; [|done]. apply Hpr.
  - intros y [Hy|Hy%list_elem_of_singleton]%elem_of_app.
    + apply (pr_left_ip Hpr) in Hy as [Hy|[p' Hp']]; [|eauto].
      left. destruct failed; set_solver.
    + subst y. destruct failed; [left; set_solver|]. right. exists p. by eapply given_last.
  - intros y [Hy|Hy%list_elem_of_singleton]%elem_of_app.
    + apply (pr_left_node Hpr) in Hy as [Hy|[p' Hp']]; [|eauto].
      left. destruct failed; set_solver.
    + subst y. destruct failed; [left; set_solver|]. right. exists ip. by eapply given_last.
Qed.

Lemma loop_progress c0 w0 fuel :
  length (os_list (i_assignableIPs c0)) < fuel → Inv c0 w0 → is_Some (i_provider c0) →
  wp False (ipController.assignLoop fuel [] [])
    (λ q c w, ∃ dip dn new, progress c0 w0 q.1 q.2 dip dn new c w) c0 w0.
Proof.
  intros Hf HI0 Hprov. eapply wp_mono; last first.
  - apply (assignLoop_rule (λ r n c w, ∃ dip dn new, progress c0 w0 r n dip dn new c w));
      [..|done|by exists [], [], []; apply progress_start].
    + by intros r n c w (? & ? & ? & []).
    + intros r n c w w' (? & ? & ? & Hpr) Hq. eauto using progress_quiet.
    + intros r n c w t (? & ? & ? & Hpr). eauto using progress_timer.
    + intros r n c w ip l s (? & ? & ? & Hpr) Hl _ _. eauto using progress_skip_ip.
    + intros r n c w ip l p l' (? & ? & ? & Hpr) Hl Hl' _.
      pose proof (progress_skip_ip _ _ _ _ _ _ _ _ _ ip l Hpr Hl) as Hpr1.
      do 3 eexists. exact (progress_skip_node _ _ _ _ _ _ _ _ _ p l' Hpr1 Hl').
    + intros r n c w ip l p l' (? & ? & ? & Hpr) Hl Hl' c1.
      eapply wp_mono; [|by eapply progress_assign].
      intros failed c2 w2 (Hpr2 & Hq2 & _). eauto.
  - by intros q c w [? _].
Qed.

(** With nothing in back-off, no iteration is skipped. *)
Definition unhindered c : Prop :=
  (∀ ip s, ip ∈ os_list (i_assignableIPs c) → i_ipToStatus c !! ip = Some s →
     s_state s ≠ IPStateError) ∧
  (∀ p, p ∈ os_list (i_assignableNodes c) → i_providerIDToRetry c !! p = None).

Lemma unhindered_next ip l p l' s failed c c' :
  os_wf (i_assignableIPs c) → os_wf (i_assignableNodes c) →
  os_list (i_assignableIPs c) = ip :: l → os_list (i_assignableNodes c) = p :: l' →
  unhindered c →
  let c1 := c <| i_assignableIPs := (orderedSet.Front (i_assignableIPs c)).2 |>
              <| i_assignableNodes := (orderedSet.Front (i_assignableNodes c)).2 |> in
  assign_outcome ip p s c1 failed c' → unhindered c'.
Proof.
  intros Hwf Hwf' Hl Hl' [H1 H2] c1 Hout.
  pose proof (os_list_nodup _ Hwf) as Hnd. pose proof (os_list_nodup _ Hwf') as Hnd'.
  rewrite Hl in Hnd. rewrite Hl' in Hnd'.
  apply NoDup_cons in Hnd as [Hni _]. apply NoDup_cons in Hnd' as [Hni' _].
  destruct (Front_cons _ ip l Hwf Hl) as (_ & Hl2 & _).
  destruct (Front_cons _ p l' Hwf' Hl') as (_ & Hl2' & _).
  destruct Hout. destruct ao_status0 as (t & Ht & _). split.
  - intros x s' Hx. rewrite ao_ipq0 in Hx. cbn in Hx. rewrite Hl2 in Hx. rewrite Ht.
    assert (ip ≠ x) by (intros ->; done). rewrite lookup_insert_ne by done. cbn.
    apply H1. rewrite Hl. by right.
  - intros x Hx. rewrite ao_nodeq0 in Hx. cbn in Hx. rewrite Hl2' in Hx.
    assert (p ≠ x) as Hne by (intros ->; done).
    assert (i_providerIDToRetry c !! x = None) as Hc by (apply H2; rewrite Hl'; by right).
    destruct failed; [destruct ao_retries0 as [r Hr]; rewrite Hr|rewrite ao_retries0];
      by rewrite ?lookup_insert_ne, ?lookup_delete_ne by done.
Qed.

Lemma loop_unhindered c0 w0 fuel :
  length (os_list (i_assignableIPs c0)) < fuel → Inv c0 w0 → is_Some (i_provider c0) →
  unhindered c0 →
  wp False (ipController.assignLoop fuel [] [])
    (λ q c w, (∃ dip dn new, progress c0 w0 q.1 q.2 dip dn new c w ∧
                 new = zip dip dn ∧ length dip = length dn) ∧
              (alive w0 → i_assignmentCoolOff c = 0%Z → drained c)) c0 w0.
Proof.
  intros Hf HI0 Hprov Hun. eapply wp_mono; last first.
  - apply (assignLoop_rule (λ r n c w, unhindered c ∧ (alive w0 → alive w) ∧ ∃ dip dn new,
             progress c0 w0 r n dip dn new c w ∧ new = zip dip dn ∧ length dip = length dn));
      [..|done|by split_and!; [..|exists [], [], []; split; [apply progress_start|]]].
    + by intros r n c w (_ & _ & ? & ? & ? & [] & _).
    + intros r n c w w' (? & ? & ? & ? & ? & Hpr & ?) Hq.
      pose proof (quiet_alive _ _ Hq). split_and!; [done|by auto|].
      eauto 10 using progress_quiet.
    + intros r n c w t (? & ? & ? & ? & ? & Hpr & ?). split_and!; [done..|].
      eauto 10 using progress_timer.
    + intros r n c w ip l s ([H1 _] & _) Hl Hs Herr. exfalso.
      eapply H1; [|done..]. rewrite Hl. by left.
    + intros r n c w ip l p l' ([_ H2] & _) Hl Hl' Hr. exfalso.
      rewrite H2 in Hr; [by destruct Hr|]. rewrite Hl'. by left.
    + intros r n c w ip l p l' (Hun1 & Hal & dip & dn & new & Hpr & -> & Hlen) Hl Hl' c1.
      eapply wp_mono; [|apply wp_preserves; [apply assignOne_alive|by eapply progress_assign]].
      intros failed c2 w2 [(Hpr2 & Hq2 & Hn2 & s & Hout) Hal2]. split; [|done].
      pose proof (pr_inv Hpr) as HI. split_and!; [|by auto|].
      * by eapply (unhindered_next ip l p l' s failed c); [apply HI|apply HI|..].
      * do 3 eexists. split; [exact Hpr2|]. split; [|by rewrite !length_app, Hlen].
        by rewrite zip_with_app.
  - intros q c w [(_ & Hal & Hpr) Hd]. split; [done|]. intros Hw Hc. apply Hd; [done|].
    intros w1 (_ & Hal1 & _). by apply Hal1.
Qed.

Lemma Len_list o : orderedSet.Len o = length (os_list o).
Proof. unfold os_list, orderedSet.Len. by rewrite length_fmap. Qed.

(** With the cool-off set and not over, the loop does nothing. *)
Lemma loop_cooloff fuel c w :
  Inv c w → i_assignmentCoolOff c ≠ 0%Z →
  (∀ b w1 now w2, ctx_Err w = (b, w1) → env_now w1 = (now, w2) →
     (now ≤ i_nextAssignment c)%Z) →
  wp False (ipController.assignLoop (S fuel) [] [])
    (λ q c' w', q = ([], []) ∧ assign_trace w' = assign_trace w ∧
       ∃ t, c' = c <| i_nextRetry := t |>) c w.
Proof.
  intros HI Hc Hnow. cbn [ipController.assignLoop].
  assert (∃ t, c = c <| i_nextRetry := t |>) as Hsame
    by (exists (i_nextRetry c); by destruct c).
  go. destruct (_ || _); [by go|]. go. destruct a.
  { go. by rewrite (quiet_trace _ _ Hgrow). }
  go. specialize (Hnow _ _ _ _ Hcall Hcall0). apply After_false in Hnow.
  rewrite Hnow. destruct (Z.eqb_spec (i_assignmentCoolOff c) 0) as [|_]; [done|].
  cbn [negb andb]. go. split_and!; [done| |by eexists].
  by rewrite (quiet_trace _ _ Hgrow0), (quiet_trace _ _ Hgrow).
Qed.
End assign.
Arguments pr_inv {_ _ _ _ _ _ _ _ _ _ _} _.
Arguments pr_stable {_ _ _ _ _ _ _ _ _ _ _} _.
Arguments pr_ipq {_ _ _ _ _ _ _ _ _ _ _} _.
Arguments pr_nodeq {_ _ _ _ _ _ _ _ _ _ _} _.
Arguments pr_new {_ _ _ _ _ _ _ _ _ _ _} _.
Arguments pr_sub_ip {_ _ _ _ _ _ _ _ _ _ _} _.
Arguments pr_sub_node {_ _ _ _ _ _ _ _ _ _ _} _.
Arguments pr_left_ip {_ _ _ _ _ _ _ _ _ _ _} _.
Arguments pr_left_node {_ _ _ _ _ _ _ _ _ _ _} _.
Arguments pr_nodup {_ _ _ _ _ _ _ _ _ _ _} _.

(** ** Properties *)

(** C7: a pass of [reconcileAssignment] calls [AssignIP] only for managed
    addresses and active nodes that are waiting, takes both queues from the front
    on, and hands out no address twice and serves no node twice. *)
Theorem assignment_in_order `{IPEnvLaws W} (c : ipController) (w : W) :
  Inv c w → is_Some (i_provider c) →
  wp False ipController.reconcileAssignment
    (λ _ _ w', ∃ new, assign_trace w' = assign_trace w ++ new ∧
       new.*1 `sublist_of` os_list (i_assignableIPs c) ∧
       new.*2 `sublist_of` os_list (i_assignableNodes c) ∧
       NoDup new.*1 ∧ NoDup new.*2 ∧
       ∀ ip n, (ip, n) ∈ new →
         ip ∈ elems (i_ips c) ∧ is_Some (i_providerIDToNodeName c !! n)) c w.
Proof.
  intros HI Hp. unfold ipController.reconcileAssignment. go.
  eapply wp_mono; [|apply (loop_progress c w); [rewrite Len_list; lia|done..]].
  intros q c' w' (dip & dn & new & Hpr). go. exists new.
  assert (new.*1 `sublist_of` os_list (i_assignableIPs c)) as H1.
  { etrans; [apply Hpr|]. rewrite <- (pr_ipq Hpr). by apply sublist_inserts_r. }
  assert (new.*2 `sublist_of` os_list (i_assignableNodes c)) as H2.
  { etrans; [apply Hpr|]. rewrite <- (pr_nodeq Hpr). by apply sublist_inserts_r. }
  split_and!; [apply Hpr|done|done|..].
  - eapply sublist_NoDup; [|done]. apply os_list_nodup, HI.
  - eapply sublist_NoDup; [|done]. apply os_list_nodup, HI.
  - intros ip n Hin. split.
    + apply (inv_dom HI), (inv_ipq HI). eapply elem_of_submseteq; [|by apply sublist_submseteq].
      apply list_elem_of_fmap. by exists (ip, n).
    + apply (inv_nodeq HI). eapply elem_of_submseteq; [|by apply sublist_submseteq].
      apply list_elem_of_fmap. by exists (ip, n).
Qed.

(** C8: no address and no node gets lost in a pass of [reconcileAssignment]:
    what was waiting is still waiting, or was assigned without an error in this
    pass and its status is in progress. *)
Theorem assignment_loses_nothing `{IPEnvLaws W} (c : ipController) (w : W) :
  Inv c w → is_Some (i_provider c) →
  wp False ipController.reconcileAssignment
    (λ _ c' w', ∃ new, assign_trace w' = assign_trace w ++ new ∧
       (∀ ip, ip ∈ os_list (i_assignableIPs c) →
          ip ∈ os_list (i_assignableIPs c') ∨ ∃ n, given c' new ip n) ∧
       (∀ n, n ∈ os_list (i_assignableNodes c) →
          n ∈ os_list (i_assignableNodes c') ∨ ∃ ip, given c' new ip n)) c w.
Proof.
  intros HI Hp. unfold ipController.reconcileAssignment. go.
  eapply wp_mono; [|apply (loop_progress c w); [rewrite Len_list; lia|done..]].
  intros q c' w' (dip & dn & new & Hpr). go. exists new. pose proof (pr_inv Hpr) as HI'.
  destruct (Add_all_elem q.1 false (i_assignableIPs c') (inv_ipq_wf HI')) as [_ Hips].
  destruct (Add_all_elem q.2 false (i_assignableNodes c') (inv_nodeq_wf HI')) as [_ Hnodes].
  split_and!; [apply Hpr|..]; cbn; intros x; rewrite ?Hips, ?Hnodes.
  - rewrite <- (pr_ipq Hpr). intros [Hx|Hx]%elem_of_app; [|by auto].
    destruct (pr_left_ip Hpr x Hx) as [?|[n Hn]]; [by auto|right; by exists n].
  - rewrite <- (pr_nodeq Hpr). intros [Hx|Hx]%elem_of_app; [|by auto].
    destruct (pr_left_node Hpr x Hx) as [?|[ip Hip]]; [by auto|right; by exists ip].
Qed.

(** If nothing is in back-off, no cool-off is configured and nobody cancels
    the context, the pass makes exactly the calls that pair the waiting addresses
    with the waiting nodes, first with first. *)
Theorem assignment_pairs `{IPEnvLaws W} (c : ipController) (w : W) :
  Inv c w → is_Some (i_provider c) → unhindered c → i_assignmentCoolOff c = 0%Z →
  alive w →
  wp False ipController.reconcileAssignment
    (λ _ _ w', assign_trace w' = assign_trace w ++
       zip (os_list (i_assignableIPs c)) (os_list (i_assignableNodes c))) c w.
Proof.
  intros HI Hp Hun Hc Hal. unfold ipController.reconcileAssignment. go.
  eapply wp_mono; [|apply (loop_unhindered c w); [rewrite Len_list; lia|done..]].
  intros q c' w' [(dip & dn & new & Hpr & -> & Hlen) Hd]. go.
  rewrite (pr_new Hpr), <- (pr_ipq Hpr), <- (pr_nodeq Hpr). f_equal.
  rewrite zip_with_app by done.
  destruct Hd as [->| ->]; [done| |by rewrite app_nil_r..|].
  - pose proof (stable_config _ _ (pr_stable Hpr)) as Hcfg. unfold config in Hcfg. congruence.
  - by rewrite zip_with_nil_r, app_nil_r.
Qed.


(** The cool-off between assignments is kept: while it is not over no
    [AssignIP] is called, the queues are left as they are, and a pass is due no
    later than its end. *)
Theorem cooloff_respected `{IPEnvLaws W} (c : ipController) (w : W) :
  Inv c w → i_assignmentCoolOff c ≠ 0%Z →
  (∀ b w1 now w2, ctx_Err w = (b, w1) → env_now w1 = (now, w2) →
     (now ≤ i_nextAssignment c)%Z) →
  wp False ipController.reconcileAssignment
    (λ _ c' w', assign_trace w' = assign_trace w ∧
       i_assignableIPs c' = i_assignableIPs c ∧ i_assignableNodes c' = i_assignableNodes c)
    c w.
Proof.
  intros HI Hc Hnow. unfold ipController.reconcileAssignment. go.
  eapply wp_mono; [|by apply loop_cooloff].
  intros q c' w' (-> & Ht & t & ->). by go.
Qed.

(** ** Witnesses: the run of [IPSystem.Example], with its queues filled *)
Module AssignExample.
Definition fill : M ipController Sim unit :=
  ipController.reconcileDesiredIPs ;; ipController.reconcilePendingIPs ;;
  ipController.reconcileIPStatus.
Definition queued : ipController * Sim :=
  ran (fill Example.ctl Example.world) (Example.ctl, Example.world).

Lemma queued_inv : Inv queued.1 queued.2.
Proof.
  destruct (reachable_inv _ Example.reachable_ctl) as (HI & _).
  assert (wp False fill (λ _, Inv) Example.ctl Example.world) as Hwp.
  { unfold fill. wp_step. eapply wp_mono; [|apply reconcileDesiredIPs_inv; [done|by vm_compute; eauto]].
    intros _ c1 w1 [HI1 Hc1]. wp_step.
    eapply wp_mono; [|by apply reconcilePendingIPs_inv].
    intros _ c2 w2 [HI2 Hc2].
    eapply wp_mono; [|apply reconcileIPStatus_inv; [done|]].
    - by intros _ c3 w3 (HI3 & _).
    - rewrite (config_provider _ _ Hc2), (config_provider _ _ Hc1). by vm_compute; eauto. }
  unfold wp in Hwp. unfold queued. by destruct (fill _ _) as [[[[] c'] w']| |].
Qed.

Lemma queued_provider : is_Some (i_provider queued.1).
Proof. vm_compute. eauto. Qed.
Lemma queued_unhindered : unhindered queued.1.
Proof.
  split; [|by intros p _; vm_compute].
  assert (map_Forall (λ _ s, s_state s ≠ IPStateError) (i_ipToStatus queued.1)) as Hall.
  { apply (bool_decide_unpack _). vm_compute. exact I. }
  intros ip s _ Hs. exact (Hall ip s Hs).
Qed.

(** The pass from there, and the same with a cool-off that lasts. *)
Definition pass : ipController * Sim :=
  ran (ipController.reconcileAssignment queued.1 queued.2) queued.
Definition cooling (q : ipController * Sim) : ipController :=
  q.1 <| i_assignmentCoolOff := 20 * Second |>%Z
      <| i_nextAssignment := 2000 * Second |>%Z.
Lemma cooling_inv q : Inv q.1 q.2 → Inv (cooling q) q.2.
Proof. intros HI. exact HI. Qed.
Definition cooled : ipController * Sim :=
  ran (ipController.reconcileAssignment (cooling queued) queued.2) queued.
Lemma cooling_now q :
  sim_live q.2 = None → sim_time q.2 = (1000 * Second)%Z →
  ∀ b w1 now w2, ctx_Err q.2 = (b, w1) → env_now w1 = (now, w2) →
    (now ≤ i_nextAssignment (cooling q))%Z.
Proof.
  intros Hl Ht b w1 now w2. cbn. unfold sim_ctx_Err, sim_now. rewrite Hl.
  intros [= <- <-]. rewrite Ht. intros [= <- <-]. done.
Qed.
(** One attempt, with a provider that refuses. *)
Definition refusing (q : ipController * Sim) : Sim :=
  q.2 <| sim_assign_error := Some ErrNodeInUse |>.
Lemma refusing_inv q : Inv q.1 q.2 → Inv q.1 (refusing q).
Proof. intros HI. exact HI. Qed.
Definition waiting : ipStatus :=
  default zero_ipStatus (i_ipToStatus queued.1 !! "10.0.0.3").
Definition refused : ipController * Sim :=
  ran (ipController.assignOne "10.0.0.3" "do://1" queued.1 (refusing queued)) queued.
End AssignExample.

Lemma assignment_in_order_witness :
  os_list (i_assignableIPs AssignExample.queued.1) = ["10.0.0.3"; "10.0.0.2"; "10.0.0.1"] ∧
  ∃ new, assign_trace AssignExample.pass.2 = assign_trace AssignExample.queued.2 ++ new ∧
    NoDup new.*1 ∧ NoDup new.*2.
Proof.
  split; [vm_compute; reflexivity|].
  destruct (wp_ran _ _ _ _ AssignExample.queued
    (assignment_in_order _ _ AssignExample.queued_inv AssignExample.queued_provider))
    as (_ & new & Ht & _ & _ & H1 & H2 & _).
  exists new. split_and!; [exact Ht|exact H1|exact H2].
Defined.

Lemma assignment_loses_nothing_witness :
  os_list (i_assignableIPs AssignExample.pass.1) = ["10.0.0.1"] ∧
  ∃ new, ∀ ip, ip ∈ os_list (i_assignableIPs AssignExample.queued.1) →
    ip ∈ os_list (i_assignableIPs AssignExample.pass.1) ∨
    ∃ n, given AssignExample.pass.1 new ip n.
Proof.
  split; [vm_compute; reflexivity|].
  destruct (wp_ran _ _ _ _ AssignExample.queued
    (assignment_loses_nothing _ _ AssignExample.queued_inv AssignExample.queued_provider))
    as (_ & new & _ & H1 & _).
  exists new. exact H1.
Defined.

Lemma assignment_pairs_witness :
  assign_trace AssignExample.pass.2 = [("10.0.0.3", "do://1"); ("10.0.0.2", "do://2")].
Proof.
  destruct (wp_ran _ _ _ _ AssignExample.queued
    (assignment_pairs _ _ AssignExample.queued_inv AssignExample.queued_provider
       AssignExample.queued_unhindered eq_refl eq_refl)) as [_ Ht].
  exact Ht.
Defined.


Lemma cooloff_respected_witness :
  assign_trace AssignExample.cooled.2 = [] ∧
  os_list (i_assignableIPs AssignExample.cooled.1) = ["10.0.0.3"; "10.0.0.2"; "10.0.0.1"].
Proof.
  destruct (wp_ran _ _ _ _ AssignExample.queued
    (cooloff_respected (AssignExample.cooling AssignExample.queued) _
       (AssignExample.cooling_inv _ AssignExample.queued_inv) ltac:(vm_compute; discriminate)
       (AssignExample.cooling_now AssignExample.queued ltac:(vm_compute; reflexivity)
          ltac:(vm_compute; reflexivity))))
    as (_ & Ht & Hq & _).
  split; [exact Ht|]. vm_compute. reflexivity.
Defined.
