(* ===== verification/IPSpec.v ===== *)
(** * What the operations of the IP controller do

    The functional behaviour of the operations, branch by branch: the addresses
    of a specification, the active nodes, the provider's answers, the DNS record
    and the published status. *)
From S2P Require Import Prelude Go Retry OrderedSet K8s Types Provider IPController.
From S2P Require Import IPInvariant IPReconcile Sim IPSystem IPAssign.

(** ** Active nodes *)
Section nodes.
Context `{IPEnvLaws W}.
Implicit Types (c : ipController) (w : W) (p : string).

(** The active nodes after [nodes] were enabled, and after they were disabled:
    a node that is active keeps its name, and a node without a provider ID is
    ignored. *)
Definition enabled (names : gmap string string) (nodes : list Node) : gmap string string :=
  foldl (λ m n, if bool_decide (node_ProviderID n = "") then m
                else match m !! node_ProviderID n with
                     | Some _ => m
                     | None => <[node_ProviderID n := node_Name n]> m
                     end) names nodes.
Definition disabled_nodes (names : gmap string string) (nodes : list Node) :
    gmap string string :=
  foldl (λ m n, delete (node_ProviderID n) m) names nodes.

(** [p] waits for an address, or the address it had is being confirmed. *)
Definition served c p : Prop :=
  p ∈ os_list (i_assignableNodes c) ∨
  ∃ ip s, i_providerIDToIP c !! p = Some ip ∧ ip ≠ "" ∧ (ip ∉ os_list (i_assignableIPs c)) ∧
    i_ipToStatus c !! ip = Some s ∧ s_nodeProviderID s = p ∧
    s_state s = IPStateInProgress.
(** [p] waits for nothing, and the address it has may be given away. *)
Definition released c p : Prop :=
  (p ∉ os_list (i_assignableNodes c)) ∧
  ∀ ip, i_providerIDToIP c !! p = Some ip → ip ≠ "" →
    ip ∈ os_list (i_assignableIPs c) ∧
    ∃ s, i_ipToStatus c !! ip = Some s ∧ s_nodeProviderID s = p ∧
      s_state s = IPStateNoMatch.

Record enable_step c (n : Node) c' : Prop := {
  en_names : i_providerIDToNodeName c' = enabled (i_providerIDToNodeName c) [n];
  en_toIP : i_providerIDToIP c' = i_providerIDToIP c;
  en_served : ∀ p, (p = node_ProviderID n → is_Some (i_providerIDToNodeName c !! p)) →
    served c p → served c' p;
  en_new : i_providerIDToNodeName c !! node_ProviderID n = None → node_ProviderID n ≠ "" →
    served c' (node_ProviderID n);
}.

Lemma enableNode_spec b n c w :
  Inv c w →
  wp False (ipController.enableNode b n) (λ _ c' w', Inv c' w' ∧ enable_step c n c') c w.
Proof.
  intros HI. eapply wp_mono; [|apply wp_and; [by apply enableNode_inv|]].
  { intros b' c' w' [HI' Hn]. split; [exact HI'|exact Hn]. }
  unfold ipController.enableNode.
  case_bool_decide as Hp.
  { go. split; cbn; try done. by rewrite bool_decide_true. }
  go. destruct (i_providerIDToNodeName c !! _) as [name|] eqn:Hname.
  { go. split; cbn; rewrite ?Hname; try done. by rewrite bool_decide_false. }
  go. case_bool_decide as Hip; cbn in Hip.
  - go. split; cbn; rewrite ?Hname; try done.
    + by rewrite bool_decide_false.
    + intros p _ [Hq|Hs]; [left|by right]. cbn. rewrite Add_list, Queue_add_elem by apply HI.
      by right.
    + intros _ _. left. cbn. rewrite Add_list, Queue_add_elem by apply HI. by left.
  - destruct (map_get_claim c w _ HI Hip) as (s & Hs & Hn). cbn. go.
    set (x := map_get (i_providerIDToIP c) (node_ProviderID n)) in *.
    destruct (Delete_list (i_assignableIPs c) x (inv_ipq_wf HI)) as (Hq & _ & _).
    pose proof (map_get_Some _ _ Hip) as Hx. fold x in Hx.
    split; cbn; rewrite ?Hname; try done.
    + by rewrite bool_decide_false.
    + intros p Hpn [?|(ip & s' & Hpip & Hne' & Hiq & Hs' & Hn' & Hst')]; [by left|right].
      exists ip, s'. cbn. rewrite Hq, Queue_remove_elem.
      assert (p ≠ node_ProviderID n) as Hne
        by (intros Heq; destruct (Hpn Heq) as [? ?]; congruence).
      assert (x ≠ ip) as Hxne.
      { intros <-. apply Hne. eapply (claim_inj (i_ipToStatus c)); [apply HI|done..]. }
      rewrite lookup_insert_ne by done. split_and!; [done|done|by intros []|done..].
    + intros _ _. right. exists x. eexists. cbn. rewrite Hq, Queue_remove_elem.
      rewrite lookup_insert_eq. split_and!; [done|done|by intros []|done|done|done].
Qed.

Record disable_step c (n : Node) c' : Prop := {
  di_names : i_providerIDToNodeName c' = disabled_nodes (i_providerIDToNodeName c) [n];
  di_toIP : i_providerIDToIP c' = i_providerIDToIP c;
  di_released : ∀ p, (p = node_ProviderID n → i_providerIDToNodeName c !! p = None) →
    released c p → released c' p;
  di_new : is_Some (i_providerIDToNodeName c !! node_ProviderID n) →
    released c' (node_ProviderID n);
}.

Lemma disableNode_spec b n c w :
  Inv c w →
  wp False (ipController.disableNode b n) (λ _ c' w', Inv c' w' ∧ disable_step c n c') c w.
Proof.
  intros HI. eapply wp_mono; [|apply wp_and; [by apply disableNode_inv|]].
  { intros b' c' w' [HI' Hn]. split; [exact HI'|exact Hn]. }
  unfold ipController.disableNode.
  case_bool_decide as Hp.
  { go. split; cbn; [by rewrite Hp, delete_id by apply HI|done|done|].
    rewrite Hp, (inv_names HI). by intros []. }
  go. destruct (i_providerIDToNodeName c !! _) as [name|] eqn:Hname.
  2: { go. split; cbn; rewrite ?Hname; [by rewrite delete_id|done|done|by intros []]. }
  destruct (Delete_list (i_assignableNodes c) (node_ProviderID n) (inv_nodeq_wf HI))
    as (Hnq & _ & _).
  go. case_bool_decide as Hip; cbn in Hip.
  - go. split; cbn; try done.
    + intros p _ [Hq Hs]. split; cbn; [|done].
      rewrite Hnq, Queue_remove_elem. by intros [].
    + intros _. split; cbn; [rewrite Hnq, Queue_remove_elem; by intros []|].
      intros ip Hx Hne. unfold map_get in Hip. by rewrite Hx in Hip.
  - destruct (map_get_claim c w _ HI Hip) as (s & Hs & Hn). cbn. go.
    set (x := map_get (i_providerIDToIP c) (node_ProviderID n)) in *.
    pose proof (map_get_Some _ _ Hip) as Hx. fold x in Hx.
    split; cbn; try done.
    + intros p Hpn [Hq Hrel]. split; cbn; [rewrite Hnq, Queue_remove_elem; by intros []|].
      assert (p ≠ node_ProviderID n) as Hne by (intros Heq; specialize (Hpn Heq); congruence).
      intros ip Hpip Hne'. destruct (Hrel ip Hpip Hne') as (Hiq & s' & Hs' & Hrest).
      rewrite Add_list, Queue_add_elem by apply HI. split; [by right|].
      assert (x ≠ ip) as Hxne.
      { intros <-. apply Hne. eapply (claim_inj (i_ipToStatus c)); [apply HI|done..]. }
      rewrite lookup_insert_ne by done. eauto.
    + intros _. split; cbn; [rewrite Hnq, Queue_remove_elem; by intros []|].
      intros ip Hpip _. rewrite Hx in Hpip. injection Hpip as <-.
      rewrite Add_list, Queue_add_elem by apply HI. split; [by left|].
      eexists. rewrite lookup_insert_eq. done.
Qed.

Lemma enabled_app names l n : enabled names (l ++ [n]) = enabled (enabled names l) [n].
Proof. unfold enabled. by rewrite foldl_app. Qed.
Lemma disabled_app names l n :
  disabled_nodes names (l ++ [n]) = disabled_nodes (disabled_nodes names l) [n].
Proof. unfold disabled_nodes. by rewrite foldl_app. Qed.

(** Which nodes are active after [enabled] and [disabled_nodes]. *)
Lemma enabled_active names l p :
  is_Some (enabled names l !! p) ↔
  is_Some (names !! p) ∨ p ≠ "" ∧ p ∈ node_ProviderID <$> l.
Proof.
  induction l as [|n l IH] using rev_ind.
  { cbn. rewrite elem_of_nil. tauto. }
  rewrite enabled_app, fmap_app, elem_of_app.
  change (node_ProviderID <$> [n]) with [node_ProviderID n].
  rewrite list_elem_of_singleton. cbn.
  case_bool_decide as Hn; [rewrite IH; naive_solver|].
  destruct (enabled names l !! node_ProviderID n) eqn:He.
  - assert (is_Some (enabled names l !! node_ProviderID n)) as Hs by eauto.
    rewrite IH. destruct (decide (p = node_ProviderID n)) as [->|]; [rewrite IH in Hs|]; tauto.
  - rewrite lookup_insert_is_Some', IH. naive_solver.
Qed.
Lemma disabled_lookup names l p :
  disabled_nodes names l !! p = if decide (p ∈ node_ProviderID <$> l) then None else names !! p.
Proof.
  induction l as [|n l IH] using rev_ind; [done|].
  rewrite disabled_app, fmap_app. change (node_ProviderID <$> [n]) with [node_ProviderID n].
  cbn. destruct (decide (p = node_ProviderID n)) as [->|Hne].
  - rewrite lookup_delete_eq, decide_True; [done|]. apply elem_of_app. right. by left.
  - rewrite lookup_delete_ne, IH by done. apply decide_ext.
    rewrite elem_of_app, list_elem_of_singleton. naive_solver.
Qed.

Lemma poke_wp (b : bool) (Q : ipController → W → Prop) c w :
  Q c w → Q (ipController.poke c) w →
  wp False (when b (modify ipController.poke)) (λ _, Q) c w.
Proof. intros H1 H2. by apply wp_when; intros _; wp_steps. Qed.
End nodes.

Lemma EnableNodes_spec `{IPEnvLaws W} (nodes : list Node) (c : ipController) (w : W) :
  Inv c w →
  wp False (ipController.EnableNodes nodes)
    (λ _ c' w', Inv c' w' ∧
       i_providerIDToNodeName c' = enabled (i_providerIDToNodeName c) nodes ∧
       ∀ p, i_providerIDToNodeName c !! p = None →
         is_Some (i_providerIDToNodeName c' !! p) → served c' p) c w.
Proof.
  intros HI. unfold ipController.EnableNodes. wp_step.
  eapply wp_mono; [|apply (wp_for_fold_prefix _ (λ done _ c' w', Inv c' w' ∧
      i_providerIDToNodeName c' = enabled (i_providerIDToNodeName c) done ∧
      ∀ p, i_providerIDToNodeName c !! p = None →
         is_Some (i_providerIDToNodeName c' !! p) → served c' p))].
  - intros b c' w' Hc'. apply poke_wp; exact Hc'.
  - split_and!; [done..|]. intros p ->. by intros [].
  - intros done n todo b c1 w1 Hd (HI1 & Hn1 & Hs1).
    eapply wp_mono; [|by apply enableNode_spec].
    intros b' c2 w2 (HI2 & []). split_and!; [done|by rewrite enabled_app, <- Hn1|].
    intros p Hp Hp2. rewrite en_names0, enabled_active in Hp2.
    destruct (i_providerIDToNodeName c1 !! p) as [name|] eqn:H1.
    + apply en_served0; [by rewrite H1|]. apply Hs1; [done|]. by rewrite H1.
    + destruct Hp2 as [[]|[Hp0 Hpn%list_elem_of_singleton]]; [done|]. subst p.
      by apply en_new0.
Qed.

(** C28: [EnableNodes] makes the named nodes active - those with a provider ID,
    a node that was active keeping its name - and forgets about no newly active
    node: it waits for an address, or the address it used to have is withdrawn
    from the queue and awaits confirmation. *)
Theorem EnableNodes_serves `{IPEnvLaws W} (nodes : list Node) (c : ipController) (w : W) :
  Inv c w →
  wp False (ipController.EnableNodes nodes)
    (λ _ c' w', Inv c' w' ∧
       i_providerIDToNodeName c' = enabled (i_providerIDToNodeName c) nodes ∧
       ∀ p, i_providerIDToNodeName c !! p = None →
         is_Some (i_providerIDToNodeName c' !! p) → served c' p) c w.
Proof. apply EnableNodes_spec. Qed.

Lemma DisableNodes_spec `{IPEnvLaws W} (nodes : list Node) (c : ipController) (w : W) :
  Inv c w →
  wp False (ipController.DisableNodes nodes)
    (λ _ c' w', Inv c' w' ∧
       (∀ p, i_providerIDToNodeName c' !! p =
          if decide (p ∈ node_ProviderID <$> nodes) then None
          else i_providerIDToNodeName c !! p) ∧
       i_providerIDToIP c' = i_providerIDToIP c ∧
       ∀ p, p ∈ node_ProviderID <$> nodes → is_Some (i_providerIDToNodeName c !! p) →
         released c' p) c w.
Proof.
  intros HI. unfold ipController.DisableNodes. wp_step.
  eapply wp_mono; [|apply (wp_for_fold_prefix _ (λ done _ c' w', Inv c' w' ∧
      i_providerIDToNodeName c' = disabled_nodes (i_providerIDToNodeName c) done ∧
      i_providerIDToIP c' = i_providerIDToIP c ∧
      ∀ p, p ∈ node_ProviderID <$> done → is_Some (i_providerIDToNodeName c !! p) →
         released c' p))].
  - intros b c' w' (HI' & Hn & Hip & Hrel).
    assert (∀ p, i_providerIDToNodeName c' !! p =
      if decide (p ∈ node_ProviderID <$> nodes) then None
      else i_providerIDToNodeName c !! p) as Hnames
      by (intros p; by rewrite Hn, disabled_lookup).
    apply poke_wp; by split_and!.
  - split_and!; [done..|]. intros p Hp. by apply elem_of_nil in Hp.
  - intros done n todo b c1 w1 Hd (HI1 & Hn1 & Hip1 & Hrel1).
    eapply wp_mono; [|by apply disableNode_spec].
    intros b' c2 w2 (HI2 & []).
    split_and!; [done|by rewrite disabled_app, <- Hn1|congruence|].
    intros p Hp Hact. rewrite fmap_app in Hp.
    destruct (i_providerIDToNodeName c1 !! p) as [name|] eqn:H1.
    + assert (p ∉ node_ProviderID <$> done) as Hnd.
      { intros Hin. rewrite Hn1, disabled_lookup, decide_True in H1; done. }
      apply elem_of_app in Hp as [Hp|Hp%list_elem_of_singleton]; [done|]. subst p.
      apply di_new0. by rewrite H1.
    + apply di_released0; [done|]. apply Hrel1; [|done].
      destruct (decide (p ∈ node_ProviderID <$> done)) as [|Hnd]; [done|].
      rewrite Hn1, disabled_lookup, decide_False in H1 by done.
      rewrite H1 in Hact. by destruct Hact.
Qed.

(** C29: [DisableNodes] makes exactly the named nodes inactive: none of them
    waits for an address any more, and the address one of them holds is queued
    to be given away, still recorded as held. *)
Theorem DisableNodes_releases `{IPEnvLaws W} (nodes : list Node) (c : ipController) (w : W) :
  Inv c w →
  wp False (ipController.DisableNodes nodes)
    (λ _ c' w', Inv c' w' ∧
       (∀ p, i_providerIDToNodeName c' !! p =
          if decide (p ∈ node_ProviderID <$> nodes) then None
          else i_providerIDToNodeName c !! p) ∧
       i_providerIDToIP c' = i_providerIDToIP c ∧
       ∀ p, p ∈ node_ProviderID <$> nodes → is_Some (i_providerIDToNodeName c !! p) →
         released c' p) c w.
Proof. apply DisableNodes_spec. Qed.

(** ** Addresses of the specification *)

(** C25: [updateIPs] leaves exactly the specification's addresses under
    management, up to the wanted number, and disables the rest: a kept address
    keeps its status, a dropped one is forgotten - it is not queued, nobody
    claims it - and the active node that had it waits for another one. *)
Theorem updateIPs_manages `{IPEnvLaws W} (ips : slice string) (n : Z) (c : ipController)
    (w : W) :
  (0 ≤ n)%Z → (∀ ip, ip ∈ elems ips → ip ∈ allocated w ∧ ip ∉ i_pendingIPs c) → Inv c w →
  wp False (ipController.updateIPs ips n)
    (λ _ c' w', Inv c' w' ∧ updated ips n c c' ∧
       elems ips = managed ips n ++ disabled ips n ∧
       (∀ ip, ip ∈ os_list (i_assignableIPs c') → ip ∈ managed ips n) ∧
       ∀ ip p, i_providerIDToIP c' !! p = Some ip → ip ≠ "" → ip ∈ managed ips n) c w.
Proof.
  intros Hn Hips HI. eapply wp_mono; [|by apply updateIPs_spec].
  intros _ c' w' [HI' Hup].
  assert (∀ ip, is_Some (i_ipToStatus c' !! ip) → ip ∈ managed ips n) as Hdom.
  { intros ip Hs. rewrite <- (up_ips _ _ _ _ Hup). by apply (inv_dom HI'). }
  split_and!; [done|done|..].
  - unfold managed, disabled. destruct (_ =? _)%Z; [by rewrite app_nil_r|].
    by rewrite take_drop.
  - intros ip Hin. by apply Hdom, (inv_ipq HI').
  - intros ip p Hp Hne. destruct (inv_claim HI' p ip Hp) as [_ Hs].
    destruct (Hs Hne) as (s & Hst & _). apply Hdom. eauto.
Qed.

(** ** The provider's answers *)

(** The state of an address that node [p], or none, holds. *)
Definition held_state (names : gmap string string) (p : string) : IPState :=
  if decide (p = "") then IPStateUnassigned
  else if decide (map_get names p = "") then IPStateNoMatch else IPStateActive.

(** The record moves from node [s_nodeProviderID s] to node [p]. *)
Record adopted (ip p : string) (s : ipStatus) (c c' : ipController) : Prop := {
  ad_names : i_providerIDToNodeName c' = i_providerIDToNodeName c;
  ad_status : ∃ s', i_ipToStatus c' !! ip = Some s' ∧ s_nodeProviderID s' = p;
  ad_ipq : ∀ x, x ∈ os_list (i_assignableIPs c) → x ∈ os_list (i_assignableIPs c');
  ad_claim : p ≠ "" → i_providerIDToIP c' !! p = Some ip;
  ad_release : i_providerIDToIP c' !! s_nodeProviderID s = None;
  ad_evicted : is_Some (i_providerIDToNodeName c !! s_nodeProviderID s) →
    s_nodeProviderID s ∈ os_list (i_assignableNodes c');
  ad_mismatch : ∀ x, i_providerIDToIP c !! p = Some x → x ≠ "" → x ≠ ip →
    x ∈ os_list (i_assignableIPs c') ∧
    i_ipToStatus c' !! x = Some ipController.mismatchStatus;
}.

Lemma adoptProviderID_spec `{IPEnvLaws W} ip p s init active (c : ipController) (w : W) :
  i_ipToStatus c !! ip = Some s → s_nodeProviderID s ≠ p → Inv c w →
  wp False (ipController.adoptProviderID ip p (s_nodeProviderID s) init active)
    (λ _ c' _, adopted ip p s c c') c w.
Proof.
  intros Hs Hne HI. unfold ipController.adoptProviderID.
  pose proof (inv_ipq_wf HI) as Hwf. pose proof (inv_nodeq_wf HI) as Hwf'.
  assert (∀ x, i_providerIDToIP c !! p = Some x → map_get (i_providerIDToIP c) p = x) as Hmg
    by (intros x Hx; unfold map_get; by rewrite Hx).
  go. destruct init; [|destruct active]; go;
    (match goal with |- context [map_get ?m p] =>
       change (map_get m p) with (map_get (i_providerIDToIP c) p) end);
    (decide_bool (map_get (i_providerIDToIP c) p = "") as Hx;
       [|decide_bool (map_get (i_providerIDToIP c) p = ip) as Hxip]);
    go; (decide_bool (p = "") as Hp); go;
    (destruct (i_providerIDToNodeName _ !! _) as [name|] eqn:Hname; cbn in Hname); go.
  all: split; cbn; rewrite ?lookup_delete_eq, ?Hname; try done.
  all: lazymatch goal with
       | |- ∃ _, _ =>
           eexists; split; [rewrite ?(lookup_insert_ne _ _ ip) by done; apply lookup_insert_eq|done]
       | |- _ ≠ _ → _ =>
           intros _; rewrite lookup_delete_ne by done; apply lookup_insert_eq
       | |- is_Some _ → _ =>
           intros _; rewrite Add_elem by auto with oset; by left
       | |- ∀ x, _ ∈ _ → _ => intros x Hxq; rewrite !Add_elem by auto with oset; by auto
       | |- _ =>
           intros x Hx1%Hmg Hx2 Hx3; first
             [ congruence
             | rewrite Hx1, Add_elem by auto with oset;
               split; [by left|apply lookup_insert_eq] ]
       end.
Qed.

(** C24: when the provider says that node [p], or none, holds [ip], the record
    follows the provider: the status names [p] and is active, no-match or
    unassigned as [p] is an active node, another one or none; an address held by
    nobody is queued.  If the record said otherwise before, the claim moves to
    [p], the active node that was believed to hold [ip] waits for another
    address, and what [p] was believed to hold is queued for a new lookup. *)
Theorem lookup_follows_provider `{IPEnvLaws W} (ip p : string) (s : ipStatus) (init : bool)
    (c : ipController) (w : W) :
  Inv c w → i_ipToStatus c !! ip = Some s →
  wp False (ipController.lookupSucceeded ip p init)
    (λ _ c' w',
       (∃ s', i_ipToStatus c' !! ip = Some s' ∧ s_nodeProviderID s' = p ∧
          s_state s' = held_state (i_providerIDToNodeName c) p ∧ s_message s' = "") ∧
       (p = "" → ip ∈ os_list (i_assignableIPs c')) ∧
       (s_nodeProviderID s ≠ p →
          (p ≠ "" → i_providerIDToIP c' !! p = Some ip) ∧
          i_providerIDToIP c' !! s_nodeProviderID s = None ∧
          (is_Some (i_providerIDToNodeName c !! s_nodeProviderID s) →
             s_nodeProviderID s ∈ os_list (i_assignableNodes c')) ∧
          ∀ x, i_providerIDToIP c !! p = Some x → x ≠ "" → x ≠ ip →
            x ∈ os_list (i_assignableIPs c') ∧
            i_ipToStatus c' !! x = Some ipController.mismatchStatus)) c w.
Proof.
  intros HI Hs. unfold ipController.lookupSucceeded. go.
  set (c1 := if bool_decide (p = "")
             then c <| i_assignableIPs ::= orderedSet.Add ip true |> else c).
  apply wp_if_modify. fold c1.
  assert (Inv c1 w ∧ i_ipToStatus c1 = i_ipToStatus c ∧
          i_providerIDToIP c1 = i_providerIDToIP c ∧
          i_providerIDToNodeName c1 = i_providerIDToNodeName c ∧
          (p = "" → ip ∈ os_list (i_assignableIPs c1))) as (HI1 & Hst1 & Hip1 & Hn1 & Hq1).
  { unfold c1. case_bool_decide; [|by split_and!]. split_and!; [|done..|].
    - unfold Inv; cbn. apply inv_ipq_add; [exact HI|eauto].
    - intros _. cbn. rewrite Add_elem by apply HI. by left. }
  clearbody c1. rewrite <- Hip1, <- Hn1. rewrite <- Hst1 in Hs. clear HI Hst1 Hip1 Hn1 c.
  go. apply (wp_mono _ _ (λ _ c' _, i_providerIDToNodeName c' = i_providerIDToNodeName c1 ∧
    (∃ s', i_ipToStatus c' !! ip = Some s' ∧ s_nodeProviderID s' = p) ∧
    (p = "" → ip ∈ os_list (i_assignableIPs c')) ∧
    (s_nodeProviderID s ≠ p → adopted ip p s c1 c'))).
  - intros _ c2 w2 (Hn2 & (s2 & Hs2 & Hp2) & Hq2 & Had). go.
    split_and!; [|done|].
    + eexists. split; [apply lookup_insert_eq|]. split_and!; [done| |done].
      cbn. rewrite Hp2, Hn2. unfold held_state.
      by repeat (case_decide || case_bool_decide).
    + intros Hne. pose proof (Had Hne) as Had'. destruct Had' as [_ _ _ H1 H2 H3 H4].
      split_and!; [done..|]. intros x Hx1 Hx2 Hx3. cbn. rewrite lookup_insert_ne by done.
      by apply H4.
  - decide_bool (s_nodeProviderID s = p) as Hp.
    + go. split_and!; [done|by eexists|done|done].
    + eapply wp_mono; [|by apply (adoptProviderID_spec ip p s)].
      intros [] c2 w2 Had.
      split; [apply Had|]. split; [apply Had|]. split; [|intros _; exact Had].
      intros Hp0. by apply (ad_ipq _ _ _ _ _ Had), Hq1.
Qed.

(** ** DNS *)

(** The listed addresses whose status is active, in their order. *)
Definition is_active (c : ipController) (ip : string) : Prop :=
  s_state <$> (i_ipToStatus c !! ip) = Some IPStateActive.

#[export] Instance is_active_dec c ip : Decision (is_active c ip).
Proof. unfold is_active. apply _. Defined.

Lemma activeIPs_filter m ips :
  (∀ ip, ip ∈ ips → is_Some (m !! ip)) →
  ipController.activeIPs m ips =
    Some (filter (λ ip, s_state <$> (m !! ip) = Some IPStateActive) ips).
Proof.
  induction ips as [|ip ips IH]; intros Hall; [done|].
  rewrite filter_cons. cbn [ipController.activeIPs].
  destruct (Hall ip) as [s Hs]; [by left|]. rewrite Hs, IH by set_solver.
  cbn [mbind option_bind fmap option_fmap option_map].
  case_bool_decide as Hst; case_decide as Hd; try done; exfalso; congruence.
Qed.

(** C26: [reconcileDNS] publishes exactly the active addresses, in the order of
    the specification, with the record's zone, name and TTL; it never publishes
    an empty set, and calls the provider only if the record is due.  The record
    stays due until the provider accepts it. *)
Theorem dns_publishes_active `{IPEnvLaws W} (d : DNSRecordSet) (prov : Ref)
    (c : ipController) (w : W) :
  i_dns c = Some d → i_dnsProvider c = Some prov →
  (∀ ip, ip ∈ elems (i_ips c) → is_Some (i_ipToStatus c !! ip)) →
  let active := filter (is_active c) (elems (i_ips c)) in
  ipController.reconcileDNS c w =
    if i_dnsDirty c && negb (bool_decide (active = [])) then
      let '(err, w') :=
        EnsureDNSARecordSet prov (dns_Zone d) (dns_RecordName d) active (dns_TTL d) w in
      Ret (tt, c <| i_dnsDirty := negb (is_nil err) |>, w')
    else Ret (tt, c, w).
Proof.
  intros Hd Hp Hall active.
  unfold ipController.reconcileDNS, mbind, M_bind, gets, id. rewrite Hd.
  destruct (i_dnsDirty c) eqn:Hdirty; cbn [negb andb orb];
    [|by rewrite orb_true_r]. rewrite orb_false_r.
  case_bool_decide as Hips.
  { subst active. rewrite Hips. done. }
  rewrite (activeIPs_filter _ _ Hall). cbn [deref]. unfold mret, M_ret.
  fold (is_active c). change (filter _ (elems (i_ips c))) with active.
  case_bool_decide as Ha; [done|]. rewrite Hp. cbn [deref]. unfold mret, M_ret, call.
  destruct (EnsureDNSARecordSet _ _ _ _ _ _) as [[e|] w']; cbn; [|done].
  destruct c; cbn in *. by subst.
Qed.

(** ** The published status *)


(** ** Configuration *)

(** A provider or a region that changes starts the controller over: the
    goroutine is stopped and every record is emptied, the active nodes too; the
    match controller, which reports only changes, does not report them again.  A
    new DNS provider alone is ignored. *)
Theorem updateProviders_forgets (prov dnsProv : option Ref) (region : string)
    (coolOff : Duration) (c : ipController) :
  let c' := (ipController.updateProviders prov dnsProv region coolOff c).2 in
  if decide (i_provider c = prov ∧ i_region c = region) then
    i_dnsProvider c' = i_dnsProvider c ∧ i_ipToStatus c' = i_ipToStatus c ∧
    i_providerIDToNodeName c' = i_providerIDToNodeName c ∧ i_running c' = i_running c
  else
    i_provider c' = prov ∧ i_region c' = region ∧ i_dnsProvider c' = dnsProv ∧
    i_running c' = false ∧ i_ipToStatus c' = ∅ ∧ i_providerIDToIP c' = ∅ ∧
    i_providerIDToNodeName c' = ∅ ∧ os_list (i_assignableIPs c') = [] ∧
    os_list (i_assignableNodes c') = [].
Proof.
  cbn. unfold ipController.updateProviders. case_decide as Hd.
  - destruct Hd as [-> ->]. rewrite !bool_decide_true by done. cbn [negb orb].
    destruct (_ =? _)%Z; cbn [negb]; [|destruct (negb _)]; done.
  - replace (_ || _) with true.
    + destruct (_ =? _)%Z; cbn [negb]; [|destruct (negb _)]; done.
    + symmetry. apply orb_true_iff. rewrite !negb_true_iff, !bool_decide_eq_false.
      destruct (decide (i_provider c = prov)); [right|by left]. intros ?. by apply Hd.
Qed.

(** The record in force, once the default is filled in. *)
Definition with_TTL (d : DNSRecordSet) : DNSRecordSet :=
  {| dns_Provider := dns_Provider d; dns_Zone := dns_Zone d;
     dns_RecordName := dns_RecordName d;
     dns_TTL := if (dns_TTL d =? 0)%Z then defaultDNSTTL else dns_TTL d |}.
Lemma with_TTL_nonzero d : dns_TTL (with_TTL d) ≠ 0%Z.
Proof. cbn. by destruct (Z.eqb_spec (dns_TTL d) 0). Qed.

(** [updateDNSSpec] puts the record in force, with the default TTL if it
    gives none, and declares it due.  Once it was published, the same record
    changes nothing - unless it gives no TTL: it is compared before the default
    is filled in, so that every resync declares it due again. *)
Theorem updateDNSSpec_again (d : DNSRecordSet) (c : ipController) :
  dns_RecordName d ≠ "" → dns_Zone d ≠ "" →
  (∀ d', i_dns c = Some d' → dns_TTL d' ≠ 0%Z) →
  let c1 := ipController.updateDNSSpec (Some d) c in
  let c2 := ipController.updateDNSSpec (Some d) (c1 <| i_dnsDirty := false |>) in
  i_dns c1 = Some (with_TTL d) ∧
  (i_dns c ≠ Some d → i_dnsDirty c1 = true ∧ i_poked c1 = true) ∧
  i_dnsDirty c2 = bool_decide (dns_TTL d = 0%Z).
Proof.
  intros Hr Hz Httl.
  assert (∀ c', i_dns c' ≠ Some d → ipController.updateDNSSpec (Some d) c' =
    ipController.poke (c' <| i_dns := Some (with_TTL d) |> <| i_dnsDirty := true |>)) as Hnew.
  { intros c' Hc'. unfold ipController.updateDNSSpec.
    rewrite (bool_decide_false (Some d = i_dns c')) by congruence.
    by rewrite (bool_decide_false (dns_RecordName d = "")),
      (bool_decide_false (dns_Zone d = "")) by done. }
  assert (∀ c', i_dns c' = Some d → ipController.updateDNSSpec (Some d) c' = c') as Hsame.
  { intros c' Hc'. unfold ipController.updateDNSSpec. by rewrite bool_decide_true. }
  assert (dns_TTL d ≠ 0%Z → with_TTL d = d) as Hd.
  { intros Hne. unfold with_TTL. destruct (Z.eqb_spec (dns_TTL d) 0); [done|]. by destruct d. }
  intros c1 c2.
  assert (i_dns c1 = Some (with_TTL d)) as H1.
  { unfold c1. destruct (decide (i_dns c = Some d)) as [Heq|Hne].
    - rewrite Hsame by done. rewrite Hd; [done|by apply Httl].
    - by rewrite Hnew by done. }
  split; [exact H1|]. split; [intros Hne; unfold c1; by rewrite Hnew by done|].
  unfold c2. destruct (decide (dns_TTL d = 0%Z)) as [Ht|Ht].
  - rewrite bool_decide_true by done. rewrite Hnew; [done|]. cbn. rewrite H1.
    intros [= Heq]. apply (with_TTL_nonzero d). by rewrite Heq.
  - rewrite bool_decide_false by done. rewrite Hsame; [done|]. cbn. rewrite H1.
    by rewrite Hd.
Qed.

(** ** Witnesses *)
Module SpecExample.
Definition start : ipController * Sim := (Example.ctl, Example.world).
Definition new_node : Node := example_node "c" "do://3".
(** The nodes after the first pass: "a" and "b" hold an address each. *)
Definition more : ipController * Sim :=
  ran (ipController.EnableNodes [new_node] Example.ctl Example.world) start.
Definition less : ipController * Sim :=
  ran (ipController.DisableNodes Example.nodes Example.after_first.1 Example.after_first.2)
    start.
Definition fewer : ipController * Sim :=
  ran (ipController.updateIPs (Some ["10.0.0.2"; "10.0.0.1"]) 1
         Example.after_first.1 Example.after_first.2) start.
Lemma fewer_listed ip :
  ip ∈ ["10.0.0.2"; "10.0.0.1"] →
  ip ∈ allocated Example.after_first.2 ∧ ip ∉ i_pendingIPs Example.after_first.1.
Proof.
  assert (Forall (λ ip, ip ∈ allocated Example.after_first.2 ∧
                        ip ∉ i_pendingIPs Example.after_first.1) ["10.0.0.2"; "10.0.0.1"])
    as Hall by (apply (bool_decide_unpack _); vm_compute; exact I).
  intros Hip. rewrite Forall_forall in Hall. by apply Hall.
Qed.
Definition held : ipStatus :=
  default zero_ipStatus (i_ipToStatus Example.after_first.1 !! "10.0.0.3").
(** The provider says that "10.0.0.3" is not on "a" but on "b". *)
Definition moved : ipController * Sim :=
  ran (ipController.lookupSucceeded "10.0.0.3" "do://2" true
         Example.after_first.1 Example.after_first.2) start.

(** An hour later the new assignments are confirmed. *)
Definition confirmed : ipController :=
  (ran ((ipController.reconcileIPStatus (W := Sim)) Example.after_first.1
          (Example.after_first.2 <| sim_time := 5000 * Second |>%Z)) start).1.
Definition published : Sim :=
  (ran (ipController.reconcileDNS confirmed Example.world) start).2.
Lemma confirmed_status ip :
  ip ∈ elems (i_ips confirmed) → is_Some (i_ipToStatus confirmed !! ip).
Proof.
  assert (Forall (λ ip, is_Some (i_ipToStatus confirmed !! ip)) (elems (i_ips confirmed)))
    as Hall by (apply (bool_decide_unpack _); vm_compute; exact I).
  intros Hip. rewrite Forall_forall in Hall. by apply Hall.
Qed.
Definition dns_ttl : DNSRecordSet :=
  {| dns_Provider := ""; dns_Zone := "z"; dns_RecordName := "r"; dns_TTL := 30 |}.
End SpecExample.

Lemma EnableNodes_serves_witness :
  served SpecExample.more.1 "do://3" ∧
  os_list (i_assignableNodes SpecExample.more.1) = ["do://1"; "do://2"; "do://3"].
Proof.
  split; [|vm_compute; reflexivity].
  destruct (wp_ran _ _ _ _ SpecExample.start
    (EnableNodes_serves [SpecExample.new_node] _ _ Example.ctl_inv)) as (_ & _ & _ & Hs).
  apply Hs; vm_compute; [reflexivity|eauto].
Defined.

Lemma DisableNodes_releases_witness :
  released SpecExample.less.1 "do://1" ∧
  os_list (i_assignableIPs SpecExample.less.1) = ["10.0.0.1"; "10.0.0.3"; "10.0.0.2"].
Proof.
  split; [|vm_compute; reflexivity].
  destruct (wp_ran _ _ _ _ SpecExample.start
    (DisableNodes_releases Example.nodes _ _ Example.first_inv)) as (_ & _ & _ & _ & Hr).
  apply Hr; [by left|vm_compute; eauto].
Defined.

Lemma updateIPs_manages_witness :
  i_disabledIPs SpecExample.fewer.1 = ["10.0.0.1"] ∧
  "do://1" ∈ os_list (i_assignableNodes SpecExample.fewer.1).
Proof.
  destruct (wp_ran _ _ _ _ SpecExample.start
    (updateIPs_manages (Some ["10.0.0.2"; "10.0.0.1"]) 1 _ _ ltac:(lia)
       SpecExample.fewer_listed Example.first_inv)) as (_ & _ & Hup & _).
  split; [exact (up_disabled _ _ _ _ Hup)|].
  apply (up_nodeq _ _ _ _ Hup). right. exists "10.0.0.3", SpecExample.held.
  split_and!; [|vm_compute; reflexivity|vm_compute; reflexivity|discriminate|vm_compute; eauto].
  intros Hin. apply (bool_decide_pack _) in Hin. vm_compute in Hin. exact Hin.
Defined.

Lemma lookup_follows_provider_witness :
  i_providerIDToIP SpecExample.moved.1 !! "do://2" = Some "10.0.0.3" ∧
  "do://1" ∈ os_list (i_assignableNodes SpecExample.moved.1) ∧
  "10.0.0.2" ∈ os_list (i_assignableIPs SpecExample.moved.1).
Proof.
  destruct (wp_ran _ _ _ _ SpecExample.start
    (lookup_follows_provider "10.0.0.3" "do://2" SpecExample.held true _ _ Example.first_inv
       ltac:(vm_compute; reflexivity))) as (_ & _ & _ & Hmove).
  destruct Hmove as (H1 & _ & H2 & H3); [vm_compute; discriminate|].
  split; [by apply H1|]. split; [apply H2; vm_compute; eauto|].
  apply (H3 "10.0.0.2"); [vm_compute; reflexivity|discriminate|discriminate].
Defined.

Lemma dns_publishes_active_witness :
  sim_dns SpecExample.published !! ("example.com", "pool") = Some ["10.0.0.2"; "10.0.0.3"].
Proof.
  unfold SpecExample.published.
  rewrite (dns_publishes_active (with_TTL Example.dns) 2%positive SpecExample.confirmed
    Example.world ltac:(vm_compute; reflexivity) ltac:(vm_compute; reflexivity)
    SpecExample.confirmed_status).
  vm_compute. reflexivity.
Defined.


Lemma updateDNSSpec_again_witness :
  i_dnsDirty (ipController.updateDNSSpec (Some SpecExample.dns_ttl)
    ((ipController.updateDNSSpec (Some SpecExample.dns_ttl) Example.ctl)
       <| i_dnsDirty := false |>)) = false ∧
  i_dnsDirty (ipController.updateDNSSpec (Some Example.dns)
    ((ipController.updateDNSSpec (Some Example.dns) Example.ctl)
       <| i_dnsDirty := false |>)) = true.
Proof.
  assert (∀ d', i_dns Example.ctl = Some d' → dns_TTL d' ≠ 0%Z) as Httl
    by (vm_compute; intros d' [= <-]; discriminate).
  split.
  - destruct (updateDNSSpec_again SpecExample.dns_ttl Example.ctl
      ltac:(discriminate) ltac:(discriminate) Httl) as (_ & _ & ->). reflexivity.
  - destruct (updateDNSSpec_again Example.dns Example.ctl
      ltac:(discriminate) ltac:(discriminate) Httl) as (_ & _ & ->). reflexivity.
Defined.
