(* ===== verification/IPSync.v ===== *)
(** * The controller's records agree with a cooperative provider

    What a provider that does what it is asked promises, the agreement of the
    controller's records with it, and the operations of the other controllers
    ([EnableNodes], [DisableNodes], [updateIPs]), which keep that agreement.  The
    passes of the reconciler are in IPConverge. *)
From S2P Require Import Prelude Go Retry OrderedSet K8s Types Provider IPController.
From S2P Require Import IPInvariant IPReconcile IPSpec.

(** What [cooperative] promises: the provider answers who holds an address, a node
    holds at most one, and an address is assigned to a node that holds none, at once
    or soon. *)
Class IPCooperation (W : Type) `{IPEnvLaws W} : Prop := {
  co_alive w : cooperative w → alive w;
  co_alloc w ip : cooperative w → is_Some (holder w !! ip) → ip ∈ allocated w;
  co_value w ip : cooperative w → holder w !! ip ≠ Some "";
  co_one w x y n : cooperative w → holder w !! x = Some n → holder w !! y = Some n → x = y;
  co_lookup p ip w : cooperative w → (IPToProviderID p ip w).1 = inl (map_get (holder w) ip);
  co_create p r w ip w' : cooperative w → CreateIP p r w = (inl ip, w') → ip ≠ "";
  co_assign p ip n w : cooperative w → ip ∈ allocated w → n ≠ "" →
    (∀ x, holder w !! x ≠ Some n) →
    ((AssignIP p ip n w).1 = None ∨ (AssignIP p ip n w).1 = Some ErrInProgress) ∧
    cooperative (AssignIP p ip n w).2 ∧
    holder (AssignIP p ip n w).2 = <[ip := n]> (holder w);
}.

(** ** The records and the provider agree

    The status of an address names the node that holds it, if any; that node knows
    it; an address is queued if no active node holds it, and an active node is queued
    if it holds no address that was looked up. *)
Record SyncBody (st : gmap string ipStatus) (toIP names : gmap string string)
    (retries : gmap string retry) (ipq nodeq : list string) (held : gmap string string) : Prop := {
  sb_status : ∀ ip s, st !! ip = Some s →
    s_nodeProviderID s = map_get held ip ∧ s_state s ≠ IPStateError;
  sb_claim : ∀ ip s, st !! ip = Some s → s_nodeProviderID s ≠ "" →
    toIP !! s_nodeProviderID s = Some ip;
  sb_ipq : ∀ ip s, st !! ip = Some s → ip ∈ ipq ↔ names !! s_nodeProviderID s = None;
  sb_nodeq : ∀ p, is_Some (names !! p) → p ∈ nodeq ↔ map_get toIP p = "";
  sb_retries : retries = ∅;
}.
Arguments sb_status {_ _ _ _ _ _ _} _.
Arguments sb_claim {_ _ _ _ _ _ _} _.
Arguments sb_ipq {_ _ _ _ _ _ _} _.
Arguments sb_nodeq {_ _ _ _ _ _ _} _.
Arguments sb_retries {_ _ _ _ _ _ _} _.

Record Synced `{!IPGhost W} (c : ipController) (w : W) : Prop := {
  sy_coop : cooperative w;
  sy_body : SyncBody (i_ipToStatus c) (i_providerIDToIP c) (i_providerIDToNodeName c)
    (i_providerIDToRetry c) (os_list (i_assignableIPs c)) (os_list (i_assignableNodes c)) (holder w);
  sy_provider : is_Some (i_provider c);
  sy_cooloff : i_assignmentCoolOff c = 0%Z;
  sy_pending : ∀ ip, ip ∈ i_pendingIPs c → ip ≠ "" ∧ holder w !! ip = None;
  sy_named : "" ∉ elems (i_ips c);
  (** an active node holds no address that is not managed *)
  sy_clean : ∀ ip p, holder w !! ip = Some p → is_Some (i_providerIDToNodeName c !! p) →
    ip ∈ elems (i_ips c);
}.

(** *** Elementary changes *)
Section sync.
Context (st : gmap string ipStatus) (toIP names : gmap string string)
  (retries : gmap string retry) (ipq nodeq : list string) (held : gmap string string).
Hypothesis HS : SyncBody st toIP names retries ipq nodeq held.

Lemma sync_status ip s s' :
  st !! ip = Some s → s_nodeProviderID s' = s_nodeProviderID s → s_state s' ≠ IPStateError →
  SyncBody (<[ip := s']> st) toIP names retries ipq nodeq held.
Proof.
  intros Hs Hn Hst. pose proof (sb_status HS ip s Hs) as [Hh _].
  split; [| | |apply HS..]; intros x t [[<- <-]|[_ Ht]]%lookup_insert_Some; rewrite ?Hn; first
    [by split|by apply (sb_status HS)|by apply (sb_claim HS)|by apply (sb_ipq HS)].
Qed.
Lemma sync_ipq ipq' :
  (∀ ip, is_Some (st !! ip) → ip ∈ ipq' ↔ ip ∈ ipq) →
  SyncBody st toIP names retries ipq' nodeq held.
Proof.
  intros Hq. split; try apply HS. intros ip s Hs. rewrite Hq by eauto. by apply HS.
Qed.
(** The status of an address that was not looked up before. *)
Lemma sync_new ip s ipq' :
  st !! ip = None → s_nodeProviderID s = map_get held ip → s_state s ≠ IPStateError →
  (∀ x, x ∈ ipq' ↔ x ∈ ipq ∨ x = ip ∧ names !! map_get held ip = None) → ip ∉ ipq →
  (map_get held ip ≠ "" → toIP !! map_get held ip = Some ip) →
  SyncBody (<[ip := s]> st) toIP names retries ipq' nodeq held.
Proof.
  intros Hn Hh Hst Hq Hni Hc.
  split; [| | |apply HS..]; intros x t [[<- <-]|[Hne Ht]]%lookup_insert_Some; rewrite ?Hh;
    try first [by split|by apply (sb_status HS)|by apply (sb_claim HS)|by apply Hc].
  - rewrite Hq. naive_solver.
  - rewrite Hq, (sb_ipq HS x t Ht). naive_solver.
Qed.
(** An address that was not looked up before, held by the node [p]. *)
Lemma sync_adopt ip p s ipq' nodeq' :
  st !! ip = None → p = map_get held ip → p ≠ "" → names !! "" = None →
  s_nodeProviderID s = p → s_state s ≠ IPStateError → ip ∉ ipq → ip ≠ "" →
  (∀ x t, st !! x = Some t → s_nodeProviderID t ≠ p) →
  (∀ x, x ∈ ipq' ↔ x ∈ ipq ∨ x = ip ∧ names !! p = None) →
  (∀ x, is_Some (names !! x) → x ∈ nodeq' ↔ x ∈ nodeq ∧ x ≠ p) →
  SyncBody (<[ip := s]> st) (delete "" (<[p := ip]> toIP)) names retries ipq' nodeq' held.
Proof.
  intros Hn -> Hp Hn0 Hs Hst Hni Hip Hfree Hq Hnq. split; [| | | |apply HS].
  - intros x t [[<- <-]|[_ Ht]]%lookup_insert_Some; [by split|by apply (sb_status HS)].
  - intros x t [[<- <-]|[_ Ht]]%lookup_insert_Some Hne.
    + by rewrite Hs, lookup_delete_ne, lookup_insert_eq.
    + rewrite lookup_delete_ne, lookup_insert_ne by (done || by intros ?; eapply Hfree).
      by apply (sb_claim HS).
  - intros x t [[<- <-]|[Hne Ht]]%lookup_insert_Some; rewrite Hq.
    + rewrite Hs. naive_solver.
    + rewrite (sb_ipq HS x t Ht). naive_solver.
  - intros x Hx. rewrite Hnq, (sb_nodeq HS x Hx) by done. unfold map_get.
    assert (x ≠ "") as Hx0 by (intros ->; rewrite Hn0 in Hx; by destruct Hx).
    rewrite lookup_delete_ne by done. destruct (decide (map_get held ip = x)) as [<-|Hne].
    + rewrite lookup_insert_eq. cbn. naive_solver.
    + rewrite lookup_insert_ne by done. naive_solver.
Qed.

(** The assignment of [ip] to the waiting node [p]. *)
Lemma sync_assign ip p s s' ipq' nodeq' :
  st !! ip = Some s → names !! s_nodeProviderID s = None → is_Some (names !! p) → ip ≠ "" →
  s_nodeProviderID s' = p → s_state s' ≠ IPStateError →
  (∀ x t, st !! x = Some t → s_nodeProviderID t ≠ p) →
  (∀ x t, st !! x = Some t → s_nodeProviderID t ≠ "" → s_nodeProviderID t = s_nodeProviderID s → x = ip) →
  (∀ x, x ∈ ipq' ↔ x ∈ ipq ∧ x ≠ ip) → (∀ x, x ∈ nodeq' ↔ x ∈ nodeq ∧ x ≠ p) →
  SyncBody (<[ip := s']> st) (<[p := ip]> (delete (s_nodeProviderID s) toIP)) names (delete p retries)
    ipq' nodeq' (<[ip := p]> held).
Proof.
  intros Hs Hq Hact Hip Hn Hst Hfree Hone Hiq Hnq. split.
  - intros x t [[<- <-]|[Hne Ht]]%lookup_insert_Some; unfold map_get.
    + by rewrite lookup_insert_eq.
    + rewrite lookup_insert_ne by done. by apply (sb_status HS).
  - intros x t [[<- <-]|[Hne Ht]]%lookup_insert_Some Hne0.
    + by rewrite Hn, lookup_insert_eq.
    + rewrite lookup_insert_ne by (intros ?; by eapply Hfree).
      rewrite lookup_delete_ne by (intros Heq; by apply Hne; symmetry; eapply Hone).
      by apply (sb_claim HS).
  - intros x t [[<- <-]|[Hne Ht]]%lookup_insert_Some; rewrite Hiq.
    + rewrite Hn. destruct Hact. split; [by intros []|congruence].
    + rewrite (sb_ipq HS x t Ht). naive_solver.
  - intros x Hx. rewrite Hnq, (sb_nodeq HS x Hx). unfold map_get.
    destruct (decide (p = x)) as [<-|Hne]; [rewrite lookup_insert_eq; cbn; naive_solver|].
    rewrite lookup_insert_ne, lookup_delete_ne by (done || intros <-; rewrite Hq in Hx; by destruct Hx).
    naive_solver.
  - rewrite (sb_retries HS). apply delete_empty.
Qed.

(** The node [p] becomes active, and waits: no address is known to be its own. *)
Lemma sync_enable_waits p name nodeq' :
  (∀ x t, st !! x = Some t → s_nodeProviderID t ≠ p) → map_get toIP p = "" →
  (∀ x, x ∈ nodeq' ↔ x = p ∨ x ∈ nodeq) →
  SyncBody st toIP (<[p := name]> names) retries ipq nodeq' held.
Proof.
  intros Hfree Hw Hq. split; try apply HS.
  - intros x t Ht. rewrite lookup_insert_ne by (intros ?; by eapply Hfree). by apply (sb_ipq HS).
  - intros x Hx. rewrite Hq. destruct (decide (x = p)) as [->|Hne]; [naive_solver|].
    rewrite lookup_insert_ne in Hx by done. rewrite (sb_nodeq HS x Hx). naive_solver.
Qed.
(** Or its address is confirmed. *)
Lemma sync_enable_holds p name ip s s' ipq' :
  st !! ip = Some s → s_nodeProviderID s = p → ip ≠ "" → p ≠ "" → p ∉ nodeq →
  s_nodeProviderID s' = p → s_state s' ≠ IPStateError →
  (∀ x, x ∈ ipq' ↔ x ∈ ipq ∧ x ≠ ip) →
  SyncBody (<[ip := s']> st) toIP (<[p := name]> names) retries ipq' nodeq held.
Proof.
  intros Hs Hp Hip Hp0 Hnq Hp' Hst Hq. pose proof (sb_status HS ip s Hs) as [Hh _].
  assert (toIP !! p = Some ip) as Hc by (rewrite <- Hp; apply (sb_claim HS); by rewrite ?Hp).
  assert (∀ x t, st !! x = Some t → s_nodeProviderID t = p → x = ip) as Hone.
  { intros x t Ht Hx. assert (toIP !! p = Some x) by (rewrite <- Hx; apply (sb_claim HS); by rewrite ?Hx).
    congruence. }
  split; [| | | |apply HS].
  - intros x t [[<- <-]|[_ Ht]]%lookup_insert_Some; [split; congruence|by apply (sb_status HS)].
  - intros x t [[<- <-]|[_ Ht]]%lookup_insert_Some; [by rewrite Hp'|by apply (sb_claim HS)].
  - intros x t [[<- <-]|[Hne Ht]]%lookup_insert_Some; rewrite Hq.
    + rewrite Hp', lookup_insert_eq. naive_solver.
    + rewrite lookup_insert_ne by (intros ?; apply Hne; symmetry; by eapply Hone).
      rewrite (sb_ipq HS x t Ht). naive_solver.
  - intros x Hx. destruct (decide (x = p)) as [->|Hne].
    + unfold map_get. rewrite Hc. cbn. naive_solver.
    + rewrite lookup_insert_ne in Hx by done. by apply (sb_nodeq HS).
Qed.
(** The node [p] is not active any longer: its address, if it has one, is queued. *)
Lemma sync_disable p st' ipq' nodeq' :
  (∀ x, st' !! x = st !! x ∨ ∃ s s', st !! x = Some s ∧ st' !! x = Some s' ∧
     s_nodeProviderID s' = s_nodeProviderID s ∧ s_state s' ≠ IPStateError) →
  (∀ x t, st !! x = Some t → s_nodeProviderID t = p → x ∈ ipq') →
  (∀ x t, st !! x = Some t → s_nodeProviderID t ≠ p → x ∈ ipq' ↔ x ∈ ipq) →
  (∀ x, x ∈ nodeq' ↔ x ∈ nodeq ∧ x ≠ p) →
  SyncBody st' toIP (delete p names) retries ipq' nodeq' held.
Proof.
  intros Hst Hin Hiq Hq.
  assert (∀ x s', st' !! x = Some s' → ∃ s, st !! x = Some s ∧
    s_nodeProviderID s' = s_nodeProviderID s ∧ s_state s' ≠ IPStateError) as Hold.
  { intros x s' Hs'. destruct (Hst x) as [Heq|(s & t & Hs & Ht & Hrest)].
    - rewrite Heq in Hs'. exists s'. split_and!; [done..|by eapply (sb_status HS)].
    - exists s. simplify_eq. by split. }
  split; [| | | |apply HS].
  - intros x s' (s & Hs & -> & ?)%Hold. split; [by apply (sb_status HS)|done].
  - intros x s' (s & Hs & -> & ?)%Hold. by apply (sb_claim HS).
  - intros x s' (s & Hs & -> & ?)%Hold. destruct (decide (s_nodeProviderID s = p)) as [Heq|Hne].
    + rewrite Heq, lookup_delete_eq. split; [done|]. intros _. by eapply Hin.
    + rewrite lookup_delete_ne by done. rewrite (Hiq x s) by done. by apply (sb_ipq HS).
  - intros x [Hne Hx]%lookup_delete_is_Some. rewrite Hq, (sb_nodeq HS x Hx). naive_solver.
Qed.
(** The address [ip], which no active node holds, is not managed any longer. *)
Lemma sync_remove ip s ipq' toIP' retries' :
  st !! ip = Some s → names !! s_nodeProviderID s = None →
  (∀ x, x ≠ ip → x ∈ ipq' ↔ x ∈ ipq) →
  (∀ x t, st !! x = Some t → x ≠ ip → s_nodeProviderID t ≠ "" → toIP' !! s_nodeProviderID t = toIP !! s_nodeProviderID t) →
  (∀ x, is_Some (names !! x) → map_get toIP' x = map_get toIP x) → retries' = ∅ →
  SyncBody (delete ip st) toIP' names retries' ipq' nodeq held.
Proof.
  intros Hs Hn Hq Hc Hm Hr. split; [| | | |done].
  - intros x t [_ Ht]%lookup_delete_Some. by apply (sb_status HS).
  - intros x t [Hne Ht]%lookup_delete_Some Hne0. rewrite (Hc x t) by done. by apply (sb_claim HS).
  - intros x t [Hne Ht]%lookup_delete_Some. rewrite Hq by done. by apply (sb_ipq HS).
  - intros x Hx. rewrite Hm by done. by apply (sb_nodeq HS).
Qed.
End sync.

(** ** The operations *)
Section operations.
Context `{IPEnvLaws W, !IPCooperation W}.
Implicit Types (c : ipController) (w : W) (ip p : string).

Lemma Synced_quiet c w w' : quiet w w' → Synced c w → Synced c w'.
Proof.
  intros Hq []. destruct (quiet_coop _ _ Hq) as [Hc Hh]; [done|]. split; rewrite ?Hh; done.
Qed.

(** Synced states: an address that has a node in its status has it at the provider;
    two addresses have two nodes. *)
Lemma synced_holder c w ip s : Synced c w → i_ipToStatus c !! ip = Some s →
  s_nodeProviderID s ≠ "" → holder w !! ip = Some (s_nodeProviderID s).
Proof.
  intros HS Hs Hne. destruct (sb_status (sy_body _ _ HS) ip s Hs) as [Hn _].
  rewrite Hn in *. by apply map_get_Some.
Qed.
Lemma synced_one c w x y s t : Synced c w → i_ipToStatus c !! x = Some s →
  i_ipToStatus c !! y = Some t → s_nodeProviderID s ≠ "" → s_nodeProviderID s = s_nodeProviderID t → x = y.
Proof.
  intros HS Hs Ht Hne Heq. apply (co_one w x y (s_nodeProviderID s)); [apply HS|by eapply synced_holder|].
  rewrite Heq. eapply synced_holder; [done..|congruence].
Qed.
(** A node that waits, or has no known address, is in no status. *)
Lemma synced_free c w p : Inv c w → Synced c w → p ≠ "" → map_get (i_providerIDToIP c) p = "" →
  ∀ x t, i_ipToStatus c !! x = Some t → s_nodeProviderID t ≠ p.
Proof.
  intros HI HS Hp Hw x t Ht <-. pose proof (sb_claim (sy_body _ _ HS) x t Ht Hp) as Hc.
  unfold map_get in Hw. rewrite Hc in Hw. cbn in Hw. subst x. apply (sy_named _ _ HS).
  apply (inv_dom HI). eauto.
Qed.
Lemma synced_ip_named c w ip : Inv c w → Synced c w → is_Some (i_ipToStatus c !! ip) → ip ≠ "".
Proof. intros HI HS Hs ->. apply (sy_named _ _ HS). by apply (inv_dom HI). Qed.

(** [node] holds no address that is not managed. *)
Definition clean_node (node : Node) c w : Prop :=
  ∀ ip, holder w !! ip = Some (node_ProviderID node) → ip ∈ elems (i_ips c).
Lemma Synced_names c c' w name p :
  Synced c w → (∀ ip, holder w !! ip = Some p → ip ∈ elems (i_ips c)) →
  i_providerIDToNodeName c' = <[p := name]> (i_providerIDToNodeName c) →
  i_provider c' = i_provider c → i_assignmentCoolOff c' = i_assignmentCoolOff c →
  i_pendingIPs c' = i_pendingIPs c → i_ips c' = i_ips c →
  SyncBody (i_ipToStatus c') (i_providerIDToIP c') (i_providerIDToNodeName c')
    (i_providerIDToRetry c') (os_list (i_assignableIPs c')) (os_list (i_assignableNodes c')) (holder w) →
  Synced c' w.
Proof.
  intros [] Hclean Hn Hp Hc Hpe Hi Hb. split; rewrite ?Hp, ?Hc, ?Hpe, ?Hi, ?Hn; try done.
  - by rewrite Hn in Hb.
  - intros ip q Hq [<-|[_ Ha]]%lookup_insert_is_Some; [by apply Hclean|by eapply sy_clean0].
Qed.

Lemma Synced_fewer c c' w :
  Synced c w → (∀ p, is_Some (i_providerIDToNodeName c' !! p) → is_Some (i_providerIDToNodeName c !! p)) →
  i_provider c' = i_provider c → i_assignmentCoolOff c' = i_assignmentCoolOff c →
  i_pendingIPs c' = i_pendingIPs c → i_ips c' = i_ips c →
  SyncBody (i_ipToStatus c') (i_providerIDToIP c') (i_providerIDToNodeName c')
    (i_providerIDToRetry c') (os_list (i_assignableIPs c')) (os_list (i_assignableNodes c')) (holder w) →
  Synced c' w.
Proof.
  intros [] Hn Hp Hc Hpe Hi Hb. split; rewrite ?Hp, ?Hc, ?Hpe, ?Hi; try done. eauto.
Qed.

Lemma enableNode_sync b node c w : Inv c w → Synced c w → clean_node node c w →
  wp False (ipController.enableNode b node)
    (λ _ c' w', Inv c' w' ∧ Synced c' w' ∧ quiet w w' ∧ i_ips c' = i_ips c) c w.
Proof.
  intros HI HS Hclean.
  eapply wp_mono; [|apply wp_and; [by apply enableNode_inv|]].
  { intros b' c' w' [HI' Hn]. split; [exact HI'|exact Hn]. }
  unfold ipController.enableNode. set (p := node_ProviderID node) in *.
  case_bool_decide as Hp; [by go|]. go.
  destruct (i_providerIDToNodeName c !! p) as [name|] eqn:Hname; [by go|]. go.
  pose proof (sy_body _ _ HS) as HB.
  case_bool_decide as Hip; cbn in Hip.
  - go. split_and!; [|done..].
    apply (Synced_names c _ w (node_Name node) p); try done. cbn.
    eapply sync_enable_waits; [exact HB|by apply (synced_free c w)|done|].
    intros x. by rewrite Add_elem by apply HI.
  - destruct (map_get_claim c w _ HI Hip) as (s & Hs & Hn). cbn. go.
    assert (quiet w w1) as Hq by (by etrans).
    split_and!; [|done..]. apply (Synced_quiet _ w); [done|].
    apply (Synced_names c _ w (node_Name node) p); try done. cbn.
    eapply sync_enable_holds; try done.
    + intros Hnq%(inv_nodeq HI). rewrite Hname in Hnq. by destruct Hnq.
    + intros x. rewrite Delete_elem by apply HI. naive_solver.
Qed.

Lemma disableNode_sync b node c w : Inv c w → Synced c w →
  wp False (ipController.disableNode b node)
    (λ _ c' w', Inv c' w' ∧ Synced c' w' ∧ quiet w w' ∧ i_ips c' = i_ips c) c w.
Proof.
  intros HI HS.
  eapply wp_mono; [|apply wp_and; [by apply disableNode_inv|]].
  { intros b' c' w' [HI' Hn]. split; [exact HI'|exact Hn]. }
  unfold ipController.disableNode. set (p := node_ProviderID node) in *.
  case_bool_decide as Hp; [by go|]. go.
  destruct (i_providerIDToNodeName c !! p) as [name|] eqn:Hname; [|by go]. go.
  pose proof (sy_body _ _ HS) as HB.
  case_bool_decide as Hip; cbn in Hip.
  - go. split_and!; [|done..]. apply (Synced_fewer c _ w); try done.
    { cbn. by intros q [_ ?]%lookup_delete_is_Some. }
    eapply sync_disable; [exact HB|by left| |done|].
    + intros x t Ht Hx. by destruct (synced_free c w p HI HS Hp Hip x t Ht).
    + intros x. cbn. rewrite Delete_elem by apply HI. naive_solver.
  - destruct (map_get_claim c w _ HI Hip) as (s & Hs & Hn). cbn. go.
    assert (quiet w w1) as Hq by (by etrans).
    split_and!; [|done..]. apply (Synced_quiet _ w); [done|].
    apply (Synced_fewer c _ w); try done.
    { cbn. by intros q [_ ?]%lookup_delete_is_Some. }
    cbn. eapply sync_disable; [exact HB| | | |].
    + intros x. destruct (decide (x = map_get (i_providerIDToIP c) p)) as [->|Hne].
      * right. eexists _, _. split; [exact Hs|]. by rewrite lookup_insert_eq.
      * left. by rewrite lookup_insert_ne.
    + intros x t Ht Hx. rewrite Add_elem by apply HI. left.
      eapply (synced_one c w x _ t s); try done; congruence.
    + intros x t Ht Hx. rewrite Add_elem by apply HI. split; [|by right].
      intros [->|?]; [|done]. simplify_eq.
    + intros x. rewrite Delete_elem by apply HI. naive_solver.
Qed.

(** Between two passes: the records are consistent and agree with the provider. *)
Definition Settled c w : Prop := Inv c w ∧ Synced c w.

Lemma quiet_holder w w' c : Synced c w → quiet w w' → holder w' = holder w.
Proof. intros HS Hq. by destruct (quiet_coop _ _ Hq (sy_coop _ _ HS)). Qed.

Lemma EnableNodes_sync nodes c w : Settled c w → Forall (λ n, clean_node n c w) nodes →
  wp False (ipController.EnableNodes nodes) (λ _ c' w', Settled c' w' ∧ quiet w w') c w.
Proof.
  intros [HI HS] Hclean. rewrite Forall_forall in Hclean.
  unfold ipController.EnableNodes. wp_step. eapply wp_mono; [|apply (wp_for_fold _ (λ _ c' w',
    Inv c' w' ∧ Synced c' w' ∧ quiet w w' ∧ i_ips c' = i_ips c)); [done|]].
  - intros b c' w' (HI' & HS' & Hq & _). apply poke_wp; (split; [split; [exact HI'|by destruct HS']|exact Hq]).
  - intros b n c1 w1 Hn (HI1 & HS1 & Hq1 & Hips1).
    eapply wp_mono; [|apply enableNode_sync; [done..|]].
    + intros _ c2 w2 (HI2 & HS2 & Hq2 & Hips2). split_and!; [done..|by etrans|congruence].
    + intros ip. rewrite (quiet_holder _ _ _ HS Hq1), Hips1. by apply Hclean.
Qed.
Lemma DisableNodes_sync nodes c w : Settled c w →
  wp False (ipController.DisableNodes nodes) (λ _ c' w', Settled c' w' ∧ quiet w w') c w.
Proof.
  intros [HI HS]. unfold ipController.DisableNodes. wp_step.
  eapply wp_mono; [|apply (wp_for_fold _ (λ _ c' w', Inv c' w' ∧ Synced c' w' ∧ quiet w w')); [done|]].
  - intros b c' w' (HI' & HS' & Hq). apply poke_wp; (split; [split; [exact HI'|by destruct HS']|exact Hq]).
  - intros b n c1 w1 _ (HI1 & HS1 & Hq1). eapply wp_mono; [|by apply disableNode_sync].
    intros _ c2 w2 (HI2 & HS2 & Hq2 & _). split_and!; [done..|by etrans].
Qed.

Lemma removeIP_sync ip s c w : Settled c w → i_ipToStatus c !! ip = Some s →
  i_providerIDToNodeName c !! s_nodeProviderID s = None →
  wp False (ipController.removeIP ip) (λ _ c' w', Settled c' w' ∧ removed ip c c' ∧ quiet w w') c w.
Proof.
  intros [HI HS] Hs Hn. eapply wp_mono; [|apply (wp_and _ _ (λ _ c' w', Inv c' w' ∧ removed ip c c' ∧ quiet w w')
    (λ _ c' _, Synced c' w)); [apply removeIP_inv; [by eexists|done]|]].
  { intros [] c' w' [(HI' & Hr & Hq) HS']. split; [split; [done|by apply (Synced_quiet _ w)]|done]. }
  unfold ipController.removeIP. go. pose proof (sy_body _ _ HS) as HB.
  case_bool_decide as Hp; go; rewrite ?Hn; go; apply (Synced_fewer c _ w); try done; cbn;
    (eapply sync_remove; [exact HB|exact Hs|exact Hn|..]); try done; try apply HB.
  - intros x Hx. rewrite Delete_elem by apply HI. naive_solver.
  - intros x Hx. rewrite Delete_elem by apply HI. naive_solver.
  - intros x t Ht Hx Hx0. apply lookup_insert_ne. intros Heq. apply Hx. symmetry.
    by eapply (synced_one c w ip x s t).
  - intros x [name Hx]. unfold map_get. rewrite lookup_insert_ne; [done|]. intros <-. congruence.
  - rewrite (sb_retries HB). apply delete_empty.
Qed.

(** A specification that keeps the addresses that active nodes hold. *)
Definition clean_spec (ips : slice string) (n : Z) c w : Prop :=
  (0 ≤ n)%Z ∧ (∀ ip, ip ∈ elems ips → ip ≠ "" ∧ ip ∈ allocated w ∧ ip ∉ i_pendingIPs c) ∧
  ∀ ip p, holder w !! ip = Some p → is_Some (i_providerIDToNodeName c !! p) → ip ∈ managed ips n.

(** The loop of [updateIPs] over the addresses with a status. *)
Lemma removeIPs_sync keys (known : list string) c w : Settled c w →
  NoDup keys → (∀ ip, ip ∈ keys ↔ is_Some (i_ipToStatus c !! ip)) →
  (∀ ip s, i_ipToStatus c !! ip = Some s → ip ∉ known →
     i_providerIDToNodeName c !! s_nodeProviderID s = None) →
  wp False
    (for_each keys (λ ip, if decide (ip ∈ known) then mret tt else ipController.removeIP ip))
    (λ _ c' w', Settled c' w' ∧ pruned known keys c c' ∧ quiet w w') c w.
Proof.
  intros HS Hnd Hkeys Hfree.
  apply (wp_for_each_prefix _ (λ done c' w', Settled c' w' ∧ pruned known done c c' ∧ quiet w w')).
  - split_and!; [exact HS| |reflexivity]. split; try done.
    intros p. split; [by left|]. by intros [?|(ip & s & [?%elem_of_nil _] & _)].
  - intros done x todo c1 w1 Hd (HS1 & Hpr & Hg1).
    assert (is_Some (i_ipToStatus c !! x)) as [s Hx] by (apply Hkeys; set_solver).
    rewrite Hd in Hnd. apply NoDup_app in Hnd as (_ & Hnd & _).
    destruct (decide (x ∈ known)) as [Hk|Hk].
    { wp_step. split_and!; [done|by apply pruned_skip|done]. }
    assert (x ∉ done) as Hxd by (intros Hin; eapply Hnd; [done|by left]).
    eapply wp_mono; [|apply (removeIP_sync x s); [exact HS1|..]].
    + intros _ c2 w2 (HS2 & Hrm & Hg2).
      split_and!; [done|by eapply pruned_remove|by etrans].
    + by rewrite (pn_status _ _ _ _ Hpr), decide_False by tauto.
    + rewrite (pn_names _ _ _ _ Hpr). by eapply Hfree.
Qed.

Lemma updateIPs_sync ips n c w : Settled c w → clean_spec ips n c w →
  wp False (ipController.updateIPs ips n) (λ _ c' w', Settled c' w' ∧ quiet w w') c w.
Proof.
  intros [HI HS] (Hn & Hips & Hclean).
  eapply wp_mono; [|apply (wp_and _ _ (λ _ c' w', Inv c' w') (λ _ c' w', Synced c' w' ∧ quiet w w'));
    [eapply wp_mono; [|apply updateIPs_spec]|]].
  { intros [] c' w' [HI' [HS' Hq]]. by split. }
  { by intros _ c' w' [? _]. }
  { done. }
  { intros ip Hip. by apply Hips. }
  { done. }
  assert (∀ ip, ip ∈ managed ips n → ip ∈ elems ips) as Hsub.
  { unfold managed. destruct (_ =? _)%Z; [done|]. intros ip. apply subseteq_take. }
  unfold ipController.updateIPs. wp_steps. eapply wp_mono; [|by apply limitIPs_spec].
  intros ips' c' w' (-> & -> & Hm). go. destruct (ipController.sameIPs _ _ _) eqn:Hsame.
  { go. split; [by destruct HS|done]. }
  go. unfold range_keys. eapply wp_env; [by auto with grow|].
  intros keys w' Hkeys Hgrow. carry_inv Hgrow. wp_step.
  assert (∀ ip, ip ∈ keys ↔ is_Some (i_ipToStatus c !! ip)) as Hk by (intros ip; by eapply range_order_elem).
  assert (NoDup keys) as Hnd by (by eapply range_order_nodup).
  pose proof HS as HS0. apply (Synced_quiet _ _ _ Hgrow) in HS.
  eapply wp_mono; [|apply removeIPs_sync; [|exact Hnd|exact Hk|]].
  - intros [] c1 w1 ([HI1 HS1] & Hpr & Hg1). go. split; [|by etrans].
    pose proof (quiet_holder _ _ _ HS Hg1) as Hh1. pose proof (pn_names _ _ _ _ Hpr) as Hn1.
    destruct HS1. split; cbn; fold (elems ips'); rewrite ?Hm; try done.
    + intros Hin%Hsub. by apply Hips in Hin as [? _].
    + intros ip p Hh Ha. rewrite Hh1, (quiet_holder _ _ _ HS0 Hgrow) in Hh. rewrite Hn1 in Ha.
      by eapply Hclean.
  - split; [exact HI|by destruct HS].
  - cbn. intros ip s Hs Hin. apply eq_None_not_Some. intros Ha. apply Hin.
    apply list_elem_of_filter. split; [by eauto|]. rewrite Hm.
    apply (Hclean ip (s_nodeProviderID s)); [|done].
    rewrite <- (quiet_holder _ _ _ HS0 Hgrow). apply (synced_holder c); try done.
    intros Hp. rewrite Hp in Ha. pose proof (inv_names HI) as Hno. rewrite Hno in Ha. by destruct Ha.
Qed.
End operations.
