(* ===== verification/IPConverge.v ===== *)
(** * The IP controller converges

    With a provider that does what it is asked, every pass of the reconciler leaves
    the assignments as good as they can be: every active node has an address, or no
    address is left for those that have none. *)
From S2P Require Import Prelude Go Retry OrderedSet K8s Types Provider IPController.
From S2P Require Import IPInvariant IPReconcile IPAssign IPSync.

(** Popping a queue takes its first element out of it. *)
Lemma Front_elem o x l : os_wf o → os_list o = x :: l →
  ∀ y, y ∈ os_list (orderedSet.Front o).2 ↔ y ∈ os_list o ∧ y ≠ x.
Proof.
  intros Hwf Hl y. destruct (Front_cons o x l Hwf Hl) as (_ & -> & _).
  pose proof (os_list_nodup o Hwf) as Hnd. rewrite Hl in *. apply NoDup_cons in Hnd as [Hx _].
  rewrite elem_of_cons. split; [|naive_solver]. intros Hy. split; [by right|by intros ->].
Qed.

Section converge.
Context `{IPEnvLaws W, !IPCooperation W}.
Implicit Types (c : ipController) (w : W) (ip p : string).

(** A change of the fields that only schedule the next pass. *)
Lemma Synced_same c c' w : Synced c w →
  (i_ipToStatus c', i_providerIDToIP c', i_providerIDToNodeName c', i_providerIDToRetry c',
   i_assignableIPs c', i_assignableNodes c', i_provider c', i_assignmentCoolOff c', i_pendingIPs c', i_ips c') =
  (i_ipToStatus c, i_providerIDToIP c, i_providerIDToNodeName c, i_providerIDToRetry c,
   i_assignableIPs c, i_assignableNodes c, i_provider c, i_assignmentCoolOff c, i_pendingIPs c, i_ips c) →
  Synced c' w.
Proof. intros [] [= Hs Ht Hn Hr Hi Ho Hp Hc Hpe Hip].
  split; rewrite ?Hs, ?Ht, ?Hn, ?Hr, ?Hi, ?Ho, ?Hp, ?Hc, ?Hpe, ?Hip; done.
Qed.

(** ** New addresses *)
Lemma createIPs_sync n c w : Synced c w → (0 ≤ i_createAttempts c)%Z →
  wp False (ipController.createIPs n) (λ _ c' w', Synced c' w' ∧ quiet w w') c w.
Proof.
  revert c w. induction n as [|n IH]; intros c w HS Hat; cbn [ipController.createIPs]; [by go|].
  destruct (sy_provider _ _ HS) as [prov Hprov].
  go. eapply wp_deref_some; [exact Hprov|]. go. destruct a as [ip|err].
  - destruct (CreateIP_fresh _ _ _ _ _ Hcall) as [Hni _].
    pose proof (sy_coop _ _ HS) as Hco. pose proof (co_create _ _ _ _ _ Hco Hcall) as Hip.
    go. eapply wp_mono; [|apply IH; [|done]].
    { intros _ c' w' [HS' Hq]. split; [done|by etrans]. }
    apply (Synced_quiet _ w); [done|]. destruct HS. split; cbn; try done.
    intros x [Hx| ->%list_elem_of_singleton]%elem_of_app; [by apply sy_pending|].
    split; [done|]. apply eq_None_not_Some. intros Hh. by apply Hni, co_alloc.
  - pose proof (CreateIP_err _ _ _ _ _ Hcall) as Herr. unfold usable_error in Herr.
    go. split; [|by etrans]. apply (Synced_quiet _ w); [by etrans|].
    by eapply Synced_same.
Qed.

Lemma reconcileDesiredIPs_sync c w : Settled c w →
  wp False ipController.reconcileDesiredIPs (λ _ c' w', Settled c' w' ∧ quiet w w' ∧ config c' = config c) c w.
Proof.
  intros [HI HS]. eapply wp_mono; [|apply (wp_and _ _ (λ _ c' w', Inv c' w' ∧ config c' = config c) (λ _ c' w', Synced c' w' ∧ quiet w w'));
    [apply reconcileDesiredIPs_inv; [done|apply HS]|]].
  { intros _ c' w' [[HI' Hc] [HS' Hq]]. by split_and!. }
  unfold ipController.reconcileDesiredIPs. go.
  destruct a; [go; by split; [apply (Synced_quiet _ w)|]|]. go.
  assert (quiet w w1) as Hq by (by etrans). apply (Synced_quiet _ _ _ Hq) in HS.
  destruct (After _ _); go; [split; [by eapply Synced_same|done]|].
  eapply wp_mono; [|apply createIPs_sync; [done|apply HI]].
  intros _ c' w' [HS' Hq']. split; [done|by etrans].
Qed.

(** The pending addresses become managed: nobody holds them, and they are queued. *)
Lemma addPending_sync l ips c w :
  InvListed ips c w → Synced c w → (∀ ip, ip ∈ l → ip ∈ i_pendingIPs c ∧ ip ∈ ips) →
  (∀ ip, ip ∈ l → unclaimed (i_providerIDToIP c) ip) →
  wp False
    (for_each l (λ ip,
       modify (λ i, i <| i_ipToStatus ::= <[ip := ipController.pendingStatus]> |>
                      <| i_assignableIPs ::= orderedSet.Add ip true |>)))
    (λ _ c' w', Synced c' w' ∧ w' = w ∧ i_pendingIPs c' = i_pendingIPs c ∧ i_ips c' = i_ips c) c w.
Proof.
  intros HL HS Hl Hun. eapply wp_mono; last first.
  - apply (wp_for_each _ (λ c' w', InvListed ips c' w' ∧ Synced c' w' ∧ w' = w ∧
      i_pendingIPs c' = i_pendingIPs c ∧ i_ips c' = i_ips c ∧ i_providerIDToIP c' = i_providerIDToIP c));
      [by split_and!|].
    intros ip c' w' Hin (HL' & HS' & -> & Hpe & Hips & Ht).
    destruct (Hl ip Hin) as [Hpend Hin']. destruct (sy_pending _ _ HS ip Hpend) as [_ Hh].
    pose proof (sy_body _ _ HS') as HB. pose proof (inv_names HL') as Hno.
    go. split_and!; [| |done..].
    { unfold InvListed; cbn. apply inv_ipq_add.
      + apply inv_new_status; [exact HL'|by rewrite Ht; apply Hun|done|]. split; [|done].
        apply usable_healthy.
      + rewrite lookup_insert_eq; eauto. }
    apply (Synced_fewer c' _ w); try done. cbn.
    destruct (i_ipToStatus c' !! ip) as [s|] eqn:Hs.
    + pose proof (sb_status HB ip s Hs) as [Hn _]. unfold map_get in Hn. rewrite Hh in Hn. cbn in Hn.
      eapply sync_status; [|exact Hs|done|done]. eapply sync_ipq; [exact HB|].
      intros x _. rewrite Add_elem by apply HL'. split; [|by right]. intros [->|?]; [|done].
      apply (sb_ipq HB ip s Hs). by rewrite Hn.
    + eapply sync_new; [exact HB|done|..]; unfold map_get; rewrite ?Hh; try done.
      * intros x. rewrite Add_elem by apply HL'. cbn. naive_solver.
      * intros Hq%(inv_ipq HL'). rewrite Hs in Hq. by destruct Hq.
  - intros _ c' w' (_ & HS' & Hw & Hpe & Hips & _). by split_and!.
Qed.

Lemma reconcilePendingIPs_sync c w : Settled c w →
  wp False ipController.reconcilePendingIPs (λ _ c' w', Settled c' w' ∧ quiet w w' ∧ config c' = config c) c w.
Proof.
  intros [HI HS]. eapply wp_mono; [|apply (wp_and _ _ (λ _ c' w', Inv c' w' ∧ config c' = config c) (λ _ c' w', Synced c' w' ∧ quiet w w'));
    [by apply reconcilePendingIPs_inv|]].
  { intros _ c' w' [[HI' Hc] [HS' Hq]]. by split_and!. }
  unfold ipController.reconcilePendingIPs. go.
  destruct a; [go; by split; [apply (Synced_quiet _ w)|]|]. go.
  case_bool_decide as Hnil; [go; by split; [apply (Synced_quiet _ w)|]|]. go.
  assert (∀ w', quiet w0 w' →
    wp False
      (modify ipController.mark_dirty ;;
       for_each (i_pendingIPs c) (λ ip,
         modify (λ i, i <| i_ipToStatus ::= <[ip := ipController.pendingStatus]> |>
                        <| i_assignableIPs ::= orderedSet.Add ip true |>)) ;;
       modify (λ i, i <| i_ips := Some (elems (i_ips c) ++ i_pendingIPs c) |>
                      <| i_pendingIPs := [] |>))
      (λ _ c' w', Synced c' w' ∧ quiet w w') c w') as Hadd.
  { intros w' Hq. assert (quiet w w') as Hqw by (by etrans).
    assert (Synced c w') as HS' by (by apply (Synced_quiet _ w)).
    pose proof (Inv_listed c _ HI) as HL.
    go. eapply wp_mono; [|eapply (addPending_sync _ (elems (i_ips c) ++ i_pendingIPs c))].
    - intros [] c' w'' (HS'' & -> & Hpe & Hips). go. split; [|done].
      destruct HS'' as [? ? ? ? Hpend Hnamed Hclean]. split; cbn; try done; [by intros ? ?%elem_of_nil|..].
      + intros [Hin|Hin]%elem_of_app; [by apply (sy_named _ _ HS)|by apply (sy_pending _ _ HS) in Hin as [? _]].
      + intros ip p Hh Ha. apply elem_of_app. left. rewrite Hips in Hclean. by eapply Hclean.
    - eapply inv_grow; [exact HL|exact (quiet_alloc _ _ Hq)].
    - by eapply Synced_same.
    - intros ip Hip. split; [exact Hip|]. apply elem_of_app. by right.
    - intros ip Hip. by eapply (pending_unclaimed c w0). }
  destruct (i_onNewIPs c) as [f|]; go_step; [|by apply Hadd].
  destruct a; [|by apply Hadd]. go. split; [|by etrans]. apply (Synced_quiet _ w); [by etrans|done].
Qed.

(** ** Looking the addresses up

    The answer for an address that was looked up before is what its status says;
    the first answer is recorded. *)
Lemma lookup_known ip s c w : Inv c w → Synced c w → i_ipToStatus c !! ip = Some s →
  wp False (ipController.lookupSucceeded ip (map_get (holder w) ip) true)
    (λ _ c' w', Synced c' w' ∧ quiet w w') c w.
Proof.
  intros HI HS Hs. pose proof (sy_body _ _ HS) as HB.
  destruct (sb_status HB ip s Hs) as [Hn _]. pose proof (inv_names HI) as Hno.
  unfold ipController.lookupSucceeded. go. rewrite <- Hn.
  set (c1 := if bool_decide (s_nodeProviderID s = "")
             then c <| i_assignableIPs ::= orderedSet.Add ip true |> else c).
  assert (Inv c1 w ∧ Synced c1 w ∧ i_ipToStatus c1 !! ip = Some s) as (HI1 & HS1 & Hs1).
  { unfold c1. case_bool_decide as Hemp; [|done]. split_and!; [| |done].
    - unfold Inv; cbn. apply inv_ipq_add; [exact HI|eauto].
    - apply (Synced_fewer c _ w); try done. cbn. eapply sync_ipq; [exact HB|].
      intros x _. rewrite Add_elem by apply HI. split; [|by right]. intros [->|?]; [|done].
      apply (sb_ipq HB ip s Hs). by rewrite Hemp. }
  apply wp_if_modify. fold c1. clearbody c1. go. rewrite bool_decide_true by done.
  go. split; [|by etrans]. apply (Synced_quiet _ w); [by etrans|].
  apply (Synced_fewer c1 _ w); try done. cbn.
  eapply sync_status; [by apply HS1|exact Hs1|done|].
  cbn. by repeat case_match.
Qed.

(** The node that holds an address no status mentions is named by no claim. *)
Lemma unclaimed_holder c w ip p : Inv c w → Synced c w → i_ipToStatus c !! ip = None →
  holder w !! ip = Some p → map_get (i_providerIDToIP c) p = "".
Proof.
  intros HI HS Hs Hh. destruct (decide (map_get (i_providerIDToIP c) p = "")) as [|Hne]; [done|].
  destruct (map_get_claim c w p HI Hne) as (t & Ht & Hn). exfalso.
  assert (p ≠ "") as Hp by (intros ->; by apply (co_value w ip (sy_coop _ _ HS))).
  assert (map_get (i_providerIDToIP c) p = ip) as Heq; [|congruence].
  apply (co_one w _ _ p (sy_coop _ _ HS)); [|done].
  rewrite (synced_holder c w _ t HS Ht); congruence.
Qed.

Lemma lookup_new ip c w : Inv c w → Synced c w → i_ipToStatus c !! ip = None →
  ip ∈ elems (i_ips c) →
  wp False (ipController.lookupSucceeded ip (map_get (holder w) ip) false)
    (λ _ c' w', Synced c' w' ∧ quiet w w')
    (c <| i_ipToStatus ::= <[ip := ipController.unknownStatus]> |>) w.
Proof.
  intros HI HS Hs Hips. pose proof (sy_body _ _ HS) as HB. pose proof (inv_names HI) as Hno.
  assert (ip ≠ "") as Hip by (intros ->; by apply (sy_named _ _ HS)).
  assert (ip ∉ os_list (i_assignableIPs c)) as Hnq
    by (intros Hq%(inv_ipq HI); rewrite Hs in Hq; by destruct Hq).
  unfold ipController.lookupSucceeded. destruct (holder w !! ip) as [p|] eqn:Hh.
  - assert (map_get (holder w) ip = p) as Hg by (unfold map_get; by rewrite Hh). rewrite Hg.
    assert (p ≠ "") as Hp by (intros ->; by apply (co_value w ip (sy_coop _ _ HS))).
    pose proof (unclaimed_holder c w ip p HI HS Hs Hh) as Hw.
    pose proof (synced_free c w p HI HS Hp Hw) as Hfree.
    rewrite (bool_decide_false (p = "")) by done. go.
    rewrite bool_decide_false by done. wp_steps. unfold ipController.adoptProviderID. go.
    (match goal with |- context [is_nil ?x] => change x with (i_providerIDToNodeName c !! p) end).
    destruct (i_providerIDToNodeName c !! p) as [name|] eqn:Hname; cbn [negb is_nil andb];
      go; (match goal with |- context [map_get ?m p] =>
        change (map_get m p) with (map_get (i_providerIDToIP c) p) end); rewrite Hw;
      rewrite (bool_decide_true ("" = "")) by done; cbn [negb andb];
      go; (rewrite (bool_decide_false (p = "")) by done); go;
      (match goal with |- context [match ?x with Some _ => _ | None => _ end] =>
        change x with (i_providerIDToNodeName c !! "") end); rewrite Hno; go;
      (split; [apply (Synced_quiet _ w); [by etrans|]; apply (Synced_fewer c _ w); try done|by etrans]);
      cbn; rewrite !insert_insert_eq; (eapply sync_adopt;
        [exact HB|done|by rewrite Hg|done|done|done|cbn; by repeat case_match|done|done|exact Hfree|..]);
      intros x; rewrite ?Add_elem, ?Delete_elem by apply HI; rewrite ?Hname; cbn.
    + naive_solver.
    + naive_solver.
    + naive_solver.
    + intros [? Hx]. split; [|by intros []]. intros Hin. split; [done|]. intros ->. congruence.
  - assert (map_get (holder w) ip = "") as Hg by (unfold map_get; by rewrite Hh). rewrite Hg.
    rewrite (bool_decide_true ("" = "")) by done. go. rewrite bool_decide_true by done. go.
    split; [|by etrans].
    apply (Synced_quiet _ w); [by etrans|]. apply (Synced_fewer c _ w); try done.
    cbn. rewrite !insert_insert_eq. eapply sync_new; [exact HB|done|..]; rewrite ?Hg; try done.
    intros x. rewrite Add_elem by apply HI. naive_solver.
Qed.

(** The call of [IPToProviderID], and the use of its answer. *)
Lemma answer_sync (prov : Ref) ip o m b c w :
  cooperative w → Inv c w → is_Some (i_ipToStatus c !! ip) →
  (∀ w', quiet w w' → wp False (ipController.lookupSucceeded ip (map_get (holder w') ip) b)
     (λ _ c' w'', Synced c' w'' ∧ quiet w' w'') c w') →
  wp False
    (res ← call (IPToProviderID prov ip);
     match res with
     | inr err => ipController.lookupFailed ip err
     | inl providerID => ipController.lookupSucceeded ip providerID b
     end ;;
     ipController.note_change ip o m ;; mret true)
    (λ (_ : bool) c' w', Synced c' w' ∧ quiet w w') c w.
Proof.
  intros Hco HI Hs Hw. pose proof (co_lookup prov ip w Hco) as Hl. go.
  destruct (quiet_coop _ _ Hgrow Hco) as [_ Hh].
  rewrite Hcall in Hl. cbn in Hl. subst a. rewrite <- Hh.
  eapply wp_mono; [|apply (wp_and _ _ (λ _ c' _, is_Some (i_ipToStatus c' !! ip))
    (λ _ c' w'', Synced c' w'' ∧ quiet w0 w'')); [|by apply Hw]].
  - intros [] c' w' [[s' Hs'] [HS' Hq]]. wp_step.
    eapply wp_note_change; [exact Hs'| |]; go; (split; [|by etrans]); [done|by eapply Synced_same].
  - eapply wp_mono; [|by apply lookupSucceeded_inv]. by intros _ c' w' (_ & _ & ?).
Qed.

Lemma reconcileOneIP_sync ip c w : Settled c w → ip ∈ elems (i_ips c) →
  wp False (ipController.reconcileOneIP ip)
    (λ (b : bool) c' w', Settled c' w' ∧ quiet w w' ∧ stable c c' ∧ b = true ∧
       is_Some (i_ipToStatus c' !! ip)) c w.
Proof.
  intros [HI HS] Hin. pose proof (co_alive _ (sy_coop _ _ HS)) as Hal.
  eapply wp_mono; [|apply (wp_and _ _ (λ (b : bool) c' w', Inv c' w' ∧ stable c c' ∧
      if b then is_Some (i_ipToStatus c' !! ip) else ¬ alive w)
    (λ _ c' w', Synced c' w' ∧ quiet w w')); [by apply reconcileOneIP_inv, HS|]].
  { intros [] c' w' [(HI' & Hst & Hs) [HS' Hq]]; [by split_and!|by destruct Hs]. }
  destruct (sy_provider _ _ HS) as [prov Hprov].
  unfold ipController.reconcileOneIP. go. destruct a.
  { pose proof (ctx_Err_alive _ Hal) as Hlive. by rewrite Hcall in Hlive. }
  pose proof (Synced_quiet _ _ _ Hgrow HS) as HS1.
  go. destruct (i_ipToStatus c !! ip) as [s|] eqn:Hs; cbn [is_nil negb]; go.
  - destruct (After _ _).
    { go. split; [|by etrans]. apply (Synced_quiet _ w); [by etrans|]. by eapply Synced_same. }
    go. eapply wp_deref_some; [exact Hprov|]. assert (quiet w w1) as Hq by (by etrans).
    eapply wp_mono; [|apply answer_sync; [by eapply (quiet_coop w), HS|done|by eexists|]].
    { intros b c' w' [? ?]. split; [done|by etrans]. }
    intros w' Hq'. assert (quiet w w') as Hqw by (by etrans). eapply lookup_known; [|by apply (Synced_quiet _ w)|done].
    by apply (Inv_grow c w1 w' (quiet_alloc _ _ Hq')).
  - destruct (After _ _) eqn:Hafter.
    { pose proof (env_now_pos w0) as Hpos. rewrite Hcall0 in Hpos. cbn in Hpos.
      apply After_spec in Hafter. cbn in Hafter. change zeroTime with 0%Z in Hafter. lia. }
    go. eapply wp_deref_some; [exact Hprov|]. assert (quiet w w1) as Hq by (by etrans).
    eapply wp_mono; [|apply answer_sync; [by eapply (quiet_coop w), HS| |cbn; rewrite lookup_insert_eq; by eexists|]].
    { intros b c' w' [? ?]. split; [done|by etrans]. }
    { unfold Inv; cbn. apply inv_new_status; [exact HI| |done|split; [apply usable_RetryFast|done]].
      eapply claim_unclaimed_none; [apply HI|done]. }
    intros w' Hq'. assert (quiet w w') as Hqw by (by etrans).
    eapply lookup_new; [|by apply (Synced_quiet _ w)|done|done].
    by apply (Inv_grow c w1 w' (quiet_alloc _ _ Hq')).
Qed.

Lemma reconcileIPStatus_sync c w : Settled c w →
  wp False ipController.reconcileIPStatus
    (λ _ c' w', Settled c' w' ∧ quiet w w' ∧ stable c c' ∧
       ∀ ip, ip ∈ elems (i_ips c') → is_Some (i_ipToStatus c' !! ip)) c w.
Proof.
  intros HS. unfold ipController.reconcileIPStatus. wp_steps.
  eapply wp_mono; [|apply (wp_for_until_prefix _
    (λ done c' w', Settled c' w' ∧ quiet w w' ∧ stable c c' ∧
       ∀ ip, ip ∈ done → is_Some (i_ipToStatus c' !! ip)) (λ _ _, False))].
  - intros [] c1 w1 H1; [|done]. destruct H1 as (HS1 & Hq1 & Hst1 & Hdone). wp_steps.
    split_and!; [apply HS1..|done|done|]. intros ip. rewrite (stable_ips _ _ Hst1). apply Hdone.
  - split_and!; [apply HS..|reflexivity|reflexivity|]. by intros ip ?%elem_of_nil.
  - intros done ip todo c1 w1 Hd (HS1 & Hq1 & Hst1 & Hdone).
    eapply wp_mono; [|apply reconcileOneIP_sync; [done|rewrite (stable_ips _ _ Hst1), Hd; set_solver]].
    intros b c2 w2 (HS2 & Hq2 & Hst2 & -> & Hs2). split_and!; [apply HS2..|by etrans|by etrans|].
    intros x [Hin|Hin%list_elem_of_singleton]%elem_of_app; [|by subst].
    by apply Hst2, Hdone.
Qed.

(** ** The assignments *)
Record Assigning (c0 : ipController) (w0 : W) (r n : list string) c w : Prop := {
  as_settled : Settled c w;
  as_r : r = [];
  as_n : n = [];
  as_stable : stable c0 c;
  as_known : ∀ ip, ip ∈ elems (i_ips c) → is_Some (i_ipToStatus c !! ip);
  as_keep : ∀ ip p, holder w0 !! ip = Some p → is_Some (i_providerIDToNodeName c0 !! p) →
    holder w !! ip = Some p;
}.

(** A free address goes to a node that waits: the provider does it. *)
Lemma assignOne_world ip p s c w :
  i_ipToStatus c !! ip = Some s → is_Some (i_provider c) → cooperative w →
  ip ∈ allocated w → p ≠ "" → (∀ x, holder w !! x ≠ Some p) →
  wp False (ipController.assignOne ip p)
    (λ failed _ w', failed = false ∧ cooperative w' ∧ holder w' = <[ip := p]> (holder w)) c w.
Proof.
  intros Hs [prov Hprov] Hco Hal Hp Hfree. unfold ipController.assignOne.
  destruct (co_assign prov ip p w Hco Hal Hp Hfree) as (Hans & Hco' & Hh').
  go. eapply wp_deref_some; [exact Hprov|]. go. rewrite Hcall in *. cbn [fst snd] in *.
  match goal with |- wp _ _ _ ?c1 _ => set (c1' := c1) end.
  assert (wp False (ipController.assigned ip p ;; mret false) (λ (failed : bool) c2 w2, failed = false ∧ quiet w0 w2 ∧
    ∃ s', i_ipToStatus c2 !! ip = Some s' ∧ retry_ok (s_retry s')) c1' w0) as Hass.
  { unfold ipController.assigned, c1'. go. split_and!; [done|by etrans|].
    eexists. cbn. split; [apply lookup_insert_eq|]. split; [apply usable_RetryFast|done]. }
  clearbody c1'. eapply (wp_mono _ _ (λ (failed : bool) c2 w2, failed = false ∧ quiet w0 w2 ∧
    ∃ s', i_ipToStatus c2 !! ip = Some s' ∧ retry_ok (s_retry s'))).
  - intros failed c2 w2 (-> & Hq & s' & Hs' & [Hu Ha]). go.
    eapply wp_note_change; [find_status| |]; go; (split; [done|]);
      (destruct (quiet_coop w0 w1) as [? Hh1]; [by etrans|done|]); by rewrite Hh1.
  - destruct Hans as [-> | ->]; [exact Hass|]. unfold is_ErrInProgress.
    rewrite bool_decide_true by done. exact Hass.
Qed.

Lemma assigned_Synced ip l p l' s c c' w w' : Inv c w → Synced c w →
  os_list (i_assignableIPs c) = ip :: l → os_list (i_assignableNodes c) = p :: l' →
  let c1 := c <| i_assignableIPs := (orderedSet.Front (i_assignableIPs c)).2 |>
              <| i_assignableNodes := (orderedSet.Front (i_assignableNodes c)).2 |> in
  i_ipToStatus c !! ip = Some s → assign_outcome ip p s c1 false c' → stable c c' →
  cooperative w' → holder w' = <[ip := p]> (holder w) → Synced c' w'.
Proof.
  intros HI HS Hl Hl' c1 Hs [] Hst Hco Hh.
  pose proof (sy_body _ _ HS) as HB.
  assert (p ∈ os_list (i_assignableNodes c)) as Hpq by (rewrite Hl'; by left).
  assert (ip ∈ os_list (i_assignableIPs c)) as Hipq by (rewrite Hl; by left).
  pose proof (inv_nodeq HI p Hpq) as Hact. pose proof (inv_names HI) as Hno.
  assert (p ≠ "") as Hp by (intros ->; rewrite Hno in Hact; by destruct Hact).
  assert (ip ∈ elems (i_ips c)) as Hips by (apply (inv_dom HI); by eexists).
  destruct ao_status as (s' & Hst' & _ & Hn' & Hs' & _).
  pose proof (stable_config _ _ Hst) as Hcfg. unfold config in Hcfg. injection Hcfg as Hp1 _ _ Hp2 _ _ _ _ _ _ Hp3 _.
  split; rewrite ?Hp1, ?Hp2, ?Hp3, ?Hh, ?(stable_ips _ _ Hst), ?(stable_pending _ _ Hst); try apply HS; [done|..].
  - rewrite Hst', ao_claims, ao_retries, ao_ipq, ao_nodeq. cbn.
    eapply sync_assign; [exact HB|exact Hs|by apply (sb_ipq HB ip s)|done| |done|by rewrite Hs'|..].
    + by apply (synced_ip_named c w); [..|eexists].
    + apply (synced_free c w); [done..|by apply (sb_nodeq HB)].
    + intros x t Ht Hne Heq. by apply (synced_one c w x ip t s).
    + apply (Front_elem _ _ l); [apply HI|done].
    + apply (Front_elem _ _ l'); [apply HI|done].
  - intros x Hx. destruct (sy_pending _ _ HS x Hx) as [? ?]. split; [done|].
    rewrite lookup_insert_ne; [done|]. intros <-. by apply (inv_pending HI ip).
  - intros x q [[<- <-]|[_ Hx]]%lookup_insert_Some Hq; [done|by eapply (sy_clean _ _ HS)].
Qed.

Lemma assign_sync c0 w0 ip l p l' c w : Assigning c0 w0 [] [] c w →
  os_list (i_assignableIPs c) = ip :: l → os_list (i_assignableNodes c) = p :: l' →
  let c1 := c <| i_assignableIPs := (orderedSet.Front (i_assignableIPs c)).2 |>
              <| i_assignableNodes := (orderedSet.Front (i_assignableNodes c)).2 |> in
  wp False (ipController.assignOne ip p)
    (λ (failed : bool) c' w', failed = false ∧ Assigning c0 w0 [] [] c' w' ∧
       i_assignableIPs c' = i_assignableIPs c1) c1 w.
Proof.
  intros [[HI HS] _ _ Hst Hknown Hkeep] Hl Hl' c1.
  pose proof (sy_body _ _ HS) as HB. pose proof (inv_names HI) as Hno.
  assert (Inv c1 w) as HI1 by (eapply inv_nodeq_pop; [by eapply inv_ipq_pop|done]).
  assert (ip ∈ os_list (i_assignableIPs c)) as Hipq by (rewrite Hl; by left).
  assert (p ∈ os_list (i_assignableNodes c)) as Hpq by (rewrite Hl'; by left).
  destruct (inv_ipq HI ip Hipq) as [s Hs]. pose proof (inv_nodeq HI p Hpq) as Hact.
  assert (p ≠ "") as Hp by (intros ->; rewrite Hno in Hact; by destruct Hact).
  assert (ip ∈ elems (i_ips c)) as Hips by (apply (inv_dom HI); by eexists).
  assert (∀ x t, i_ipToStatus c !! x = Some t → s_nodeProviderID t ≠ p) as Hfree
    by (apply (synced_free c w); [done..|by apply (sb_nodeq HB)]).
  eapply wp_mono; [|apply (wp_and _ _ (λ _ c' w', Inv c' w' ∧ stable c1 c' ∧ same_queues c1 c')
    (λ failed c' w', (assign_outcome ip p s c1 failed c' ∧ i_dnsDirty c' = true ∧
       assign_trace w' = assign_trace w ++ [(ip, p)]) ∧
      (failed = false ∧ cooperative w' ∧ holder w' = <[ip := p]> (holder w))));
    [apply assignOne_inv; [by eexists|done|apply HS|done]|apply wp_and;
      [apply assignOne_outcome; [done|apply HS|done]|apply (assignOne_world ip p s); try done]]].
  - intros failed c' w' ((HI' & Hst' & Hq) & (Hout & _) & -> & Hco & Hh').
    assert (stable c c') as Hstc by (etrans; [|exact Hst']; solve_stable).
    split_and!; [done| |apply Hq]. split; [split; [done|]|done|done|by etrans|..].
    + eapply (assigned_Synced ip l p l' s c c' w); done.
    + intros x. rewrite (stable_ips _ _ Hstc). intros Hx%Hknown. by apply Hstc.
    + intros x q Hx Hq0. rewrite Hh'. destruct (decide (x = ip)) as [->|Hne]; [|rewrite lookup_insert_ne; auto].
      exfalso. pose proof (Hkeep _ _ Hx Hq0) as Hx'. apply (sb_ipq HB ip s Hs) in Hipq.
      destruct (sb_status HB ip s Hs) as [Hn _]. unfold map_get in Hn. rewrite Hx' in Hn. cbn in Hn.
      rewrite Hn, (config_names _ _ (stable_config _ _ Hst)) in Hipq. rewrite Hipq in Hq0. by destruct Hq0.
  - apply HS.
  - apply HS.
  - apply (inv_alloc HI). by left.
  - intros x Hx. destruct (Hknown x) as [t Ht]; [by eapply (sy_clean _ _ HS)|].
    eapply Hfree; [exact Ht|]. destruct (sb_status HB x t Ht) as [-> _]. unfold map_get. by rewrite Hx.
Qed.

Lemma reconcileAssignment_sync c w : Settled c w →
  (∀ ip, ip ∈ elems (i_ips c) → is_Some (i_ipToStatus c !! ip)) →
  wp False ipController.reconcileAssignment
    (λ _ c' w', Assigning c w [] [] c' w' ∧ drained c') c w.
Proof.
  intros HS Hknown. unfold ipController.reconcileAssignment. wp_steps.
  assert (∀ r n c' w', Assigning c w r n c' w' → Assigning c w [] [] c' w' ∧ r = [] ∧ n = []) as Hnil
    by (intros r n c' w' []; by subst).
  eapply wp_mono; [|apply (assignLoop_rule (Assigning c w))].
  - intros [r n] c' w' [HA Hd]. cbn [fst snd] in *. destruct (Hnil _ _ _ _ HA) as (HA' & -> & ->).
    assert (drained c') as Hdr.
    { apply Hd; [apply (as_settled _ _ _ _ _ _ HA)|].
      intros w2 HA2. by apply co_alive, (as_settled _ _ _ _ _ _ HA2). }
    wp_steps. by destruct c'.
  - by intros r n c' w' [[? _]].
  - intros r n c' w' w'' [[HI' HS'] ? ? ? ? ?] Hq. split; try done.
    + split; [by apply (Inv_grow c' w' w'' (quiet_alloc _ _ Hq))|by apply (Synced_quiet _ w')].
    + by rewrite (quiet_holder _ _ _ HS' Hq).
  - intros r n c' w' t [[HI' HS'] ? ? Hst ? ?]. split; try done.
    + split; [exact HI'|by eapply Synced_same].
    + etrans; [exact Hst|solve_stable].
  - intros r n c' w' ip l s [[HI' HS'] ? ? ? ? ?] _ Hs Herr.
    by destruct (sb_status (sy_body _ _ HS') ip s Hs).
  - intros r n c' w' ip l p l' [[HI' HS'] ? ? ? ? ?] _ _ [x Hx].
    by rewrite (sb_retries (sy_body _ _ HS')) in Hx.
  - intros r n c' w' ip l p l' HA Hl Hl'. destruct (Hnil _ _ _ _ HA) as (HA' & -> & ->).
    eapply wp_mono; [|by eapply assign_sync]. by intros failed c2 w2 (-> & HA2 & Hq2).
  - unfold os_list, orderedSet.Len. rewrite length_fmap. lia.
  - by split.
Qed.

(** [balanced]: every active node holds a managed address, or every managed address
    is held by an active node. *)
Definition balanced c w : Prop :=
  (∀ p, is_Some (i_providerIDToNodeName c !! p) →
     ∃ ip, ip ∈ elems (i_ips c) ∧ holder w !! ip = Some p) ∨
  (∀ ip, ip ∈ elems (i_ips c) →
     ∃ p, is_Some (i_providerIDToNodeName c !! p) ∧ holder w !! ip = Some p).

Lemma drained_balanced c w : Settled c w → drained c →
  (∀ ip, ip ∈ elems (i_ips c) → is_Some (i_ipToStatus c !! ip)) → balanced c w.
Proof.
  intros [HI HS] Hd Hknown. pose proof (sy_body _ _ HS) as HB. pose proof (inv_names HI) as Hno.
  destruct Hd as [Hd|Hd]; [right|left].
  - intros ip Hip. destruct (Hknown ip Hip) as [s Hs].
    destruct (i_providerIDToNodeName c !! s_nodeProviderID s) as [name|] eqn:Hname.
    + exists (s_nodeProviderID s). split; [by eexists|]. apply (synced_holder c); [done..|].
      intros Heq. rewrite Heq in Hname. congruence.
    + apply (sb_ipq HB ip s Hs) in Hname. rewrite Hd in Hname. by apply elem_of_nil in Hname.
  - intros p Hp. destruct (decide (map_get (i_providerIDToIP c) p = "")) as [Hw|Hne].
    { apply (sb_nodeq HB p Hp) in Hw. rewrite Hd in Hw. by apply elem_of_nil in Hw. }
    destruct (map_get_claim c w p HI Hne) as (s & Hs & <-).
    exists (map_get (i_providerIDToIP c) (s_nodeProviderID s)). split; [apply (inv_dom HI); by eexists|].
    apply (synced_holder c); [done..|]. intros Heq. rewrite Heq, Hno in Hp. by destruct Hp.
Qed.

(** ** A pass *)
Record converged (c0 : ipController) (w0 : W) c w : Prop := {
  cv_settled : Settled c w;
  cv_config : config c = config c0;
  cv_known : ∀ ip, ip ∈ elems (i_ips c) → is_Some (i_ipToStatus c !! ip);
  cv_balanced : balanced c w;
  cv_keep : ∀ ip p, is_Some (i_providerIDToNodeName c0 !! p) → holder w0 !! ip = Some p →
    holder w !! ip = Some p;
}.

Lemma Settled_quiet c w w' : Settled c w → quiet w w' → Settled c w'.
Proof.
  intros [HI HS] Hq. split; [by apply (Inv_grow c w w' (quiet_alloc _ _ Hq))|by apply (Synced_quiet _ w)].
Qed.
Lemma converged_next c0 w0 c w c' w' :
  converged c0 w0 c w → stable c c' → quiet w w' → Settled c' w' → converged c0 w0 c' w'.
Proof.
  intros [[HI HS] Hc Hk Hb Hkeep] Hst Hq HS'.
  pose proof (quiet_holder _ _ _ HS Hq) as Hh. pose proof (config_names _ _ (stable_config _ _ Hst)) as Hn.
  pose proof (stable_ips _ _ Hst) as Hi. split; rewrite ?Hh; try done.
  - by rewrite (stable_config _ _ Hst).
  - intros ip. rewrite Hi. intros Hin%Hk. by apply Hst.
  - unfold balanced. by rewrite Hh, Hn, Hi.
Qed.

Lemma reconcileDNS_sync c w : Settled c w → dns_ready c →
  wp False ipController.reconcileDNS (λ _ c' w', Settled c' w' ∧ quiet w w' ∧ stable c c') c w.
Proof.
  intros [HI HS] Hr. eapply wp_mono; [|apply (wp_and _ _ (λ _ c' w', Inv c' w' ∧ stable c c')
    (λ _ c' w', Synced c' w' ∧ quiet w w')); [apply reconcileDNS_inv; by auto|]].
  { intros _ c' w' [[? ?] [? ?]]. by split_and!. }
  unfold ipController.reconcileDNS. go.
  destruct (i_dns _) as [dns|] eqn:Hdns; [|by go].
  destruct (_ || _); [by go|]. go. destruct Hr as [Hp Hst].
  destruct (activeIPs_Some _ _ Hst) as [l Hl]. eapply wp_deref_some; [exact Hl|].
  case_bool_decide; [by go|]. go.
  destruct Hp as [p Hp]; [by rewrite Hdns|]. eapply wp_deref_some; [exact Hp|]. go.
  destruct a; go; (split; [|done]); apply (Synced_quiet _ w); try done. by eapply Synced_same.
Qed.

Lemma reconcile_sync c w : Settled c w → (is_Some (i_dns c) → is_Some (i_dnsProvider c)) →
  wp False ipController.reconcile (λ _ c' w', converged c w c' w') c w.
Proof.
  intros HS Hdns. unfold ipController.reconcile. go.
  match goal with |- wp _ _ _ ?c1 _ => set (c0 := c1) end.
  assert (Settled c0 w0 ∧ config c0 = config c) as [HS0 Hc0].
  { split; [|done]. destruct HS as [HI HS]. split; [by apply (Inv_grow c w w0 (quiet_alloc _ _ Hgrow))|].
    apply (Synced_quiet _ w); [done|]. by eapply Synced_same. }
  clearbody c0.
  eapply wp_mono; [|by apply reconcileDesiredIPs_sync]. intros _ c1 w1 (HS1 & Hq1 & Hc1). wp_step.
  eapply wp_mono; [|by apply reconcilePendingIPs_sync]. intros _ c2 w2 (HS2 & Hq2 & Hc2). wp_step.
  eapply wp_mono; [|by apply reconcileIPStatus_sync]. intros _ c3 w3 (HS3 & Hq3 & Hst3 & Hk3). wp_step.
  eapply wp_mono; [|by apply reconcileAssignment_sync]. intros _ c4 w4 [[HS4 _ _ Hst4 Hk4 Hkeep4] Hd4]. wp_step.
  assert (config c4 = config c) as Hc4
    by (by rewrite (stable_config _ _ Hst4), (stable_config _ _ Hst3), Hc2, Hc1).
  assert (holder w3 = holder w) as Hh3.
  { apply (quiet_holder _ _ c (proj2 HS)). by repeat (etrans; [eassumption|]). }
  assert (converged c w c4 w4) as Hcv.
  { split; [done..|by apply drained_balanced|]. intros ip p Hp Hh. apply Hkeep4; [by rewrite Hh3|].
    by rewrite (config_names _ _ (stable_config _ _ Hst3)), (config_names _ _ Hc2), (config_names _ _ Hc1),
      (config_names _ _ Hc0). }
  eapply wp_mono; [|apply reconcileDNS_sync; [done|]].
  - intros _ c5 w5 (HS5 & Hq5 & Hst5). assert (converged c w c5 w5) as Hcv5 by (by eapply converged_next).
    clear - Hcv5 IPCooperation0. go. destruct (i_onStatusUpdate c5); [|by go].
    destruct (i_updateStatus c5); [|by go].
    unfold ipController.buildStatusUpdate, orderedSet.AsList, range_keys. go.
    assert (quiet w5 w2) as Hq by (by repeat (etrans; [eassumption|])).
    pose proof (Settled_quiet _ _ _ (cv_settled _ _ _ _ Hcv5) Hq) as HS'.
    destruct a1; go; (eapply converged_next; [exact Hcv5|solve_stable|exact Hq|]); [exact HS'|].
    destruct HS' as [HI' HS']. split; [exact HI'|by eapply Synced_same].
  - destruct (config_dns _ _ Hc4) as [Hd Hp]. split; [by rewrite Hd, Hp|done].
Qed.
End converge.
