(* ===== verification/IPLife.v ===== *)
(** * The life of a controller with a cooperative provider

    The controller from its creation on, through the operations of the other
    controllers and its own passes, with a provider that does what it is asked: each
    pass leaves the assignments as good as they can be. *)
From S2P Require Import Prelude Go Retry OrderedSet K8s Types Provider IPController.
From S2P Require Import IPInvariant IPReconcile Sim IPSystem IPAssign IPSync IPConverge.

Section life.
Context `{IPEnvLaws W, !IPCooperation W}.
Implicit Types (c : ipController) (w : W).

(** The operations as the other controllers use them: a provider is set, without a
    cool-off; the specification keeps the addresses that active nodes hold; a node
    that becomes active holds no foreign address. *)
Definition gentle (o : op) c w : Prop :=
  match o with
  | OpUpdateProviders prov _ _ coolOff => is_Some prov ∧ coolOff = 0%Z
  | OpUpdateIPs ips n => clean_spec ips n c w
  | OpEnableNodes nodes => Forall (λ n, clean_node n c w) nodes
  | _ => True
  end.

(** [life c w]: the controller comes to [c] while the world comes to [w].  The world
    may move on its own as it does when it answers: time passes, nobody else moves
    the addresses. *)
Inductive life : ipController → W → Prop :=
  | life_new f g h (prov : Ref) dnsProv region w :
      cooperative w →
      life (ipController.updateProviders (Some prov) dnsProv region 0
              (ipController.newIPController f g h)).2 w
  | life_op o c w c' w' :
      life c w → gentle o c w → exec o c w = Ret (tt, c', w') → life c' w'
  | life_pass c w t c' w' :
      life c w → (is_Some (i_dns c) → is_Some (i_dnsProvider c)) →
      iterate c w = Ret (t, c', w') → life c' w'
  | life_world c w w' : life c w → quiet w w' → life c w'.

(** A controller that knows no node and has looked no address up agrees with every
    provider. *)
Lemma Synced_reset c w : cooperative w → is_Some (i_provider c) → i_assignmentCoolOff c = 0%Z →
  (∀ ip, ip ∈ i_pendingIPs c → ip ≠ "" ∧ holder w !! ip = None) → "" ∉ elems (i_ips c) →
  i_ipToStatus c = ∅ → i_providerIDToNodeName c = ∅ → i_providerIDToRetry c = ∅ → Synced c w.
Proof.
  intros Hco Hp Hc Hpe Hn Hs Hnames Hr. split; try done.
  - rewrite Hs, Hnames, Hr. split; try done. by intros p [? ?].
  - rewrite Hnames. by intros ip p _ [? ?].
Qed.

Lemma updateProviders_sync (prov : Ref) dnsProv region c w :
  Inv c w → Synced c w →
  Synced (ipController.updateProviders (Some prov) dnsProv region 0 c).2 w.
Proof.
  intros HI HS. unfold ipController.updateProviders.
  destruct (negb _ || negb _); cbn [fst snd]; cbn; rewrite (sy_cooloff _ _ HS); cbn [Z.eqb negb snd]; [|done].
  destruct HS. by apply Synced_reset.
Qed.

Lemma exec_sync o c w : Settled c w → gentle o c w → wp False (exec o) (λ _, Settled) c w.
Proof.
  intros HS Hg. destruct o; cbn [exec].
  - destruct Hg as [[p ->] ->], HS as [HI HS]. wp_steps.
    split; [by apply updateProviders_inv|by apply updateProviders_sync].
  - eapply wp_mono; [|by apply updateIPs_sync]. by intros _ c' w' [? _].
  - wp_steps. destruct HS as [HI HS]. split; [by apply updateDNSSpec_inv|].
    unfold ipController.updateDNSSpec. repeat case_match; by first [done|eapply Synced_same].
  - eapply wp_mono; [|by apply EnableNodes_sync]. by intros _ c' w' [? _].
  - eapply wp_mono; [|by apply DisableNodes_sync]. by intros _ c' w' [? _].
  - wp_steps. unfold ipController.start. destruct (i_running c); [done|].
    destruct HS as [HI HS]. split; [exact HI|by eapply Synced_same].
Qed.

Lemma iterate_sync c w : Settled c w → (is_Some (i_dns c) → is_Some (i_dnsProvider c)) →
  wp False iterate (λ _ c' w', converged c w c' w') c w.
Proof.
  intros HS Hdns. unfold iterate. wp_step. eapply wp_mono; [|by apply reconcile_sync].
  intros [] c1 v1 Hcv. unfold ipController.retryTimerDuration. go.
  match goal with |- converged _ _ _ ?w2 => assert (quiet v1 w2) as Hq by (by etrans) end.
  eapply converged_next; [exact Hcv|reflexivity|exact Hq|]. by eapply Settled_quiet; [apply Hcv|].
Qed.

Lemma life_settled c w : life c w → Settled c w.
Proof.
  induction 1 as [f g h prov dnsProv region w Hco|o c w c' w' _ HS Hg He
                 |c w t c' w' _ HS Hd He|c w w' _ HS Hq].
  - split; [apply updateProviders_inv, new_inv|]. unfold ipController.updateProviders.
    destruct (negb _ || negb _) eqn:Hb; [|done]. cbn. apply Synced_reset; cbn; try done; set_solver.
  - pose proof (exec_sync o c w HS Hg) as Hwp. unfold wp in Hwp. by rewrite He in Hwp.
  - pose proof (iterate_sync c w HS Hd) as Hwp. unfold wp in Hwp. rewrite He in Hwp. apply Hwp.
  - by eapply Settled_quiet.
Qed.
End life.


(** *** The simulated world *)
#[export] Instance sim_cooperation : IPCooperation Sim.
Proof.
  split; cbn.
  - by intros w [].
  - intros w ip []. auto.
  - intros w ip []. auto.
  - intros w x y n []. eauto.
  - intros _ ip w []. by rewrite sc_lookup.
  - intros _ _ w ip w' [] Hc. unfold sim_CreateIP in Hc. destruct (sim_spare w) as [|x l]; [done|].
    case_decide; [done|]. injection Hc as <- <-. intros ->. apply sc_spare. by left.
  - intros _ ip n w [] Ha Hn Hfree. unfold sim_AssignIP. cbn. rewrite sc_assign. cbn.
    split_and!; [by left| |done]. split; cbn; try done.
    + intros x [<-|[_ Hx]]%lookup_insert_is_Some; auto.
    + intros x [[_ Hx]|[_ Hx]]%lookup_insert_Some; [done|by apply sc_value in Hx].
    + intros x y m [[Hx1 Hx]|[Hx1 Hx]]%lookup_insert_Some [[Hy1 Hy]|[Hy1 Hy]]%lookup_insert_Some; simplify_eq; try done.
      * by apply Hfree in Hy.
      * by apply Hfree in Hx.
      * eauto.
Qed.

Module Life.
Definition created : ipController :=
  (ipController.updateProviders (Some 2%positive) None "nyc3" 0
     (ipController.newIPController None None None)).2.
Definition addresses : slice string := Some ["10.0.0.1"; "10.0.0.2"].
Definition nodes : list Node := [example_node "a" "do://1"; example_node "b" "do://2"; example_node "c" "do://3"].
Definition specified : ipController * Sim :=
  ran (exec (OpUpdateIPs addresses 0) created sim0) (created, sim0).
Definition enabled : ipController * Sim :=
  ran (exec (OpEnableNodes nodes) specified.1 specified.2) specified.

Lemma sim0_cooperative : cooperative sim0.
Proof.
  split; try done.
  - by intros ?%list_elem_of_singleton.
  - by intros ip [? ?].
Qed.
Lemma life_enabled : life enabled.1 enabled.2.
Proof.
  apply (life_op (OpEnableNodes nodes) specified.1 specified.2); [|by repeat constructor|by vm_compute].
  apply (life_op (OpUpdateIPs addresses 0) created sim0); [|split_and!|by vm_compute].
  - apply life_new, sim0_cooperative.
  - done.
  - intros ip Hip. cbn in *. split_and!; [|set_solver|set_solver]. set_solver.
  - by intros ip p Hh.
Qed.
End Life.

