(* ===== verification/NodeMatch.v ===== *)
(** * pkg/nodematch/match_controller.go

    The controller that watches nodes and pods and tells its action - a floating
    IP pool or a node DNS record set - which nodes match: its state, the handlers
    of node and pod events, and the priming pass of [run].  Logging and the
    construction of the informers are left out. *)
From stdpp Require Import sorting.
From S2P Require Import Prelude Go Retry K8s Types Provider.

(** Functions of the Kubernetes libraries: label selectors and the toleration of
    taints. *)
Class KubeAPI : Type := {
  Selector : Type;
  labels_Parse : string → Selector + error;
  Matches : Selector → gmap string string → bool;
  ToleratesTaint : Toleration → Taint → bool;
}.

(** [NodeEnableDisabler], and the rest of the world: the pod index, the cache
    synchronisation and the node store of the informers. *)
Class NodeEnableDisabler (W : Type) : Type := {
  action_EnableNodes : Ref → list Node → W → unit * W;
  action_DisableNodes : Ref → list Node → W → unit * W;
}.
Class MatchEnv (W : Type) : Type := {
  #[global] matchenv_action :: NodeEnableDisabler W;
  #[global] matchenv_range :: MapRange W;
  podIndexer_ByIndex : Ref → string → W → (list Pod + error) * W;
  WaitForCacheSync : W → bool * W;
  nodeStore_List : W → list Node * W;
}.
(** A lister of nodes, which reads the store of an informer. *)
Class NodeLister (W : Type) : Type := {
  lister_Get : Ref → string → W → (Node + error) * W;
}.

(** ** State *)

(** The type [node]: what is known of one node. *)
Record node : Type := MNode {
  n_k8sNode : Node;
  n_isNodeMatch : bool;
  n_matchingPods : gmap string Pod;
  n_enabled : bool;
}.
Definition eta_node (n : node) : node :=
  MNode (n_k8sNode n) (n_isNodeMatch n) (n_matchingPods n) (n_enabled n).
#[export] Instance set_n_k8sNode : Setter n_k8sNode := ltac:(derive_setter eta_node n_k8sNode).
#[export] Instance set_n_isNodeMatch : Setter n_isNodeMatch :=
  ltac:(derive_setter eta_node n_isNodeMatch).
#[export] Instance set_n_matchingPods : Setter n_matchingPods :=
  ltac:(derive_setter eta_node n_matchingPods).
#[export] Instance set_n_enabled : Setter n_enabled := ltac:(derive_setter eta_node n_enabled).

(** The type [Controller]; [m_running] is [cancel != nil]. *)
Record Controller `{!KubeAPI} : Type := Controller_ {
  m_match : option Match;
  m_nodeSelector : option Selector;
  m_podSelector : option Selector;
  m_nodeNameToNode : gmap string node;
  m_running : bool;
  m_primed : bool;
  m_podIndexer : option Ref;
  m_nodeLister : option Ref;
  m_action : Ref;
}.
Definition eta_Controller `{!KubeAPI} (m : Controller) : Controller :=
  Controller_ _ (m_match m) (m_nodeSelector m) (m_podSelector m) (m_nodeNameToNode m)
    (m_running m) (m_primed m) (m_podIndexer m) (m_nodeLister m) (m_action m).
#[export] Instance set_m_match `{!KubeAPI} : Setter m_match :=
  ltac:(let b := eval cbv beta delta [eta_Controller] in eta_Controller in
        derive_setter_in b m_match).
#[export] Instance set_m_nodeSelector `{!KubeAPI} : Setter m_nodeSelector :=
  ltac:(let b := eval cbv beta delta [eta_Controller] in eta_Controller in
        derive_setter_in b m_nodeSelector).
#[export] Instance set_m_podSelector `{!KubeAPI} : Setter m_podSelector :=
  ltac:(let b := eval cbv beta delta [eta_Controller] in eta_Controller in
        derive_setter_in b m_podSelector).
#[export] Instance set_m_nodeNameToNode `{!KubeAPI} : Setter m_nodeNameToNode :=
  ltac:(let b := eval cbv beta delta [eta_Controller] in eta_Controller in
        derive_setter_in b m_nodeNameToNode).
#[export] Instance set_m_running `{!KubeAPI} : Setter m_running :=
  ltac:(let b := eval cbv beta delta [eta_Controller] in eta_Controller in
        derive_setter_in b m_running).
#[export] Instance set_m_primed `{!KubeAPI} : Setter m_primed :=
  ltac:(let b := eval cbv beta delta [eta_Controller] in eta_Controller in
        derive_setter_in b m_primed).
#[export] Instance set_m_podIndexer `{!KubeAPI} : Setter m_podIndexer :=
  ltac:(let b := eval cbv beta delta [eta_Controller] in eta_Controller in
        derive_setter_in b m_podIndexer).
#[export] Instance set_m_nodeLister `{!KubeAPI} : Setter m_nodeLister :=
  ltac:(let b := eval cbv beta delta [eta_Controller] in eta_Controller in
        derive_setter_in b m_nodeLister).

(** An object an informer delivers. *)
Inductive object : Type :=
  | ObjNode (n : Node)
  | ObjPod (p : Pod)
  | ObjOther.

Definition newNode (k8sNode : Node) : node := MNode k8sNode false ∅ false.
Definition getName (n : node) : string := node_Name (n_k8sNode n).
Definition getProviderID (n : node) : string := node_ProviderID (n_k8sNode n).
Definition podNamespacedName (pod : Pod) : string := pod_Namespace pod +:+ "/" +:+ pod_Name pod.

(** [podNodeNameIndexer]: the index key of a pod is the name of its node. *)
Definition podNodeNameIndexer (obj : object) : list string + error :=
  match obj with
  | ObjPod pod => inl [pod_NodeName pod]
  | _ => inr (ErrorString "expected pod type")
  end.

(** The last condition of the given type decides. *)
Definition cond_true (ty : string) (conds : list Condition) : bool :=
  foldl (λ ready c, if bool_decide (cond_Type c = ty)
                    then bool_decide (cond_Status c = ConditionTrue) else ready)
    false conds.

(** [byNodeName] and [sort.Sort]: by name, in the order of the bytes. *)
Definition byNodeName (a b : Node) : Prop := String.leb (node_Name a) (node_Name b) = true.
#[export] Instance byNodeName_dec a b : Decision (byNodeName a b).
Proof. unfold byNodeName. apply _. Defined.

Section operations.
Context `{!KubeAPI} {W : Type} `{!MatchEnv W}.
Local Abbreviation M := (M Controller W).

Definition NewController (action : Ref) : Controller :=
  Controller_ _ None None None ∅ false false None None action.

(** [Start] launches the goroutine [run]; [Stop] cancels it and waits. *)
Definition Start (m : Controller) : Controller :=
  if m_running m then m else m <| m_running := true |>.
Definition Stop (m : Controller) : Controller := m <| m_running := false |>.

Definition IsCriteriaEqual (criteria : option Match) (m : Controller) : bool :=
  bool_decide (criteria = m_match m).

(** A label that does not parse leaves the controller without criteria. *)
Definition SetCriteria (criteria : Match) (m : Controller) : Controller :=
  let m := m <| m_match := Some criteria |> <| m_nodeSelector := None |> in
  match (if bool_decide (NodeLabel criteria = "") then inl None
         else match labels_Parse (NodeLabel criteria) with
              | inl s => inl (Some s) | inr e => inr e end) with
  | inr _ => m <| m_match := None |>
  | inl nodeSelector =>
      let m := m <| m_nodeSelector := nodeSelector |> <| m_podSelector := None |> in
      match (if bool_decide (PodLabel criteria = "") then inl None
             else match labels_Parse (PodLabel criteria) with
                  | inl s => inl (Some s) | inr e => inr e end) with
      | inr _ => m <| m_match := None |>
      | inl podSelector => m <| m_podSelector := podSelector |>
      end
  end.

Definition ValidateMatch (criteria : Match) : option error :=
  match (if bool_decide (NodeLabel criteria = "") then None
         else match labels_Parse (NodeLabel criteria) with
              | inl _ => None | inr e => Some e end) with
  | Some e => Some (WrapError "parsing node selector: " e)
  | None =>
      match (if bool_decide (PodLabel criteria = "") then None
             else match labels_Parse (PodLabel criteria) with
                  | inl _ => None | inr e => Some e end) with
      | Some e => Some (WrapError "parsing pod selector: " e)
      | None => None
      end
  end.

(** [m.match.PodNamespace != "" || m.podSelector != nil] *)
Definition wants_pods (m : Controller) : option bool :=
  criteria ← m_match m;
  Some (negb (bool_decide (PodNamespace criteria = "")) ||
        match m_podSelector m with Some _ => true | None => false end).

(** The loop over the taints: [m.match] is dereferenced for each of them. *)
Fixpoint tolerates (m : Controller) (taints : list Taint) : option bool :=
  match taints with
  | [] => Some true
  | taint :: taints' =>
      criteria ← m_match m;
      if existsb (λ tol, ToleratesTaint tol taint) (elems (Tolerations criteria))
      then tolerates m taints' else Some false
  end.

Definition isNodeMatch (m : Controller) (n : node) : option bool :=
  if negb (cond_true NodeReady (node_Conditions (n_k8sNode n))) then Some false
  else if match m_nodeSelector m with
          | Some s => negb (Matches s (node_Labels (n_k8sNode n)))
          | None => false
          end then Some false
  else tolerates m (node_Taints (n_k8sNode n)).

Definition EnableNodes (nodes : list Node) : M unit :=
  a ← gets m_action; call (action_EnableNodes a nodes).
Definition DisableNodes (nodes : list Node) : M unit :=
  a ← gets m_action; call (action_DisableNodes a nodes).

(** Writing through the pointer [n := m.nodeNameToNode[name]]. *)
Definition get_node (name : string) : M node :=
  nodes ← gets m_nodeNameToNode; deref (nodes !! name).
Definition upd_node (name : string) (f : node → node) : M unit :=
  modify (λ m, m <| m_nodeNameToNode ::= alter f name |>).

Definition getNodePods (nodeName : string) : M (list Pod + error) :=
  idx ← gets m_podIndexer; idx ← deref idx;
  res ← call (podIndexer_ByIndex idx nodeName);
  mret (match res with
        | inl pods => inl pods
        | inr err => inr (WrapError "retrieving pods: " err)
        end).

Definition deleteNode (k8sNode : Node) : M unit :=
  DisableNodes [k8sNode] ;;
  modify (λ m, m <| m_nodeNameToNode ::= delete (node_Name k8sNode) |>).

Definition deletePod (pod : Pod) : M unit :=
  if bool_decide (pod_NodeName pod = "") then mret tt
  else
    nodes ← gets m_nodeNameToNode;
    match nodes !! pod_NodeName pod with
    | None => mret tt
    | Some _ =>
        upd_node (pod_NodeName pod)
          (λ n, n <| n_matchingPods ::= delete (podNamespacedName pod) |>) ;;
        n ← get_node (pod_NodeName pod);
        when (bool_decide (n_matchingPods n = ∅)) (DisableNodes [n_k8sNode n])
    end.

(** [len(n.matchingPods) == 1] *)
Definition updatePod (pod : Pod) : M (option error) :=
  let nodeName := pod_NodeName pod in
  if bool_decide (nodeName = "") then mret None
  else if pod_Deleting pod then deletePod pod ;; mret None
  else
    nodes ← gets m_nodeNameToNode;
    match nodes !! nodeName with
    | None => mret None
    | Some n =>
        if negb (n_isNodeMatch n) then mret None
        else
          criteria ← gets m_match; criteria ← deref criteria;
          podSelector ← gets m_podSelector;
          if negb (bool_decide (PodNamespace criteria = "")) &&
             negb (bool_decide (pod_Namespace pod = PodNamespace criteria)) then mret None
          else if match podSelector with
                  | Some s => negb (Matches s (pod_Labels pod))
                  | None => false
                  end then mret None
          else
            let podKey := podNamespacedName pod in
            let active := match n_matchingPods n !! podKey with Some _ => true | None => false end in
            let running := bool_decide (pod_Phase pod = PodRunning) in
            let ready := cond_true PodReady (pod_Conditions pod) in
            if Bool.eqb (ready && running) active then mret None
            else if ready && running then
              upd_node nodeName (λ n, n <| n_matchingPods ::= <[podKey := pod]> |>) ;;
              n ← get_node nodeName;
              if (size (n_matchingPods n) =? 1)%nat then
                upd_node nodeName (λ n, n <| n_enabled := true |>) ;;
                primed ← gets m_primed;
                when primed (EnableNodes [n_k8sNode n]) ;;
                mret None
              else mret None
            else
              upd_node nodeName (λ n, n <| n_matchingPods ::= delete podKey |>) ;;
              n ← get_node nodeName;
              when (bool_decide (n_matchingPods n = ∅)) (DisableNodes [n_k8sNode n]) ;;
              mret None
    end.

(** The node matches now, or it does not: the end of [updateNode]. *)
Definition nodeMatches (name : string) : M (option error) :=
  m ← gets id;
  pods ← deref (wants_pods m);
  if pods : bool then
    res ← getNodePods name;
    match res with
    | inr err => mret (Some (WrapError "listing node pods: " err))
    | inl podList => for_each podList (λ pod, _ ← updatePod pod; mret tt) ;; mret None
    end
  else
    upd_node name (λ n, n <| n_enabled := true |>) ;;
    n ← get_node name;
    when (m_primed m) (EnableNodes [n_k8sNode n]) ;;
    mret None.
Definition nodeMismatches (name : string) : M (option error) :=
  upd_node name (λ n, n <| n_enabled := false |>) ;;
  n ← get_node name;
  DisableNodes [n_k8sNode n] ;;
  mret None.

(** [updateNode] once the node is known under its name. *)
Definition refreshNode (name oldReservedIP newReservedIP : string) : M (option error) :=
  n ← get_node name;
  m ← gets id;
  matches ← deref (isNodeMatch m n);
  upd_node name (λ n, n <| n_isNodeMatch := matches |>) ;;
  if bool_decide (oldReservedIP = newReservedIP) && Bool.eqb (n_isNodeMatch n) matches
  then mret None
  else
    when (matches && negb (bool_decide (n_matchingPods n = ∅)))
      (upd_node name (λ n, n <| n_matchingPods := ∅ |>)) ;;
    if matches : bool then nodeMatches name else nodeMismatches name.

Definition reservedIP (k8sNode : Node) : string :=
  map_get (node_Annotations k8sNode) IPv4ReservedIPAnnotation.

Definition updateNode (k8sNode : Node) : M (option error) :=
  if node_Deleting k8sNode then deleteNode k8sNode ;; mret None
  else
    let name := node_Name k8sNode in
    nodes ← gets m_nodeNameToNode;
    match nodes !! name with
    | None =>
        if bool_decide (node_ProviderID k8sNode = "") then mret None
        else
          modify (λ m, m <| m_nodeNameToNode ::= <[name := newNode k8sNode]> |>) ;;
          refreshNode name "" (reservedIP k8sNode)
    | Some n =>
        upd_node name (λ n, n <| n_k8sNode := k8sNode |>) ;;
        refreshNode name (reservedIP (n_k8sNode n)) (reservedIP k8sNode)
    end.

(** The event handlers. *)
Definition OnUpdate (obj : object) : M unit :=
  match obj with
  | ObjNode n => _ ← updateNode n; mret tt
  | ObjPod p => _ ← updatePod p; mret tt
  | ObjOther => mret tt
  end.
Definition OnAdd (obj : object) : M unit := OnUpdate obj.
Definition OnDelete (obj : object) : M unit :=
  match obj with
  | ObjNode n => deleteNode n
  | ObjPod p => deletePod p
  | ObjOther => mret tt
  end.

(** [run], up to the synchronisation of the caches; [idx] is the index of the pod
    informer it creates, [lister] the lister of the node informer.  It answers
    whether there are criteria. *)
Definition run_setup (idx lister : Ref) : M bool :=
  m ← gets id;
  match m_match m with
  | None => mret false
  | Some _ =>
      pods ← deref (wants_pods m);
      modify (λ m, m <| m_podIndexer := if (pods : bool) then Some idx else None |>
                     <| m_nodeLister := Some lister |>) ;;
      mret true
  end.

(** The end of [run]: enable the nodes that match in one call. *)
Definition prime : M unit :=
  tracked ← gets m_nodeNameToNode;
  names ← range_keys tracked;
  let enable := omap (λ name, n ← tracked !! name;
                        if n_enabled n then Some (n_k8sNode n) else None) names in
  EnableNodes (merge_sort byNodeName enable) ;;
  modify (λ m, m <| m_primed := true |>).

(** [run], once the informers run: wait for the caches, look at every node again,
    then prime. *)
Definition run_synced : M unit :=
  synced ← call WaitForCacheSync;
  if negb synced then mret tt
  else
    nodes ← call nodeStore_List;
    for_each nodes (λ n, _ ← updateNode n; mret tt) ;;
    prime.

Definition run (idx lister : Ref) : M unit :=
  ok ← run_setup idx lister;
  if (ok : bool) then run_synced else mret tt.

(** [GetNodeByName]: the lister is [nil] until [run] has created it. *)
Definition GetNodeByName `{!NodeLister W} (nodeName : string) : M (Node + error) :=
  lister ← gets m_nodeLister; lister ← deref lister;
  call (lister_Get lister nodeName).
End operations.
