(* ===== verification/NodeMatchProps.v ===== *)
(** * Properties of the node match controller

    After priming, the nodes that are enabled with the action are exactly the
    nodes that match; when that holds, and how it is lost. *)
From stdpp Require Import sorting.
From S2P Require Import Prelude Go Retry K8s Types Provider NodeMatch.

(** [active w]: the names of the nodes that are enabled with the action. *)
Class MatchGhost (W : Type) : Type := { active : W → gset string }.
Definition names_of (nodes : list Node) : gset string := list_to_set (node_Name <$> nodes).

Class MatchLaws (W : Type) `{!MatchEnv W, !MatchGhost W} : Prop := {
  #[global] matchlaws_range :: MapRangeLaws W;
  range_active ks w : active (range_order ks w).2 = active w;
  Enable_active a ns w : active (action_EnableNodes a ns w).2 = active w ∪ names_of ns;
  Disable_active a ns w : active (action_DisableNodes a ns w).2 = active w ∖ names_of ns;
  index_active i n w : active (podIndexer_ByIndex i n w).2 = active w;
  synced_active w : active (WaitForCacheSync w).2 = active w;
  store_active w : active (nodeStore_List w).2 = active w;
}.

Section props.
Context `{!KubeAPI} `{MatchLaws W}.
Implicit Types (m : Controller) (w : W) (n : node).

(** The node is to be enabled. *)
Definition desired m n : Prop :=
  n_isNodeMatch n = true ∧ (wants_pods m = Some false ∨ n_matchingPods n ≠ ∅).

(** The configuration, which events leave alone. *)
Definition conf m := (m_match m, m_nodeSelector m, m_podSelector m, m_primed m, m_podIndexer m, m_action m).

(** The controller is primed and can answer pod queries. *)
Record ready m : Prop := {
  rd_primed : m_primed m = true;
  rd_match : is_Some (m_match m);
  rd_index : wants_pods m = Some true → is_Some (m_podIndexer m);
  rd_keys : ∀ name n, m_nodeNameToNode m !! name = Some n → node_Name (n_k8sNode n) = name;
}.

(** The action has enabled the nodes that match, and - but for the nodes in
    [loose] - no others. *)
Definition tracked m w name : Prop :=
  ∃ n, m_nodeNameToNode m !! name = Some n ∧ desired m n.
Definition SyncUpto (loose : gset string) m w : Prop :=
  ready m ∧ ∀ name, (tracked m w name → name ∈ active w) ∧
                    (name ∈ active w → name ∉ loose → tracked m w name).
Definition Sync m w : Prop := ready m ∧ ∀ name, name ∈ active w ↔ tracked m w name.

Lemma Sync_upto m w : Sync m w ↔ SyncUpto ∅ m w.
Proof.
  unfold Sync, SyncUpto. split; intros [Hr HS]; (split; [done|]); intros name;
    specialize (HS name); set_solver.
Qed.

Lemma wants_pods_conf m m' : conf m' = conf m → wants_pods m' = wants_pods m.
Proof. unfold conf, wants_pods. intros [= -> _ -> _ _ _]. done. Qed.
Lemma desired_conf m m' n : conf m' = conf m → desired m' n ↔ desired m n.
Proof. intros Hc. unfold desired. by rewrite (wants_pods_conf _ _ Hc). Qed.

Lemma wp_EnableNodes E ns (Q : unit → Controller → W → Prop) m w :
  (∀ w', active w' = active w ∪ names_of ns → Q tt m w') →
  wp E (EnableNodes ns) Q m w.
Proof.
  intros HQ. unfold EnableNodes. wp_steps. apply wp_call. intros [] w' Hw. apply HQ.
  by rewrite <- (Enable_active (m_action m)), Hw.
Qed.
Lemma wp_DisableNodes E ns (Q : unit → Controller → W → Prop) m w :
  (∀ w', active w' = active w ∖ names_of ns → Q tt m w') →
  wp E (DisableNodes ns) Q m w.
Proof.
  intros HQ. unfold DisableNodes. wp_steps. apply wp_call. intros [] w' Hw. apply HQ.
  by rewrite <- (Disable_active (m_action m)), Hw.
Qed.
Lemma wp_upd_node E name f (Q : unit → Controller → W → Prop) m w :
  Q tt (m <| m_nodeNameToNode := alter f name (m_nodeNameToNode m) |>) w →
  wp E (upd_node name f) Q m w.
Proof. done. Qed.
Lemma wp_get_node E name n (Q : node → Controller → W → Prop) m w :
  m_nodeNameToNode m !! name = Some n → Q n m w → wp E (get_node name) Q m w.
Proof. intros Hn HQ. unfold get_node. wp_steps. by rewrite Hn. Qed.

Lemma names_singleton k : names_of [k] = {[node_Name k]}.
Proof. unfold names_of. cbn. apply union_empty_r_L. Qed.

(** *** One node changes *)

(** The entry of [name] is rewritten to [n'], and the action has enabled or
    disabled it accordingly. *)
Lemma Sync_set L m w name n n' m' w' :
  SyncUpto L m w → m_nodeNameToNode m !! name = Some n →
  m' = m <| m_nodeNameToNode := <[name := n']> (m_nodeNameToNode m) |> →
  node_Name (n_k8sNode n') = name →
  (∀ x, x ≠ name → x ∈ active w' ↔ x ∈ active w) →
  (desired m n' → name ∈ active w') →
  (name ∈ active w' → name ∉ L → desired m n') →
  SyncUpto L m' w'.
Proof.
  intros [[] Hs] Hn -> Hname Hother Hthis Hthis'. split.
  - split; cbn; try done. intros x nx [[<- <-]|[_ Hx]]%lookup_insert_Some; [done|by apply rd_keys0].
  - intros x. unfold tracked. cbn. destruct (decide (name = x)) as [<-|Hne].
    + rewrite lookup_insert_eq. split; [by intros (? & [= <-] & ?); auto|]. eauto.
    + rewrite lookup_insert_ne, Hother by done. apply Hs.
Qed.

Lemma Sync_active L m w w' : active w' = active w → SyncUpto L m w → SyncUpto L m w'.
Proof. intros Ha [Hr Hs]. split; [done|]. intros x. unfold tracked. rewrite Ha. apply Hs. Qed.

Lemma Sync_this L m w name n :
  SyncUpto L m w → m_nodeNameToNode m !! name = Some n →
  (desired m n → name ∈ active w) ∧ (name ∈ active w → name ∉ L → desired m n).
Proof.
  intros [_ Hs] Hn. destruct (Hs name) as [H1 H2]. unfold tracked in *. split; [by eauto|].
  intros Ha HL. destruct (H2 Ha HL) as (n' & Hn' & Hd). by simplify_eq.
Qed.

Lemma alter_insert_eq {A} (f : A → A) (k : string) (x : A) (mm : gmap string A) :
  mm !! k = Some x → alter f k mm = <[k := f x]> mm.
Proof.
  intros Hk. apply map_eq. intros j. destruct (decide (k = j)) as [<-|Hne].
  - by rewrite lookup_alter_eq, Hk, lookup_insert_eq.
  - by rewrite lookup_alter_ne, lookup_insert_ne.
Qed.

(** *** Pod events *)

(** The pod is running and ready, and it is one of those that are wanted. *)
Definition pod_ready (pod : Pod) : bool :=
  cond_true PodReady (pod_Conditions pod) && bool_decide (pod_Phase pod = PodRunning).

(** The pod counts for the node it runs on, if that node matches. *)
Definition pod_counts m (pod : Pod) : bool :=
  negb (bool_decide (pod_NodeName pod = "")) && negb (pod_Deleting pod) && pod_ready pod &&
  match m_match m with
  | Some criteria => bool_decide (PodNamespace criteria = "") ||
                     bool_decide (pod_Namespace pod = PodNamespace criteria)
  | None => false
  end &&
  match m_podSelector m with Some s => Matches s (pod_Labels pod) | None => true end.

(** What a pod event changes: the entry of its key, in the node it runs on. *)
Record pod_effect (pod : Pod) m m' : Prop := {
  pe_conf : conf m' = conf m;
  pe_other : ∀ x, x ≠ pod_NodeName pod → m_nodeNameToNode m' !! x = m_nodeNameToNode m !! x;
  pe_node : ∀ n, m_nodeNameToNode m !! pod_NodeName pod = Some n →
    ∃ n', m_nodeNameToNode m' !! pod_NodeName pod = Some n' ∧
      n_isNodeMatch n' = n_isNodeMatch n ∧
      (∀ k, k ≠ podNamespacedName pod → n_matchingPods n' !! k = n_matchingPods n !! k) ∧
      (n_isNodeMatch n = true → pod_counts m pod = true →
         is_Some (n_matchingPods n' !! podNamespacedName pod));
}.

Lemma pod_effect_refl pod m :
  (∀ n, m_nodeNameToNode m !! pod_NodeName pod = Some n → n_isNodeMatch n = true →
     pod_counts m pod = true → is_Some (n_matchingPods n !! podNamespacedName pod)) →
  pod_effect pod m m.
Proof. intros Hc. split; [done..|]. intros n Hn. exists n. split_and!; [done..|by eauto]. Qed.

Lemma pod_effect_set pod m n n' m' :
  m_nodeNameToNode m !! pod_NodeName pod = Some n →
  m' = m <| m_nodeNameToNode := <[pod_NodeName pod := n']> (m_nodeNameToNode m) |> →
  n_isNodeMatch n' = n_isNodeMatch n →
  (∀ k, k ≠ podNamespacedName pod → n_matchingPods n' !! k = n_matchingPods n !! k) →
  (pod_counts m pod = true → is_Some (n_matchingPods n' !! podNamespacedName pod)) →
  pod_effect pod m m'.
Proof.
  intros Hn -> Hm Hk Hc. split; [done| |].
  - intros x Hx. cbn. by rewrite lookup_insert_ne.
  - intros n0 Hn0. simplify_eq. exists n'. cbn. rewrite lookup_insert_eq. by split_and!.
Qed.

Lemma deletePod_sync L pod m w :
  SyncUpto L m w → wants_pods m = Some true →
  wp False (deletePod pod)
    (λ _ m' w', SyncUpto L m' w' ∧ conf m' = conf m ∧
       (pod_counts m pod = false → pod_effect pod m m')) m w.
Proof.
  intros HS Hw. unfold deletePod.
  assert (pod_counts m pod = false → pod_effect pod m m) as Hrefl
    by (intros; apply pod_effect_refl; congruence).
  case_bool_decide; [by wp_steps|]. wp_steps.
  destruct (m_nodeNameToNode m !! pod_NodeName pod) as [n|] eqn:Hn; [|by wp_steps].
  pose proof (rd_keys _ (proj1 HS) _ _ Hn) as Hname.
  destruct (Sync_this _ _ _ _ _ HS Hn) as [Hthis Hthis']. unfold desired in *.
  set (key := podNamespacedName pod).
  wp_steps. apply wp_upd_node. rewrite (alter_insert_eq _ _ _ _ Hn). wp_steps.
  eapply wp_get_node; [apply lookup_insert_eq|].
  match goal with |- wp _ _ _ ?m1 _ =>
    assert (pod_counts m pod = false → pod_effect pod m m1) as Heff end.
  { intros Hc. eapply pod_effect_set; [done|done|done| |congruence].
    intros k Hk. cbn. by rewrite lookup_delete_ne. }
  apply wp_when.
  - intros He%bool_decide_eq_true. cbn in He. apply wp_DisableNodes. intros w' Hw'.
    rewrite names_singleton in Hw'. cbn in Hw'. rewrite Hname in Hw'.
    split; [|by split]. eapply (Sync_set L m w); [done..| | |]; rewrite Hw'; [set_solver| |set_solver].
    intros [_ [Hf|Hne]]; [congruence|]. by destruct Hne.
  - intros He%bool_decide_eq_false. cbn in He. split; [|by split].
    assert (n_matchingPods n ≠ ∅) by (intros Hem; rewrite Hem, delete_empty in He; done).
    eapply (Sync_set L m w); [done..| |]; unfold desired; cbn; tauto.
Qed.

(** A pod that counted is ready no more. *)
Lemma unready_pod_sync L pod m w n :
  SyncUpto L m w → m_nodeNameToNode m !! pod_NodeName pod = Some n → n_isNodeMatch n = true →
  wants_pods m = Some true → n_matchingPods n ≠ ∅ → pod_counts m pod = false →
  wp False
    (upd_node (pod_NodeName pod) (λ n, n <| n_matchingPods ::= delete (podNamespacedName pod) |>) ;;
     n ← get_node (pod_NodeName pod);
     when (bool_decide (n_matchingPods n = ∅)) (DisableNodes [n_k8sNode n]) ;;
     mret (A := option error) None)
    (λ _ m' w', SyncUpto L m' w' ∧ pod_effect pod m m') m w.
Proof.
  intros HS Hn Hmatch Hw Hne Hc. pose proof (rd_keys _ (proj1 HS) _ _ Hn) as Hname.
  destruct (Sync_this _ _ _ _ _ HS Hn) as [Hthis Hthis']. unfold desired in *.
  wp_steps. apply wp_upd_node. rewrite (alter_insert_eq _ _ _ _ Hn). wp_steps.
  eapply wp_get_node; [apply lookup_insert_eq|].
  match goal with |- wp _ _ _ ?m1 _ => assert (pod_effect pod m m1) as Heff end.
  { eapply pod_effect_set; [done|done|done| |congruence].
    intros k Hk. cbn. by rewrite lookup_delete_ne. }
  apply wp_bind, wp_when.
  - intros He%bool_decide_eq_true. cbn in He. apply wp_DisableNodes. intros w' Hw'.
    rewrite names_singleton in Hw'. cbn in Hw'. rewrite Hname in Hw'. wp_steps.
    split; [|done]. eapply (Sync_set L m w); [done..| | |]; rewrite Hw'; [set_solver| |set_solver].
    intros [_ [Hf|Hx]]; [congruence|]. by destruct Hx.
  - intros He%bool_decide_eq_false. cbn in He. wp_steps. split; [|done].
    eapply (Sync_set L m w); [done..| |]; unfold desired; cbn; tauto.
Qed.

(** A pod becomes ready. *)
Lemma ready_pod_sync L pod m w n :
  SyncUpto L m w → m_nodeNameToNode m !! pod_NodeName pod = Some n → n_isNodeMatch n = true →
  wants_pods m = Some true → n_matchingPods n !! podNamespacedName pod = None →
  wp False
    (upd_node (pod_NodeName pod) (λ n, n <| n_matchingPods ::= <[podNamespacedName pod := pod]> |>) ;;
     n ← get_node (pod_NodeName pod);
     if (size (n_matchingPods n) =? 1)%nat then
       upd_node (pod_NodeName pod) (λ n, n <| n_enabled := true |>) ;;
       primed ← gets m_primed;
       when primed (EnableNodes [n_k8sNode n]) ;;
       mret (A := option error) None
     else mret None)
    (λ _ m' w', SyncUpto L m' w' ∧ pod_effect pod m m') m w.
Proof.
  intros HS Hn Hmatch Hw Hkey. pose proof (rd_keys _ (proj1 HS) _ _ Hn) as Hname.
  destruct (Sync_this _ _ _ _ _ HS Hn) as [Hthis Hthis']. unfold desired in *.
  set (key := podNamespacedName pod) in *.
  wp_steps. apply wp_upd_node. rewrite (alter_insert_eq _ _ _ _ Hn). wp_steps.
  eapply wp_get_node; [apply lookup_insert_eq|].
  change (n_matchingPods (n <| n_matchingPods ::= <[key:=pod]> |>))
    with (<[key := pod]> (n_matchingPods n)). rewrite map_size_insert_None by done.
  assert (<[key := pod]> (n_matchingPods n) ≠ ∅) as Hne by apply insert_non_empty.
  assert (∀ k, k ≠ key → <[key := pod]> (n_matchingPods n) !! k = n_matchingPods n !! k) as Hk
    by (intros k Hk; by rewrite lookup_insert_ne).
  destruct (Nat.eqb_spec (S (size (n_matchingPods n))) 1) as [Hsz|Hsz].
  - wp_steps. apply wp_upd_node.
    erewrite alter_insert_eq; [|apply lookup_insert_eq]. wp_steps.
    apply wp_when; intros Hpr; [|cbn in Hpr; by rewrite (rd_primed _ (proj1 HS)) in Hpr].
    apply wp_EnableNodes. intros w' Hw'. wp_steps.
    rewrite names_singleton in Hw'. cbn in Hw'. rewrite Hname in Hw'.
    cbn [m_nodeNameToNode set_field set_m_nodeNameToNode]. rewrite insert_insert_eq.
    split.
    + eapply (Sync_set L m w); [done..| | |]; rewrite Hw'; [set_solver|set_solver|].
      intros _ _. split; [done|by right].
    + eapply pod_effect_set; [done|done|done|exact Hk|].
      intros _. cbn. rewrite lookup_insert_eq. eauto.
  - wp_steps. split.
    + assert (n_matchingPods n ≠ ∅) by (intros Hem; rewrite Hem, map_size_empty in Hsz; done).
      eapply (Sync_set L m w); [done..| |]; unfold desired; cbn; tauto.
    + eapply pod_effect_set; [done|done|done|exact Hk|].
      intros _. cbn. rewrite lookup_insert_eq. eauto.
Qed.

Lemma updatePod_sync L pod m w :
  SyncUpto L m w → wants_pods m = Some true →
  wp False (updatePod pod) (λ _ m' w', SyncUpto L m' w' ∧ pod_effect pod m m') m w.
Proof.
  intros HS Hw. unfold updatePod.
  assert (pod_counts m pod = false → pod_effect pod m m) as Hrefl
    by (intros; apply pod_effect_refl; congruence).
  unfold pod_counts in Hrefl. case_bool_decide; [by wp_steps; auto|]. cbn [negb andb] in Hrefl.
  destruct (pod_Deleting pod) eqn:Hdel.
  { wp_step. eapply wp_mono; [|by apply (deletePod_sync L)]. intros _ m' w' (HS' & _ & Heff).
    wp_steps. split; [done|]. apply Heff. unfold pod_counts. by rewrite Hdel, andb_false_r. }
  wp_steps. destruct (m_nodeNameToNode m !! pod_NodeName pod) as [n|] eqn:Hn.
  2: { wp_steps. split; [done|]. apply pod_effect_refl. congruence. }
  destruct (n_isNodeMatch n) eqn:Hmatch; cbn [negb].
  2: { wp_steps. split; [done|]. apply pod_effect_refl. congruence. }
  destruct (rd_match _ (proj1 HS)) as [criteria Hcr].
  wp_steps. rewrite Hcr in *. wp_steps. cbn [negb andb] in Hrefl.
  rewrite <- negb_orb. destruct (bool_decide _ || _); cbn [negb];
    [|wp_steps; split; [done|]; apply Hrefl; by rewrite andb_false_r].
  rewrite andb_true_r in Hrefl.
  set (sel := match m_podSelector m with Some s => Matches s (pod_Labels pod) | None => true end) in *.
  replace (match m_podSelector m with Some s => negb (Matches s (pod_Labels pod)) | None => false end)
    with (negb sel) by (subst sel; by destruct (m_podSelector m)).
  destruct sel; cbn [negb]; [|wp_steps; split; [done|]; apply Hrefl; by rewrite andb_false_r].
  rewrite andb_true_r in Hrefl.
  change (cond_true PodReady (pod_Conditions pod) && bool_decide (pod_Phase pod = PodRunning))
    with (pod_ready pod).
  destruct (n_matchingPods n !! podNamespacedName pod) as [old|] eqn:Hkey;
    destruct (pod_ready pod) eqn:Hready; cbn [eqb].
  - wp_steps. split; [done|]. apply pod_effect_refl. intros n0 Hn0 _ _. simplify_eq. by rewrite Hkey.
  - apply (unready_pod_sync L pod m w n); try done.
    + intros Hem. by rewrite Hem in Hkey.
    + unfold pod_counts. by rewrite Hready, andb_false_r.
  - by apply (ready_pod_sync L pod m w n).
  - wp_steps. split; [done|]. by apply Hrefl.
Qed.

Lemma deleteNode_sync k m w :
  SyncUpto ∅ m w → wp False (deleteNode k) (λ _ m' w', SyncUpto ∅ m' w' ∧ conf m' = conf m) m w.
Proof.
  intros [[] HS]. unfold deleteNode. wp_steps. apply wp_DisableNodes. intros w' Hw'. wp_steps.
  split; [|done]. rewrite names_singleton in Hw'. split.
  - split; cbn; try done. intros name n [_ Hn]%lookup_delete_Some. by apply rd_keys0.
  - intros x. specialize (HS x). unfold tracked in *. cbn. rewrite Hw'.
    rewrite elem_of_difference, elem_of_singleton.
    destruct (decide (node_Name k = x)) as [<-|Hne].
    + rewrite lookup_delete_eq. naive_solver.
    + rewrite lookup_delete_ne by done. naive_solver.
Qed.

(** *** Node events *)

Lemma pod_counts_conf m m' pod : conf m' = conf m → pod_counts m' pod = pod_counts m pod.
Proof. unfold conf, pod_counts. by intros [= -> _ -> _ _ _]. Qed.

(** The pods of a node, one after the other. *)
Lemma pods_loop L name n pods m w :
  SyncUpto L m w → wants_pods m = Some true →
  m_nodeNameToNode m !! name = Some n → n_isNodeMatch n = true →
  (∀ pod, pod ∈ pods → pod_NodeName pod = name) → NoDup (podNamespacedName <$> pods) →
  wp False (for_each pods (λ pod, _ ← updatePod pod; mret tt))
    (λ _ m' w', SyncUpto L m' w' ∧ conf m' = conf m ∧
       ∃ n', m_nodeNameToNode m' !! name = Some n' ∧ n_isNodeMatch n' = true ∧
         ∀ pod, pod ∈ pods → pod_counts m pod = true →
           is_Some (n_matchingPods n' !! podNamespacedName pod)) m w.
Proof.
  intros HS Hw Hn Hmatch Hpods Hnd.
  apply (wp_for_each_prefix _ (λ done m' w', SyncUpto L m' w' ∧ conf m' = conf m ∧
       ∃ n', m_nodeNameToNode m' !! name = Some n' ∧ n_isNodeMatch n' = true ∧
         ∀ pod, pod ∈ done → pod_counts m pod = true →
           is_Some (n_matchingPods n' !! podNamespacedName pod))).
  { split_and!; [done..|]. exists n. split_and!; [done..|]. by intros pod ?%elem_of_nil. }
  intros done pod todo m1 w1 Hd (HS1 & Hc1 & n1 & Hn1 & Hm1 & Hin1). wp_step.
  eapply wp_mono; [|apply (updatePod_sync L); [done|by rewrite (wants_pods_conf _ _ Hc1)]].
  intros _ m2 w2 [HS2 Heff]. wp_steps. destruct Heff as [Hc2 _ Heff].
  assert (pod_NodeName pod = name) as Hname by (apply Hpods; rewrite Hd; set_solver).
  rewrite Hname in Heff. destruct (Heff _ Hn1) as (n2 & Hn2 & Hm2 & Hk2 & Hin2).
  split_and!; [done|congruence|]. exists n2. split_and!; [done|congruence|].
  intros p [Hp|Hp%list_elem_of_singleton]%elem_of_app Hcount.
  - rewrite Hk2; [by apply Hin1|]. intros Heq. rewrite Hd, fmap_app, NoDup_app in Hnd.
    destruct Hnd as (_ & Hnd & _). apply (Hnd (podNamespacedName p)).
    + by apply list_elem_of_fmap_2.
    + rewrite Heq. by left.
  - subst p. apply Hin2; [done|]. by rewrite (pod_counts_conf _ _ _ Hc1).
Qed.

(** The pod index answers for the node in question, and it knows of a counted pod
    if the controller does: no event of the last of its pods is outstanding. *)
Definition index_ok m w name : Prop :=
  ∀ idx, m_podIndexer m = Some idx →
    (∀ pods, (podIndexer_ByIndex idx name w).1 = inl pods →
       (∀ pod, pod ∈ pods → pod_NodeName pod = name) ∧ NoDup (podNamespacedName <$> pods)) ∧
    (∀ n, m_nodeNameToNode m !! name = Some n → n_isNodeMatch n = true →
       n_matchingPods n ≠ ∅ →
       ∃ pods pod, (podIndexer_ByIndex idx name w).1 = inl pods ∧ pod ∈ pods ∧
         pod_counts m pod = true).

Lemma isNodeMatch_Some m n : is_Some (m_match m) → is_Some (isNodeMatch m n).
Proof.
  intros [criteria Hc]. unfold isNodeMatch. destruct (negb _); [by eexists|].
  destruct (match m_nodeSelector m with Some _ => _ | None => _ end); [by eexists|].
  induction (node_Taints (n_k8sNode n)) as [|t l IH]; cbn; [by eexists|].
  rewrite Hc. cbn. destruct (existsb _ _); [done|by eexists].
Qed.

Lemma wants_pods_Some m : is_Some (m_match m) → is_Some (wants_pods m).
Proof. intros [criteria Hc]. unfold wants_pods. rewrite Hc. by eexists. Qed.

(** [refreshed m name n b]: the entry of [name], once its match is recomputed and
    its pods are forgotten. *)
Lemma nodeMatches_sync name n m w :
  let m1 := m <| m_nodeNameToNode :=
                   <[name := n <| n_isNodeMatch := true |> <| n_matchingPods := ∅ |>]>
                     (m_nodeNameToNode m) |> in
  SyncUpto ∅ m w → m_nodeNameToNode m !! name = Some n → index_ok m w name →
  wp False (nodeMatches name) (λ _ m' w', SyncUpto ∅ m' w' ∧ conf m' = conf m) m1 w.
Proof.
  intros m1 HS Hn Hidx. unfold nodeMatches.
  destruct (Sync_this _ _ _ _ _ HS Hn) as [Hthis Hthis'].
  pose proof (rd_keys _ (proj1 HS) _ _ Hn) as Hname.
  destruct (wants_pods_Some m (rd_match _ (proj1 HS))) as [pods Hw]. wp_steps.
  change (wants_pods m1) with (wants_pods m). rewrite Hw. wp_steps. destruct pods.
  2: { (* no pods are wanted *)
    wp_steps. apply wp_upd_node. erewrite alter_insert_eq; [|apply lookup_insert_eq]. wp_steps.
    eapply wp_get_node; [apply lookup_insert_eq|].
    apply wp_bind, wp_when; intros Hpr; [|cbn in Hpr; by rewrite (rd_primed _ (proj1 HS)) in Hpr].
    apply wp_EnableNodes. intros w' Hw'. wp_steps. split; [|done].
    rewrite names_singleton in Hw'. cbn in Hw'. rewrite Hname in Hw'.
    unfold m1. cbn [m_nodeNameToNode set_field set_m_nodeNameToNode]. rewrite insert_insert_eq.
    eapply (Sync_set ∅ m w); [done..| | |]; rewrite Hw'; [set_solver|set_solver|].
    intros _ _. split; [done|by left]. }
  destruct (rd_index _ (proj1 HS) Hw) as [idx Hi]. destruct (Hidx idx Hi) as [Hall Hsome].
  unfold getNodePods. wp_steps. change (m_podIndexer m1) with (m_podIndexer m). rewrite Hi.
  wp_steps. apply wp_call. intros res w' Hres.
  pose proof (index_active idx name w) as Hact. rewrite Hres in Hact, Hall, Hsome. cbn in *.
  assert (∀ L, (name ∈ active w → name ∈ L) → SyncUpto ∅ m w → SyncUpto L m1 w') as Hm1.
  { intros L HL HS0. apply (Sync_active L _ w); [done|].
    assert (SyncUpto L m w) as HSL.
    { destruct HS0 as [Hr HS0]. split; [done|]. intros x. specialize (HS0 x). set_solver. }
    eapply (Sync_set L m w); [done..| |]; unfold desired; cbn.
    - intros [_ [Hf|Hne]]; [congruence|done].
    - intros Ha HnL. exfalso. auto. }
  assert (name ∈ active w → n_isNodeMatch n = true ∧ n_matchingPods n ≠ ∅) as Hd.
  { intros Ha. destruct (Hthis' Ha) as [? [Hf|?]]; [set_solver|congruence|done]. }
  destruct res as [pods|err]; wp_steps.
  2: { split; [|done]. apply Hm1; [|done]. intros Ha. destruct (Hd Ha) as [H1 H2].
       by destruct (Hsome n Hn H1 H2) as (? & ? & ? & _). }
  destruct (Hall pods eq_refl) as [Hname' Hnd]. clear Hall.
  destruct (decide (name ∈ active w)) as [Ha|Ha].
  - eapply wp_mono; [|eapply (pods_loop {[name]} name); [apply Hm1; set_solver|done|
      apply lookup_insert_eq|done|done|done]].
    intros _ m2 w2 ([Hr2 HS2] & Hc2 & n2 & Hn2 & Hm2 & Hin2). wp_steps.
    split; [|exact Hc2]. split; [done|]. intros x. destruct (HS2 x) as [H1 H2].
    split; [done|]. intros Hx _. destruct (decide (x = name)) as [->|Hne]; [|set_solver].
    exists n2. split; [done|]. split; [done|right].
    destruct (Hd Ha) as [Hma Hne]. destruct (Hsome n Hn Hma Hne) as (pods' & pod & [= <-] & Hp & Hc).
    destruct (Hin2 pod Hp Hc) as [q Hq]. intros Hem. by rewrite Hem in Hq.
  - eapply wp_mono; [|eapply (pods_loop ∅ name); [by apply Hm1|done|
      apply lookup_insert_eq|done|done|done]].
    intros _ m2 w2 (HS2 & Hc2 & _). wp_steps. by split.
Qed.

Lemma refreshNode_sync name n old new m w :
  SyncUpto ∅ m w → m_nodeNameToNode m !! name = Some n → index_ok m w name →
  wp False (refreshNode name old new) (λ _ m' w', SyncUpto ∅ m' w' ∧ conf m' = conf m) m w.
Proof.
  intros HS Hn Hidx. unfold refreshNode. wp_steps. eapply wp_get_node; [done|]. wp_steps.
  destruct (isNodeMatch_Some m n (rd_match _ (proj1 HS))) as [b Hb]. rewrite Hb. wp_steps.
  apply wp_upd_node. rewrite (alter_insert_eq _ _ _ _ Hn).
  pose proof (rd_keys _ (proj1 HS) _ _ Hn) as Hname.
  destruct (Sync_this _ _ _ _ _ HS Hn) as [Hthis Hthis'].
  destruct (bool_decide _ && _) eqn:Hsame.
  { wp_steps. split; [|done]. apply andb_true_iff in Hsame as [_ Hsame%eqb_prop].
    eapply (Sync_set ∅ m w); [done..| |]; unfold desired in *; cbn; rewrite <- Hsame; auto. }
  wp_step. destruct b; cbn [andb].
  - apply (wp_mono _ _ (λ _ m' w', w' = w ∧ m' = m <| m_nodeNameToNode :=
      <[name := n <| n_isNodeMatch := true |> <| n_matchingPods := ∅ |>]>
        (m_nodeNameToNode m) |>)).
    + intros _ m' w' [-> ->]. by apply nodeMatches_sync.
    + apply wp_when.
      * intros _. apply wp_upd_node. split; [done|].
        erewrite alter_insert_eq; [|apply lookup_insert_eq]. cbn. by rewrite insert_insert_eq.
      * intros Hem%negb_false_iff%bool_decide_eq_true. split; [done|].
        replace (n <| n_isNodeMatch := true |> <| n_matchingPods := ∅ |>)
          with (n <| n_isNodeMatch := true |>); [done|]. destruct n; cbn in *. by subst.
  - apply wp_when; [done|intros _]. unfold nodeMismatches. wp_steps. apply wp_upd_node.
    erewrite alter_insert_eq; [|apply lookup_insert_eq]. wp_steps.
    eapply wp_get_node; [apply lookup_insert_eq|]. apply wp_bind, wp_DisableNodes.
    intros w' Hw'. wp_steps. split; [|done].
    rewrite names_singleton in Hw'. cbn in Hw'. rewrite Hname in Hw'.
    cbn [m_nodeNameToNode set_field set_m_nodeNameToNode]. rewrite insert_insert_eq.
    eapply (Sync_set ∅ m w); [done..| | |]; rewrite Hw'; [set_solver| |set_solver].
    by intros [? _].
Qed.

Lemma updateNode_sync k m w :
  SyncUpto ∅ m w → index_ok m w (node_Name k) →
  wp False (updateNode k) (λ _ m' w', SyncUpto ∅ m' w' ∧ conf m' = conf m) m w.
Proof.
  intros HS Hidx. unfold updateNode. destruct (node_Deleting k).
  { wp_step. eapply wp_mono; [|by apply deleteNode_sync]. by intros; wp_steps. }
  wp_steps. destruct (m_nodeNameToNode m !! node_Name k) as [n|] eqn:Hn.
  - wp_steps. apply wp_upd_node. rewrite (alter_insert_eq _ _ _ _ Hn).
    destruct (Sync_this _ _ _ _ _ HS Hn) as [Hthis Hthis'].
    eapply wp_mono; [|eapply refreshNode_sync; [|apply lookup_insert_eq|]].
    + intros _ m' w' [HS' Hc']. split; [exact HS'|exact Hc'].
    + eapply (Sync_set ∅ m w); [done..| |]; unfold desired in *; cbn; auto.
    + intros idx Hi. destruct (Hidx idx Hi) as [H1 H2]. split; [exact H1|].
      intros n'. cbn. rewrite lookup_insert_eq. intros [= <-] Hm Hne. by apply (H2 n).
  - case_bool_decide; [by wp_steps|]. wp_steps.
    set (m1 := m <| m_nodeNameToNode ::= <[node_Name k := newNode k]> |>).
    assert (SyncUpto ∅ m1 w) as HS1.
    { destruct HS as [[] HS]. split.
      - split; try done. intros x n'. cbn. intros [[<- <-]|[_ Hx]]%lookup_insert_Some; [done|by apply rd_keys0].
      - intros x. specialize (HS x). unfold tracked in *. cbn.
        destruct (decide (node_Name k = x)) as [<-|Hne].
        + rewrite lookup_insert_eq. rewrite Hn in HS. destruct HS as [_ HS]. split.
          * intros (? & [= <-] & [? _]). done.
          * intros Ha Hni. destruct (HS Ha Hni) as (? & ? & _). done.
        + by rewrite lookup_insert_ne. }
    eapply wp_mono; [|eapply refreshNode_sync; [exact HS1|apply lookup_insert_eq|]].
    + intros _ m' w' [HS' Hc']. split; [exact HS'|exact Hc'].
    + intros idx Hi. destruct (Hidx idx Hi) as [Hi1 _]. split; [exact Hi1|].
      intros n'. cbn. rewrite lookup_insert_eq. by intros [= <-] Hm Hne.
Qed.

(** *** Priming *)

(** The nodes flagged as enabled, and those only, are enabled in one call. *)
Lemma prime_active m w :
  (∀ name n, m_nodeNameToNode m !! name = Some n → node_Name (n_k8sNode n) = name) →
  wp False prime
    (λ _ m' w', m' = m <| m_primed := true |> ∧
       ∀ x, x ∈ active w' ↔ x ∈ active w ∨
         ∃ n, m_nodeNameToNode m !! x = Some n ∧ n_enabled n = true) m w.
Proof.
  intros Hkeys. unfold prime, range_keys. wp_steps. apply wp_call. intros names w1 Hr.
  pose proof (range_active (map_to_list (m_nodeNameToNode m)).*1 w) as Ha.
  rewrite Hr in Ha. cbn in Ha. wp_steps. apply wp_EnableNodes. intros w2 Hw2. wp_steps.
  split; [done|]. intros x. rewrite Hw2, Ha, elem_of_union. apply or_iff_compat_l.
  unfold names_of. rewrite elem_of_list_to_set, list_elem_of_fmap.
  setoid_rewrite merge_sort_Permutation. setoid_rewrite list_elem_of_omap. split.
  - intros (k & -> & name & Hname & Hk).
    destruct (m_nodeNameToNode m !! name) as [n|] eqn:Hn; cbn in Hk; [|done].
    destruct (n_enabled n) eqn:He; [|done]. injection Hk as <-.
    rewrite (Hkeys _ _ Hn). by exists n.
  - intros (n & Hn & He). exists (n_k8sNode n). split; [by rewrite (Hkeys _ _ Hn)|].
    exists x. split; [|by rewrite Hn; cbn; rewrite He].
    eapply range_order_elem; [exact Hr|by eexists].
Qed.
End props.

(** ** Properties *)

(** What the informers deliver. *)
Inductive event : Type := Upsert (obj : object) | Removal (obj : object).
Definition handle `{!KubeAPI} {W} `{!MatchEnv W} (e : event) : M Controller W unit :=
  match e with Upsert obj => OnUpdate obj | Removal obj => OnDelete obj end.
(** Pod events come only from the pod informer, if there is one; a node event
    finds the pod index in a state the controller has caught up with. *)
Definition deliverable `{!KubeAPI} {W} `{!MatchEnv W} (e : event) (m : Controller) (w : W) : Prop :=
  match e with
  | Upsert (ObjNode k) => index_ok m w (node_Name k)
  | Upsert (ObjPod _) | Removal (ObjPod _) => wants_pods m = Some true
  | _ => True
  end.

(** The controller handles an event, or the cluster changes: its nodes, its pods,
    but not what is enabled with the action. *)
Inductive cluster_step `{!KubeAPI} {W} `{!MatchEnv W, !MatchGhost W} :
    Controller * W → Controller * W → Prop :=
  | step_event e m w m' w' :
      deliverable e m w → handle e m w = Ret (tt, m', w') → cluster_step (m, w) (m', w')
  | step_cluster m w w' : active w' = active w → cluster_step (m, w) (m, w').

Lemma handle_sync `{!KubeAPI} `{MatchLaws W} (e : event) (m : Controller) (w : W) :
  Sync m w → deliverable e m w → wp False (handle e) (λ _ m' w', Sync m' w') m w.
Proof.
  intros HS Hd. apply Sync_upto in HS. destruct e as [[k|p|]|[k|p|]]; cbn [handle OnUpdate OnDelete].
  - wp_step. eapply wp_mono; [|by apply updateNode_sync]. intros _ m' w' [HS' _]. wp_steps.
    by apply Sync_upto.
  - wp_step. eapply wp_mono; [|by apply (updatePod_sync ∅)]. intros _ m' w' [HS' _]. wp_steps.
    by apply Sync_upto.
  - wp_steps. by apply Sync_upto.
  - eapply wp_mono; [|by apply deleteNode_sync]. intros _ m' w' [HS' _]. by apply Sync_upto.
  - eapply wp_mono; [|by apply (deletePod_sync ∅)]. intros _ m' w' [HS' _]. by apply Sync_upto.
  - wp_steps. by apply Sync_upto.
Qed.

Lemma steps_sync `{!KubeAPI} `{MatchLaws W} (m m' : Controller) (w w' : W) :
  Sync m w → rtc cluster_step (m, w) (m', w') → Sync m' w'.
Proof.
  intros HS Hrtc. remember (m, w) as s eqn:Hs. remember (m', w') as s' eqn:Hs'. revert m w Hs HS.
  induction Hrtc as [s|s1 s2 s3 H12 _ IH]; intros m w Hs HS.
  - subst s. by injection Hs as <- <-.
  - subst s1. inversion H12 as [e m1 w1 m2 w2 Hd He|m1 w1 w2 Ha]; subst.
    + eapply IH; [done|done|]. pose proof (handle_sync e m w HS Hd) as Hwp.
      unfold wp in Hwp. by rewrite He in Hwp.
    + eapply IH; [done|done|]. apply Sync_upto. by apply (Sync_active ∅ _ w), Sync_upto.
Qed.


(** Priming brings the action in step with the cluster if nothing was
    enabled before and the flags of the nodes are right: a node is flagged exactly
    if it matches and, if pods are asked for, runs a matching pod. *)
Theorem priming_brings_in_step `{!KubeAPI} `{MatchLaws W} (m : Controller) (w : W) :
  is_Some (m_match m) → (wants_pods m = Some true → is_Some (m_podIndexer m)) →
  (∀ name n, m_nodeNameToNode m !! name = Some n →
     node_Name (n_k8sNode n) = name ∧ (n_enabled n = true ↔ desired m n)) →
  active w = ∅ →
  wp False prime (λ _ m' w', Sync m' w') m w.
Proof.
  intros Hc Hidx Hnodes Ha. eapply wp_mono; [|apply prime_active; by apply Hnodes].
  intros _ m' w' [-> Hw']. split.
  - split; cbn; [done|done|exact Hidx|]. intros name n Hn. by apply Hnodes.
  - intros x. rewrite Hw', Ha. unfold tracked. cbn. split.
    + intros [Hx|(n & Hn & He)]; [set_solver|]. exists n. split; [done|].
      by apply (Hnodes x n Hn).
    + intros (n & Hn & Hd). right. exists n. split; [done|]. by apply (Hnodes x n Hn).
Qed.

(** A node matches exactly if its last [Ready] condition is true, the
    selector - if there is one - selects its labels, and every taint is tolerated
    by one of the tolerations. *)
Theorem isNodeMatch_spec `{!KubeAPI} (m : Controller) (n : node) (criteria : Match) :
  m_match m = Some criteria →
  isNodeMatch m n = Some true ↔
    cond_true NodeReady (node_Conditions (n_k8sNode n)) = true ∧
    (∀ s, m_nodeSelector m = Some s → Matches s (node_Labels (n_k8sNode n)) = true) ∧
    ∀ taint, taint ∈ node_Taints (n_k8sNode n) →
      ∃ tol, tol ∈ elems (Tolerations criteria) ∧ ToleratesTaint tol taint = true.
Proof.
  intros Hc. unfold isNodeMatch.
  destruct (cond_true _ _); cbn [negb]; [|split; [done|by intros [? _]]].
  assert (tolerates m (node_Taints (n_k8sNode n)) = Some true ↔
    ∀ taint, taint ∈ node_Taints (n_k8sNode n) →
      ∃ tol, tol ∈ elems (Tolerations criteria) ∧ ToleratesTaint tol taint = true) as Ht.
  { induction (node_Taints (n_k8sNode n)) as [|t l IH]; cbn [tolerates].
    { split; [by intros _ t ?%elem_of_nil|done]. }
    rewrite Hc. cbn [mbind option_bind].
    destruct (existsb _ _) eqn:He.
    - rewrite IH. apply existsb_exists in He as (tol & Hin & Htol).
      apply list_elem_of_In in Hin. split; [|intros Hall t' Hin'; apply Hall; by right].
      intros Hall t' [->|Hin']%elem_of_cons; [by eauto|by apply Hall].
    - split; [done|]. intros Hall. destruct (Hall t) as (tol & Hin & Htol); [by left|].
      assert (existsb (λ tol, ToleratesTaint tol t) (elems (Tolerations criteria)) = true)
        by (apply existsb_exists; exists tol; split; [by apply list_elem_of_In|done]).
      congruence. }
  destruct (m_nodeSelector m) as [s|].
  - destruct (Matches s _) eqn:Hs; cbn [negb].
    + rewrite Ht. split; [|by intros (_ & _ & ?)]. intros ?. split_and!; [done| |done].
      by intros s' [= <-].
    + split; [done|]. intros (_ & Hs' & _). specialize (Hs' s eq_refl). congruence.
  - rewrite Ht. split; [|by intros (_ & _ & ?)]. intros ?. by split_and!.
Qed.

(** Criteria that pass [ValidateMatch] are taken over by [SetCriteria] - the
    criteria in force are equal to them and each label has its selector -, and
    criteria that do not leave the controller without any. *)
Theorem validated_criteria_are_set `{!KubeAPI} (criteria : Match) (m : Controller) :
  let m' := SetCriteria criteria m in
  (ValidateMatch criteria = None ↔ m_match m' = Some criteria) ∧
  (ValidateMatch criteria = None → IsCriteriaEqual (Some criteria) m' = true) ∧
  (ValidateMatch criteria ≠ None → m_match m' = None) ∧
  (ValidateMatch criteria = None →
     (m_nodeSelector m' = None ↔ NodeLabel criteria = "") ∧
     (m_podSelector m' = None ↔ PodLabel criteria = "")).
Proof.
  cbn. unfold ValidateMatch, SetCriteria, IsCriteriaEqual.
  repeat first [ case_bool_decide | case_match ]; cbn in *; simplify_eq; split_and!; naive_solver.
Qed.

(** ** A simulated cluster *)
Record Cluster : Type := Cluster_ {
  cl_active : gset string;
  cl_pods : list Pod;                (* what the pod index holds *)
  cl_nodes : list Node;
}.
#[export] Instance cluster_api : KubeAPI := {|
  Selector := string;
  labels_Parse s := if bool_decide (s = "!") then inr (ErrorString "parse error") else inl s;
  Matches s labels := match labels !! s with Some _ => true | None => false end;
  ToleratesTaint tol taint := bool_decide (tol_Key tol = taint_Key taint);
|}.
#[export] Instance cluster_action : NodeEnableDisabler Cluster := {|
  action_EnableNodes _ ns c := (tt, Cluster_ (cl_active c ∪ names_of ns) (cl_pods c) (cl_nodes c));
  action_DisableNodes _ ns c := (tt, Cluster_ (cl_active c ∖ names_of ns) (cl_pods c) (cl_nodes c));
|}.
#[export] Instance cluster_range : MapRange Cluster := {| range_order ks c := (ks, c) |}.
#[export] Instance cluster_env : MatchEnv Cluster := {|
  podIndexer_ByIndex _ name c :=
    (inl (filter (λ p, pod_NodeName p = name) (cl_pods c)), c);
  WaitForCacheSync c := (true, c);
  nodeStore_List c := (cl_nodes c, c);
|}.
#[export] Instance cluster_ghost : MatchGhost Cluster := {| active := cl_active |}.
#[export] Instance cluster_laws : MatchLaws Cluster.
Proof. by split. Qed.

Module Cluster.
Definition ready_cond : Condition := {| cond_Type := "Ready"; cond_Status := "True" |}.
Definition node_ (annotation : string) : Node := {|
  node_Name := "a"; node_ProviderID := "do://1"; node_Labels := ∅;
  node_Annotations := {[IPv4ReservedIPAnnotation := annotation]};
  node_Deleting := false; node_Taints := [];
  node_Conditions := [ready_cond]; node_Addresses := [] |}.
Definition pod_ (phase : string) : Pod := {|
  pod_Name := "p"; pod_Namespace := "ns"; pod_NodeName := "a"; pod_Labels := {["app" := "x"]};
  pod_Deleting := false; pod_Phase := phase; pod_Conditions := [ready_cond] |}.
Definition criteria : Match :=
  {| NodeLabel := ""; PodLabel := "app"; PodNamespace := ""; Tolerations := None |}.

(** A controller that asks for pods, primed on an empty cluster. *)
Definition m0 : Controller :=
  SetCriteria criteria (NewController 1%positive) <| m_podIndexer := Some 2%positive |>.
Definition w0 (pods : list Pod) : Cluster := Cluster_ ∅ pods [].
Definition after (es : list event) (s : Controller * Cluster) : Controller * Cluster :=
  foldl (λ s e, match handle e s.1 s.2 with Ret (_, m, w) => (m, w) | _ => s end) s es.
Definition primed0 (pods : list Pod) : Controller * Cluster :=
  (m0 <| m_primed := true |>, w0 pods).

Lemma m0_empty name : m_nodeNameToNode m0 !! name = None.
Proof. assert (m_nodeNameToNode m0 = ∅) as -> by reflexivity. apply lookup_empty. Qed.
Lemma primed0_sync pods : Sync (primed0 pods).1 (primed0 pods).2.
Proof.
  split.
  - split; [done|by eexists|by eexists|]. intros name n Hn.
    pose proof (eq_trans (eq_sym (m0_empty name)) Hn). done.
  - intros name. split; [by intros ?%elem_of_empty|]. intros (n & Hn & _).
    pose proof (eq_trans (eq_sym (m0_empty name)) Hn). done.
Qed.
Lemma m0_nodes name n : m_nodeNameToNode m0 !! name = Some n →
  node_Name (n_k8sNode n) = name ∧ (n_enabled n = true ↔ desired m0 n).
Proof. by rewrite m0_empty. Qed.
(** The node appears, then its pod. *)
Definition with_node : Controller * Cluster :=
  after [Upsert (ObjNode (node_ ""))] (primed0 []).
Definition with_pod : Controller * Cluster := after [Upsert (ObjPod (pod_ "Running"))] with_node.
Lemma index_ok_empty pods k : Forall (λ p, pod_NodeName p = node_Name k) pods →
  NoDup (podNamespacedName <$> pods) → index_ok (primed0 pods).1 (primed0 pods).2 (node_Name k).
Proof.
  intros Hall Hnd idx _. split.
  - intros pods' [= <-]. split.
    + by intros pod [? _]%list_elem_of_filter.
    + eapply sublist_NoDup; [exact Hnd|]. apply fmap_sublist, sublist_filter.
  - intros n Hn. pose proof (eq_trans (eq_sym (m0_empty (node_Name k))) Hn). done.
Qed.
Lemma deliver_node : deliverable (Upsert (ObjNode (node_ ""))) (primed0 []).1 (primed0 []).2.
Proof. apply (index_ok_empty [] (node_ "")); constructor. Qed.
Lemma after_step e s m' w' : deliverable e s.1 s.2 → handle e s.1 s.2 = Ret (tt, m', w') →
  cluster_step (s.1, s.2) ((after [e] s).1, (after [e] s).2).
Proof. intros Hd Hh. apply (step_event e); [done|]. unfold after. cbn [foldl]. by rewrite Hh. Qed.
Lemma after_steps e s : deliverable e s.1 s.2 →
  match handle e s.1 s.2 with Ret _ => true | _ => false end = true →
  cluster_step (s.1, s.2) ((after [e] s).1, (after [e] s).2).
Proof.
  intros Hd Hh. destruct (handle e s.1 s.2) as [[[[] m'] w']| |] eqn:Heq; [|done..].
  by eapply after_step.
Qed.
Lemma steps_with_pod : rtc cluster_step ((primed0 []).1, (primed0 []).2) (with_pod.1, with_pod.2).
Proof.
  apply (rtc_l _ _ (with_node.1, with_node.2)); [|apply rtc_once].
  - apply after_steps; [apply deliver_node|vm_compute; reflexivity].
  - apply after_steps; vm_compute; reflexivity.
Qed.
Lemma with_pod_sync : Sync with_pod.1 with_pod.2.
Proof.
  assert (Sync with_node.1 with_node.2) as H1.
  { pose proof (handle_sync _ _ _ (primed0_sync []) deliver_node) as Hwp.
    unfold wp in Hwp. unfold with_node, after. cbn [foldl].
    by destruct (handle _ _ _) as [[[[] m] w]| |]. }
  pose proof (handle_sync (Upsert (ObjPod (pod_ "Running"))) _ _ H1
                ltac:(vm_compute; reflexivity)) as Hwp.
  unfold wp in Hwp. unfold with_pod, after. cbn [foldl].
  by destruct (handle _ with_node.1 with_node.2) as [[[[] m] w]| |].
Qed.
End Cluster.


Lemma priming_brings_in_step_witness :
  ∃ m w, prime Cluster.m0 (Cluster.w0 []) = Ret (tt, m, w) ∧ Sync m w.
Proof.
  pose proof (priming_brings_in_step Cluster.m0 (Cluster.w0 []) ltac:(by eexists)
    ltac:(by eexists) Cluster.m0_nodes eq_refl) as Hwp.
  unfold wp in Hwp. destruct (prime _ _) as [[[[] m] w]| |]; [by exists m, w|done..].
Defined.

Lemma isNodeMatch_spec_witness :
  isNodeMatch Cluster.m0 (newNode (Cluster.node_ "")) = Some true.
Proof.
  apply (isNodeMatch_spec Cluster.m0 (newNode (Cluster.node_ "")) Cluster.criteria eq_refl).
  split_and!; [reflexivity|discriminate|]. intros t Ht. by apply elem_of_nil in Ht.
Defined.

(** An update of a node's annotation that overtakes a pod event loses it:
    the annotation makes the controller forget the node's pods and count them
    anew from the index, where the pod is not ready any more; the event that
    reports so then finds nothing to change, and the node stays enabled without
    a matching pod. *)
Theorem annotation_loses_pod_event :
  let s := Cluster.with_pod in
  let s' := Cluster.after
    [Upsert (ObjNode (Cluster.node_ "10.0.0.1")); Upsert (ObjPod (Cluster.pod_ "Failed"))]
    (s.1, Cluster_ (cl_active s.2) [Cluster.pod_ "Failed"] []) in
  Sync s.1 s.2 ∧ cl_active s'.2 = {["a"]} ∧
  (n_matchingPods <$> m_nodeNameToNode s'.1 !! "a") = Some ∅.
Proof.
  intros s s'. split; [exact Cluster.with_pod_sync|]. split; vm_compute; reflexivity.
Qed.

(** A pod that goes away before the controller is primed leaves its node
    flagged as enabled, so that priming enables a node without a matching pod. *)
Theorem priming_enables_podless_node :
  let s := Cluster.after
    [Upsert (ObjNode (Cluster.node_ "")); Upsert (ObjPod (Cluster.pod_ "Running"));
     Removal (ObjPod (Cluster.pod_ "Running"))] (Cluster.m0, Cluster.w0 []) in
  ∃ m w, run_synced s.1 s.2 = Ret (tt, m, w) ∧ cl_active w = {["a"]} ∧
    (n_matchingPods <$> m_nodeNameToNode m !! "a") = Some ∅.
Proof.
  intros s. eexists _, _. split; [vm_compute; reflexivity|]. split; vm_compute; reflexivity.
Qed.
