(* ===== verification/NodeMatchSystem.v ===== *)
(** * The match controller and its action as one system

    The world of a match controller is its action - some state [X] - and the
    world [V] behind it: what the cluster answers leaves the action alone, and
    what the calls of the action preserve, every event preserves. *)
From S2P Require Import Prelude Go Retry K8s Types Provider NodeMatch NodeMatchProps.

(** What the match controller asks of the cluster. *)
Class ClusterAPI (V : Type) : Type := {
  cl_ByIndex : Ref → string → V → (list Pod + error) * V;
  cl_Sync : V → bool * V;
  cl_List : V → list Node * V;
}.
Definition behind {X V A} (f : V → A * V) (s : X * V) : A * (X * V) :=
  let '(a, v) := f s.2 in (a, (s.1, v)).

Lemma behind_fst {X V A} (f : V → A * V) (s : X * V) : (behind f s).2.1 = s.1.
Proof. unfold behind. by destruct (f s.2). Qed.
Lemma behind_answer {X V A} (f : V → A * V) (s : X * V) : (behind f s).1 = (f s.2).1.
Proof. unfold behind. by destruct (f s.2). Qed.

#[export] Hint Unfold OnUpdate OnDelete updateNode updatePod deletePod deleteNode refreshNode
  nodeMatches nodeMismatches getNodePods NodeMatch.EnableNodes NodeMatch.DisableNodes
  get_node upd_node handle : frame.

(** What the world's calls preserve, every event preserves. *)
Lemma preserves_handle `{!KubeAPI} {W} `{!MatchEnv W} (P : W → Prop) (e : event) :
  (∀ a ns w, P w → P (action_EnableNodes a ns w).2) →
  (∀ a ns w, P w → P (action_DisableNodes a ns w).2) →
  (∀ i n w, P w → P (podIndexer_ByIndex i n w).2) →
  preserves P (handle e).
Proof.
  intros HE HD HI. destruct e as [[k|p|]|[k|p|]]; solve_preserves.
Qed.

(** Valid criteria are set, and starting keeps them. *)
Section start.
Context `{!KubeAPI}.
Lemma SetCriteria_valid criteria m : ValidateMatch criteria = None →
  m_match (SetCriteria criteria m) = Some criteria.
Proof.
  unfold ValidateMatch, SetCriteria. repeat first [case_bool_decide | case_match];
    cbn in *; simplify_eq; done.
Qed.
Lemma Start_running m : m_running (Start m) = true.
Proof. unfold Start. by destruct (m_running m) eqn:Hr. Qed.
Lemma Start_match m : m_match (Start m) = m_match m.
Proof. unfold Start. by destruct (m_running m). Qed.
End start.

(** *** Only nodes of its own

    If every node the controller is told of is [own], so is every node it enables
    or disables; [P] is what such calls preserve of the world. *)
Section tidy.
Context `{!KubeAPI} {W} `{!MatchEnv W}.
Variables (own : Node → Prop) (P : W → Prop).
Hypothesis Henable : ∀ a ns w, Forall own ns → P w → P (action_EnableNodes a ns w).2.
Hypothesis Hdisable : ∀ a ns w, Forall own ns → P w → P (action_DisableNodes a ns w).2.
Hypothesis Hindex : ∀ i n w, P w → P (podIndexer_ByIndex i n w).2.
Implicit Types (m : NodeMatch.Controller) (w : W).

Definition tidy m w : Prop :=
  (∀ name n, m_nodeNameToNode m !! name = Some n → own (n_k8sNode n)) ∧ P w.

Lemma tidy_modify f m w : (∀ m, m_nodeNameToNode (f m) = m_nodeNameToNode m) → tidy m w → tidy (f m) w.
Proof. intros Hf [Ho HP]. split; [|done]. intros name n. rewrite Hf. apply Ho. Qed.
Lemma wp_tidy_upd name f m w (Q : unit → NodeMatch.Controller → W → Prop) :
  (∀ n, own (n_k8sNode n) → own (n_k8sNode (f n))) → tidy m w → (∀ m', tidy m' w → Q tt m' w) →
  wp True (upd_node name f) Q m w.
Proof.
  intros Hf [Ho HP] HQ. apply HQ. split; [|done]. intros name' n. cbn.
  intros [[_ (n0 & Hn & ->)]|[_ Hn]]%lookup_alter_Some; eauto.
Qed.
Lemma wp_tidy_get name m w (Q : node → NodeMatch.Controller → W → Prop) :
  tidy m w → (∀ n, own (n_k8sNode n) → Q n m w) → wp True (get_node name) Q m w.
Proof.
  intros [Ho HP] HQ. unfold get_node. wp_steps. apply wp_deref; [|done]. intros n Hn. eauto.
Qed.
Lemma wp_tidy_enable ns m w (Q : unit → NodeMatch.Controller → W → Prop) :
  Forall own ns → tidy m w → (∀ w', tidy m w' → Q tt m w') → wp True (NodeMatch.EnableNodes ns) Q m w.
Proof.
  intros Hns [Ho HP] HQ. unfold NodeMatch.EnableNodes. wp_steps. apply wp_call. intros [] w' Hw.
  apply HQ. split; [done|]. specialize (Henable (m_action m) ns w Hns HP). by rewrite Hw in Henable.
Qed.
Lemma wp_tidy_disable ns m w (Q : unit → NodeMatch.Controller → W → Prop) :
  Forall own ns → tidy m w → (∀ w', tidy m w' → Q tt m w') → wp True (NodeMatch.DisableNodes ns) Q m w.
Proof.
  intros Hns [Ho HP] HQ. unfold NodeMatch.DisableNodes. wp_steps. apply wp_call. intros [] w' Hw.
  apply HQ. split; [done|]. specialize (Hdisable (m_action m) ns w Hns HP). by rewrite Hw in Hdisable.
Qed.

(** Every piece of a handler keeps [tidy]. *)
Definition tidies {A} (h : M NodeMatch.Controller W A) : Prop :=
  ∀ m w, tidy m w → wp True h (λ _, tidy) m w.
Lemma wp_tidies {A} (h : M NodeMatch.Controller W A) m w (Q : A → NodeMatch.Controller → W → Prop) :
  tidies h → tidy m w → (∀ a m' w', tidy m' w' → Q a m' w') → wp True h Q m w.
Proof. intros Hh Ht HQ. eapply wp_mono; [|by apply Hh]. auto. Qed.

Ltac tidy_step :=
  first [ progress wp_steps
        | assumption
        | lazymatch goal with
          | |- tidies _ => intros ? ? ?
          | |- wp _ (upd_node _ _) _ _ _ => apply wp_tidy_upd; [by auto|assumption|intros ? ?]
          | |- wp _ (get_node _) _ _ _ => eapply wp_tidy_get; [eassumption|intros ? ?]
          | |- wp _ (NodeMatch.EnableNodes _) _ _ _ =>
              apply wp_tidy_enable; [by repeat constructor|assumption|intros ? ?]
          | |- wp _ (NodeMatch.DisableNodes _) _ _ _ =>
              apply wp_tidy_disable; [by repeat constructor|assumption|intros ? ?]
          | |- wp _ (deref _) _ _ _ => apply wp_deref; [intros ? ?|done]
          | |- wp _ (when _ _) _ _ _ => apply wp_when; intros ?
          | |- wp _ (match ?x with _ => _ end) _ _ _ => destruct x
          end ].
Ltac tidy := repeat tidy_step.
Ltac untidy := match goal with Ht : tidy _ _ |- tidy _ _ => destruct Ht as [Ho HP] end.

Lemma tidies_deletePod pod : tidies (deletePod pod).
Proof. unfold deletePod. tidy. Qed.
Lemma tidies_updatePod pod : tidies (updatePod pod).
Proof.
  unfold updatePod. tidy. eapply wp_tidies; [apply tidies_deletePod|done|]. intros [] m' w' Ht. tidy.
Qed.
Lemma tidies_getNodePods name : tidies (getNodePods name).
Proof.
  unfold getNodePods. tidy. apply wp_call. intros r w' Hr. tidy.
  untidy. split; [done|]. eapply (Hindex _ _) in HP. by rewrite Hr in HP.
Qed.
Lemma tidies_for_each {A} (l : list A) (body : A → M NodeMatch.Controller W unit) :
  (∀ x, x ∈ l → tidies (body x)) → tidies (for_each l body).
Proof. intros Hb m w Ht. apply wp_for_each; [done|]. intros x m' w' Hx Ht'. by apply Hb. Qed.
Lemma tidies_nodeMatches name : tidies (nodeMatches name).
Proof.
  unfold nodeMatches. tidy. eapply wp_tidies; [apply tidies_getNodePods|done|]. intros r m' w' Ht. tidy.
  eapply wp_tidies; [apply tidies_for_each|done|intros [] m2 w2 Ht2; tidy]. intros pod _. tidy.
  eapply wp_tidies; [apply tidies_updatePod|done|]. intros err m2 w2 Ht2. tidy.
Qed.
Lemma tidies_nodeMismatches name : tidies (nodeMismatches name).
Proof. unfold nodeMismatches. tidy. Qed.
Lemma tidies_refreshNode name old new : tidies (refreshNode name old new).
Proof.
  unfold refreshNode. tidy; first [by apply tidies_nodeMatches | by apply tidies_nodeMismatches].
Qed.
Lemma tidies_deleteNode k : own k → tidies (deleteNode k).
Proof.
  intros Hk. unfold deleteNode. tidy. untidy. split; [|done].
  intros name n; cbn; intros [_ Hn]%lookup_delete_Some. by eapply Ho.
Qed.
Lemma tidies_updateNode k : own k → tidies (updateNode k).
Proof.
  intros Hk. unfold updateNode. tidy.
  - eapply wp_tidies; [by apply tidies_deleteNode|done|]. intros [] m' w' Ht. tidy.
  - by apply tidies_refreshNode.
  - apply tidies_refreshNode. untidy. split; [|done].
    intros name n; cbn; intros [[_ <-]|[_ Hn]]%lookup_insert_Some; [done|by eapply Ho].
Qed.

Definition own_object (obj : object) : Prop := match obj with ObjNode n => own n | _ => True end.
Definition own_event (e : event) : Prop :=
  match e with Upsert obj | Removal obj => own_object obj end.
Lemma tidies_handle e : own_event e → tidies (handle e).
Proof.
  destruct e as [[k|pod|]|[k|pod|]]; cbn; intros Hown; tidy.
  - eapply wp_tidies; [by apply tidies_updateNode|done|]. intros r m' w' Ht. tidy.
  - eapply wp_tidies; [apply tidies_updatePod|done|]. intros r m' w' Ht. tidy.
  - by apply tidies_deleteNode.
  - by apply tidies_deletePod.
Qed.
End tidy.
