(* ===== verification/DigitalOcean.v ===== *)
(** * pkg/provider/digitalocean.go

    The DigitalOcean provider: its cache of assignments in progress, every
    operation with its error paths, and the reconciliation of a DNS record set.
    The client library is part of the world; its replies may carry an error, a
    response, or both. *)
From S2P Require Import Prelude Go Retry GoText K8s Types Provider ProviderMetrics.

(** ** The client library

    Pointers that the code checks, or dereferences, are options. *)
Record Response : Type := Response_ {
  StatusCode : Z;
  Links_IsLastPage : option bool;          (* [None]: no page links *)
}.
Record FloatingIP : Type := { flip_IP : string; flip_Droplet : option Z }.
Record Action : Type := {
  action_ID : Z;
  action_Status : string;
  action_CompletedAt : option Time;
}.
Record NetworkV4 : Type := { v4_Type : string; v4_IPAddress : string }.
Record Droplet : Type := { droplet_Networks : option (list NetworkV4) }.
Record DomainRecord : Type := {
  rec_ID : Z;
  rec_Type : string;
  rec_Name : string;
  rec_Data : string;
  rec_TTL : Z;
}.
Record DomainRecordEditRequest : Type := EditRequest {
  edit_Type : string;
  edit_Name : string;
  edit_Data : string;
  edit_TTL : Z;
}.
Definition reply (A : Type) : Type := ((A + error) * option Response)%type.

Class Godo (W : Type) : Type := {
  ips_Get : string → W → reply (option FloatingIP) * W;
  ips_Create : string → W → reply (option FloatingIP) * W;
  ipActions_Assign : string → Z → W → reply (option Action) * W;
  ipActions_Get : string → Z → W → reply (option Action) * W;
  droplets_Get : Z → W → reply (option Droplet) * W;
  domains_Records : string → Z → Z → W → reply (list DomainRecord) * W;
  domains_EditRecord : string → Z → DomainRecordEditRequest → W → reply unit * W;
  domains_CreateRecord : string → DomainRecordEditRequest → W → reply unit * W;
  domains_DeleteRecord : string → Z → W → reply unit * W;
}.

Definition StatusNotFound : Z := 404.
Definition StatusRequestTimeout : Z := 408.
Definition StatusUnprocessableEntity : Z := 422.
Definition StatusTooManyRequests : Z := 429.
Definition StatusServiceUnavailable : Z := 503.
Definition ActionInProgress : string := "in-progress".

Definition has_status (res : option Response) (code : Z) : bool :=
  match res with Some r => (StatusCode r =? code)%Z | None => false end.

(** ** State *)
Definition doActionExpiration : Duration := Hour.
Definition dnsRecordsPerPage : Z := 200.
Definition DigitalOceanName : string := "digitalocean".
Definition providerIDPrefix : string := "digitalocean://".

Record doAction : Type := DoAction { actionID : Z; expires : Time }.

Record digitalOcean : Type := DigitalOcean_ {
  floatingIPActions : gmap string doAction;
  do_token : string;
  do_metrics : option metrics;
}.
Definition eta_digitalOcean (d : digitalOcean) : digitalOcean :=
  DigitalOcean_ (floatingIPActions d) (do_token d) (do_metrics d).
#[export] Instance set_floatingIPActions : Setter floatingIPActions :=
  ltac:(derive_setter eta_digitalOcean floatingIPActions).
#[export] Instance set_do_token : Setter do_token :=
  ltac:(derive_setter eta_digitalOcean do_token).
#[export] Instance set_do_metrics : Setter do_metrics :=
  ltac:(derive_setter eta_digitalOcean do_metrics).

(** [digitalOceanWithMetrics]: the curried metrics are dropped, so the option
    leaves the provider without metrics. *)
Definition digitalOceanWithMetrics {W} `{!Prometheus W} (m : metrics) (c : digitalOcean) : digitalOcean :=
  let _ := withProvider m DigitalOceanName in c.

(** [NewDigitalOcean], up to the construction of the client: [token] is the
    value of DIGITALOCEAN_ACCESS_TOKEN. *)
Definition NewDigitalOcean (token : string) (opts : list (digitalOcean → digitalOcean))
    : digitalOcean + error :=
  let d := foldl (λ d o, o d) (DigitalOcean_ ∅ token None) opts in
  if bool_decide (do_token d = "") then inr errNoCredentials else inl d.

Section operations.
Context {W : Type} `{!Godo W, !Prometheus W, !Clock W, !MapRange W, !GoFmt}.
Local Abbreviation M := (M digitalOcean W).

(** The measurement every operation starts with. *)
Definition do_call {A} (ctx : Context) (caller : string) (body : M (A + error)) : M (A + error) :=
  m ← gets do_metrics; measured m ctx caller body.

(** [isPendingEventError] *)
Definition isPendingEventError (err : error) : bool := Contains (ToLower (Error err)) "pending event".

(** [asyncStatus]: an expired action is forgotten, whatever became of it. *)
Definition asyncStatus (ip : string) : M (unit + error) :=
  now ← call time_Now;
  modify (λ d, d <| floatingIPActions ::= filter (λ x, ¬ (expires x.2 < now)%Z) |>) ;;
  actions ← gets floatingIPActions;
  match actions !! ip with
  | None => mret (inl tt)
  | Some a =>
      '(r, _) ← call (ipActions_Get ip (actionID a));
      match r with
      | inr err => mret (inr err)
      | inl action =>
          if match action with
             | None => true
             | Some action => negb (bool_decide (action_Status action = ActionInProgress))
             end
          then modify (λ d, d <| floatingIPActions ::= delete ip |>) ;; mret (inl tt)
          else mret (inr ErrInProgress)
      end
  end.

(** The provider identifier of a droplet, and back. *)
Definition providerID_of (droplet : Z) : string := providerIDPrefix +:+ fmt_d droplet.
Definition dropletID_of (providerID : string) : Z + error :=
  match ParseInt (TrimPrefix providerID providerIDPrefix) with
  | inl n => inl n
  | inr err => inr (WrapError "parsing provider id: " err)
  end.

(** [IPToProviderID] *)
Definition IPToProviderID (ctx : Context) (ip : string) : M (string + error) :=
  do_call ctx "provider.(*digitalOcean).IPToProviderID" (
    asyncStatus ip ;?
    '(r, res) ← call (ips_Get ip);
    match r with
    | inr err => mret (inr (if has_status res StatusNotFound then ErrNotFound else err))
    | inl flip =>
        flip ← deref flip;
        match flip_Droplet flip with
        | None => mret (inl "")
        | Some id => mret (inl (providerID_of id))
        end
    end).

(** [NodeToIP]: the loop starts at the last public address and goes up. *)
Definition publicIPs (nets : list NetworkV4) : list string :=
  v4_IPAddress <$> filter (λ v4, v4_Type v4 = "public") nets.

Fixpoint nodeIP_loop (fuel : nat) (ctx : Context) (providerID : string) (ips : list string) (i : Z)
    : M (string + error) :=
  match fuel with
  | 0 => out_of_fuel
  | S fuel' =>
      if (i <? 0)%Z then mret (inl "")
      else
        ip ← deref (go_index ips i);
        r ← IPToProviderID ctx ip;
        match r with
        | inr err =>
            if bool_decide (err = ErrNotFound) then nodeIP_loop fuel' ctx providerID ips (i + 1)
            else mret (inr (WrapError "retrieving node ip: " err))
        | inl ipProvider =>
            if bool_decide (ipProvider = providerID) then mret (inl ip)
            else nodeIP_loop fuel' ctx providerID ips (i + 1)
        end
  end.

Definition NodeToIP (ctx : Context) (providerID : string) : M (string + error) :=
  do_call ctx "provider.(*digitalOcean).NodeToIP" (
    dropletID ←? mret (dropletID_of providerID);
    '(r, res) ← call (droplets_Get dropletID);
    match r with
    | inr err => mret (inr (if has_status res StatusNotFound then ErrNotFound else err))
    | inl droplet =>
        droplet ← deref droplet;
        match droplet_Networks droplet with
        | None => mret (inr (ErrorString "droplet had no networking info"))
        | Some nets =>
            let ips := publicIPs nets in
            if (length ips <? 2)%nat then mret (inl "")
            else nodeIP_loop (S (length ips)) ctx providerID ips (Z.of_nat (length ips) - 1)
        end
    end).

(** The answers of [AssignIP] to an unprocessable request. *)
Definition assignUnprocessable (ctx : Context) (ip providerID : string) (err : error)
    : M (unit + error) :=
  cur ← IPToProviderID ctx ip;
  let curProvider := match cur with inl p => p | inr _ => "" end in
  if negb (bool_decide (curProvider = "")) && bool_decide (curProvider = providerID)
  then mret (inl tt)
  else
    (match cur with
     | inr _ => mret (inl tt)
     | inl _ =>
         nIP ← NodeToIP ctx curProvider;
         mret (if match nIP with inl ip => negb (bool_decide (ip = "")) | inr _ => false end
               then inr ErrNodeInUse else inl tt)
     end) ;?
    mret (inr (if isPendingEventError err then NewRetryError err RetryFast else err)).

(** [AssignIP] *)
Definition AssignIP (ctx : Context) (ip providerID : string) : M (unit + error) :=
  do_call ctx "provider.(*digitalOcean).AssignIP" (
    asyncStatus ip ;?
    dropletID ←? mret (dropletID_of providerID);
    '(r, res) ← call (ipActions_Assign ip dropletID);
    match r with
    | inr err =>
        if has_status res StatusNotFound then mret (inr ErrNotFound)
        else if has_status res StatusUnprocessableEntity then assignUnprocessable ctx ip providerID err
        else mret (inr err)
    | inl action =>
        match action with
        | None => mret (inl tt)
        | Some action =>
            if match action_CompletedAt action with Some _ => true | None => false end
               || (action_ID action =? 0)%Z
            then mret (inl tt)
            else
              now ← call time_Now;
              modify (λ d, d <| floatingIPActions ::=
                        <[ip := DoAction (action_ID action) (Add now doActionExpiration)]> |>) ;;
              mret (inr ErrInProgress)
        end
    end).

(** [CreateIP] *)
Definition CreateIP (ctx : Context) (region : string) : M (string + error) :=
  do_call ctx "provider.(*digitalOcean).CreateIP" (
    '(r, _) ← call (ips_Create region);
    match r with
    | inr err => mret (inr err)
    | inl flip => flip ← deref flip; mret (inl (flip_IP flip))
    end).

(** [toRetryError] *)
Definition toRetryError (err : error) (res : option Response) : error :=
  if has_status res StatusNotFound then ErrNotFound
  else if has_status res StatusRequestTimeout || has_status res StatusServiceUnavailable ||
          has_status res StatusTooManyRequests then NewRetryError err RetryFast
  else match as_netError err with
       | Some true => NewRetryError err RetryFast
       | _ => err
       end.

(** A reply whose error is reported under [prefix]. *)
Definition checked {A} (prefix : string) (m : M (reply A)) : M (A * option Response + error) :=
  '(r, res) ← m;
  match r with
  | inl a => mret (inl (a, res))
  | inr err => mret (inr (toRetryError (WrapError prefix err) res))
  end.

(** The records of one page: which addresses are still missing, and which
    records are not needed. *)
Definition scanRecord (zone recordName : string) (ttl : Z) (s : gset string * list Z)
    (record : DomainRecord) : M (gset string * list Z + error) :=
  let '(ipSet, toDelete) := s in
  if negb (bool_decide (rec_Name record = recordName)) ||
     negb (bool_decide (rec_Type record = dnsRecordTypeA)) then mret (inl s)
  else if bool_decide (rec_Data record ∈ ipSet) then
    (if (rec_TTL record =? ttl)%Z then mret (inl tt)
     else
       _ ←? checked "updating record TTL: "
              (call (domains_EditRecord zone (rec_ID record)
                       (EditRequest dnsRecordTypeA recordName (rec_Data record) ttl)));
       mret (inl tt)) ;?
    mret (inl (ipSet ∖ {[rec_Data record]}, toDelete))
  else mret (inl (ipSet, toDelete ++ [rec_ID record])).

(** The loop over the pages of the zone. *)
Fixpoint scanPages (fuel : nat) (zone recordName : string) (ttl : Z) (page : Z)
    (s : gset string * list Z) : M (gset string * list Z + error) :=
  match fuel with
  | 0 => out_of_fuel
  | S fuel' =>
      '(records, res) ←? checked "listing zone records: "
                           (call (domains_Records zone page dnsRecordsPerPage));
      s ←? for_return records s (scanRecord zone recordName ttl);
      match res ≫= Links_IsLastPage with
      | None => mret (inr (ErrorString "invalid response from DigitalOcean API; no page links"))
      | Some true => mret (inl s)
      | Some false => scanPages fuel' zone recordName ttl (page + 1) s
      end
  end.

(** A record for an address that has none: one that is not needed is reused. *)
Definition placeIP (zone recordName : string) (ttl : Z) (toDelete : list Z) (ip : string)
    : M (list Z + error) :=
  let update := EditRequest dnsRecordTypeA recordName ip ttl in
  match toDelete with
  | id :: rest =>
      _ ←? checked "updating record: " (call (domains_EditRecord zone id update));
      mret (inl rest)
  | [] =>
      _ ←? checked "creating record: " (call (domains_CreateRecord zone update));
      mret (inl [])
  end.

(** [EnsureDNSARecordSet]; ranging over [ipSet] is ranging over a map. *)
Definition EnsureDNSARecordSet (fuel : nat) (ctx : Context) (zone recordName : string)
    (ips : list string) (ttl : Z) : M (unit + error) :=
  do_call ctx "provider.(*digitalOcean).EnsureDNSARecordSet" (
    '(ipSet, toDelete) ←? scanPages fuel zone recordName ttl 1 (list_to_set ips, []);
    order ← call (range_order (elements ipSet));
    toDelete ←? for_return order toDelete (placeIP zone recordName ttl);
    for_return toDelete tt (λ _ id,
      _ ←? checked "deleting record: " (call (domains_DeleteRecord zone id));
      mret (inl tt))).

(** [RecordNameAndZoneToFQDN] *)
Definition RecordNameAndZoneToFQDN (zone recordName : string) : string :=
  recordName +:+ "." +:+ zone.
End operations.
