(* ===== verification/Cloudflare.v ===== *)
(** * pkg/provider/cloudflare.go

    The Cloudflare DNS provider.  The client library is part of the world. *)
From S2P Require Import Prelude Go Retry GoText K8s Types Provider ProviderMetrics.

(** [cloudflare.DNSRecord]; [cf_Proxied] is a pointer. *)
Record DNSRecord : Type := {
  cf_ID : string;
  cf_Type : string;
  cf_Name : string;
  cf_Content : string;
  cf_TTL : Z;
  cf_Proxied : option bool;
}.
(** [CreateDNSRecordParams] and [UpdateDNSRecordParams], the latter without its
    identifier. *)
Record DNSRecordParams : Type := RecordParams {
  par_Type : string;
  par_Name : string;
  par_Content : string;
  par_TTL : Z;
}.

Class CloudflareAPI (W : Type) : Type := {
  ListDNSRecords : string → string → string → W → (list DNSRecord + error) * W;
  CreateDNSRecord : string → DNSRecordParams → W → (unit + error) * W;
  UpdateDNSRecord : string → string → DNSRecordParams → W → (unit + error) * W;
  DeleteDNSRecord : string → string → W → (unit + error) * W;
}.

Definition CloudflareName : string := "cloudflare".

Module Cloudflare.
Record cloudflareDNS : Type := CloudflareDNS {
  token : string;
  cf_metrics : option metrics;
}.
Definition eta_cloudflareDNS (c : cloudflareDNS) : cloudflareDNS :=
  CloudflareDNS (token c) (cf_metrics c).
#[export] Instance set_cf_metrics : Setter cf_metrics :=
  ltac:(derive_setter eta_cloudflareDNS cf_metrics).

Definition cloudflareWithMetrics {W} `{!Prometheus W} (m : metrics) (c : cloudflareDNS) : cloudflareDNS :=
  c <| cf_metrics := Some (withProvider m CloudflareName) |>.

(** [NewCloudflare], up to the construction of the client: [tok] is the value of
    CLOUDFLARE_TOKEN. *)
Definition NewCloudflare (tok : string) (opts : list (cloudflareDNS → cloudflareDNS))
    : cloudflareDNS + error :=
  let c := foldl (λ c o, o c) (CloudflareDNS tok None) opts in
  if bool_decide (token c = "") then inr errNoCredentials else inl c.

Definition GetProviderName : string := CloudflareName.

Section operations.
Context {W : Type} `{!CloudflareAPI W, !Prometheus W, !Clock W, !MapRange W}.
Local Abbreviation M := (M cloudflareDNS W).

(** [toRetryError] *)
Definition toRetryError (err : error) : error :=
  match as_netError err with
  | Some true => NewRetryError err RetryFast
  | _ => err
  end.

Definition checked {A} (prefix : string) (m : M (A + error)) : M (A + error) :=
  r ← m;
  mret match r with
       | inl a => inl a
       | inr err => inr (toRetryError (WrapError prefix err))
       end.

(** One existing record: which addresses are still missing, and which records
    are not needed. *)
Definition scanRecord (zone recordName : string) (ttl : Z) (s : gset string * list string)
    (record : DNSRecord) : M (gset string * list string + error) :=
  let '(ipSet, toDelete) := s in
  if bool_decide (cf_Content record ∈ ipSet) then
    (if negb (cf_TTL record =? ttl)%Z || default false (cf_Proxied record) then
       checked "updating record: "
         (call (UpdateDNSRecord zone (cf_ID record)
                  (RecordParams dnsRecordTypeA recordName (cf_Content record) ttl)))
     else mret (inl tt)) ;?
    mret (inl (ipSet ∖ {[cf_Content record]}, toDelete))
  else mret (inl (ipSet, toDelete ++ [cf_ID record])).

(** A record for an address that has none: one that is not needed is reused. *)
Definition placeIP (zone recordName : string) (ttl : Z) (toDelete : list string) (ip : string)
    : M (list string + error) :=
  let params := RecordParams dnsRecordTypeA recordName ip ttl in
  match toDelete with
  | id :: rest =>
      checked "updating record: " (call (UpdateDNSRecord zone id params)) ;?
      mret (inl rest)
  | [] =>
      checked "creating record: " (call (CreateDNSRecord zone params)) ;?
      mret (inl [])
  end.

(** [EnsureDNSARecordSet]; the error of the listing is not classified. *)
Definition EnsureDNSARecordSet (ctx : Context) (zone recordName : string) (ips : list string)
    (ttl : Z) : M (unit + error) :=
  m ← gets cf_metrics;
  measured m ctx "provider.(*cloudflareDNS).EnsureDNSARecordSet" (
    r ← call (ListDNSRecords zone recordName dnsRecordTypeA);
    existing ←? mret match r with
                     | inl l => inl l
                     | inr err => inr (WrapError "fetching existing cloudflare dns records: " err)
                     end;
    '(ipSet, toDelete) ←? for_return existing (list_to_set ips, []) (scanRecord zone recordName ttl);
    order ← call (range_order (elements ipSet));
    toDelete ←? for_return order toDelete (placeIP zone recordName ttl);
    for_return toDelete tt (λ _ id,
      checked "deleting record: " (call (DeleteDNSRecord zone id)))).

(** [RecordNameAndZoneToFQDN]: the record name is one already. *)
Definition RecordNameAndZoneToFQDN (_ recordName : string) : string := recordName.
End operations.
End Cloudflare.
