(* ===== verification/DNSPlan.v ===== *)
(** * Reconciling a DNS record set

    What both DNS providers promise: afterwards the record set holds one record
    per address and no other.  Both work in three passes over a view of the
    record set - scan what exists, place the missing addresses, delete what is
    not needed -; [Scan] is the invariant the passes share, and its lemmas are
    their steps. *)
From S2P Require Import Prelude Go Retry.

Section plan.
Context {Id : Type} `{Countable Id}.
(** The record set: the content and the TTL of each of its records. *)
Implicit Types (v : gmap Id (string * Z)) (ipSet unseen : gset string).

(** [exactly ips ttl v]: one record for each of the addresses, and no other. *)
Record exactly (ips : gset string) (ttl : Z) v : Prop := {
  ex_sound : ∀ id d t, v !! id = Some (d, t) → d ∈ ips ∧ t = ttl;
  ex_complete : ∀ ip, ip ∈ ips → ∃ id, v !! id = Some (ip, ttl);
  ex_once : ∀ id id' d t t', v !! id = Some (d, t) → v !! id' = Some (d, t') → id = id';
}.

(** [Scan ips ttl v todo ipSet toDelete]: the records [todo] are still to be
    looked at, those of [toDelete] are not needed, and every other record serves
    an address of its own; the addresses of [ipSet] are without a record. *)
Record Scan (ips : gset string) (ttl : Z) v (todo : gset Id) (ipSet : gset string)
    (toDelete : list Id) : Prop := {
  sc_nodup : NoDup toDelete;
  sc_dom : ∀ id, id ∈ todo ∨ id ∈ toDelete → is_Some (v !! id);
  sc_apart : ∀ id, id ∈ todo → id ∉ toDelete;
  sc_kept : ∀ id d t, v !! id = Some (d, t) → id ∉ todo → id ∉ toDelete →
              d ∈ ips ∧ d ∉ ipSet ∧ t = ttl;
  sc_once : ∀ id id' d t t', v !! id = Some (d, t) → v !! id' = Some (d, t') →
              id ∉ todo → id ∉ toDelete → id' ∉ todo → id' ∉ toDelete → id = id';
  sc_sub : ipSet ⊆ ips;
  sc_cover : ∀ ip, ip ∈ ips → ip ∈ ipSet ∨
               ∃ id, v !! id = Some (ip, ttl) ∧ id ∉ todo ∧ id ∉ toDelete;
}.

Lemma scan_start ips ttl v : Scan ips ttl v (dom v) ips [].
Proof.
  split.
  - constructor.
  - intros id [?|?%elem_of_nil]; [by apply elem_of_dom|done].
  - by intros id _ ?%elem_of_nil.
  - intros id d t Hv Hnot. destruct Hnot. apply elem_of_dom. eauto.
  - intros id id' d t t' Hv _ Hnot. destruct Hnot. apply elem_of_dom. eauto.
  - done.
  - auto.
Qed.

(** A record comes to serve an address that had none. *)
Lemma scan_serve ips ttl v todo ipSet toDelete todo' toDelete' id ip :
  Scan ips ttl v todo ipSet toDelete →
  ip ∈ ipSet → NoDup toDelete' → id ∉ todo' → id ∉ toDelete' →
  (∀ id', id' ∈ todo' ↔ id' ∈ todo ∧ id' ≠ id) →
  (∀ id', id' ∈ toDelete' ↔ id' ∈ toDelete ∧ id' ≠ id) →
  (id ∈ todo ∨ id ∈ toDelete ∨ v !! id = None) →
  Scan ips ttl (<[id := (ip, ttl)]> v) todo' (ipSet ∖ {[ip]}) toDelete'.
Proof.
  intros HS Hip Hnd Ht Hd Htodo Hdel Hid.
  assert (∀ id', id' ≠ id → id' ∉ todo' → id' ∉ toDelete' → id' ∉ todo ∧ id' ∉ toDelete) as Hout.
  { intros id' Hne. rewrite Htodo, Hdel. naive_solver. }
  assert (∀ id' t', v !! id' = Some (ip, t') → id' ≠ id → id' ∉ todo' → id' ∉ toDelete' → False) as Hnew.
  { intros id' t' Hv Hne H1 H2. destruct (Hout id' Hne H1 H2) as [H1' H2'].
    by destruct (sc_kept _ _ _ _ _ _ HS id' ip t' Hv H1' H2') as (_ & ? & _). }
  split.
  - done.
  - intros id' Hin. destruct (decide (id' = id)) as [->|Hne]; [by rewrite lookup_insert_eq|].
    rewrite lookup_insert_ne by done. apply (sc_dom _ _ _ _ _ _ HS).
    rewrite Htodo, Hdel in Hin. naive_solver.
  - intros id' [Hin _]%Htodo. rewrite Hdel. intros [? _].
    by apply (sc_apart _ _ _ _ _ _ HS id' Hin).
  - intros id' d t. destruct (decide (id' = id)) as [->|Hne].
    + rewrite lookup_insert_eq. intros [= <- <-] _ _. split_and!; [|set_solver|done].
      by apply (sc_sub _ _ _ _ _ _ HS).
    + rewrite lookup_insert_ne by done. intros Hv H1 H2.
      destruct (Hout id' Hne H1 H2) as [H1' H2'].
      destruct (sc_kept _ _ _ _ _ _ HS id' d t Hv H1' H2') as (? & ? & ?). set_solver.
  - intros id1 id2 d t t'.
    destruct (decide (id1 = id)) as [->|Hne1], (decide (id2 = id)) as [->|Hne2]; [done|..];
      rewrite ?lookup_insert_eq, ?lookup_insert_ne by done.
    + intros [= <- <-] Hv _ _ H1 H2. exfalso; eauto.
    + intros Hv [= <- <-] H1 H2 _ _. exfalso; eauto.
    + intros Hv1 Hv2 H1 H2 H3 H4. destruct (Hout id1), (Hout id2); auto.
      by eapply (sc_once _ _ _ _ _ _ HS).
  - pose proof (sc_sub _ _ _ _ _ _ HS). set_solver.
  - intros ip' Hin. destruct (decide (ip' = ip)) as [->|Hne].
    + right. exists id. by rewrite lookup_insert_eq.
    + destruct (sc_cover _ _ _ _ _ _ HS ip' Hin) as [?|(id' & Hv & H1 & H2)]; [set_solver|].
      right. exists id'. assert (id' ≠ id) as Hid'.
      { intros ->. rewrite Hv in Hid. naive_solver. }
      rewrite lookup_insert_ne by done. rewrite Htodo, Hdel. naive_solver.
Qed.

(** First pass: the record serves an address, or it is not needed. *)
Lemma scan_keep ips ttl v todo ipSet toDelete id ip :
  Scan ips ttl v todo ipSet toDelete → id ∈ todo → ip ∈ ipSet →
  Scan ips ttl (<[id := (ip, ttl)]> v) (todo ∖ {[id]}) (ipSet ∖ {[ip]}) toDelete.
Proof.
  intros HS Hid Hip. eapply scan_serve; try done.
  - apply HS.
  - set_solver.
  - by apply (sc_apart _ _ _ _ _ _ HS).
  - set_solver.
  - intros id'. pose proof (sc_apart _ _ _ _ _ _ HS id Hid). naive_solver.
  - by left.
Qed.

Lemma scan_drop ips ttl v todo ipSet toDelete id :
  Scan ips ttl v todo ipSet toDelete → id ∈ todo →
  Scan ips ttl v (todo ∖ {[id]}) ipSet (toDelete ++ [id]).
Proof.
  intros HS Hid. pose proof (sc_apart _ _ _ _ _ _ HS id Hid) as Hnot. split.
  - apply NoDup_app. split_and!; [apply HS| |apply NoDup_singleton].
    intros x Hx ->%list_elem_of_singleton. done.
  - intros id' Hin. apply (sc_dom _ _ _ _ _ _ HS). set_solver.
  - intros id' Hin. pose proof (sc_apart _ _ _ _ _ _ HS id'). set_solver.
  - intros id' d t Hv H1 H2. apply (sc_kept _ _ _ _ _ _ HS id' d t Hv); set_solver.
  - intros id1 id2 d t t' Hv1 Hv2 H1 H2 H3 H4.
    eapply (sc_once _ _ _ _ _ _ HS id1 id2); eauto; set_solver.
  - apply HS.
  - intros ip Hin. destruct (sc_cover _ _ _ _ _ _ HS ip Hin) as [?|(id' & Hv & H1 & H2)]; [by left|].
    right. exists id'. split; [done|]. set_solver.
Qed.

(** Second pass: an unneeded record is reused, or a record is created. *)
Lemma scan_reuse ips ttl v todo ipSet id rest ip :
  Scan ips ttl v todo ipSet (id :: rest) → ip ∈ ipSet →
  Scan ips ttl (<[id := (ip, ttl)]> v) todo (ipSet ∖ {[ip]}) rest.
Proof.
  intros HS Hip. pose proof (sc_nodup _ _ _ _ _ _ HS) as [Hid Hnd]%NoDup_cons.
  assert (id ∉ todo) as Ht.
  { intros Hin. apply (sc_apart _ _ _ _ _ _ HS id Hin). by left. }
  eapply scan_serve; try done.
  - intros id'. split; [|by intros []]. intros ?. split; [done|]. by intros ->.
  - intros id'. rewrite elem_of_cons. naive_solver.
  - right. left. by left.
Qed.

Lemma scan_create ips ttl v todo ipSet toDelete id ip :
  Scan ips ttl v todo ipSet toDelete → ip ∈ ipSet → v !! id = None →
  Scan ips ttl (<[id := (ip, ttl)]> v) todo (ipSet ∖ {[ip]}) toDelete.
Proof.
  intros HS Hip Hv.
  assert (∀ id', id' ∈ todo ∨ id' ∈ toDelete → id' ≠ id) as Hne.
  { intros id' Hin ->. apply (sc_dom _ _ _ _ _ _ HS) in Hin as [? Hin]. congruence. }
  eapply scan_serve; try done.
  - apply HS.
  - intros Hin. by apply (Hne id (or_introl Hin)).
  - intros Hin. by apply (Hne id (or_intror Hin)).
  - intros id'. split; [|by intros []]. intros Hin. split; [done|]. apply Hne. by left.
  - intros id'. split; [|by intros []]. intros Hin. split; [done|]. apply Hne. by right.
  - by right; right.
Qed.

(** Third pass: an unneeded record is deleted. *)
Lemma scan_delete ips ttl v todo ipSet id rest :
  Scan ips ttl v todo ipSet (id :: rest) → Scan ips ttl (delete id v) todo ipSet rest.
Proof.
  intros HS. pose proof (sc_nodup _ _ _ _ _ _ HS) as [Hid Hnd]%NoDup_cons.
  assert (id ∉ todo) as Ht.
  { intros Hin. apply (sc_apart _ _ _ _ _ _ HS id Hin). by left. }
  assert (∀ id', id' ∉ rest → id' ≠ id → id' ∉ id :: rest) as Hout.
  { intros id' ? ?. rewrite elem_of_cons. naive_solver. }
  split.
  - done.
  - intros id' Hin. assert (id' ≠ id) by (intros ->; naive_solver).
    rewrite lookup_delete_ne by done. apply (sc_dom _ _ _ _ _ _ HS). rewrite elem_of_cons. naive_solver.
  - intros id' Hin Hrest. apply (sc_apart _ _ _ _ _ _ HS id' Hin). by right.
  - intros id' d t [Hne Hv]%lookup_delete_Some H1 H2.
    apply (sc_kept _ _ _ _ _ _ HS id' d t Hv); auto.
  - intros id1 id2 d t t' [Hne1 Hv1]%lookup_delete_Some [Hne2 Hv2]%lookup_delete_Some H1 H2 H3 H4.
    eapply (sc_once _ _ _ _ _ _ HS id1 id2); eauto.
  - apply HS.
  - intros ip Hin. destruct (sc_cover _ _ _ _ _ _ HS ip Hin) as [?|(id' & Hv & H1 & H2)]; [by left|].
    right. exists id'. rewrite elem_of_cons in H2. rewrite lookup_delete_ne; naive_solver.
Qed.

Lemma scan_done ips ttl v : Scan ips ttl v ∅ ∅ [] → exactly ips ttl v.
Proof.
  intros HS. split.
  - intros id d t Hv. destruct (sc_kept _ _ _ _ _ _ HS id d t Hv) as (? & _ & ?); set_solver.
  - intros ip Hin. destruct (sc_cover _ _ _ _ _ _ HS ip Hin) as [?|(id & ? & _)]; [set_solver|eauto].
  - intros id id' d t t' H1 H2. eapply (sc_once _ _ _ _ _ _ HS); eauto; set_solver.
Qed.

(** ** The passes that write

    [edit] and [create] write one record, [remove] deletes one; [P] is what they
    leave alone, whether they fail or not. *)
Section passes.
Context {C W A : Type} (E : Prop) (ips : gset string) (ttl : Z).
Context (rs : W → gmap Id (string * Z)) (P : W → Prop).
Context (edit : Id → string → M C W (A + error)) (create : string → M C W (A + error)).
Context (remove : Id → M C W (unit + error)).

(** The outcome of an operation that changes the view by [eff], or fails. *)
Definition changes {B} (eff : gmap Id (string * Z) → gmap Id (string * Z) → Prop) (c : C) (w : W)
    (r : B + error) (c' : C) (w' : W) : Prop :=
  c' = c ∧ P w' ∧ match r with inl _ => eff (rs w) (rs w') | inr _ => True end.

Hypothesis edit_ok : ∀ id ip c w, P w → is_Some (rs w !! id) →
  wp E (edit id ip) (changes (λ v v', v' = <[id := (ip, ttl)]> v) c w) c w.
Hypothesis create_ok : ∀ ip c w, P w →
  wp E (create ip)
    (changes (λ v v', ∃ id, v !! id = None ∧ v' = <[id := (ip, ttl)]> v) c w) c w.
Hypothesis remove_ok : ∀ id c w, P w → is_Some (rs w !! id) →
  wp E (remove id) (changes (λ v v', v' = delete id v) c w) c w.

Definition place (toDelete : list Id) (ip : string) : M C W (list Id + error) :=
  match toDelete with
  | id :: rest => _ ←? edit id ip; mret (inl rest)
  | [] => _ ←? create ip; mret (inl [])
  end.

(** What a pass establishes if it does not fail, and what if it does. *)
Definition pass {B} (Q : B → C → W → Prop) (c : C) : B + error → C → W → Prop :=
  or_done (λ b c' w', c' = c ∧ P w' ∧ Q b c' w') (λ _ c' w', c' = c ∧ P w').

Lemma place_pass order toDelete ipSet c w :
  P w → Scan ips ttl (rs w) ∅ ipSet toDelete → order ≡ₚ elements ipSet →
  wp E (for_return order toDelete place)
    (pass (λ toDelete _ w', Scan ips ttl (rs w') ∅ ∅ toDelete) c) c w.
Proof.
  clear remove remove_ok. intros HP HS Hord. assert (NoDup order) as Hnd by (rewrite Hord; apply NoDup_elements).
  assert (∀ ip, ip ∈ order ↔ ip ∈ ipSet) as Hin.
  { intros ip. rewrite Hord. apply elem_of_elements. }
  eapply wp_mono; [|apply (wp_for_return E
    (λ (done : list string) toDelete c' w', c' = c ∧ P w' ∧
       Scan ips ttl (rs w') ∅ (ipSet ∖ list_to_set done) toDelete) (λ _ c' w', c' = c ∧ P w'))].
  - intros [b|e] c' w'; [|done]. cbn. intros (-> & HP' & HS'). split_and!; [done..|].
    assert (ipSet ∖ list_to_set order = ∅) as Hall by set_solver. by rewrite Hall in HS'.
  - cbn. by rewrite difference_empty_L.
  - intros done ip todo toDel c' w' Hxs (-> & HP' & HS').
    assert (ip ∈ ipSet ∖ list_to_set done) as Hip.
    { rewrite Hxs in Hnd. apply NoDup_app in Hnd as (_ & Hnd & _).
      specialize (Hin ip). specialize (Hnd ip). rewrite Hxs in Hin.
      apply elem_of_difference. rewrite elem_of_list_to_set. split; [apply Hin; set_solver|].
      intros ?. apply Hnd; [done|by left]. }
    assert (ipSet ∖ list_to_set (done ++ [ip]) = ipSet ∖ list_to_set done ∖ {[ip]}) as -> by set_solver.
    unfold place. destruct toDel as [|id rest]; apply wp_or_return.
    + eapply wp_mono; [|by apply create_ok]. intros [b|e] c' w'' (-> & HP'' & Heff); [|done].
      destruct Heff as (id & Hnone & Hv). apply wp_ret. split_and!; [done..|].
      rewrite Hv. by apply scan_create.
    + eapply wp_mono; [|apply edit_ok; [done|]].
      * intros [b|e] c' w'' (-> & HP'' & Hv); [|done]. apply wp_ret. split_and!; [done..|].
        rewrite Hv. by apply scan_reuse.
      * apply (sc_dom _ _ _ _ _ _ HS'). right. by left.
Qed.

Lemma remove_pass toDelete c w :
  P w → Scan ips ttl (rs w) ∅ ∅ toDelete →
  wp E (for_return toDelete tt (λ _, remove))
    (pass (λ _ _ w', exactly ips ttl (rs w')) c) c w.
Proof.
  clear edit create edit_ok create_ok. intros HP HS. eapply wp_mono; [|apply (wp_for_return E
    (λ (done : list Id) (_ : unit) c' w', c' = c ∧ P w' ∧
       Scan ips ttl (rs w') ∅ ∅ (drop (length done) toDelete)) (λ _ c' w', c' = c ∧ P w'))].
  - intros [[]|e] c' w'; [|done]. cbn. rewrite drop_all. intros (-> & HP' & HS').
    split_and!; [done..|]. by apply scan_done.
  - by rewrite drop_0.
  - intros done id todo [] c' w' -> (-> & HP' & HS'). rewrite drop_app_length in HS'.
    eapply wp_mono; [|apply remove_ok; [done|]].
    + intros [[]|e] c' w'' (-> & HP'' & Hv); [|done]. split_and!; [done..|].
      rewrite Hv, length_app. cbn [length].
      replace (drop (length done + 1) (done ++ id :: todo)) with todo.
      { by eapply scan_delete. }
      rewrite drop_app_add. done.
    + apply (sc_dom _ _ _ _ _ _ HS'). right. by left.
Qed.
End passes.
End plan.
