(* ===== verification/CloudflareProps.v ===== *)
(** * Properties of the Cloudflare provider

    [EnsureDNSARecordSet] against a zone that behaves as documented. *)
From S2P Require Import Prelude Go Retry GoText K8s Types Provider ProviderMetrics.
From S2P Require Import DNSPlan Cloudflare.
Import Cloudflare.

(** The zone behind the API: its records by identifier. *)
Class CFGhost (W : Type) : Type := { cf_zone : W → string → gmap string DNSRecord }.
Definition cf_matches (name : string) (r : DNSRecord) : bool :=
  bool_decide (cf_Name r = name) && bool_decide (cf_Type r = dnsRecordTypeA).
Definition written (id : string) (p : DNSRecordParams) (r : DNSRecord) : Prop :=
  cf_ID r = id ∧ cf_Type r = par_Type p ∧ cf_Name r = par_Name p ∧
  cf_Content r = par_Content p ∧ cf_TTL r = par_TTL p.

(** A write that succeeds has its effect on the zone; one that fails may have
    had it all the same. *)
Definition cf_outcome `{!CFGhost W} {A} (z : string) (w : W) (r : A + error) (w' : W)
    (eff : gmap string DNSRecord → gmap string DNSRecord → Prop) : Prop :=
  (∀ z', z' ≠ z → cf_zone w' z' = cf_zone w z') ∧
  match r with
  | inl _ => eff (cf_zone w z) (cf_zone w' z)
  | inr _ => cf_zone w' z = cf_zone w z ∨ eff (cf_zone w z) (cf_zone w' z)
  end.

Class CFLaws (W : Type) `{!CloudflareAPI W, !Prometheus W, !Clock W, !MapRange W, !CFGhost W} : Prop := {
  #[global] cflaws_range :: MapRangeLaws W;
  cf_range ks w : cf_zone (range_order ks w).2 = cf_zone w;
  cf_now w : cf_zone (time_Now w).2 = cf_zone w;
  cf_inc m l w : cf_zone (With_Inc m l w).2 = cf_zone w;
  cf_observe m l d w : cf_zone (With_Observe m l d w).2 = cf_zone w;
  cf_list z name ty w : cf_zone (ListDNSRecords z name ty w).2 = cf_zone w;
  cf_listed z name ty w l w' : ListDNSRecords z name ty w = (inl l, w') →
    NoDup (cf_ID <$> l) ∧
    ∀ r, r ∈ l ↔ cf_zone w z !! cf_ID r = Some r ∧ cf_Name r = name ∧ cf_Type r = ty;
  cf_id w z id r : cf_zone w z !! id = Some r → cf_ID r = id;
  cf_update z id p w r w' : UpdateDNSRecord z id p w = (r, w') → cf_outcome z w r w'
    (λ m m', is_Some (m !! id) ∧ ∃ rec, written id p rec ∧ m' = <[id := rec]> m);
  cf_create z p w r w' : CreateDNSRecord z p w = (r, w') → cf_outcome z w r w'
    (λ m m', ∃ id rec, m !! id = None ∧ written id p rec ∧ m' = <[id := rec]> m);
  cf_delete z id w r w' : DeleteDNSRecord z id w = (r, w') → cf_outcome z w r w'
    (λ m m', m' = delete id m);
}.

Lemma difference_twice (X Y Z : gset string) : X ∖ (Y ∪ Z) = X ∖ Y ∖ Z.
Proof. set_solver. Qed.

Section props.
Context `{CFLaws W}.
Variables (zone name : string) (ttl : Z).

Definition cf_view (m : gmap string DNSRecord) : gmap string (string * Z) :=
  omap (λ r, if cf_matches name r then Some (cf_Content r, cf_TTL r) else None) m.
Definition cf_rest (m : gmap string DNSRecord) : gmap string DNSRecord :=
  filter (λ x, cf_matches name x.2 = false) m.
Definition cf_rs (w : W) : gmap string (string * Z) := cf_view (cf_zone w zone).

(** Everything but the record set is as it was. *)
Definition cf_untouched (w0 w : W) : Prop :=
  (∀ z, z ≠ zone → cf_zone w z = cf_zone w0 z) ∧
  cf_rest (cf_zone w zone) = cf_rest (cf_zone w0 zone).

Lemma cf_view_insert m id r : cf_matches name r = true →
  cf_view (<[id := r]> m) = <[id := (cf_Content r, cf_TTL r)]> (cf_view m).
Proof. intros Hr. unfold cf_view. apply omap_insert_Some. by rewrite Hr. Qed.
Lemma cf_view_delete m id : cf_view (delete id m) = delete id (cf_view m).
Proof. apply omap_delete. Qed.
Lemma cf_view_lookup m id d t : cf_view m !! id = Some (d, t) ↔
  ∃ r, m !! id = Some r ∧ cf_matches name r = true ∧ cf_Content r = d ∧ cf_TTL r = t.
Proof.
  unfold cf_view. rewrite lookup_omap. split.
  - intros (r & Hm & Hr)%bind_Some. exists r. destruct (cf_matches name r); by simplify_eq.
  - intros (r & Hm & Hr & <- & <-). rewrite Hm. cbn. by rewrite Hr.
Qed.
Lemma cf_view_is_Some m id : is_Some (cf_view m !! id) →
  ∃ r, m !! id = Some r ∧ cf_matches name r = true.
Proof. intros [[d t] Hv]. apply cf_view_lookup in Hv. naive_solver. Qed.
Lemma cf_rest_insert m id r :
  cf_matches name r = true → (∀ r0, m !! id = Some r0 → cf_matches name r0 = true) →
  cf_rest (<[id := r]> m) = cf_rest m.
Proof.
  intros Hr Hr0. unfold cf_rest. apply map_eq. intros id'. apply option_eq. intros x.
  rewrite !map_lookup_filter_Some. destruct (decide (id' = id)) as [->|Hne].
  - rewrite lookup_insert_eq. cbn. split; intros [Hx Hx'].
    + simplify_eq. congruence.
    + destruct (m !! id) as [r1|]; [|done]. simplify_eq. specialize (Hr0 _ eq_refl). congruence.
  - by rewrite lookup_insert_ne.
Qed.
Lemma cf_rest_delete m id :
  (∀ r0, m !! id = Some r0 → cf_matches name r0 = true) → cf_rest (delete id m) = cf_rest m.
Proof.
  intros Hr0. unfold cf_rest. apply map_eq. intros id'. apply option_eq. intros x.
  rewrite !map_lookup_filter_Some. destruct (decide (id' = id)) as [->|Hne].
  - rewrite lookup_delete_eq. split; intros [Hx Hx']; [done|].
    specialize (Hr0 _ Hx). cbn in Hx'. congruence.
  - by rewrite lookup_delete_ne.
Qed.

Lemma written_matches id ip r :
  written id (RecordParams dnsRecordTypeA name ip ttl) r →
  cf_matches name r = true ∧ cf_Content r = ip ∧ cf_TTL r = ttl.
Proof.
  intros (_ & Ht & Hn & Hc & Hl). unfold cf_matches. rewrite Ht, Hn. cbn.
  by rewrite !bool_decide_true.
Qed.

Lemma untouched_quiet w0 w w' : cf_zone w' = cf_zone w → cf_untouched w0 w → cf_untouched w0 w'.
Proof. unfold cf_untouched. by intros ->. Qed.

(** A write whose effect concerns the record set only. *)
Lemma wp_write {A} E prefix (f : W → (A + error) * W) eff veff w0 c w :
  (∀ r w', f w = (r, w') → cf_outcome zone w r w' eff) →
  (∀ m m', m = cf_zone w zone → eff m m' →
     cf_rest m' = cf_rest m ∧ veff (cf_view m) (cf_view m')) →
  cf_untouched w0 w →
  wp E (checked prefix (call f)) (changes cf_rs (cf_untouched w0) veff c w) c w.
Proof.
  intros Hf Heff [Hz Hrest]. unfold checked. wp_steps. apply wp_call. intros r w' Hr. wp_steps.
  destruct (Hf _ _ Hr) as [Hz' Ho]. unfold changes, cf_rs. split; [done|].
  assert (cf_untouched w0 w' ∧ match r with
    | inl _ => veff (cf_view (cf_zone w zone)) (cf_view (cf_zone w' zone)) | inr _ => True end) as [Hu Hv].
  { destruct r as [a|e].
    - destruct (Heff _ _ eq_refl Ho) as [Hr' Hv]. split; [|done]. split; [|congruence].
      intros z Hne. rewrite Hz' by done. by apply Hz.
    - split; [|done]. split; [intros z Hne; rewrite Hz' by done; by apply Hz|].
      destruct Ho as [->|Ho]; [done|]. destruct (Heff _ _ eq_refl Ho) as [Hr' _]. congruence. }
  split; [done|]. by destruct r.
Qed.

Definition edit_record (prefix id ip : string) : M cloudflareDNS W (unit + error) :=
  checked prefix (call (UpdateDNSRecord zone id (RecordParams dnsRecordTypeA name ip ttl))).

Lemma edit_ok E prefix w0 id ip c w : cf_untouched w0 w → is_Some (cf_rs w !! id) →
  wp E (edit_record prefix id ip)
    (changes cf_rs (cf_untouched w0) (λ v v', v' = <[id := (ip, ttl)]> v) c w) c w.
Proof.
  intros Hu Hid. eapply wp_write; [intros r w'; apply cf_update| |done].
  intros m m' -> (_ & rec & Hw & ->). destruct (written_matches _ _ _ Hw) as (Hm & <- & <-).
  destruct (cf_view_is_Some _ _ Hid) as (r0 & Hr0 & Hm0). split.
  - apply cf_rest_insert; [done|]. intros r1 Hr1. unfold cf_rs in *. congruence.
  - by apply cf_view_insert.
Qed.

Lemma create_ok E prefix w0 ip c w : cf_untouched w0 w →
  wp E (checked prefix (call (CreateDNSRecord zone (RecordParams dnsRecordTypeA name ip ttl))))
    (changes cf_rs (cf_untouched w0) (λ v v', ∃ id, v !! id = None ∧ v' = <[id := (ip, ttl)]> v) c w) c w.
Proof.
  intros Hu. eapply wp_write; [intros r w'; apply cf_create| |done].
  intros m m' -> (id & rec & Hnone & Hw & ->).
  destruct (written_matches _ _ _ Hw) as (Hm & <- & <-). split.
  - apply cf_rest_insert; [done|]. intros r1 Hr1. congruence.
  - exists id. split; [|by apply cf_view_insert]. unfold cf_view. by rewrite lookup_omap, Hnone.
Qed.

Lemma delete_ok E prefix w0 id c w : cf_untouched w0 w → is_Some (cf_rs w !! id) →
  wp E (checked prefix (call (DeleteDNSRecord zone id)))
    (changes cf_rs (cf_untouched w0) (λ v v', v' = delete id v) c w) c w.
Proof.
  intros Hu Hid. eapply wp_write; [intros r w'; apply cf_delete| |done].
  intros m m' -> ->. destruct (cf_view_is_Some _ _ Hid) as (r0 & Hr0 & Hm0). split.
  - apply cf_rest_delete. intros r1 Hr1. congruence.
  - apply cf_view_delete.
Qed.

(** The first pass over the records the API lists. *)
Definition ids_of (l : list DNSRecord) : gset string := list_to_set (cf_ID <$> l).
Definition scanned (ips : gset string) (w0 : W) (existing done : list DNSRecord)
    (s : gset string * list string) (w : W) : Prop :=
  cf_untouched w0 w ∧ Scan ips ttl (cf_rs w) (ids_of existing ∖ ids_of done) s.1 s.2 ∧
  ∀ r, r ∈ existing → cf_ID r ∉ ids_of done → cf_rs w !! cf_ID r = Some (cf_Content r, cf_TTL r).

Lemma scanRecord_ok E ips w0 existing done x todo s c w :
  NoDup (cf_ID <$> existing) → existing = done ++ x :: todo → scanned ips w0 existing done s w →
  wp E (scanRecord zone name ttl s x)
    (or_done (λ s' c' w', c' = c ∧ scanned ips w0 existing (done ++ [x]) s' w')
       (λ _ c' w', c' = c ∧ cf_untouched w0 w')) c w.
Proof.
  intros Hnd Hex (Hu & HS & Hrs). destruct s as [ipSet toDelete]. cbn [fst snd] in HS.
  assert (cf_ID x ∉ ids_of done) as Hx.
  { subst. rewrite fmap_app in Hnd. apply NoDup_app in Hnd as (_ & Hnd & _).
    unfold ids_of. rewrite elem_of_list_to_set. intros Hin. apply (Hnd _ Hin). by left. }
  assert (x ∈ existing) as Hxe by (subst; set_solver).
  assert (cf_ID x ∈ ids_of existing ∖ ids_of done) as Hin.
  { apply elem_of_difference. split; [|done]. unfold ids_of. apply elem_of_list_to_set.
    by apply list_elem_of_fmap_2. }
  assert (ids_of (done ++ [x]) = ids_of done ∪ {[cf_ID x]}) as Hids.
  { unfold ids_of. rewrite fmap_app, list_to_set_app_L. cbn. by rewrite union_empty_r_L. }
  pose proof (Hrs x Hxe Hx) as Hvx.
  unfold scanRecord. destruct (bool_decide (cf_Content x ∈ ipSet)) eqn:Hc.
  - apply bool_decide_eq_true in Hc.
    assert (∀ w', cf_untouched w0 w' → cf_rs w' = <[cf_ID x := (cf_Content x, ttl)]> (cf_rs w) →
      scanned ips w0 existing (done ++ [x]) (ipSet ∖ {[cf_Content x]}, toDelete) w') as Hnext.
    { intros w' Hu' Hv. split; [done|]. rewrite Hids, Hv, difference_twice. split.
      - cbn [fst snd]. by apply scan_keep.
      - intros r Hr Hnot. rewrite lookup_insert_ne by set_solver. apply Hrs; set_solver. }
    apply wp_or_return. destruct (_ || _) eqn:Hupd.
    + eapply wp_mono; [|apply edit_ok; [exact Hu|by eexists]].
      intros [[]|e] c' w' (-> & Hu' & Hv); [|done]. wp_steps. split; [done|]. by apply Hnext.
    + apply wp_ret. wp_steps. split; [done|]. apply Hnext; [done|].
      apply orb_false_iff in Hupd as [Httl%negb_false_iff%Z.eqb_eq _].
      symmetry. apply insert_id. by rewrite Hvx, Httl.
  - apply wp_ret. split; [done|]. split; [done|]. rewrite Hids, difference_twice. split.
    + cbn [fst snd]. by apply scan_drop.
    + intros r Hr Hnot. apply Hrs; set_solver.
Qed.

Lemma ensure_passes E ctx ips c w :
  wp E (EnsureDNSARecordSet ctx zone name ips ttl)
    (λ r c' w', c' = c ∧ cf_untouched w w' ∧
       (r = inl tt → exactly (list_to_set ips) ttl (cf_rs w'))) c w.
Proof.
  unfold EnsureDNSARecordSet. wp_steps. apply (wp_measured cf_zone).
  { apply cf_now. } { apply cf_inc. } { apply cf_observe. }
  { intros r c' w1 w2 Hz (? & ? & Hx). split_and!; [done|by eapply untouched_quiet|].
    unfold cf_rs in *. by rewrite Hz. }
  intros w0 H0. assert (cf_untouched w w0) as Hu0 by (by eapply untouched_quiet; [|split]).
  wp_steps. apply wp_call. intros r w1 Hl. wp_steps.
  assert (cf_zone w1 = cf_zone w0) as H1.
  { rewrite <- (cf_list zone name dnsRecordTypeA w0). by rewrite Hl. }
  assert (cf_untouched w w1) as Hu1 by (by eapply untouched_quiet).
  destruct r as [existing|err]; wp_steps; [|done].
  destruct (cf_listed _ _ _ _ _ _ Hl) as [Hnd Hex]. rewrite <- H1 in Hex.
  eapply wp_mono; [|apply (wp_for_return E
    (λ done s c' w', c' = c ∧ scanned (list_to_set ips) w existing done s w')
    (λ _ c' w', c' = c ∧ cf_untouched w w'))].
  - intros [[ipSet toDelete]|e] c' w2; [|intros [-> ?]; done].
    intros (-> & Hu2 & HS & _). cbn [fst snd] in HS. rewrite difference_diag_L in HS.
    wp_steps. apply wp_call. intros order w3 Ho. wp_steps.
    pose proof (cf_range (elements ipSet) w2) as H3. rewrite Ho in H3. cbn in H3.
    pose proof (range_order_perm (elements ipSet) w2) as Hperm. rewrite Ho in Hperm. cbn in Hperm.
    eapply wp_mono; [|eapply (place_pass E (list_to_set ips) ttl cf_rs (cf_untouched w)
      (λ id ip, edit_record "updating record: " id ip)
      (λ ip, checked "creating record: "
         (call (CreateDNSRecord zone (RecordParams dnsRecordTypeA name ip ttl)))));
      [intros; by apply edit_ok|intros; by apply create_ok|exact (untouched_quiet _ _ _ H3 Hu2)| |exact Hperm]].
    + intros [del|e] c' w4; [|intros [-> ?]; done]. intros (-> & Hu4 & HS4).
      eapply wp_mono; [|eapply (remove_pass E (list_to_set ips) ttl cf_rs (cf_untouched w)
        (λ id, checked "deleting record: " (call (DeleteDNSRecord zone id))));
        [intros; by apply delete_ok|done|done]].
      intros [[]|e] c' w5; [|intros [-> ?]; done]. by intros (-> & ? & ?).
    + unfold cf_rs in *. by rewrite H3.
  - split; [done|]. split; [done|]. unfold ids_of. cbn.
    assert (∀ r, r ∈ existing → cf_rs w1 !! cf_ID r = Some (cf_Content r, cf_TTL r)) as Hv.
    { intros r (Hz & Hn & Ht)%Hex. apply cf_view_lookup. exists r. split_and!; [done| |done..].
      unfold cf_matches. by rewrite !bool_decide_true. }
    rewrite difference_empty_L. split; [|auto].
    replace (list_to_set (cf_ID <$> existing)) with (dom (cf_rs w1)); [apply scan_start|].
    apply set_eq. intros id. rewrite elem_of_dom, elem_of_list_to_set, list_elem_of_fmap. split.
    + intros (r & Hr & Hm)%cf_view_is_Some. exists r. pose proof (cf_id _ _ _ _ Hr) as <-.
      split; [done|]. apply Hex. unfold cf_matches in Hm.
      apply andb_true_iff in Hm as [Hn%bool_decide_eq_true Ht%bool_decide_eq_true]. done.
    + intros (r & -> & Hr). eexists. by apply Hv.
  - intros done x todo s c' w' Heq [-> Hs]. by eapply scanRecord_ok.
Qed.
End props.

(** C10: whatever the zone holds, when Cloudflare's [EnsureDNSARecordSet] reports
    success the record set holds exactly one A record with the given TTL for each
    of the addresses, and no other; the rest of the zone and the other zones are
    as before - even if it fails half way -, and it always returns. *)
Theorem cloudflare_ensures_record_set `{CFLaws W} (ctx : Context) (zone name : string)
    (ips : list string) (ttl : Z) (c : cloudflareDNS) (w : W) :
  wp False (EnsureDNSARecordSet ctx zone name ips ttl)
    (λ r c' w', c' = c ∧ cf_untouched zone name w w' ∧
       (r = inl tt → exactly (list_to_set ips) ttl (cf_rs zone name w'))) c w.
Proof. apply ensure_passes. Qed.

(** ** A simulated zone

    One zone, its records by identifier; [cs_fail] is what writes answer. *)
Record CFSim : Type := CFSim_ {
  cs_zone : gmap string DNSRecord;
  cs_fail : option error;
}.
Definition with_id (id : string) (r : DNSRecord) : DNSRecord :=
  {| cf_ID := id; cf_Type := cf_Type r; cf_Name := cf_Name r; cf_Content := cf_Content r;
     cf_TTL := cf_TTL r; cf_Proxied := cf_Proxied r |}.
Definition cs_ids : gmap string DNSRecord → gmap string DNSRecord :=
  map_imap (λ id r, Some (with_id id r)).
Definition of_params (p : DNSRecordParams) : DNSRecord :=
  {| cf_ID := ""; cf_Type := par_Type p; cf_Name := par_Name p; cf_Content := par_Content p;
     cf_TTL := par_TTL p; cf_Proxied := Some false |}.
Definition cs_write (z : string) (f : gmap string DNSRecord → gmap string DNSRecord) (w : CFSim)
    : (unit + error) * CFSim :=
  match cs_fail w with
  | Some e => (inr e, w)
  | None => if bool_decide (z = "z") then (inl tt, CFSim_ (f (cs_zone w)) None)
            else (inr ErrNotFound, w)
  end.

#[export] Instance cfsim_ghost : CFGhost CFSim :=
  {| cf_zone w z := if bool_decide (z = "z") then cs_ids (cs_zone w) else ∅ |}.
#[export] Instance cfsim_range : MapRange CFSim := {| range_order ks w := (ks, w) |}.
#[export] Instance cfsim_clock : Clock CFSim := {| time_Now w := (0%Z, w) |}.
#[export] Instance cfsim_prometheus : Prometheus CFSim := {|
  MustCurryWith r _ := r; With_Inc _ _ w := (tt, w); With_Observe _ _ _ w := (tt, w) |}.
Definition cs_list (name ty : string) (m : gmap string DNSRecord) : list DNSRecord :=
  (filter (λ x, cf_Name x.2 = name ∧ cf_Type x.2 = ty) (map_to_list m)).*2.
#[export] Instance cfsim_api : CloudflareAPI CFSim := {|
  ListDNSRecords z name ty w := (inl (cs_list name ty (cf_zone w z)), w);
  CreateDNSRecord z p w := cs_write z (λ m, <[fresh (dom m) := of_params p]> m) w;
  UpdateDNSRecord z id p w :=
    match cs_zone w !! id with
    | Some _ => cs_write z <[id := of_params p]> w
    | None => (inr ErrNotFound, w)
    end;
  DeleteDNSRecord z id w := cs_write z (delete id) w;
|}.

Lemma written_of_params id p : written id p (with_id id (of_params p)).
Proof. by split_and!. Qed.
Lemma cs_write_outcome z f w r w' eff :
  cs_write z f w = (r, w') →
  eff (cs_ids (cs_zone w)) (cs_ids (f (cs_zone w))) → cf_outcome z w r w' eff.
Proof.
  unfold cs_write, cf_outcome. intros Hw Heff. destruct (cs_fail w); simplify_eq; [auto|].
  case_bool_decide; simplify_eq; [|auto]. cbn. split; [|exact Heff].
  intros z' Hne. by rewrite bool_decide_false.
Qed.
Lemma cs_insert m id r : cs_ids (<[id := r]> m) = <[id := with_id id r]> (cs_ids m).
Proof. by apply map_imap_insert_Some. Qed.
Lemma cs_delete m id : cs_ids (delete id m) = delete id (cs_ids m).
Proof. apply map_imap_delete. Qed.
Lemma cs_lookup m id r : cs_ids m !! id = Some r → cf_ID r = id.
Proof. unfold cs_ids. rewrite map_lookup_imap. by intros (r0 & _ & [= <-])%bind_Some. Qed.
Lemma cs_lookup_Some m id r : m !! id = Some r → cs_ids m !! id = Some (with_id id r).
Proof. unfold cs_ids. rewrite map_lookup_imap. by intros ->. Qed.
Lemma cs_lookup_None m id : m !! id = None → cs_ids m !! id = None.
Proof. unfold cs_ids. rewrite map_lookup_imap. by intros ->. Qed.
Lemma cs_id w z id r : cf_zone w z !! id = Some r → cf_ID r = id.
Proof. cbn. case_bool_decide; [apply cs_lookup|done]. Qed.
Lemma cs_listed name ty (m : gmap string DNSRecord) :
  (∀ id r, m !! id = Some r → cf_ID r = id) →
  NoDup (cf_ID <$> cs_list name ty m) ∧
  ∀ r, r ∈ cs_list name ty m ↔ m !! cf_ID r = Some r ∧ cf_Name r = name ∧ cf_Type r = ty.
Proof.
  intros Hid. unfold cs_list. split.
  - eapply sublist_NoDup; [apply (NoDup_fst_map_to_list m)|].
    rewrite <- list_fmap_compose.
    assert (∀ l, (∀ x, x ∈ l → m !! x.1 = Some x.2) →
      (cf_ID ∘ snd) <$> filter (λ x, cf_Name x.2 = name ∧ cf_Type x.2 = ty) l =
      (filter (λ x, cf_Name x.2 = name ∧ cf_Type x.2 = ty) l).*1) as ->.
    { intros l Hl. apply list_fmap_ext. intros i x Hx%list_elem_of_lookup_2.
      apply list_elem_of_filter in Hx as [_ Hx]. by apply Hid, Hl. }
    + apply fmap_sublist, sublist_filter.
    + intros [id r] Hx. by apply elem_of_map_to_list in Hx.
  - intros r. rewrite list_elem_of_fmap. split.
    + intros ([id r'] & -> & Hx). apply list_elem_of_filter in Hx as [Hx Hm%elem_of_map_to_list].
      cbn in *. by rewrite (Hid _ _ Hm).
    + intros (Hm & Hx). exists (cf_ID r, r). split; [done|]. apply list_elem_of_filter.
      split; [done|]. by apply elem_of_map_to_list.
Qed.

#[export] Instance cfsim_laws : CFLaws CFSim.
Proof.
  split; try done; cbn.
  - intros z name ty w l w' [= <- <-]. apply cs_listed, (cs_id w z).
  - intros w z id r. apply cs_id.
  - intros z id p w r w'. destruct (cs_zone w !! id) as [r0|] eqn:Hr0.
    + intros Hw. eapply cs_write_outcome; [exact Hw|]. rewrite cs_insert, (cs_lookup_Some _ _ _ Hr0).
      split; [by eexists|]. eexists. split; [apply written_of_params|done].
    + intros [= <- <-]. by split; [|left].
  - intros z p w r w' Hw. eapply cs_write_outcome; [exact Hw|]. cbn beta. rewrite cs_insert.
    eexists _, _. split; [apply cs_lookup_None, not_elem_of_dom, is_fresh|].
    split; [apply written_of_params|done].
  - intros z id w r w' Hw. eapply cs_write_outcome; [exact Hw|]. apply cs_delete.
Qed.

(** A stale address, an address with another TTL, and a record of another name. *)
Definition cfsim0 : CFSim :=
  let rec_ name ip ttl := of_params (RecordParams dnsRecordTypeA name ip ttl) in
  CFSim_ {["1" := rec_ "www" "9.9.9.9" 30%Z; "2" := rec_ "www" "10.0.0.1" 60%Z;
           "3" := rec_ "mail" "9.9.9.9" 30%Z]} None.
Definition cfsim0_run :=
  EnsureDNSARecordSet Background "z" "www" ["10.0.0.1"; "10.0.0.2"] 30 (CloudflareDNS "t" None) cfsim0.
Definition cfsim0_after : CFSim := match cfsim0_run with Ret (_, _, w) => w | _ => cfsim0 end.
Lemma cfsim0_returns : cfsim0_run = Ret (inl tt, CloudflareDNS "t" None, cfsim0_after).
Proof. vm_compute. reflexivity. Qed.

Lemma cloudflare_ensures_record_set_witness :
  exactly {["10.0.0.1"; "10.0.0.2"]} 30 (cf_rs "z" "www" cfsim0_after) ∧
  cf_untouched "z" "www" cfsim0 cfsim0_after.
Proof.
  pose proof (cloudflare_ensures_record_set Background "z" "www" ["10.0.0.1"; "10.0.0.2"] 30
    (CloudflareDNS "t" None) cfsim0) as Hwp.
  unfold wp in Hwp. fold cfsim0_run in Hwp. rewrite cfsim0_returns in Hwp.
  destruct Hwp as (_ & Hu & Hex). split; [|exact Hu]. specialize (Hex eq_refl).
  replace ({["10.0.0.1"; "10.0.0.2"]} : gset string)
    with (list_to_set (C := gset string) ["10.0.0.1"; "10.0.0.2"]); [exact Hex|set_solver].
Defined.
