(* ===== verification/DigitalOceanDNS.v ===== *)
(** * The DNS records of the DigitalOcean provider

    [EnsureDNSARecordSet] against a paginated zone that behaves as documented. *)
From S2P Require Import Prelude Go Retry GoText K8s Types Provider ProviderMetrics.
From S2P Require Import DNSPlan DigitalOcean.

(** The zone behind the API, in the order in which it is listed. *)
Class DOGhost (W : Type) : Type := { do_zone : W → string → list DomainRecord }.
Definition do_ids (l : list DomainRecord) : list Z := rec_ID <$> l.
Definition of_request (id : Z) (req : DomainRecordEditRequest) : DomainRecord :=
  {| rec_ID := id; rec_Type := edit_Type req; rec_Name := edit_Name req;
     rec_Data := edit_Data req; rec_TTL := edit_TTL req |}.
Definition edited (id : Z) (req : DomainRecordEditRequest) (r : DomainRecord) : DomainRecord :=
  if decide (rec_ID r = id) then of_request id req else r.

(** A write that succeeds has its effect on the zone; one that fails may have
    had it all the same. *)
Definition do_outcome `{!DOGhost W} (z : string) (w : W) (r : unit + error) (w' : W)
    (eff : list DomainRecord → list DomainRecord → Prop) : Prop :=
  (∀ z', z' ≠ z → do_zone w' z' = do_zone w z') ∧
  match r with
  | inl _ => eff (do_zone w z) (do_zone w' z)
  | inr _ => do_zone w' z = do_zone w z ∨ eff (do_zone w z) (do_zone w' z)
  end.

Class DNSLaws (W : Type) `{!Godo W, !Prometheus W, !Clock W, !MapRange W, !DOGhost W} : Prop := {
  #[global] dnslaws_range :: MapRangeLaws W;
  dz_range ks w : do_zone (range_order ks w).2 = do_zone w;
  dz_now w : do_zone (time_Now w).2 = do_zone w;
  dz_inc m l w : do_zone (With_Inc m l w).2 = do_zone w;
  dz_observe m l d w : do_zone (With_Observe m l d w).2 = do_zone w;
  dz_list z p per w : do_zone (domains_Records z p per w).2 = do_zone w;
  dz_listed z p per w l res w' : domains_Records z p per w = ((inl l, res), w') →
    (1 ≤ p)%Z → (0 < per)%Z →
    l = take (Z.to_nat per) (drop (Z.to_nat (per * (p - 1))) (do_zone w z)) ∧
    ∀ b, res ≫= Links_IsLastPage = Some b →
      b = true ↔ (Z.of_nat (length (do_zone w z)) ≤ per * p)%Z;
  dz_nodup w z : NoDup (do_ids (do_zone w z));
  dz_edit z id req w r res w' : domains_EditRecord z id req w = ((r, res), w') →
    do_outcome z w r w' (λ l l', id ∈ do_ids l ∧ l' = edited id req <$> l);
  dz_create z req w r res w' : domains_CreateRecord z req w = ((r, res), w') →
    do_outcome z w r w' (λ l l', ∃ id, id ∉ do_ids l ∧ l' ≡ₚ of_request id req :: l);
  dz_delete z id w r res w' : domains_DeleteRecord z id w = ((r, res), w') →
    do_outcome z w r w' (λ l l', l' = filter (λ r, rec_ID r ≠ id) l);
}.

(** ** The record set in a zone *)
Section view.
Variables (name : string) (ttl : Z).

Definition do_matches (r : DomainRecord) : Prop := rec_Name r = name ∧ rec_Type r = dnsRecordTypeA.
#[global] Instance do_matches_dec r : Decision (do_matches r).
Proof. unfold do_matches. apply _. Defined.
Definition do_view (l : list DomainRecord) : gmap Z (string * Z) :=
  list_to_map ((λ r, (rec_ID r, (rec_Data r, rec_TTL r))) <$> filter do_matches l).
Definition do_rest (l : list DomainRecord) : list DomainRecord := filter (λ r, ¬ do_matches r) l.
Definition mids (l : list DomainRecord) : gset Z := list_to_set (do_ids (filter do_matches l)).

Lemma do_view_lookup l id d t : NoDup (do_ids l) →
  do_view l !! id = Some (d, t) ↔
    ∃ r, r ∈ l ∧ do_matches r ∧ rec_ID r = id ∧ rec_Data r = d ∧ rec_TTL r = t.
Proof.
  intros Hnd. unfold do_view. rewrite <- elem_of_list_to_map.
  - rewrite list_elem_of_fmap. setoid_rewrite list_elem_of_filter. naive_solver.
  - rewrite <- list_fmap_compose. eapply sublist_NoDup; [exact Hnd|].
    apply (fmap_sublist rec_ID), sublist_filter.
Qed.

Lemma do_view_dom l : NoDup (do_ids l) → dom (do_view l) = mids l.
Proof.
  intros Hnd. apply set_eq. intros id. unfold mids, do_ids.
  rewrite elem_of_dom, elem_of_list_to_set, list_elem_of_fmap. split.
  - intros [[d t] (r & Hr & Hm & <- & _)%do_view_lookup]; [|done].
    exists r. split; [done|]. by apply list_elem_of_filter.
  - intros (r & -> & [Hm Hr]%list_elem_of_filter). eexists. apply do_view_lookup; eauto 10.
Qed.

(** Two views are equal if they see the same records. *)
Lemma do_view_ext l v : NoDup (do_ids l) →
  (∀ id d t, v !! id = Some (d, t) ↔
    ∃ r, r ∈ l ∧ do_matches r ∧ rec_ID r = id ∧ rec_Data r = d ∧ rec_TTL r = t) →
  do_view l = v.
Proof.
  intros Hnd Hv. apply map_eq. intros id. apply option_eq. intros [d t].
  by rewrite Hv, do_view_lookup.
Qed.

Lemma same_id l r r' : NoDup (do_ids l) → r ∈ l → r' ∈ l → rec_ID r = rec_ID r' → r = r'.
Proof.
  intros Hnd [i Hi]%list_elem_of_lookup [j Hj]%list_elem_of_lookup Heq.
  assert (i = j) as ->; [|congruence].
  eapply (NoDup_lookup (do_ids l)); [done|..]; unfold do_ids; rewrite list_lookup_fmap.
  - by rewrite Hi.
  - rewrite Hj. cbn. by rewrite Heq.
Qed.

Lemma edited_ids id req l : do_ids (edited id req <$> l) = do_ids l.
Proof.
  unfold do_ids. rewrite <- list_fmap_compose. apply list_fmap_ext. intros _ r _.
  cbn. unfold edited. by case_decide; subst.
Qed.
Lemma edited_other id req l : id ∉ do_ids l → edited id req <$> l = l.
Proof.
  intros Hid. rewrite <- (list_fmap_id l) at 2. apply list_fmap_ext. intros i r Hr.
  unfold edited. rewrite decide_False; [done|]. intros <-. destruct Hid.
  apply list_elem_of_fmap_2. by eapply list_elem_of_lookup_2.
Qed.

(** The effect of a write on the record set and on the rest of the zone. *)
Definition request (ip : string) : DomainRecordEditRequest := EditRequest dnsRecordTypeA name ip ttl.
Lemma request_matches id ip : do_matches (of_request id (request ip)).
Proof. by split. Qed.

Lemma edit_view l id ip : NoDup (do_ids l) → is_Some (do_view l !! id) →
  do_view (edited id (request ip) <$> l) = <[id := (ip, ttl)]> (do_view l).
Proof.
  intros Hnd [[d0 t0] (r0 & Hr0 & Hm0 & Hid0 & _)%do_view_lookup]; [|done].
  apply do_view_ext; [by rewrite edited_ids|]. intros id' d t. split.
  - destruct (decide (id' = id)) as [->|Hne].
    + rewrite lookup_insert_eq. intros [= <- <-]. exists (of_request id (request ip)).
      split; [|by split; [apply request_matches|]]. apply list_elem_of_fmap. exists r0.
      unfold edited. by rewrite decide_True.
    + rewrite lookup_insert_ne by done. intros (r & Hr & Hm & Hid & Hrest)%do_view_lookup; [|done].
      exists r. split; [|by split]. apply list_elem_of_fmap. exists r. split; [|done].
      unfold edited. rewrite decide_False; congruence.
  - intros (r & Hr & Hm & <- & <- & <-). apply list_elem_of_fmap in Hr as (r1 & -> & Hr1).
    unfold edited in *. case_decide as Hd.
    + cbn. by rewrite lookup_insert_eq.
    + rewrite lookup_insert_ne by done. apply do_view_lookup; eauto 10.
Qed.

Lemma edit_rest l id ip : NoDup (do_ids l) → is_Some (do_view l !! id) →
  do_rest (edited id (request ip) <$> l) = do_rest l.
Proof.
  intros Hnd [[d0 t0] (r0 & Hr0 & Hm0 & Hid0 & _)%do_view_lookup]; [|done].
  assert (∀ l', l' ⊆ l → do_rest (edited id (request ip) <$> l') = do_rest l') as H; [|by apply H].
  unfold do_rest. induction l' as [|r l' IH]; intros Hsub; [done|].
  rewrite fmap_cons. assert (r ∈ l) as Hr by set_solver. specialize (IH ltac:(set_solver)).
  destruct (decide (rec_ID r = id)) as [He|Hne].
  - assert (r = r0) as -> by (apply (same_id l); [done..|congruence]).
    unfold edited at 1. rewrite decide_True by done.
    rewrite !filter_cons_False; [exact IH|naive_solver|].
    intros Hn. apply Hn, request_matches.
  - unfold edited at 1. rewrite decide_False by done.
    destruct (decide (do_matches r)) as [Hm|Hm].
    + by rewrite !filter_cons_False by naive_solver.
    + rewrite !filter_cons_True by done. by rewrite IH.
Qed.

Lemma delete_view l id : NoDup (do_ids l) →
  do_view (filter (λ r, rec_ID r ≠ id) l) = delete id (do_view l).
Proof.
  intros Hnd. apply do_view_ext.
  { eapply sublist_NoDup; [exact Hnd|]. apply (fmap_sublist rec_ID), sublist_filter. }
  intros id' d t. rewrite lookup_delete_Some, do_view_lookup by done.
  setoid_rewrite list_elem_of_filter. naive_solver.
Qed.

Lemma delete_rest l id : NoDup (do_ids l) → is_Some (do_view l !! id) →
  do_rest (filter (λ r, rec_ID r ≠ id) l) = do_rest l.
Proof.
  intros Hnd [[d0 t0] (r0 & Hr0 & Hm0 & Hid0 & _)%do_view_lookup]; [|done].
  assert (∀ l', l' ⊆ l → do_rest (filter (λ r, rec_ID r ≠ id) l') = do_rest l') as H; [|by apply H].
  unfold do_rest. induction l' as [|r l' IH]; intros Hsub; [done|].
  assert (r ∈ l) as Hr by set_solver. specialize (IH ltac:(set_solver)).
  destruct (decide (rec_ID r = id)) as [He|Hne].
  - assert (r = r0) as -> by (apply (same_id l); [done..|congruence]).
    rewrite filter_cons_False by naive_solver. by rewrite filter_cons_False by naive_solver.
  - rewrite filter_cons_True by done. destruct (decide (do_matches r)) as [Hm|Hm].
    + by rewrite !filter_cons_False by naive_solver.
    + rewrite !filter_cons_True by done. by rewrite IH.
Qed.

Lemma create_view l l' id ip : NoDup (do_ids l) → id ∉ do_ids l →
  l' ≡ₚ of_request id (request ip) :: l → do_view l' = <[id := (ip, ttl)]> (do_view l).
Proof.
  intros Hnd Hid Hl'. apply do_view_ext.
  { unfold do_ids in *. rewrite Hl'. cbn. by apply NoDup_cons. }
  intros id' d t. setoid_rewrite Hl'. setoid_rewrite elem_of_cons.
  assert (∀ r, r ∈ l → rec_ID r ≠ id) as Hfresh.
  { intros r Hr <-. apply Hid. by apply list_elem_of_fmap_2. }
  destruct (decide (id' = id)) as [->|Hne].
  - rewrite lookup_insert_eq. split.
    + intros [= <- <-]. eexists. split; [by left|]. by split; [apply request_matches|].
    + intros (r & [->|Hr] & _ & Hr' & <- & <-); [done|]. by apply Hfresh in Hr.
  - rewrite lookup_insert_ne, do_view_lookup by done. split; [naive_solver|].
    intros (r & [->|Hr] & ? & ? & ?); [done|]. eauto 10.
Qed.
Lemma create_rest l l' id ip :
  l' ≡ₚ of_request id (request ip) :: l → do_rest l' ≡ₚ do_rest l.
Proof.
  intros Hl'. unfold do_rest. rewrite Hl', filter_cons_False; [done|].
  intros Hn. apply Hn, request_matches.
Qed.
Lemma fresh_view l id : NoDup (do_ids l) → id ∉ do_ids l → do_view l !! id = None.
Proof.
  intros Hnd Hid. apply eq_None_not_Some. intros [[d t] (r & Hr & _ & <- & _)%do_view_lookup]; [|done].
  apply Hid. by apply list_elem_of_fmap_2.
Qed.
End view.

Section passes.
Context `{DNSLaws W}.
Variables (zone name : string) (ttl : Z).

Definition do_rs (w : W) : gmap Z (string * Z) := do_view name (do_zone w zone).
(** Everything but the record set is as it was. *)
Definition do_untouched (w0 w : W) : Prop :=
  (∀ z, z ≠ zone → do_zone w z = do_zone w0 z) ∧
  do_rest name (do_zone w zone) ≡ₚ do_rest name (do_zone w0 zone).

Lemma do_untouched_quiet w0 w w' : do_zone w' = do_zone w → do_untouched w0 w → do_untouched w0 w'.
Proof. unfold do_untouched. by intros ->. Qed.

(** A write whose effect concerns the record set only. *)
Lemma wp_do_write E prefix (f : W → reply unit * W) eff
    (veff : list DomainRecord → list DomainRecord → Prop) w0 (c : digitalOcean) w :
  (∀ r res w', f w = ((r, res), w') → do_outcome zone w r w' eff) →
  (∀ l', eff (do_zone w zone) l' →
     do_rest name l' ≡ₚ do_rest name (do_zone w zone) ∧ veff (do_zone w zone) l') →
  do_untouched w0 w →
  wp E (checked prefix (call f)) (λ r c' w', c' = c ∧ do_untouched w0 w' ∧
    match r with inl _ => veff (do_zone w zone) (do_zone w' zone) | inr _ => True end) c w.
Proof.
  intros Hf Heff [Hz Hrest]. unfold checked. wp_steps. apply wp_call. intros [r res] w' Hr.
  destruct (Hf _ _ _ Hr) as [Hz' Ho].
  assert (do_untouched w0 w' ∧ match r with
    | inl _ => veff (do_zone w zone) (do_zone w' zone) | inr _ => True end) as [Hu Hv].
  { destruct r as [a|e].
    - destruct (Heff _ Ho) as [Hr' Hv]. split; [|done]. split; [|by rewrite Hr'].
      intros z Hne. rewrite Hz' by done. by apply Hz.
    - split; [|done]. split; [intros z Hne; rewrite Hz' by done; by apply Hz|].
      destruct Ho as [->|Ho]; [done|]. destruct (Heff _ Ho) as [Hr' _]. by rewrite Hr'. }
  by destruct r as [a|e]; wp_steps.
Qed.

Lemma do_edit_ok E prefix w0 id ip (c : digitalOcean) w :
  do_untouched w0 w → is_Some (do_rs w !! id) →
  wp E (checked prefix (call (domains_EditRecord zone id (request name ttl ip))))
    (λ r c' w', c' = c ∧ do_untouched w0 w' ∧ match r with
       | inl _ => do_zone w' zone = edited id (request name ttl ip) <$> do_zone w zone ∧
                  do_rs w' = <[id := (ip, ttl)]> (do_rs w)
       | inr _ => True end) c w.
Proof.
  intros Hu Hid. eapply wp_mono; [|eapply (wp_do_write E prefix _ _
    (λ l l', l' = edited id (request name ttl ip) <$> l));
    [intros r res w'; apply dz_edit| |exact Hu]].
  - intros [a|e] c' w' (-> & Hu' & Hl); split_and!; try done. unfold do_rs. rewrite Hl.
    apply edit_view; [apply dz_nodup|done].
  - cbn. intros l' (_ & ->). split; [|done]. by rewrite edit_rest by (done || apply dz_nodup).
Qed.

Lemma do_create_ok E prefix w0 ip (c : digitalOcean) w : do_untouched w0 w →
  wp E (checked prefix (call (domains_CreateRecord zone (request name ttl ip))))
    (changes do_rs (do_untouched w0)
       (λ v v', ∃ id, v !! id = None ∧ v' = <[id := (ip, ttl)]> v) c w) c w.
Proof.
  intros Hu. eapply wp_mono; [|eapply (wp_do_write E prefix _ _
    (λ l l', ∃ id, do_view name l !! id = None ∧ do_view name l' = <[id := (ip, ttl)]> (do_view name l)));
    [intros r res w'; apply dz_create| |exact Hu]].
  - by intros [a|e] c' w' (-> & Hu' & Hl).
  - cbn. intros l' (id & Hid & Hl'). split; [by eapply create_rest|]. exists id.
    split; [by apply fresh_view, Hid; apply dz_nodup|].
    eapply create_view; [apply dz_nodup|done..].
Qed.

Lemma do_delete_ok E prefix w0 id (c : digitalOcean) w :
  do_untouched w0 w → is_Some (do_rs w !! id) →
  wp E (_ ←? checked prefix (call (domains_DeleteRecord zone id)); mret (inl tt))
    (changes do_rs (do_untouched w0) (λ v v', v' = delete id v) c w) c w.
Proof.
  intros Hu Hid. apply wp_or_return. eapply wp_mono; [|eapply (wp_do_write E prefix _ _
    (λ l l', do_view name l' = delete id (do_view name l)));
    [intros r res w'; apply dz_delete| |exact Hu]].
  - by intros [a|e] c' w' (-> & Hu' & Hl).
  - cbn. intros l' ->. split; [by rewrite delete_rest by (done || apply dz_nodup)|].
    apply delete_view, dz_nodup.
Qed.

(** ** The scan of the pages

    [n] records have been looked at, [todo] are still to come. *)
Definition scan_at (ips : gset string) (w0 : W) (n : nat) (todo : list DomainRecord)
    (s : gset string * list Z) (w : W) : Prop :=
  do_untouched w0 w ∧ ∃ pre, do_zone w zone = pre ++ todo ∧ length pre = n ∧
    Scan ips ttl (do_rs w) (mids name todo) s.1 s.2.

Lemma mids_cons_match x l : do_matches name x → mids name (x :: l) = {[rec_ID x]} ∪ mids name l.
Proof. intros Hx. unfold mids. by rewrite filter_cons_True. Qed.
Lemma mids_sub l id : id ∈ mids name l → id ∈ do_ids l.
Proof.
  unfold mids, do_ids. rewrite elem_of_list_to_set, !list_elem_of_fmap.
  setoid_rewrite list_elem_of_filter. naive_solver.
Qed.

Lemma do_scanRecord_ok E ips w0 n x todo s (c : digitalOcean) w :
  scan_at ips w0 n (x :: todo) s w →
  wp E (scanRecord zone name ttl s x)
    (or_done (λ s' c' w', c' = c ∧ scan_at ips w0 (S n) todo s' w')
       (λ _ c' w', c' = c ∧ do_untouched w0 w')) c w.
Proof.
  intros (Hu & pre & Hl & Hn & HS). destruct s as [ipSet toDelete]. cbn [fst snd] in HS.
  pose proof (dz_nodup w zone) as Hnd. rewrite Hl in Hnd.
  assert (∀ w', do_untouched w0 w' → do_zone w' zone = do_zone w zone → ∀ s',
    Scan ips ttl (do_rs w) (mids name todo) s'.1 s'.2 → scan_at ips w0 (S n) todo s' w') as Hsame.
  { intros w' Hu' Hz s' HS'. split; [done|]. exists (pre ++ [x]). unfold do_rs in *.
    rewrite Hz. split_and!; [by rewrite <- app_assoc|rewrite length_app; cbn; lia|done]. }
  unfold scanRecord. destruct (negb _ || negb _) eqn:Hm.
  { apply wp_ret. split; [done|]. apply Hsame; [done..|]. cbn [fst snd].
    replace (mids name todo) with (mids name (x :: todo)); [done|].
    unfold mids. rewrite filter_cons_False; [done|]. intros [Hn1 Hn2].
    by rewrite !bool_decide_true in Hm. }
  assert (do_matches name x) as Hx.
  { apply orb_false_iff in Hm as [Hm1%negb_false_iff%bool_decide_eq_true
      Hm2%negb_false_iff%bool_decide_eq_true]. by split. }
  assert (rec_ID x ∉ do_ids todo ∧ rec_ID x ∉ do_ids pre) as [Hxt Hxp].
  { unfold do_ids in *. rewrite fmap_app in Hnd. cbn in Hnd.
    apply NoDup_app in Hnd as (_ & Hnd1 & [Hnd2 _]%NoDup_cons). split; [done|].
    intros Hin. apply (Hnd1 _ Hin). by left. }
  assert (mids name todo = mids name (x :: todo) ∖ {[rec_ID x]}) as Hmids.
  { rewrite mids_cons_match by done. pose proof (mids_sub todo (rec_ID x)). set_solver. }
  assert (do_rs w !! rec_ID x = Some (rec_Data x, rec_TTL x)) as Hvx.
  { apply do_view_lookup; [by rewrite Hl|]. exists x. rewrite Hl. split; [set_solver|done]. }
  assert (rec_ID x ∈ mids name (x :: todo)) as Hin by (rewrite mids_cons_match by done; set_solver).
  destruct (bool_decide (rec_Data x ∈ ipSet)) eqn:Hc.
  - apply bool_decide_eq_true in Hc. apply wp_or_return.
    destruct (rec_TTL x =? ttl)%Z eqn:Ht.
    + apply Z.eqb_eq in Ht. apply wp_ret. wp_steps. split; [done|]. apply Hsame; [done..|].
      cbn [fst snd]. rewrite Hmids.
      replace (do_rs w) with (<[rec_ID x := (rec_Data x, ttl)]> (do_rs w)); [by apply scan_keep|].
      apply insert_id. by rewrite Hvx, Ht.
    + wp_steps. eapply wp_mono; [|apply do_edit_ok; [exact Hu|by eexists]].
      intros [a|e] c' w' (-> & Hu' & Hw); [|done]. destruct Hw as [Hz Hv]. wp_steps.
      split; [done|]. split; [done|]. rewrite Hl, fmap_app, fmap_cons in Hz.
      rewrite !edited_other in Hz by done.
      exists (pre ++ [edited (rec_ID x) (request name ttl (rec_Data x)) x]).
      rewrite Hz, Hv. split_and!; [by rewrite <- app_assoc|rewrite length_app; cbn; lia|].
      cbn [fst snd]. rewrite Hmids. by apply scan_keep.
  - apply wp_ret. split; [done|]. apply Hsame; [done..|]. cbn [fst snd]. rewrite Hmids.
    by apply scan_drop.
Qed.

(** The records of a page, one after the other. *)
Lemma page_ok E ips w0 n k todo s (c : digitalOcean) w :
  scan_at ips w0 n todo s w →
  wp E (for_return (take k todo) s (scanRecord zone name ttl))
    (or_done (λ s' c' w', c' = c ∧ scan_at ips w0 (n + length (take k todo)) (drop k todo) s' w')
       (λ _ c' w', c' = c ∧ do_untouched w0 w')) c w.
Proof.
  intros HS. eapply wp_mono; [|apply (wp_for_return E
    (λ done s' c' w', c' = c ∧ scan_at ips w0 (n + length done) (drop (length done) todo) s' w')
    (λ _ c' w', c' = c ∧ do_untouched w0 w'))].
  - intros [s'|e] c' w'; [|done]. intros [-> HS']. split; [done|].
    replace (drop k todo) with (drop (length (take k todo)) todo); [done|].
    rewrite length_take. destruct (decide (k ≤ length todo)); [by rewrite Nat.min_l|].
    rewrite Nat.min_r, !drop_ge by lia. done.
  - by rewrite Nat.add_0_r.
  - intros done x rest s' c' w' Heq [-> HS'].
    assert (drop (length done) todo = x :: drop (S (length done)) todo) as Hd.
    { apply drop_S. pose proof (f_equal (.!! length done) Heq) as Hx. cbn in Hx.
      rewrite list_lookup_middle in Hx by done. by apply lookup_take_Some in Hx as [? _]. }
    rewrite Hd in HS'. rewrite length_app. cbn [length]. rewrite Nat.add_1_r, Nat.add_succ_r.
    by apply do_scanRecord_ok.
Qed.

(** All pages: there is fuel for as many as there are. *)
Lemma scanPages_ok E fuel : ∀ ips w0 page todo s (c : digitalOcean) w,
  (1 ≤ page)%Z → (1 ≤ fuel) → length todo ≤ 200 * fuel →
  scan_at ips w0 (Z.to_nat (200 * (page - 1))) todo s w →
  wp E (scanPages fuel zone name ttl page s)
    (or_done (λ s' c' w', c' = c ∧ do_untouched w0 w' ∧ Scan ips ttl (do_rs w') ∅ s'.1 s'.2)
       (λ _ c' w', c' = c ∧ do_untouched w0 w')) c w.
Proof.
  induction fuel as [|fuel IH]; intros ips w0 page todo s c w Hp Hf Hlen HS; [lia|].
  cbn [scanPages]. apply wp_or_return. unfold checked. wp_steps. apply wp_call.
  intros [r res] w1 Hr. pose proof HS as (Hu & pre & Hz & Hpre & HSc).
  assert (do_zone w1 = do_zone w) as H1.
  { rewrite <- (dz_list zone page dnsRecordsPerPage w). by rewrite Hr. }
  assert (scan_at ips w0 (Z.to_nat (200 * (page - 1))) todo s w1) as HS1.
  { split; [by eapply do_untouched_quiet|]. exists pre. unfold do_rs. by rewrite H1. }
  destruct r as [records|err]; wp_steps; [|split; [done|]; by eapply do_untouched_quiet].
  destruct (dz_listed _ _ _ _ _ _ _ Hr Hp ltac:(done)) as [Hrec Hlast].
  assert (records = take 200 todo) as ->.
  { rewrite Hrec, Hz. unfold dnsRecordsPerPage. rewrite <- Hpre. by rewrite drop_app_length. }
  eapply wp_mono; [|by apply page_ok]. intros [s'|e] c' w2; [|done]. intros [-> HS2].
  wp_steps. rewrite Hz, length_app, Hpre in Hlast. unfold dnsRecordsPerPage in Hlast.
  destruct (res ≫= Links_IsLastPage) as [b|]; wp_steps; [|split; [done|apply HS2]].
  specialize (Hlast b eq_refl). destruct b.
  - apply wp_ret. assert (length todo ≤ 200) as Hshort by (apply proj1 in Hlast; specialize (Hlast eq_refl); lia).
    destruct HS2 as (Hu2 & pre2 & _ & _ & HS2). rewrite drop_ge in HS2 by done. done.
  - assert (200 < length todo) as Hlong.
    { destruct (decide (200 < length todo)); [done|]. assert (false = true); [apply Hlast; lia|done]. }
    apply (IH ips w0 (page + 1)%Z (drop 200 todo)); [lia|destruct fuel; [exfalso; clear -Hlen Hlong; cbn in Hlen; lia|lia]| |].
    + rewrite length_drop. lia.
    + rewrite length_take in HS2. replace (Z.to_nat (200 * (page + 1 - 1))) with
        (Z.to_nat (200 * (page - 1)) + 200 `min` length todo) by lia. exact HS2.
Qed.

Lemma do_ensure_passes E fuel ctx ips (c : digitalOcean) w :
  1 ≤ fuel → length (do_zone w zone) ≤ 200 * fuel →
  wp E (EnsureDNSARecordSet fuel ctx zone name ips ttl)
    (λ r c' w', c' = c ∧ do_untouched w w' ∧
       (r = inl tt → exactly (list_to_set ips) ttl (do_rs w'))) c w.
Proof.
  intros Hf Hlen. unfold EnsureDNSARecordSet, do_call. wp_steps. apply (wp_measured do_zone).
  { apply dz_now. } { apply dz_inc. } { apply dz_observe. }
  { intros r c' w1 w2 Hz (? & ? & Hx). split_and!; [done|by eapply do_untouched_quiet|].
    unfold do_rs in *. by rewrite Hz. }
  intros w1 H1. assert (do_untouched w w1) as Hu1 by (by eapply do_untouched_quiet; [|split]).
  apply wp_or_return. eapply wp_mono; [|apply (scanPages_ok E fuel (list_to_set ips) w 1
    (do_zone w1 zone)); [done|done|by rewrite H1|]].
  - intros [[ipSet toDelete]|e] c' w2; [|intros [-> ?]; done].
    intros (-> & Hu2 & HS). cbn [fst snd] in HS. wp_steps. apply wp_call. intros order w3 Ho. wp_steps.
    pose proof (dz_range (elements ipSet) w2) as H3. rewrite Ho in H3. cbn in H3.
    pose proof (range_order_perm (elements ipSet) w2) as Hperm. rewrite Ho in Hperm. cbn in Hperm.
    eapply wp_mono; [|eapply (place_pass E (list_to_set ips) ttl do_rs (do_untouched w)
      (λ id ip, checked "updating record: " (call (domains_EditRecord zone id (request name ttl ip))))
      (λ ip, checked "creating record: " (call (domains_CreateRecord zone (request name ttl ip)))));
      [|intros; by apply do_create_ok|exact (do_untouched_quiet _ _ _ H3 Hu2)| |exact Hperm]].
    + intros [del|e] c' w4; [|intros [-> ?]; done]. intros (-> & Hu4 & HS4). wp_steps.
      eapply wp_mono; [|eapply (remove_pass E (list_to_set ips) ttl do_rs (do_untouched w)
        (λ id, _ ←? checked "deleting record: " (call (domains_DeleteRecord zone id)); mret (inl tt)));
        [intros; by apply do_delete_ok|done|done]].
      intros [[]|e] c' w5; [|intros [-> ?]; done]. by intros (-> & ? & ?).
    + intros id ip c' w' Hu' Hid. eapply wp_mono; [|by apply do_edit_ok].
      intros [a|e] c'' w'' (-> & Hu'' & Hv); [|done]. split; [done|]. split; [done|]. apply Hv.
    + unfold do_rs in *. by rewrite H3.
  - split; [done|]. exists []. split_and!; [done..|]. cbn [fst snd].
    unfold do_rs. rewrite <- do_view_dom by apply dz_nodup. apply scan_start.
Qed.
End passes.

(** C9: whatever the zone holds, when DigitalOcean's [EnsureDNSARecordSet] reports
    success the record set holds exactly one A record with the given TTL for each
    of the addresses, and no other; the rest of the zone and the other zones are
    as before - even if it fails half way -; and it returns once it has read as
    many pages as the zone fills. *)
Theorem digitalocean_ensures_record_set `{DNSLaws W} (fuel : nat) (ctx : Context)
    (zone name : string) (ips : list string) (ttl : Z) (c : digitalOcean) (w : W) :
  1 ≤ fuel → length (do_zone w zone) ≤ 200 * fuel →
  wp False (EnsureDNSARecordSet fuel ctx zone name ips ttl)
    (λ r c' w', c' = c ∧ do_untouched zone name w w' ∧
       (r = inl tt → exactly (list_to_set ips) ttl (do_rs zone name w'))) c w.
Proof. apply do_ensure_passes. Qed.
