(* ===== verification/DOSim.v ===== *)
(** * A simulated DigitalOcean

    One zone "z", floating IPs with the droplet that holds them, droplets with
    their networks, and assignments that run until [ds_done]. *)
From S2P Require Import Prelude Go Retry GoText K8s Types Provider ProviderMetrics.
From S2P Require Import DNSPlan DigitalOcean DigitalOceanDNS.

Record DOSim : Type := DOSim_ {
  ds_records : list DomainRecord;
  ds_fail : option error;                       (* what writes to the zone answer *)
  ds_holder : gmap string (option Z);           (* floating IPs *)
  ds_droplets : gmap Z (list NetworkV4);
  ds_done : bool;                               (* assignments are completed *)
  ds_assigns : list (string * Z);               (* the assignments asked for *)
}.
Definition eta_DOSim (s : DOSim) : DOSim :=
  DOSim_ (ds_records s) (ds_fail s) (ds_holder s) (ds_droplets s) (ds_done s) (ds_assigns s).
#[export] Instance set_ds_records : Setter ds_records := ltac:(derive_setter eta_DOSim ds_records).
#[export] Instance set_ds_holder : Setter ds_holder := ltac:(derive_setter eta_DOSim ds_holder).
#[export] Instance set_ds_done : Setter ds_done := ltac:(derive_setter eta_DOSim ds_done).
#[export] Instance set_ds_assigns : Setter ds_assigns := ltac:(derive_setter eta_DOSim ds_assigns).

(** Identifiers are unique. *)
Definition distinct (l : list DomainRecord) : list DomainRecord :=
  if decide (NoDup (do_ids l)) then l else [].
Definition ds_zone (w : DOSim) : list DomainRecord := distinct (ds_records w).

(** Who holds a floating IP: a droplet, nobody, or there is no such address. *)
Definition ds_held (w : DOSim) (ip : string) : option (option Z) :=
  (λ h, d ← h; if decide (- 2 ^ 63 ≤ d < 2 ^ 63)%Z then Some d else None) <$> ds_holder w !! ip.

Definition ok : option Response := Some (Response_ 200 None).
Definition ds_write (z : string) (possible : bool) (f : list DomainRecord → list DomainRecord)
    (w : DOSim) : reply unit * DOSim :=
  match ds_fail w with
  | Some e => ((inr e, ok), w)
  | None => if bool_decide (z = "z") && possible
            then ((inl tt, ok), w <| ds_records := f (ds_zone w) |>)
            else ((inr (ErrorString "not found"), Some (Response_ 404 None)), w)
  end.
Definition new_id (l : list DomainRecord) : Z := fold_right Z.max 0%Z (do_ids l) + 1.

#[export] Instance dosim_ghost : DOGhost DOSim :=
  {| do_zone w z := if bool_decide (z = "z") then ds_zone w else [] |}.
#[export] Instance dosim_range : MapRange DOSim := {| range_order ks w := (ks, w) |}.
#[export] Instance dosim_clock : Clock DOSim := {| time_Now w := (Minute, w) |}.
#[export] Instance dosim_prometheus : Prometheus DOSim := {|
  MustCurryWith r _ := r; With_Inc _ _ w := (tt, w); With_Observe _ _ _ w := (tt, w) |}.
#[export] Instance dosim_fmt : GoFmt := {| fmt_q s := s |}.
#[export] Instance dosim_godo : Godo DOSim := {|
  ips_Get ip w :=
    match ds_held w ip with
    | Some h => ((inl (Some {| flip_IP := ip; flip_Droplet := h |}), ok), w)
    | None => ((inr (ErrorString "not found"), Some (Response_ 404 None)), w)
    end;
  ips_Create region w := ((inr (ErrorString "quota"), Some (Response_ 422 None)), w);
  ipActions_Assign ip d w :=
    let w := w <| ds_assigns ::= λ l, l ++ [(ip, d)] |> in
    match ds_held w ip with
    | Some None =>
        if decide (- 2 ^ 63 ≤ d < 2 ^ 63)%Z then
          ((inl (Some {| action_ID := 7; action_Status := ActionInProgress; action_CompletedAt := None |}), ok),
           w <| ds_holder ::= <[ip := Some d]> |>)
        else ((inr (ErrorString "no such droplet"), Some (Response_ 404 None)), w)
    | Some (Some _) => ((inr (ErrorString "Droplet already has a pending event."), Some (Response_ 422 None)), w)
    | None => ((inr (ErrorString "not found"), Some (Response_ 404 None)), w)
    end;
  ipActions_Get ip id w :=
    ((inl (Some {| action_ID := id; action_CompletedAt := None;
                   action_Status := if ds_done w then "completed" else ActionInProgress |}), ok), w);
  droplets_Get d w :=
    match ds_droplets w !! d with
    | Some nets => ((inl (Some {| droplet_Networks := Some nets |}), ok), w)
    | None => ((inr (ErrorString "not found"), Some (Response_ 404 None)), w)
    end;
  domains_Records z p per w :=
    let l := do_zone w z in
    ((inl (take (Z.to_nat per) (drop (Z.to_nat (per * (p - 1))) l)),
      Some (Response_ 200 (Some (Z.of_nat (length l) <=? per * p)%Z))), w);
  domains_EditRecord z id req w :=
    ds_write z (bool_decide (id ∈ do_ids (ds_zone w))) (fmap (edited id req)) w;
  domains_CreateRecord z req w :=
    ds_write z true (λ l, of_request (new_id l) req :: l) w;
  domains_DeleteRecord z id w := ds_write z true (filter (λ r, rec_ID r ≠ id)) w;
|}.

Lemma distinct_nodup l : NoDup (do_ids (distinct l)).
Proof. unfold distinct. case_decide; [done|constructor]. Qed.
Lemma distinct_id l : NoDup (do_ids l) → distinct l = l.
Proof. intros H. unfold distinct. by rewrite decide_True. Qed.
Lemma new_id_fresh l : new_id l ∉ do_ids l.
Proof.
  assert (∀ x, x ∈ do_ids l → (x ≤ fold_right Z.max 0 (do_ids l))%Z) as H.
  { induction (do_ids l) as [|y ids IH]; intros x; [by intros ?%elem_of_nil|].
    cbn. intros [->|Hx]%elem_of_cons; [lia|]. specialize (IH x Hx). lia. }
  intros Hin. specialize (H _ Hin). unfold new_id in H. lia.
Qed.

Lemma ds_write_outcome z possible f w r res w' eff :
  ds_write z possible f w = ((r, res), w') →
  (possible = true → NoDup (do_ids (f (ds_zone w))) ∧ eff (ds_zone w) (f (ds_zone w))) →
  do_outcome z w r w' eff.
Proof.
  unfold ds_write, do_outcome. intros Hw Heff. destruct (ds_fail w); simplify_eq; [auto|].
  destruct (bool_decide (z = "z") && possible) eqn:Hz; simplify_eq; [|auto].
  apply andb_true_iff in Hz as [Hz Hp]. rewrite bool_decide_eq_true in Hz. subst z.
  destruct (Heff Hp) as [Hnd He]. cbn. split.
  - intros z' Hne. by rewrite bool_decide_false.
  - unfold ds_zone at 2. cbn. by rewrite distinct_id.
Qed.

#[export] Instance dosim_laws : DNSLaws DOSim.
Proof.
  split; try done; cbn.
  - intros z p per w l res w' [= <- <- <-] _ _. split; [done|]. intros b [= <-]. apply Z.leb_le.
  - intros w z. case_bool_decide; [apply distinct_nodup|constructor].
  - intros z id req w r res w' Hw. eapply ds_write_outcome; [exact Hw|].
    intros Hid%bool_decide_eq_true. split; [|done]. rewrite edited_ids. apply distinct_nodup.
  - intros z req w r res w' Hw. eapply ds_write_outcome; [exact Hw|]. intros _. split.
    + cbn. apply NoDup_cons. split; [apply new_id_fresh|apply distinct_nodup].
    + eexists. split; [apply new_id_fresh|done].
  - intros z id w r res w' Hw. eapply ds_write_outcome; [exact Hw|]. intros _. split; [|done].
    eapply sublist_NoDup; [apply (distinct_nodup (ds_records w))|].
    apply (fmap_sublist rec_ID), sublist_filter.
Qed.

(** A zone of 201 records - two pages -, the last of which is stale. *)
Definition record_ (id : Z) (name ip : string) (ttl : Z) : DomainRecord :=
  of_request id (EditRequest dnsRecordTypeA name ip ttl).
Definition dosim0 : DOSim := {|
  ds_records := record_ 1 "www" "10.0.0.1" 60 ::
    map (λ i, record_ (Z.of_nat i) "other" "9.9.9.9" 30) (seq 2 199) ++
    [record_ 999 "www" "9.9.9.9" 30];
  ds_fail := None;
  ds_holder := {["10.0.0.1" := Some 1%Z; "10.0.0.2" := None]};
  ds_droplets := {[1%Z := [{| v4_Type := "private"; v4_IPAddress := "172.16.0.1" |};
                           {| v4_Type := "public"; v4_IPAddress := "192.0.2.1" |};
                           {| v4_Type := "public"; v4_IPAddress := "10.0.0.1" |}];
                   2%Z := [{| v4_Type := "public"; v4_IPAddress := "10.0.0.9" |};
                           {| v4_Type := "public"; v4_IPAddress := "192.0.2.2" |}]]};
  ds_done := false;
  ds_assigns := [];
|}.
Definition do0 : digitalOcean := DigitalOcean_ ∅ "token" None.
Definition dosim0_run :=
  EnsureDNSARecordSet 2 Background "z" "www" ["10.0.0.1"; "10.0.0.2"] 30 do0 dosim0.
Definition dosim0_after : DOSim := match dosim0_run with Ret (_, _, w) => w | _ => dosim0 end.
Definition is_done {A C W} (o : outcome ((A + error) * C * W)) : bool :=
  match o with Ret (inl _, _, _) => true | _ => false end.
Lemma dosim0_succeeds : is_done dosim0_run = true.
Proof. vm_compute. reflexivity. Qed.
Lemma dosim0_length : length (do_zone dosim0 "z") = 201.
Proof. vm_compute. reflexivity. Qed.

Lemma digitalocean_ensures_record_set_witness :
  1 ≤ 2 ∧ length (do_zone dosim0 "z") ≤ 200 * 2 ∧
  exactly (list_to_set ["10.0.0.1"; "10.0.0.2"]) 30 (do_rs "z" "www" dosim0_after).
Proof.
  assert (length (do_zone dosim0 "z") ≤ 200 * 2) as Hlen by (rewrite dosim0_length; lia).
  split; [lia|]. split; [exact Hlen|].
  pose proof (digitalocean_ensures_record_set 2 Background "z" "www" ["10.0.0.1"; "10.0.0.2"] 30
    do0 dosim0 ltac:(lia) Hlen) as Hwp.
  unfold wp in Hwp. pose proof dosim0_succeeds as Hs. unfold dosim0_after.
  fold dosim0_run in Hwp. destruct dosim0_run as [[[[[]|e] c] w]| |]; [|done..].
  destruct Hwp as (_ & _ & Hex). by apply Hex.
Defined.
