(* ===== verification/DigitalOceanIPs.v ===== *)
(** * The floating IPs of the DigitalOcean provider

    Provider identifiers, assignments that take effect later, and the search for
    the address of a node. *)
From S2P Require Import Prelude Go Retry GoText K8s Types Provider ProviderMetrics.
From S2P Require Import DigitalOcean DigitalOceanDNS DOSim.

Section ips.
Context {W : Type} `{!Godo W, !Prometheus W, !Clock W, !MapRange W, !GoFmt}.
Implicit Types (c : digitalOcean) (w : W).

(** Without metrics an operation is its body. *)
Lemma do_call_None {A} ctx caller (body : M digitalOcean W (A + error)) c w :
  do_metrics c = None → do_call ctx caller body c w = body c w.
Proof.
  intros Hm. unfold do_call, gets, measured, startCall, mbind, M_bind, mret, M_ret. rewrite Hm.
  by destruct (body c w) as [[[r c'] w']| |].
Qed.

(** ** Assignments in progress *)

(** The cache without the actions that have expired. *)
Definition unexpired (now : Time) c : digitalOcean :=
  c <| floatingIPActions ::= filter (λ x, ¬ (expires x.2 < now)%Z) |>.

Lemma asyncStatus_free ip c w now w1 : time_Now w = (now, w1) →
  floatingIPActions (unexpired now c) !! ip = None →
  asyncStatus ip c w = Ret (inl tt, unexpired now c, w1).
Proof.
  intros Hn Hip. unfold asyncStatus, call, modify, gets, mbind, M_bind, mret, M_ret.
  rewrite Hn. cbn [fst snd]. fold (unexpired now c). by rewrite Hip.
Qed.

(** What a poll of a running action answers. *)
Definition polled (ip : string) (r : option Action + error) c : (unit + error) * digitalOcean :=
  match r with
  | inr err => (inr err, c)
  | inl (Some action) =>
      if decide (action_Status action = ActionInProgress) then (inr ErrInProgress, c)
      else (inl tt, c <| floatingIPActions ::= delete ip |>)
  | inl None => (inl tt, c <| floatingIPActions ::= delete ip |>)
  end.

Lemma asyncStatus_running ip a c w now w1 r res w2 : time_Now w = (now, w1) →
  floatingIPActions (unexpired now c) !! ip = Some a →
  ipActions_Get ip (actionID a) w1 = ((r, res), w2) →
  asyncStatus ip c w = Ret ((polled ip r (unexpired now c)).1, (polled ip r (unexpired now c)).2, w2).
Proof.
  intros Hn Hip Hg. unfold asyncStatus, call, modify, gets, mbind, M_bind, mret, M_ret.
  rewrite Hn. cbn [fst snd]. fold (unexpired now c). rewrite Hip, Hg. cbn [fst snd].
  destruct r as [[action|]|err]; cbn [fst snd]; [|done..].
  unfold polled. case_decide as Hd; case_bool_decide; done.
Qed.

Lemma unexpired_lookup now c ip : floatingIPActions (unexpired now c) !! ip =
  a ← floatingIPActions c !! ip; if decide (expires a < now)%Z then None else Some a.
Proof.
  unfold unexpired. cbn. rewrite map_lookup_filter.
  destruct (floatingIPActions c !! ip) as [a|]; [|done]. cbn.
  destruct (decide (expires a < now)%Z).
  - by rewrite option_guard_False by naive_solver.
  - by rewrite option_guard_True.
Qed.

(** ** The address of a node *)
Lemma go_index_last {A} (l : list A) : l ≠ [] → go_index l (Z.of_nat (length l) - 1) = last l.
Proof.
  intros Hne. unfold go_index. rewrite last_lookup. destruct l as [|x l]; [done|].
  replace (Z.of_nat (length (x :: l)) - 1 <? 0)%Z with false by (symmetry; apply Z.ltb_ge; cbn; lia).
  f_equal. cbn. lia.
Qed.
Lemma go_index_end {A} (l : list A) : go_index l (Z.of_nat (length l)) = None.
Proof.
  unfold go_index. replace (Z.of_nat (length l) <? 0)%Z with false by (symmetry; apply Z.ltb_ge; lia).
  apply lookup_ge_None. lia.
Qed.
Lemma nodeIP_loop_end fuel ctx pid ips c w :
  nodeIP_loop (S fuel) ctx pid ips (Z.of_nat (length ips)) c w = Panic.
Proof.
  cbn [nodeIP_loop]. rewrite go_index_end.
  by replace (Z.of_nat (length ips) <? 0)%Z with false by (symmetry; apply Z.ltb_ge; lia).
Qed.

(** What the search makes of the holder of the last public address. *)
Definition searched (pid ip : string) (r : string + error) : option (string + error) :=
  match r with
  | inl holder => if decide (holder = pid) then Some (inl ip) else None
  | inr err => if decide (err = ErrNotFound) then None
               else Some (inr (WrapError "retrieving node ip: " err))
  end.

Lemma nodeIP_loop_last fuel ctx pid ips ip c w r c' w' :
  last ips = Some ip → IPToProviderID ctx ip c w = Ret (r, c', w') →
  nodeIP_loop (S (S fuel)) ctx pid ips (Z.of_nat (length ips) - 1) c w =
    match searched pid ip r with Some res => Ret (res, c', w') | None => Panic end.
Proof.
  intros Hlast Hr. assert (ips ≠ []) as Hne by (by intros ->).
  assert (1 ≤ length ips) by (destruct ips; cbn; [done|lia]).
  remember (S fuel) as f eqn:Hf. cbn [nodeIP_loop]. subst f.
  rewrite go_index_last, Hlast by done.
  replace (Z.of_nat (length ips) - 1 <? 0)%Z with false by (symmetry; apply Z.ltb_ge; lia).
  replace (Z.of_nat (length ips) - 1 + 1)%Z with (Z.of_nat (length ips)) by lia.
  unfold mbind, M_bind, deref, mret, M_ret. rewrite Hr. unfold searched.
  destruct r as [holder|err].
  - case_decide; case_bool_decide; [done..|]. apply nodeIP_loop_end.
  - case_decide; case_bool_decide; [|done..|done]. apply nodeIP_loop_end.
Qed.
End ips.

(** C38: the identifier of a droplet is read back: what [IPToProviderID] prints,
    [AssignIP] and [NodeToIP] parse, for every identifier that is an [int]. *)
Theorem providerID_roundtrip `{!GoFmt} (droplet : Z) :
  (- 2 ^ 63 ≤ droplet < 2 ^ 63)%Z → dropletID_of (providerID_of droplet) = inl droplet.
Proof.
  intros Hd. unfold dropletID_of, providerID_of, ParseInt. by rewrite TrimPrefix_app, parse_fmt.
Qed.
Lemma providerID_roundtrip_witness :
  (- 2 ^ 63 ≤ 3164444 < 2 ^ 63)%Z ∧ dropletID_of "digitalocean://3164444" = inl 3164444%Z.
Proof. split; [lia|]. apply (providerID_roundtrip 3164444). lia. Defined.


(** [NodeToIP] only ever looks at the last of the public addresses of a
    droplet: it answers it if the droplet holds it, passes an error on, and else -
    the address is not a floating one, or of somebody else - reads past the end
    of the list and panics. *)
Theorem NodeToIP_looks_at_last {W} `{!Godo W, !Prometheus W, !Clock W, !MapRange W, !GoFmt}
    (ctx : Context) (pid ip : string) (d : Z) (nets : list NetworkV4) (res : option Response)
    (r : string + error) (c c' : digitalOcean) (w w1 w2 : W) :
  do_metrics c = None → dropletID_of pid = inl d →
  droplets_Get d w = ((inl (Some {| droplet_Networks := Some nets |}), res), w1) →
  2 ≤ length (publicIPs nets) → last (publicIPs nets) = Some ip →
  IPToProviderID ctx ip c w1 = Ret (r, c', w2) →
  NodeToIP ctx pid c w =
    match searched pid ip r with Some answer => Ret (answer, c', w2) | None => Panic end.
Proof.
  intros Hm Hd Hg Hlen Hlast Hr. unfold NodeToIP. rewrite do_call_None by done. rewrite Hd.
  unfold or_return, call, mbind, M_bind, mret, M_ret. rewrite Hg. cbn [fst snd].
  unfold deref, mret, M_ret. cbn [droplet_Networks]. replace (length (publicIPs nets) <? 2)%nat with false by
    (symmetry; apply Nat.ltb_ge; lia).
  destruct (publicIPs nets) as [|ip0 ips] eqn:Hips; [cbn in Hlen; lia|].
  cbn [length]. cbn [length] in Hlen.
  pose proof (nodeIP_loop_last (length ips) ctx pid (ip0 :: ips) ip c w1 r c' w2 Hlast Hr) as Hloop.
  cbn [length] in Hloop. exact Hloop.
Qed.

(** The droplet with the floating IP listed first. *)
Lemma NodeToIP_looks_at_last_witness :
  searched "digitalocean://2" "192.0.2.2" (inr ErrNotFound) = None ∧
  NodeToIP Background "digitalocean://2" do0 dosim0 = Panic.
Proof.
  split; [vm_compute; reflexivity|].
  exact (NodeToIP_looks_at_last Background "digitalocean://2" "192.0.2.2" 2
    [{| v4_Type := "public"; v4_IPAddress := "10.0.0.9" |};
     {| v4_Type := "public"; v4_IPAddress := "192.0.2.2" |}] ok (inr ErrNotFound) do0 do0
    dosim0 dosim0 dosim0 eq_refl ltac:(vm_compute; reflexivity) ltac:(vm_compute; reflexivity)
    ltac:(vm_compute; lia) ltac:(vm_compute; reflexivity) ltac:(vm_compute; reflexivity)).
Defined.

Definition do_busy : digitalOcean := DigitalOcean_ {["10.0.0.2" := DoAction 7 Hour]} "token" None.

(** ** The contract of AssignIP

    [holder w ip] is the droplet that holds an address; only an assignment
    changes it, at once unless it leaves an action behind. *)
Class HolderGhost (W : Type) : Type := { holder : W → string → option Z }.
Class HolderLaws (W : Type) `{!Godo W, !Prometheus W, !Clock W, !HolderGhost W} : Prop := {
  hl_range w ip d : holder w ip = Some d → (- 2 ^ 63 ≤ d < 2 ^ 63)%Z;
  hl_now w : holder (time_Now w).2 = holder w;
  hl_inc m l w : holder (With_Inc m l w).2 = holder w;
  hl_observe m l d w : holder (With_Observe m l d w).2 = holder w;
  hl_get ip w : holder (ips_Get ip w).2 = holder w;
  hl_poll ip id w : holder (ipActions_Get ip id w).2 = holder w;
  hl_droplet d w : holder (droplets_Get d w).2 = holder w;
  hl_holder ip w flip res w' :
    ips_Get ip w = ((inl (Some flip), res), w') → flip_Droplet flip = holder w ip;
  hl_assign ip d w action res w' : ipActions_Assign ip d w = ((inl action, res), w') →
    (∀ a, action = Some a → action_CompletedAt a = None → action_ID a = 0%Z) →
    holder w' ip = Some d;
}.

Section contract.
Context `{HolderLaws W} `{!MapRange W, !GoFmt}.
Implicit Types (c : digitalOcean) (w : W).

Lemma wp_holder {A} E (f : W → A * W) Q c w : (∀ w, holder (f w).2 = holder w) →
  (∀ a w', f w = (a, w') → holder w' = holder w → Q a c w') → wp E (call f) Q c w.
Proof.
  intros Hf HQ. apply wp_call. intros a w' Hw. apply HQ; [done|]. by rewrite <- (Hf w), Hw.
Qed.

Lemma wp_measure {A} E ctx caller (body : M digitalOcean W (A + error)) Q c w :
  (∀ r c w w', holder w' = holder w → Q r c w → Q r c w') →
  (∀ w', holder w' = holder w → wp E body Q c w') →
  wp E (do_call ctx caller body) Q c w.
Proof.
  intros HQ Hb. unfold do_call. wp_steps.
  apply (wp_measured holder); [apply hl_now|apply hl_inc|apply hl_observe|exact HQ|exact Hb].
Qed.

Lemma wp_asyncStatus E ip c w :
  wp E (asyncStatus ip) (λ _ _ w', holder w' = holder w) c w.
Proof.
  unfold asyncStatus. wp_steps. apply wp_holder; [apply hl_now|]. intros now w1 _ Hq1. wp_steps.
  destruct (_ !! ip) as [a|]; wp_steps; [|done].
  apply wp_holder; [apply hl_poll|]. intros [r res] w2 _ Hq2. destruct r as [action|err]; wp_steps; [|congruence].
  destruct (match action with None => true | Some _ => _ end); wp_steps; congruence.
Qed.

Lemma wp_IPToProviderID ctx ip c w :
  wp True (IPToProviderID ctx ip) (λ r _ w', holder w' = holder w ∧
    ∀ p, r = inl p → p = from_option providerID_of "" (holder w ip)) c w.
Proof.
  unfold IPToProviderID. apply wp_measure.
  { intros r c' w1 w2 Hw [Hh Hr]. split; [congruence|done]. }
  intros w0 Hq0. apply wp_or_return. eapply wp_mono; [|apply wp_asyncStatus].
  intros [[]|err] c1 w1 Hq1; wp_steps; [|split; [congruence|done]].
  apply wp_holder; [apply hl_get|]. intros [[[flip|]|err] res] w2 Hg Hq2; wp_steps.
  - pose proof (hl_holder _ _ _ _ _ Hg) as Hf. rewrite Hf.
    destruct (holder w1 ip) as [d|] eqn:Hd; wp_steps; (split; [congruence|]); intros p [= <-];
      by rewrite <- Hq0, <- Hq1, Hd.
  - done.
  - split; [congruence|done].
Qed.

Lemma nodeIP_loop_returns fuel ctx pid ips i c w :
  (Z.of_nat (length ips) - Z.of_nat fuel < i)%Z → 1 ≤ fuel →
  wp True (nodeIP_loop fuel ctx pid ips i) (λ _ _ w', holder w' = holder w) c w.
Proof.
  revert i c w. induction fuel as [|fuel IH]; intros i c w Hi Hf; [lia|].
  cbn [nodeIP_loop]. destruct (Z.ltb_spec i 0); [by apply wp_ret|].
  wp_steps. apply wp_deref; [|done]. intros ip Hip. wp_steps.
  assert (i < Z.of_nat (length ips))%Z as Hlt.
  { unfold go_index in Hip. replace (i <? 0)%Z with false in Hip by (symmetry; by apply Z.ltb_ge).
    apply lookup_lt_Some in Hip. lia. }
  eapply wp_mono; [|apply wp_IPToProviderID]. intros r c' w' [Hw _].
  assert (wp True (nodeIP_loop fuel ctx pid ips (i + 1)) (λ _ _ w', holder w' = holder w) c' w') as Hgo.
  { rewrite <- Hw. apply IH; lia. }
  destruct r; case_bool_decide; wp_steps; done.
Qed.

Lemma wp_NodeToIP ctx pid c w :
  wp True (NodeToIP ctx pid) (λ _ _ w', holder w' = holder w) c w.
Proof.
  unfold NodeToIP. apply wp_measure; [congruence|]. intros w0 Hq0.
  apply wp_or_return, wp_ret. destruct (dropletID_of pid) as [d|err]; wp_steps; [|congruence].
  apply wp_holder; [apply hl_droplet|]. intros [[[droplet|]|err] res] w1 _ Hq1; wp_steps; [|done|congruence].
  destruct (droplet_Networks droplet) as [nets|]; wp_steps; [|congruence].
  destruct (Nat.ltb_spec (length (publicIPs nets)) 2); wp_steps; [congruence|].
  rewrite <- Hq0, <- Hq1. apply nodeIP_loop_returns; lia.
Qed.

Lemma assign_success E' ctx ip pid c w : E' = True →
  wp E' (AssignIP ctx ip pid) (λ r _ w', r = inl tt →
    ∃ d, dropletID_of pid = inl d ∧ holder w' ip = Some d) c w.
Proof.
  intros ->. unfold AssignIP. apply wp_measure.
  { intros r c' w1 w2 Hw Hr ?. by rewrite Hw; apply Hr. }
  intros w0 _. apply wp_or_return. eapply wp_mono; [|apply wp_asyncStatus].
  intros [[]|err] c1 w1 _; wp_steps; [|done].
  destruct (dropletID_of pid) as [d|err] eqn:Hd; wp_steps; [|done].
  apply wp_call. intros [[action|err] res] w2 Ha.
  - destruct action as [a|]; wp_steps.
    + destruct (action_CompletedAt a) as [t|] eqn:Ht; cbn [orb].
      * apply wp_ret. intros _. exists d. split; [done|]. eapply hl_assign; [exact Ha|]. intros ? [= <-]. congruence.
      * destruct (Z.eqb_spec (action_ID a) 0); wp_steps.
        -- intros _. exists d. split; [done|]. eapply hl_assign; [exact Ha|]. by intros ? [= <-].
        -- apply wp_call. intros now w3 _. by wp_steps.
    + intros _. exists d. split; [done|]. eapply hl_assign; [exact Ha|done].
  - destruct (has_status res StatusNotFound); [done|].
    destruct (has_status res StatusUnprocessableEntity); [|done].
    unfold assignUnprocessable. wp_steps. eapply wp_mono; [|apply wp_IPToProviderID].
    intros cur c3 w3 [Hq3 Hcur]. destruct (_ && _) eqn:Hsame.
    + apply wp_ret. intros _. apply andb_true_iff in Hsame as [Hne%negb_true_iff He%bool_decide_eq_true].
      apply bool_decide_eq_false in Hne. destruct cur as [p|e]; [|done]. subst p.
      specialize (Hcur pid eq_refl). rewrite Hq3. exists d. split; [done|].
      destruct (holder w2 ip) as [d'|] eqn:Hh; [|done]. cbn in Hcur. f_equal.
      pose proof (hl_range _ _ _ Hh) as Hr.
      assert (dropletID_of pid = inl d') as Hd'; [|congruence].
      rewrite Hcur. unfold dropletID_of, providerID_of, ParseInt. by rewrite TrimPrefix_app, parse_fmt.
    + apply wp_or_return. destruct cur as [p|e]; wp_steps; [|by destruct (isPendingEventError err)].
      eapply wp_mono; [|apply wp_NodeToIP]. intros nIP c4 w4 _. wp_steps.
      by destruct (match nIP with inl _ => _ | inr _ => _ end); wp_steps.
Qed.
End contract.

(** When [AssignIP] reports success the address is held by the node - because
    the assignment is complete, or because it was refused for an address the node
    has already. *)
Theorem AssignIP_success_means_held `{HolderLaws W} `{!MapRange W, !GoFmt}
    (ctx : Context) (ip pid : string) (c c' : digitalOcean) (w w' : W) :
  AssignIP ctx ip pid c w = Ret (inl tt, c', w') →
  ∃ d, dropletID_of pid = inl d ∧ holder w' ip = Some d.
Proof.
  intros Hr. pose proof (assign_success True ctx ip pid c w eq_refl) as Hwp.
  unfold wp in Hwp. rewrite Hr in Hwp. by apply Hwp.
Qed.

(** The simulated provider refuses a second assignment of a held address. *)
#[export] Instance dosim_holder : HolderGhost DOSim := {| holder w ip := mjoin (ds_held w ip) |}.
#[export] Instance dosim_holder_laws : HolderLaws DOSim.
Proof.
  split; try done; cbn.
  - intros w ip d. unfold ds_held. destruct (ds_holder w !! ip) as [[d'|]|]; cbn; [|done..].
    case_decide; cbn; [|done]. by intros [= <-].
  - intros ip w. by destruct (ds_held w ip).
  - intros d w. by destruct (ds_droplets w !! d).
  - intros ip w flip res w'. by destruct (ds_held w ip) as [h|]; intros [= <- <- <-].
  - intros ip d w action res w'. destruct (ds_held _ ip) as [[h|]|]; [discriminate| |discriminate].
    case_decide as Hd; [|discriminate]. intros [= <- <- <-] Ha. discriminate (Ha _ eq_refl eq_refl).
Qed.
Definition held_run := AssignIP Background "10.0.0.1" "digitalocean://1" do0 dosim0.
Definition held_after : digitalOcean * DOSim :=
  match held_run with Ret (_, c, w) => (c, w) | _ => (do0, dosim0) end.
Lemma AssignIP_success_means_held_witness :
  AssignIP Background "10.0.0.1" "digitalocean://1" do0 dosim0 =
    Ret (inl tt, held_after.1, held_after.2) ∧
  ∃ d, dropletID_of "digitalocean://1" = inl d ∧ holder held_after.2 "10.0.0.1" = Some d.
Proof.
  assert (AssignIP Background "10.0.0.1" "digitalocean://1" do0 dosim0 =
    Ret (inl tt, held_after.1, held_after.2)) as Hr by (vm_compute; reflexivity).
  split; [exact Hr|]. exact (AssignIP_success_means_held _ _ _ _ _ _ _ Hr).
Defined.
