(* ===== verification/Registry.v ===== *)
(** * pkg/provider/provider.go: the registry of providers

    A provider is registered under its name; what it can do - serve floating IPs,
    DNS records - is found out by type assertion. *)
From S2P Require Import Prelude Go Retry GoText K8s Types Provider ProviderMetrics.

(** Which interfaces the dynamic type of an interface value implements. *)
Class ProviderKinds : Type := {
  is_IPProvider : Ref → bool;
  is_DNSProvider : Ref → bool;
}.

Record Registry : Type := Registry_ {
  reg_providers : gmap string Ref;
  reg_metrics : option metrics;
  reg_log : option Ref;
}.
Definition eta_Registry (r : Registry) : Registry :=
  Registry_ (reg_providers r) (reg_metrics r) (reg_log r).
#[export] Instance set_reg_providers : Setter reg_providers :=
  ltac:(derive_setter eta_Registry reg_providers).
#[export] Instance set_reg_log : Setter reg_log := ltac:(derive_setter eta_Registry reg_log).

Module Registry.
Section registry.
Context {W : Type} `{!BaseProvider W}.

Definition Get (r : Registry) (name : string) : option Ref := reg_providers r !! name.
Definition Register (name : string) (p : Ref) (r : Registry) : Registry :=
  r <| reg_providers ::= <[name := p]> |>.
Definition WithProvider (p : Ref) (r : Registry) : Registry :=
  r <| reg_providers ::= <[GetProviderName p := p]> |>.
Definition WithLogger (log : option Ref) (r : Registry) : Registry := r <| reg_log := log |>.
Definition NewRegistry (m : metrics) (opts : list (Registry → Registry)) : Registry :=
  foldl (λ r o, o r) (Registry_ ∅ (Some m) None) opts.

(** [RegisterDigitalOcean] and [RegisterCloudflare]: [created] is what the
    constructor of the provider answers. *)
Definition register (created : Ref + error) (r : Registry) : option error * Registry :=
  match created with
  | inr err => (Some err, r)
  | inl p => (None, WithProvider p r)
  end.

(** [Init]: a provider without credentials is left out. *)
Definition skippable (err : option error) : bool :=
  match err with None | Some errNoCredentials => true | Some _ => false end.
Definition wrapped (prefix : string) (err : option error) : option error := WrapError prefix <$> err.
Definition Init (digitalocean cloudflare : Ref + error) (r : Registry) : option error * Registry :=
  let '(err, r) := register digitalocean r in
  if negb (skippable err) then (wrapped "initializing digitalocean provider: " err, r)
  else
    let '(err, r) := register cloudflare r in
    if negb (skippable err) then (wrapped "initializing cloudflare provider: " err, r)
    else if (size (reg_providers r) =? 0)%nat
         then (Some (ErrorString "no providers initialized; set DIGITALOCEAN_ACCESS_TOKEN"), r)
         else (None, r).
End registry.
End Registry.
