(* ===== verification/NodeDNS.v ===== *)
(** * pkg/nodedns/controller.go

    The controller of NodeDNSRecordSet resources and, for each of them, the
    object that publishes the addresses of the nodes that match: the handlers of
    both, and the retry timers of the latter. *)
From S2P Require Import Prelude Go Retry GoText K8s Types Provider ProviderMetrics.
From S2P Require Import Registry.
From S2P Require Import NodeMatch.

(** The Kubernetes API of the resource, the gauges of the prometheus library, and
    the kind [meta.TypeAccessor] finds in an object. *)
Class NodeDNSEnv (W : Type) : Type := {
  #[global] nodedns_range :: MapRange W;
  #[global] nodedns_base :: BaseProvider W;
  #[global] nodedns_provider :: DNSProvider W;
  api_Get : string → string → W → (NodeDNSRecordSet + error) * W;
  api_UpdateStatus : string → NodeDNSRecordSet → W → (unit + error) * W;
  gauge_Delete : Ref → Labels → W → unit * W;
  gauge_With : Ref → Labels → W → Ref * W;
  gauge_Set : Ref → Z → W → unit * W;
  kind_of : NodeDNSRecordSet → option string;
}.

(** ** The object of one resource *)

(** A timer of [time.AfterFunc] that has not been stopped: how long it was set
    for, and whether it has expired, so that its function waits for the lock. *)
Record timer : Type := Timer { tm_after : Duration; tm_expired : bool }.

Record dnsEnablerDisabler `{!KubeAPI} : Type := DNS {
  d_activeNodes : gmap string Node;
  d_provider : option Ref;
  d_k8s : option NodeDNSRecordSet;
  d_ctx : Context;
  d_matchController : option Controller;
  d_retryTimer : option positive;
  d_retries : Z;
  d_metricRecords : option Ref;
  d_timers : gmap positive timer;        (* the timers of the runtime *)
  d_nextTimer : positive;
}.
Definition eta_dns `{!KubeAPI} (d : dnsEnablerDisabler) : dnsEnablerDisabler :=
  DNS _ (d_activeNodes d) (d_provider d) (d_k8s d) (d_ctx d) (d_matchController d)
    (d_retryTimer d) (d_retries d) (d_metricRecords d) (d_timers d) (d_nextTimer d).
Ltac dns_setter proj :=
  let b := eval cbv beta delta [eta_dns] in eta_dns in derive_setter_in b proj.
#[export] Instance set_d_activeNodes `{!KubeAPI} : Setter d_activeNodes := ltac:(dns_setter d_activeNodes).
#[export] Instance set_d_provider `{!KubeAPI} : Setter d_provider := ltac:(dns_setter d_provider).
#[export] Instance set_d_k8s `{!KubeAPI} : Setter d_k8s := ltac:(dns_setter d_k8s).
#[export] Instance set_d_ctx `{!KubeAPI} : Setter d_ctx := ltac:(dns_setter d_ctx).
#[export] Instance set_d_matchController `{!KubeAPI} : Setter d_matchController :=
  ltac:(dns_setter d_matchController).
#[export] Instance set_d_retryTimer `{!KubeAPI} : Setter d_retryTimer := ltac:(dns_setter d_retryTimer).
#[export] Instance set_d_retries `{!KubeAPI} : Setter d_retries := ltac:(dns_setter d_retries).
#[export] Instance set_d_metricRecords `{!KubeAPI} : Setter d_metricRecords :=
  ltac:(dns_setter d_metricRecords).
#[export] Instance set_d_timers `{!KubeAPI} : Setter d_timers := ltac:(dns_setter d_timers).
#[export] Instance set_d_nextTimer `{!KubeAPI} : Setter d_nextTimer := ltac:(dns_setter d_nextTimer).

(** The object as the action of its match controller. *)
Definition self : Ref := 1%positive.

(** *** The addresses of a node *)
Definition wantedType (spec : NodeDNSRecordSetSpec) : string :=
  if bool_decide (nds_AddressType spec = "") then NodeExternalIP else nds_AddressType spec.

(** An address that does not parse, or is not an IPv4 address, is skipped. *)
Definition parsedIPv4 (address : string) : option string :=
  ip ← ParseIP address; ip4 ← To4 ip; Some (IPString ip4).
Definition nodeIPs (addressType : string) (node : Node) : list string :=
  if bool_decide (addressType = IPv4ReservedIPAnnotation) then
    match node_Annotations node !! IPv4ReservedIPAnnotation with
    | Some reservedIP => [reservedIP]
    | None => []
    end
  else omap (λ addr, if bool_decide (addr_Type addr = addressType)
                     then parsedIPv4 (addr_Address addr) else None) (node_Addresses node).

Section dns.
Context `{!KubeAPI} {W : Type} `{!NodeDNSEnv W, !ProviderKinds, !GoFmt}.
Local Abbreviation M := (M dnsEnablerDisabler W).

Definition newDNSEnablerDisabler (ctx : Context) : dnsEnablerDisabler :=
  DNS _ ∅ None None ctx None None 0 None ∅ 1%positive.

(** [time.AfterFunc], which answers the timer, and [Timer.Stop]. *)
Definition AfterFunc (after : Duration) : M positive :=
  id ← gets d_nextTimer;
  modify (λ d, d <| d_timers ::= <[id := Timer after false]> |> <| d_nextTimer ::= Pos.succ |>) ;;
  mret id.
(** A timer that has expired already is not stopped. *)
Definition stopped (id : positive) (timers : gmap positive timer) : gmap positive timer :=
  match timers !! id with
  | Some t => if tm_expired t then timers else delete id timers
  | None => timers
  end.
Definition stopTimer : M unit :=
  t ← gets d_retryTimer;
  match t with
  | Some id => modify (λ d, d <| d_timers ::= stopped id |>)
  | None => mret tt
  end.

(** [updateStatus] *)
Definition updateStatus (name namespace : string) (status : NodeDNSRecordSetStatus)
    {C} : Go.M C W (option error) :=
  r ← call (api_Get namespace name);
  match r with
  | inr err => mret (Some (WrapError "loading NodeDNSRecordSet: " err))
  | inl k8s =>
      if bool_decide (status = nds_Status k8s) then mret None
      else
        let k8s := {| nds_meta := nds_meta k8s; nds_Spec := nds_Spec k8s; nds_Status := status |} in
        r ← call (api_UpdateStatus namespace k8s);
        match r with
        | inr err => mret (Some (WrapError "updating NodeDNSRecordSet status: " err))
        | inl _ => mret None
        end
  end.

(** [metricLabels] *)
Definition metricLabels : M Labels :=
  k8s ← gets d_k8s; k8s ← deref k8s;
  p ← gets d_provider; p ← deref p;
  let record := nds_DNSRecordSet (nds_Spec k8s) in
  mret [("namespace", meta_Namespace (nds_meta k8s));
        ("name", meta_Name (nds_meta k8s));
        ("provider", GetProviderName p);
        ("dns", RecordNameAndZoneToFQDN p (dns_Zone record) (dns_RecordName record))].

(** The type assertion [v.(provider.DNSProvider)], which panics if it fails. *)
Definition assert_DNSProvider (v : option Ref) : M Ref :=
  p ← deref v; if is_DNSProvider p then mret p else panic.

(** [update] *)
Definition needsRestart (k8s : NodeDNSRecordSet) (provs : Registry) : M bool :=
  mc ← gets d_matchController;
  match mc with
  | None => mret false
  | Some mc =>
      p ← gets d_provider;
      if negb (IsCriteriaEqual (Some (nds_Match (nds_Spec k8s))) mc) ||
         negb (bool_decide (p = Registry.Get provs (dns_Provider (nds_DNSRecordSet (nds_Spec k8s)))))
      then mret true
      else
        old ← gets d_k8s; old ← deref old;
        mret (negb (bool_decide (nds_DNSRecordSet (nds_Spec old) = nds_DNSRecordSet (nds_Spec k8s))))
  end.

Definition update (k8s : NodeDNSRecordSet) (provs : Registry) (metricRecords : Ref) : M unit :=
  old ← gets d_k8s;
  when (match old with Some _ => true | None => false end)
    (labels ← metricLabels; call (gauge_Delete metricRecords labels)) ;;
  restart ← needsRestart k8s provs;
  when restart (modify (λ d, d <| d_matchController := None |> <| d_activeNodes := ∅ |>)) ;;
  p ← assert_DNSProvider (Registry.Get provs (dns_Provider (nds_DNSRecordSet (nds_Spec k8s))));
  modify (λ d, d <| d_provider := Some p |>) ;;
  mc ← gets d_matchController;
  when (match mc with None => true | Some _ => false end)
    (modify (λ d, d <| d_matchController :=
               Some (SetCriteria (nds_Match (nds_Spec k8s)) (NewController self)) |>) ;;
     stopTimer) ;;
  modify (λ d, d <| d_k8s := Some k8s |>) ;;
  labels ← metricLabels;
  g ← call (gauge_With metricRecords labels);
  modify (λ d, d <| d_metricRecords := Some g |>).

(** The addresses of the active nodes, in the order in which Go visits them. *)
Definition activeIPs (addressType : string) : M (list string) :=
  nodes ← gets d_activeNodes;
  names ← range_keys nodes;
  mret (names ≫= λ name, match nodes !! name with
                          | Some node => nodeIPs addressType node
                          | None => []
                          end).

(** [applyDNS]: the status says what became of the record set; the counter of
    retries is reset whenever the status could be stored. *)
Definition applyDNS : M unit :=
  k8s ← gets d_k8s; k8s ← deref k8s;
  let record := nds_DNSRecordSet (nds_Spec k8s) in
  ips ← activeIPs (wantedType (nds_Spec k8s));
  p ← gets d_provider; p ← deref p;
  err ← call (EnsureDNSARecordSet p (dns_Zone record) (dns_RecordName record) ips (dns_TTL record));
  status ← (match err with
            | Some err =>
                retries ← gets d_retries;
                retryAfter ← deref (Retry.After (ErrorToRetrySchedule err) retries);
                t ← AfterFunc retryAfter;
                modify (λ d, d <| d_retryTimer := Some t |> <| d_retries ::= Z.succ |>) ;;
                mret {| nds_Error := "Failed to update DNS: " +:+ Error err;
                        nds_State := NodeDNSRecordInProgress |}
            | None => mret {| nds_Error := ""; nds_State := NodeDNSRecordActive |}
            end);
  err ← updateStatus (meta_Name (nds_meta k8s)) (meta_Namespace (nds_meta k8s)) status;
  match err with
  | Some _ => mret tt
  | None =>
      g ← gets d_metricRecords; g ← deref g;
      call (gauge_Set g (Z.of_nat (length ips))) ;;
      modify (λ d, d <| d_retries := 0%Z |>)
  end.

(** A timer expires, and its function runs. *)
Definition expire (id : positive) : M unit :=
  modify (λ d, d <| d_timers ::= alter (λ t, Timer (tm_after t) true) id |>).
Definition fire (id : positive) : M unit :=
  modify (λ d, d <| d_timers ::= delete id |>) ;; applyDNS.

Definition EnableNodes (nodes : list Node) : M unit :=
  modify (λ d, d <| d_activeNodes ::= λ m, foldl (λ m n, <[node_Name n := n]> m) m nodes |>) ;;
  applyDNS.
Definition DisableNodes (nodes : list Node) : M unit :=
  modify (λ d, d <| d_activeNodes ::= λ m, foldl (λ m n, delete (node_Name n) m) m nodes |>) ;;
  applyDNS.

Definition stop : M unit :=
  stopTimer ;;
  modify (λ d, d <| d_matchController ::= fmap Stop |>).
Definition start (ctx : Context) : M unit :=
  modify (λ d, d <| d_ctx := ctx |>) ;;
  mc ← gets d_matchController; mc ← deref mc;
  modify (λ d, d <| d_matchController := Some (Start mc) |>).
End dns.

(** ** The controller of the resources *)
Module Parent.
Record Controller `{!KubeAPI} : Type := Controller_ {
  c_providers : Registry;
  c_children : gmap string dnsEnablerDisabler;
  c_ctx : Context;
  c_metricRecords : Ref;
}.
Definition eta_Controller `{!KubeAPI} (c : Controller) : Controller :=
  Controller_ _ (c_providers c) (c_children c) (c_ctx c) (c_metricRecords c).
#[export] Instance set_c_children `{!KubeAPI} : Setter c_children :=
  ltac:(let b := eval cbv beta delta [eta_Controller] in eta_Controller in
        derive_setter_in b c_children).

(** An object the informer delivers. *)
Inductive object : Type :=
  | ObjRecordSet (nrs : NodeDNSRecordSet)
  | ObjOther.

Section parent.
Context `{!KubeAPI} {W : Type} `{!NodeDNSEnv W, !ProviderKinds, !GoFmt}.
Local Abbreviation M := (M Controller W).

Definition NewController (providers : Registry) (metricRecords : Ref) : Controller :=
  Controller_ _ providers ∅ Background metricRecords.

(** A method of a child, through its pointer in the map. *)
Definition on_child {A} (uid : string) (m : Go.M dnsEnablerDisabler W A) : M A := λ c w,
  match c_children c !! uid with
  | None => Panic
  | Some d => match m d w with
              | Ret (a, d', w') => Ret (a, c <| c_children ::= <[uid := d']> |>, w')
              | Panic => Panic
              | OutOfFuel => OutOfFuel
              end
  end.

(** [validate] reports what is wrong in the status of the resource. *)
Definition invalid (nrs : NodeDNSRecordSet) (msg : string) : M bool :=
  _ ← updateStatus (meta_Name (nds_meta nrs)) (meta_Namespace (nds_meta nrs))
        {| nds_Error := msg; nds_State := NodeDNSRecordError |};
  mret false.

Definition validate (nrs : NodeDNSRecordSet) : M bool :=
  provs ← gets c_providers;
  let record := nds_DNSRecordSet (nds_Spec nrs) in
  match Registry.Get provs (dns_Provider record) with
  | None => invalid nrs ("unknown provider " +:+ fmt_q (dns_Provider record))
  | Some prov =>
      if negb (is_DNSProvider prov) then
        invalid nrs ("provider " +:+ fmt_q (dns_Provider record) +:+ " does not provide DNS")
      else if bool_decide (dns_Zone record = "") || bool_decide (dns_RecordName record = "") then
        invalid nrs "invalid dnsRecordSet specification"
      else match ValidateMatch (nds_Match (nds_Spec nrs)) with
           | Some err => invalid nrs ("Error " +:+ Error err)
           | None => mret true
           end
  end.

Definition updateOrAdd (nrs : NodeDNSRecordSet) : M unit :=
  let uid := meta_UID (nds_meta nrs) in
  isValid ← validate nrs;
  cctx ← gets c_ctx;
  let ctx := WithKubeObject cctx (nds_meta nrs) (kind_of nrs) in
  children ← gets c_children;
  let known := match children !! uid with Some _ => true | None => false end in
  if negb known && negb isValid then mret tt
  else
    when (negb known) (modify (λ c, c <| c_children ::= <[uid := newDNSEnablerDisabler ctx]> |>)) ;;
    if negb isValid then
      on_child uid stop ;;
      modify (λ c, c <| c_children ::= delete uid |>)
    else
      provs ← gets c_providers;
      metricRecords ← gets c_metricRecords;
      on_child uid (update nrs provs metricRecords) ;;
      on_child uid (start ctx).

(** The event handlers; an object of another type is a [nil] resource. *)
Definition OnAdd (obj : object) : M unit :=
  match obj with ObjRecordSet nrs => updateOrAdd nrs | ObjOther => panic end.
Definition OnUpdate (obj : object) : M unit :=
  match obj with ObjRecordSet nrs => updateOrAdd nrs | ObjOther => panic end.
Definition OnDelete (obj : object) : M unit :=
  match obj with
  | ObjOther => panic
  | ObjRecordSet nrs =>
      let uid := meta_UID (nds_meta nrs) in
      children ← gets c_children;
      match children !! uid with
      | None => mret tt
      | Some _ =>
          on_child uid stop ;;
          labels ← on_child uid metricLabels;
          metricRecords ← gets c_metricRecords;
          call (gauge_Delete metricRecords labels) ;;
          modify (λ c, c <| c_children ::= delete uid |>)
      end
  end.

(** [Run], before the informer runs and after it has stopped. *)
Definition Run_start (ctx : Context) (c : Controller) : Controller :=
  Controller_ _ (c_providers c) (c_children c) ctx (c_metricRecords c).
Definition Run_shutdown : M unit :=
  children ← gets c_children;
  uids ← range_keys children;
  for_each uids (λ uid, on_child uid stop ;; modify (λ c, c <| c_children ::= delete uid |>)).
End parent.
End Parent.
