(* ===== verification/NodeDNSProps.v ===== *)
(** * Properties of the DNS publisher

    What one run of [applyDNS] achieves, the retry timers, and the object as the
    action of a match controller. *)
From S2P Require Import Prelude Go Retry GoText K8s Types Provider ProviderMetrics.
From S2P Require Import Registry.
From S2P Require Import NodeMatch NodeDNS.

(** [published w zone record]: the addresses the record set holds. *)
Class NodeDNSGhost (W : Type) : Type := { published : W → string → string → gset string }.

(** The contract of a DNS provider, and the rest of the world: it does not touch
    the record sets. *)
Class NodeDNSLaws (W : Type) `{!NodeDNSEnv W, !NodeDNSGhost W} : Prop := {
  #[global] nodednslaws_range :: MapRangeLaws W;
  nl_ensure p zone record ips ttl w w' :
    EnsureDNSARecordSet p zone record ips ttl w = (None, w') →
    published w' zone record = list_to_set ips;
  nl_usable p zone record ips ttl w e w' :
    EnsureDNSARecordSet p zone record ips ttl w = (Some e, w') → usable_error e;
  nl_range ks w : published (range_order ks w).2 = published w;
  nl_get ns name w : published (api_Get ns name w).2 = published w;
  nl_status ns nrs w : published (api_UpdateStatus ns nrs w).2 = published w;
  nl_delete v l w : published (gauge_Delete v l w).2 = published w;
  nl_with v l w : published (gauge_With v l w).2 = published w;
  nl_set g n w : published (gauge_Set g n w).2 = published w;
}.

Section props.
Context `{!KubeAPI} `{NodeDNSLaws W} `{!ProviderKinds, !GoFmt}.
Implicit Types (d : dnsEnablerDisabler) (w : W) (k8s : NodeDNSRecordSet).

(** A call that does not touch the record sets. *)
Lemma wp_quiet {C A} E (f : W → A * W) (Q : A → C → W → Prop) c w :
  (∀ w, published (f w).2 = published w) →
  (∀ a w', published w' = published w → Q a c w') → wp E (call f) Q c w.
Proof.
  intros Hf HQ. apply wp_call. intros a w' Hw. apply HQ. by rewrite <- (Hf w), Hw.
Qed.

(** The addresses that are to be published. *)
Definition addresses (spec : NodeDNSRecordSetSpec) d : gset string :=
  ⋃ (list_to_set ∘ nodeIPs (wantedType spec) <$> (map_to_list (d_activeNodes d)).*2).

Lemma elem_of_addresses spec d ip : ip ∈ addresses spec d ↔
  ∃ name node, d_activeNodes d !! name = Some node ∧ ip ∈ nodeIPs (wantedType spec) node.
Proof.
  unfold addresses. rewrite elem_of_union_list. split.
  - intros (X & HX & Hip). apply list_elem_of_fmap in HX as (node & -> & Hn).
    apply list_elem_of_fmap in Hn as ([name node'] & -> & Hn%elem_of_map_to_list).
    exists name, node'. split; [done|]. by apply elem_of_list_to_set in Hip.
  - intros (name & node & Hn & Hip). exists (list_to_set (nodeIPs (wantedType spec) node)). split.
    + apply list_elem_of_fmap. exists node. split; [done|]. apply list_elem_of_fmap.
      exists (name, node). split; [done|]. by apply elem_of_map_to_list.
    + by apply elem_of_list_to_set.
Qed.

Lemma wp_activeIPs E spec d w :
  wp E (activeIPs (wantedType spec))
    (λ ips d' w', d' = d ∧ published w' = published w ∧ list_to_set ips = addresses spec d) d w.
Proof.
  unfold activeIPs, range_keys. wp_steps. apply wp_call. intros names w' Hr. wp_steps.
  split; [done|]. split.
  { rewrite <- (nl_range ((map_to_list (d_activeNodes d)).*1) w). by rewrite Hr. }
  apply set_eq. intros ip. rewrite elem_of_list_to_set, elem_of_addresses, list_elem_of_bind. split.
  - intros (name & Hip & _). destruct (d_activeNodes d !! name) as [node|] eqn:Hn; [eauto|].
    by apply elem_of_nil in Hip.
  - intros (name & node & Hn & Hip). exists name. rewrite Hn. split; [done|].
    eapply range_order_elem; [exact Hr|by eexists].
Qed.

(** The API always stores the status. *)
Definition status_stored : Prop :=
  (∀ ns name w, ∃ nrs w', api_Get ns name w = (inl nrs, w')) ∧
  (∀ ns nrs w, ∃ w', api_UpdateStatus ns nrs w = (inl tt, w')).

Lemma wp_updateStatus {C} E name ns status (c : C) w :
  wp E (updateStatus name ns status)
    (λ r c' w', c' = c ∧ published w' = published w ∧ (status_stored → r = None)) c w.
Proof.
  unfold updateStatus. wp_steps. apply wp_call. intros r w1 Hg.
  assert (published w1 = published w) as Hv1 by (by rewrite <- (nl_get ns name w), Hg).
  destruct r as [k8s|err]; wp_steps.
  - case_bool_decide; wp_steps; [done|]. apply wp_call. intros r w2 Hs.
    assert (published w2 = published w1) as Hv2 by 
      (by match type of Hs with _ ?n ?k ?w = _ => rewrite <- (nl_status n k w), Hs end).
    destruct r as [[]|err]; wp_steps; (split_and!; [done|congruence|]); [done|].
    intros [_ Hst]. edestruct Hst as [w3 Hw3]. by rewrite Hw3 in Hs.
  - split_and!; [done..|]. intros [Hst _]. destruct (Hst ns name w) as (? & ? & Hw3). by rewrite Hw3 in Hg.
Qed.

(** The object is set up: it has a resource, a provider and a gauge. *)
Record configured d k8s (p : Ref) : Prop := {
  cf_k8s : d_k8s d = Some k8s;
  cf_provider : d_provider d = Some p;
  cf_gauge : is_Some (d_metricRecords d);
  cf_retries : (0 ≤ d_retries d)%Z;
}.

(** What a reply of the provider does to the timers. *)
Definition armed d (err : option error) d' : Prop :=
  match err with
  | None => d_timers d' = d_timers d ∧ d_retryTimer d' = d_retryTimer d
  | Some e => ∃ after, Retry.After (ErrorToRetrySchedule e) (d_retries d) = Some after ∧
      d_timers d' = <[d_nextTimer d := Timer after false]> (d_timers d) ∧
      d_retryTimer d' = Some (d_nextTimer d)
  end.

(** The counter after a reply. *)
Definition bump (err : option error) (retries : Z) : Z :=
  match err with Some _ => (retries + 1)%Z | None => retries end.

(** The fields an application of the records leaves alone. *)
Definition fixed d := (d_activeNodes d, d_provider d, d_k8s d, d_matchController d, d_metricRecords d).

(** One application: the provider is asked to publish the addresses of the active
    nodes; if it refuses a timer is armed. *)
Lemma applyDNS_spec d w k8s p :
  configured d k8s p →
  wp False applyDNS (λ _ d' w',
    fixed d' = fixed d ∧ (0 ≤ d_retries d')%Z ∧ ∃ err, armed d err d' ∧
      (d_retries d' = 0%Z ∨ d_retries d' = bump err (d_retries d)) ∧
      let record := nds_DNSRecordSet (nds_Spec k8s) in
      (err = None → published w' (dns_Zone record) (dns_RecordName record) =
                      addresses (nds_Spec k8s) d) ∧
      (∀ e, err = Some e → usable_error e) ∧ (status_stored → d_retries d' = 0%Z)) d w.
Proof.
  intros [Hk Hp [g Hg] Hr]. unfold applyDNS. wp_steps. rewrite Hk. wp_steps.
  eapply wp_mono; [|apply wp_activeIPs]. intros ips d1 w1 (-> & Hv1 & Hips). wp_steps.
  rewrite Hp. wp_steps. apply wp_call. intros err w2 He. wp_steps.
  apply (wp_mono _ _ (λ _ d' w', w' = w2 ∧ fixed d' = fixed d ∧ armed d err d' ∧
    d_retries d' = bump err (d_retries d))).
  - intros status d3 w3 (-> & Hf & Ha & Hr3). wp_steps.
    eapply wp_mono; [|apply wp_updateStatus]. intros serr d4 w4 (-> & Hv4 & Hst).
    assert (∀ e, err = Some e → usable_error e) as Hu.
    { intros e ->. eapply nl_usable; exact He. }
    assert (err = None → published w4 (dns_Zone (nds_DNSRecordSet (nds_Spec k8s)))
      (dns_RecordName (nds_DNSRecordSet (nds_Spec k8s))) = addresses (nds_Spec k8s) d) as Hpub.
    { intros ->. rewrite Hv4, <- Hips. eapply nl_ensure. exact He. }
    destruct serr as [serr|]; wp_steps.
    + split; [done|]. split; [rewrite Hr3; unfold bump; destruct err; lia|]. exists err.
      split_and!; [done|by right|done..|]. intros Hs. by specialize (Hst Hs).
    + assert (d_metricRecords d3 = Some g) as -> by (injection Hf; congruence). wp_steps.
      apply wp_quiet; [apply nl_set|]. intros [] w5 Hv5. wp_steps.
      split; [done|]. split; [done|]. exists err. split.
      * by destruct err.
      * split; [by left|]. cbn. by rewrite Hv5.
  - destruct err as [e|]; wp_steps; [|done].
    assert (usable_error e) as Hue by (eapply nl_usable; exact He).
    destruct (After_usable _ (d_retries d) Hue Hr) as (after & Hafter & _).
    rewrite Hafter. wp_steps. unfold AfterFunc. wp_steps. split_and!; [done..| |done].
    by exists after.
Qed.

(** ** The timers *)
Lemma wp_stopTimer E d w :
  wp E stopTimer (λ _ d' w', w' = w ∧ fixed d' = fixed d ∧ d_retries d' = d_retries d ∧
    d_timers d' = match d_retryTimer d with Some id => stopped id (d_timers d) | None => d_timers d end) d w.
Proof. unfold stopTimer. wp_steps. destruct (d_retryTimer d); by wp_steps. Qed.

(** What happens to an object between two updates of its resource. *)
Inductive dns_op : Type :=
  | OpEnable (nodes : list Node)
  | OpDisable (nodes : list Node)
  | OpExpire (id : positive)
  | OpFire (id : positive).
Definition exec_op (op : dns_op) : M dnsEnablerDisabler W unit :=
  match op with
  | OpEnable nodes => EnableNodes nodes
  | OpDisable nodes => DisableNodes nodes
  | OpExpire id => expire id
  | OpFire id => fire id
  end.

(** Every timer was armed for the first duration of the schedule of its error. *)
Definition first_only d : Prop := ∀ id t, d_timers d !! id = Some t →
  ∃ e, Retry.After (ErrorToRetrySchedule e) 0 = Some (tm_after t).

Lemma configured_fixed d d' k8s p :
  configured d k8s p → fixed d' = fixed d → (0 ≤ d_retries d')%Z → configured d' k8s p.
Proof. unfold fixed. intros [? ? ? ?] [= ? ? ? ? ?]. split; congruence. Qed.

Lemma applyDNS_first_only d w k8s p :
  status_stored → configured d k8s p → d_retries d = 0%Z → first_only d →
  wp False applyDNS (λ _ d' _, configured d' k8s p ∧ d_retries d' = 0%Z ∧ first_only d') d w.
Proof.
  intros Hst Hc Hr Hf. eapply wp_mono; [|by apply (applyDNS_spec _ _ k8s p)].
  intros [] d' w' (Hfix & Hr' & err & Ha & _ & _ & _ & Hz). specialize (Hz Hst).
  split_and!; [by eapply configured_fixed|done|]. destruct err as [e|]; cbn in Ha.
  - destruct Ha as (after & Hafter & Ht & _). intros id t. rewrite Ht.
    intros [[_ <-]|[_ Hid]]%lookup_insert_Some; [|by eapply Hf]. exists e. by rewrite <- Hr.
  - destruct Ha as [Ht _]. intros id t. rewrite Ht. apply Hf.
Qed.

Lemma exec_op_first_only op d w k8s p :
  status_stored → configured d k8s p → d_retries d = 0%Z → first_only d →
  wp False (exec_op op) (λ _ d' _, configured d' k8s p ∧ d_retries d' = 0%Z ∧ first_only d') d w.
Proof.
  intros Hst Hc Hr Hf. destruct op as [nodes|nodes|id|id]; cbn [exec_op];
    unfold EnableNodes, DisableNodes, expire, fire; wp_steps.
  - apply applyDNS_first_only; [done| |done|exact Hf]. by destruct Hc.
  - apply applyDNS_first_only; [done| |done|exact Hf]. by destruct Hc.
  - split_and!; [by destruct Hc|done|]. intros id' t. cbn. intros Ht.
    destruct (decide (id' = id)) as [->|Hne].
    + rewrite lookup_alter_eq in Ht. destruct (d_timers d !! id) as [t0|] eqn:Ht0; [|done].
      injection Ht as <-. apply (Hf id t0 Ht0).
    + rewrite lookup_alter_ne in Ht by done. by eapply Hf.
  - apply applyDNS_first_only; [done|by destruct Hc|done|]. intros id' t. cbn.
    intros [_ Ht]%lookup_delete_Some. by eapply Hf.
Qed.

(** ** Updates of the resource *)

(** The match controller is kept if its criteria, the provider and the record set
    are those of the new resource. *)
Definition keeps (provs : Registry) (k8s : NodeDNSRecordSet) d (mc : Controller) : Prop :=
  m_match mc = Some (nds_Match (nds_Spec k8s)) ∧
  d_provider d = Registry.Get provs (dns_Provider (nds_DNSRecordSet (nds_Spec k8s))) ∧
  (nds_DNSRecordSet ∘ nds_Spec) <$> d_k8s d = Some (nds_DNSRecordSet (nds_Spec k8s)).
Global Instance keeps_dec provs k8s d mc : Decision (keeps provs k8s d mc).
Proof. unfold keeps. apply _. Defined.

(** An object that is new, or set up for some resource. *)
Definition updatable d : Prop :=
  (d_k8s d = None ∧ d_matchController d = None ∧ (0 ≤ d_retries d)%Z) ∨
  ∃ old p, configured d old p.

Lemma wp_metricLabels E d w k8s p : d_k8s d = Some k8s → d_provider d = Some p →
  wp E metricLabels (λ _ d' w', d' = d ∧ w' = w) d w.
Proof. intros Hk Hp. unfold metricLabels. wp_steps. rewrite Hk. wp_steps. rewrite Hp. by wp_steps. Qed.

Lemma wp_needsRestart E provs k8s d w : updatable d →
  wp E (needsRestart k8s provs) (λ r d' w', d' = d ∧ w' = w ∧
    r = match d_matchController d with
        | Some mc => negb (bool_decide (keeps provs k8s d mc)) | None => false end) d w.
Proof.
  intros Hu. unfold needsRestart. wp_steps. destruct (d_matchController d) as [mc|] eqn:Hmc; wp_steps; [|done].
  destruct Hu as [(_ & ? & _)|(old & p & Hc)]; [congruence|]. destruct Hc as [Hk Hp _ _].
  unfold IsCriteriaEqual. destruct (negb _ || negb _) eqn:Hb.
  - wp_steps. split_and!; [done..|]. symmetry. apply negb_true_iff, bool_decide_eq_false.
    intros (Hm & Hpr & _). rewrite Hm, Hpr in Hb. by rewrite !bool_decide_true in Hb.
  - wp_steps. rewrite Hk. wp_steps. split_and!; [done..|]. f_equal.
    apply orb_false_iff in Hb as [Hb1%negb_false_iff%bool_decide_eq_true
                                  Hb2%negb_false_iff%bool_decide_eq_true].
    apply bool_decide_ext. unfold keeps. rewrite Hk. cbn. split.
    + intros Heq. split_and!; [by rewrite Hb1|done|by rewrite Heq].
    + by intros (_ & _ & [= Heq]).
Qed.

Lemma wp_update E provs k8s vec d w p :
  updatable d → Registry.Get provs (dns_Provider (nds_DNSRecordSet (nds_Spec k8s))) = Some p →
  is_DNSProvider p = true →
  wp E (update k8s provs vec) (λ _ d' w',
    configured d' k8s p ∧ published w' = published w ∧
    match d_matchController d with
    | Some mc => if decide (keeps provs k8s d mc)
                 then d_matchController d' = Some mc ∧ d_activeNodes d' = d_activeNodes d ∧
                      d_timers d' = d_timers d ∧ d_retryTimer d' = d_retryTimer d
                 else d_matchController d' = Some (SetCriteria (nds_Match (nds_Spec k8s)) (NewController self)) ∧
                      d_activeNodes d' = ∅
    | None => d_matchController d' = Some (SetCriteria (nds_Match (nds_Spec k8s)) (NewController self)) ∧
              d_activeNodes d' = d_activeNodes d
    end) d w.
Proof.
  intros Hu Hget Hdns. unfold update. wp_steps.
  apply (wp_mono _ _ (λ _ d' w', d' = d ∧ published w' = published w)).
  2: { destruct Hu as [(Hk & _)|(old & p0 & [Hk Hp0 _ _])]; rewrite Hk; cbn [when]; [by wp_steps|].
    wp_steps. eapply wp_mono; [|by eapply wp_metricLabels]. intros labels d1 w1 [-> ->].
    apply wp_quiet; [apply nl_delete|]. by intros [] w2 Hv2. }
  intros [] d1 w1 [-> Hv1]. wp_steps. eapply wp_mono; [|by apply wp_needsRestart].
  intros restart d1 w2 (-> & -> & Hr). wp_steps.
  set (d1 := if restart then d <| d_matchController := None |> <| d_activeNodes := ∅ |> else d).
  apply (wp_mono _ _ (λ _ d' w', d' = d1 ∧ w' = w1)).
  2: { subst d1. destruct restart; cbn [when]; by wp_steps. }
  intros [] d2 w2 [-> ->]. wp_steps. unfold assert_DNSProvider. rewrite Hget. wp_steps.
  rewrite Hdns. wp_steps.
  assert (0 ≤ d_retries d1)%Z as Hret.
  { subst d1. destruct Hu as [(_ & _ & Hret)|(old & p0 & [_ _ _ Hret])]; by destruct restart. }
  apply (wp_mono _ _ (λ _ d' w', w' = w1 ∧ (0 ≤ d_retries d')%Z ∧ d_provider d' = Some p ∧
    d_activeNodes d' = d_activeNodes d1 ∧
    match d_matchController d1 with
    | Some mc => d_matchController d' = Some mc ∧ d_timers d' = d_timers d1 ∧ d_retryTimer d' = d_retryTimer d1
    | None => d_matchController d' = Some (SetCriteria (nds_Match (nds_Spec k8s)) (NewController self))
    end)).
  2: { cbn [set_d_provider]. change (d_matchController (d1 <| d_provider := Some p |>)) with (d_matchController d1).
    destruct (d_matchController d1) as [mc|] eqn:Hmc1; cbn [when].
    { wp_steps. by split_and!. }
    wp_steps.
    eapply wp_mono; [|apply wp_stopTimer]. intros [] d2 w2 (-> & Hf & Hr2 & _).
    unfold fixed in Hf. cbn in Hf. injection Hf as Ha Hp Hk Hm Hg. rewrite Hr2. split_and!; try done. }
  intros [] d2 w2 (-> & Hret2 & Hp2 & Ha2 & Hm2). wp_steps.
  eapply wp_mono; [|eapply (wp_metricLabels _ _ _ k8s p); [done|exact Hp2]].
  intros labels d3 w3 [-> ->]. wp_steps. apply wp_quiet; [apply nl_with|]. intros g w4 Hv4. wp_steps.
  split; [by split; cbn|]. split; [congruence|]. cbn. rewrite Ha2.
  assert (match d_matchController d with Some mc => restart = negb (bool_decide (keeps provs k8s d mc))
    | None => restart = false end) as Hr' by (by destruct (d_matchController d)).
  clear Hr. subst d1. destruct (d_matchController d) as [mc|] eqn:Hmc.
  - case_decide as Hkeep; subst restart.
    + rewrite bool_decide_true in Hm2 |- * by done. cbn in Hm2 |- *. rewrite Hmc in Hm2. naive_solver.
    + rewrite bool_decide_false in Hm2 |- * by done. by cbn in Hm2 |- *.
  - subst restart. by rewrite Hmc in Hm2.
Qed.
End props.
