(* ===== verification/NodeDNSSim.v ===== *)
(** * A simulated world of the DNS controller

    A DNS service that publishes what it is asked to unless it is told to fail,
    an API with one resource, and a cluster with nodes and pods. *)
From S2P Require Import Prelude Go Retry GoText K8s Types Provider ProviderMetrics.
From S2P Require Import Registry.
From S2P Require Import NodeMatch NodeMatchProps NodeDNS NodeDNSProps.

Record DNSSim : Type := DNSSim_ {
  dn_records : gmap (string * string) (list string);
  dn_fail : option error;                       (* what the DNS service answers *)
  dn_resource : NodeDNSRecordSet;               (* as the API has it *)
  dn_pods : list Pod;
  dn_nodes : list Node;
}.
Definition eta_DNSSim (s : DNSSim) : DNSSim :=
  DNSSim_ (dn_records s) (dn_fail s) (dn_resource s) (dn_pods s) (dn_nodes s).
#[export] Instance set_dn_records : Setter dn_records := ltac:(derive_setter eta_DNSSim dn_records).
#[export] Instance set_dn_fail : Setter dn_fail := ltac:(derive_setter eta_DNSSim dn_fail).
#[export] Instance set_dn_resource : Setter dn_resource := ltac:(derive_setter eta_DNSSim dn_resource).
#[export] Instance set_dn_pods : Setter dn_pods := ltac:(derive_setter eta_DNSSim dn_pods).

#[export] Instance dnssim_fmt : GoFmt := {| fmt_q s := s |}.
#[export] Instance dnssim_range : MapRange DNSSim := {| range_order ks w := (ks, w) |}.
#[export] Instance dnssim_base : BaseProvider DNSSim := {| GetProviderName _ := "sim" |}.
#[export] Instance dnssim_provider : DNSProvider DNSSim := {|
  EnsureDNSARecordSet _ zone record ips _ w :=
    match dn_fail w with
    | Some e => (Some (if decide (usable_error e) then e else ErrNotFound), w)
    | None => (None, w <| dn_records ::= <[(zone, record) := ips]> |>)
    end;
  RecordNameAndZoneToFQDN _ zone record := record +:+ "." +:+ zone;
|}.
#[export] Instance dnssim_env : NodeDNSEnv DNSSim := {|
  api_Get _ _ w := (inl (dn_resource w), w);
  api_UpdateStatus _ nrs w := (inl tt, w <| dn_resource := nrs |>);
  gauge_Delete _ _ w := (tt, w);
  gauge_With _ _ w := (1%positive, w);
  gauge_Set _ _ w := (tt, w);
  kind_of _ := Some "";
|}.
#[export] Instance dnssim_ghost : NodeDNSGhost DNSSim := {|
  published w zone record := list_to_set (default [] (dn_records w !! (zone, record)));
|}.
#[export] Instance dnssim_laws : NodeDNSLaws DNSSim.
Proof.
  split; try done; cbn.
  - intros p zone record ips ttl w w'. destruct (dn_fail w); [done|]. intros [= <-]. cbn.
    by rewrite lookup_insert_eq.
  - intros p zone record ips ttl w e w'. destruct (dn_fail w) as [e0|]; [|done].
    intros [= <- <-]. case_decide; [done|apply usable_ErrNotFound].
Qed.
(** The providers 2 and 4 serve DNS. *)
#[export] Instance dnssim_kinds : ProviderKinds := {|
  is_IPProvider p := bool_decide (p = 3%positive);
  is_DNSProvider p := bool_decide (p = 2%positive) || bool_decide (p = 4%positive);
|}.

Module DNSExample.
Definition node_ (name external internal : string) : Node := {|
  node_Name := name; node_ProviderID := "do://" +:+ name; node_Labels := ∅; node_Annotations := ∅;
  node_Deleting := false; node_Taints := []; node_Conditions := [Cluster.ready_cond];
  node_Addresses := [{| addr_Type := "ExternalIP"; addr_Address := external |};
                     {| addr_Type := "InternalIP"; addr_Address := internal |}] |}.
Definition resource (addressType : string) : NodeDNSRecordSet := {|
  nds_meta := {| meta_Namespace := "ns"; meta_Name := "r"; meta_UID := "u" |};
  nds_Spec := {|
    nds_Match := {| NodeLabel := ""; PodLabel := ""; PodNamespace := ""; Tolerations := None |};
    nds_DNSRecordSet := {| dns_Provider := "sim"; dns_Zone := "z"; dns_RecordName := "www"; dns_TTL := 30 |};
    nds_AddressType := addressType |};
  nds_Status := {| nds_Error := ""; nds_State := "" |} |}.
Definition registry : Registry := Registry_ {["sim" := 2%positive]} None None.
Definition w0 : DNSSim := DNSSim_ ∅ None (resource "") [] [].

(** An object set up for the resource, with the active node "a" published. *)
Definition d0 : dnsEnablerDisabler := newDNSEnablerDisabler Background.
Definition run {A} (m : M dnsEnablerDisabler DNSSim A) (s : dnsEnablerDisabler * DNSSim)
    : dnsEnablerDisabler * DNSSim :=
  match m s.1 s.2 with Ret (_, d, w) => (d, w) | _ => s end.
Definition configured0 : dnsEnablerDisabler * DNSSim :=
  run (update (resource "") registry 9%positive ;; start Background) (d0, w0).
Definition published0 : dnsEnablerDisabler * DNSSim :=
  run (EnableNodes [node_ "a" "192.0.2.1" "10.0.0.1"]) configured0.

Lemma published0_configured : configured published0.1 (resource "") 2%positive.
Proof. split; [vm_compute; reflexivity..|by eexists; vm_compute|vm_compute; discriminate]. Qed.
Lemma published0_addresses : published published0.2 "z" "www" = {["192.0.2.1"]}.
Proof. vm_compute. reflexivity. Qed.
Lemma status_stored0 : status_stored (W := DNSSim).
Proof. split; [intros ns name w; by eexists _, _|intros ns nrs w; by eexists]. Qed.
End DNSExample.
