(* ===== verification/NodeDNSSpec.v ===== *)
(** * What the DNS publisher guarantees, and what it does not

    Publication, retries, timers and changes of the resource. *)
From S2P Require Import Prelude Go Retry GoText K8s Types Provider ProviderMetrics.
From S2P Require Import Registry.
From S2P Require Import NodeMatch NodeMatchProps NodeDNS NodeDNSProps NodeDNSSim.

(** Whenever the nodes change, or a timer fires, the record set holds
    afterwards exactly the IPv4 addresses, of the wanted type, of the active nodes;
    or the provider refused, and a timer is armed that will try again, after the
    duration the schedule of the error gives for the number of retries so far. *)
Theorem published_or_retried `{!KubeAPI} `{NodeDNSLaws W} `{!ProviderKinds, !GoFmt}
    (d : dnsEnablerDisabler) (w : W) (k8s : NodeDNSRecordSet) (p : Ref) :
  configured d k8s p →
  wp False applyDNS (λ _ d' w',
    configured d' k8s p ∧ d_activeNodes d' = d_activeNodes d ∧
    let record := nds_DNSRecordSet (nds_Spec k8s) in
    (published w' (dns_Zone record) (dns_RecordName record) = addresses (nds_Spec k8s) d' ∨
     ∃ e after id, d_retryTimer d' = Some id ∧ d_timers d' !! id = Some (Timer after false) ∧
       Retry.After (ErrorToRetrySchedule e) (d_retries d) = Some after)) d w.
Proof.
  intros Hc. eapply wp_mono; [|by apply (applyDNS_spec _ _ k8s p)].
  intros [] d' w' (Hf & Hr & err & Ha & _ & Hp & _ & _).
  assert (d_activeNodes d' = d_activeNodes d) as Hact by (by injection Hf).
  split; [by eapply configured_fixed|]. split; [done|]. destruct err as [e|].
  - right. destruct Ha as (after & Hafter & Ht & Hid). exists e, after, (d_nextTimer d).
    rewrite Ht. split; [done|]. by rewrite lookup_insert_eq.
  - left. rewrite (Hp eq_refl). unfold addresses. by rewrite Hact.
Qed.

Lemma published_or_retried_witness :
  ∃ d' w', applyDNS DNSExample.published0.1 DNSExample.published0.2 = Ret (tt, d', w') ∧
    (published w' "z" "www" = addresses (nds_Spec (DNSExample.resource "")) d' ∨
     ∃ e after id, d_retryTimer d' = Some id ∧ d_timers d' !! id = Some (Timer after false) ∧
       Retry.After (ErrorToRetrySchedule e) (d_retries DNSExample.published0.1) = Some after).
Proof.
  pose proof (published_or_retried DNSExample.published0.1 DNSExample.published0.2
    (DNSExample.resource "") 2%positive DNSExample.published0_configured) as Hwp.
  unfold wp in Hwp. destruct (applyDNS _ _) as [[[[] d'] w']| |]; [|done..].
  destruct Hwp as (_ & _ & Hp). by exists d', w'.
Defined.

(** As long as the API stores the status, retries never back off: a failed
    update of the records counts no retry, so whatever happens to the nodes and
    the timers every timer is armed for the first duration of its schedule. *)
Theorem retries_never_back_off `{!KubeAPI} `{NodeDNSLaws W} `{!ProviderKinds, !GoFmt}
    (ops : list dns_op) (d : dnsEnablerDisabler) (w : W) (k8s : NodeDNSRecordSet) (p : Ref) :
  status_stored (W := W) → configured d k8s p → d_retries d = 0%Z → d_timers d = ∅ →
  wp False (for_each ops exec_op) (λ _ d' _, d_retries d' = 0%Z ∧
    ∀ id t, d_timers d' !! id = Some t →
      ∃ e, Retry.After (ErrorToRetrySchedule e) 0 = Some (tm_after t)) d w.
Proof.
  intros Hst Hc Hr Ht. eapply wp_mono; [|apply (wp_for_each False
    (λ d _, configured d k8s p ∧ d_retries d = 0%Z ∧ first_only d))].
  - by intros [] d' w' (_ & ? & ?).
  - split_and!; [done..|]. intros id t. rewrite Ht. intros Hid. by rewrite lookup_empty in Hid.
  - intros op d' w' _ (Hc' & Hr' & Hf'). by apply exec_op_first_only.
Qed.

(** Three failures in a row, each found by the timer of the one before. *)
Definition three_failures : list dns_op :=
  [OpEnable []; OpExpire 1; OpFire 1; OpExpire 2; OpFire 2]%positive.
Definition failing : DNSSim := DNSExample.published0.2 <| dn_fail := Some (ErrorString "down") |>.
Lemma retries_never_back_off_witness :
  ∃ d' w', for_each three_failures exec_op DNSExample.published0.1 failing = Ret (tt, d', w') ∧
    d_retries d' = 0%Z ∧ d_timers d' = {[3%positive := Timer Minute false]}.
Proof.
  pose proof (retries_never_back_off three_failures DNSExample.published0.1 failing
    (DNSExample.resource "") 2%positive DNSExample.status_stored0 DNSExample.published0_configured
    ltac:(vm_compute; reflexivity) ltac:(vm_compute; reflexivity)) as Hwp.
  assert (∃ d' w', for_each three_failures exec_op DNSExample.published0.1 failing = Ret (tt, d', w') ∧
    d_timers d' = {[3%positive := Timer Minute false]}) as (d' & w' & Hr & Ht).
  { eexists _, _. split; [vm_compute; reflexivity..]. }
  exists d', w'. unfold wp in Hwp. rewrite Hr in Hwp. destruct Hwp as [Hz _]. by split_and!.
Defined.

(** Stopping the object stops the timer it armed last, and no other: after
    two failures, the timer of the first is still pending; it fires after the
    resource is gone and publishes its addresses. *)
Theorem stop_leaves_timer_pending :
  let failed := DNSExample.run (EnableNodes [] ;; EnableNodes []) (DNSExample.published0.1, failing) in
  let gone := DNSExample.run stop (failed.1, failed.2 <| dn_fail := None |> <| dn_records := ∅ |>) in
  let late := DNSExample.run (expire 1 ;; fire 1) gone in
  d_retryTimer failed.1 = Some 2%positive ∧
  d_timers gone.1 = {[1%positive := Timer Minute false]} ∧
  published late.2 "z" "www" = {["192.0.2.1"]}.
Proof. intros failed gone late. split_and!; vm_compute; reflexivity. Qed.

(** An update of the resource that changes neither the match criteria nor the
    record set is not published, even if it changes the type of the addresses: the
    record set keeps what it holds until the nodes change. *)
Theorem address_type_change_unpublished `{!KubeAPI} `{NodeDNSLaws W} `{!ProviderKinds, !GoFmt}
    (d : dnsEnablerDisabler) (w : W) (old k8s : NodeDNSRecordSet) (p vec : Ref) (provs : Registry)
    (mc : Controller) :
  configured d old p → d_matchController d = Some mc →
  m_match mc = Some (nds_Match (nds_Spec k8s)) →
  nds_DNSRecordSet (nds_Spec old) = nds_DNSRecordSet (nds_Spec k8s) →
  Registry.Get provs (dns_Provider (nds_DNSRecordSet (nds_Spec k8s))) = Some p →
  is_DNSProvider p = true →
  wp False (update k8s provs vec) (λ _ d' w',
    configured d' k8s p ∧ published w' = published w ∧
    d_activeNodes d' = d_activeNodes d ∧ d_matchController d' = Some mc ∧
    d_timers d' = d_timers d) d w.
Proof.
  intros Hc Hmc Hm Hrec Hget Hdns. eapply wp_mono; [|apply wp_update; [right; by eexists _, _|done..]].
  intros [] d' w' (Hc' & Hp & Hk). rewrite Hmc in Hk. rewrite decide_True in Hk.
  - naive_solver.
  - destruct Hc as [Hk8s Hpr _ _]. unfold keeps. rewrite Hk8s, Hpr, Hget. cbn. by rewrite Hrec.
Qed.

Lemma address_type_change_unpublished_witness :
  let r := DNSExample.resource "InternalIP" in
  ∃ d' w', update r DNSExample.registry 9%positive DNSExample.published0.1 DNSExample.published0.2 =
      Ret (tt, d', w') ∧
    published w' "z" "www" = {["192.0.2.1"]} ∧ addresses (nds_Spec r) d' = {["10.0.0.1"]}.
Proof.
  intros r.
  assert (∃ mc, d_matchController DNSExample.published0.1 = Some mc ∧
    m_match mc = Some (nds_Match (nds_Spec r))) as (mc & Hmc & Hm).
  { eexists. split; vm_compute; reflexivity. }
  pose proof (address_type_change_unpublished DNSExample.published0.1 DNSExample.published0.2
    (DNSExample.resource "") r 2%positive 9%positive DNSExample.registry mc
    DNSExample.published0_configured Hmc Hm eq_refl ltac:(vm_compute; reflexivity)
    ltac:(vm_compute; reflexivity)) as Hwp.
  assert (∃ d' w', update r DNSExample.registry 9%positive DNSExample.published0.1
    DNSExample.published0.2 = Ret (tt, d', w') ∧ addresses (nds_Spec r) d' = {["10.0.0.1"]})
    as (d' & w' & Hr & Ha).
  { eexists _, _. split; [vm_compute; reflexivity..]. }
  exists d', w'. unfold wp in Hwp. rewrite Hr in Hwp. destruct Hwp as (_ & Hp & _).
  split_and!; [done| |done]. rewrite Hp. apply DNSExample.published0_addresses.
Defined.
