(* ===== verification/NodeDNSSystem.v ===== *)
(** * The DNS publisher as the action of its match controller

    The match controller sees the publisher, together with the world behind it,
    as the action it enables and disables nodes with; composed, they keep the
    record set in step with the cluster. *)
From S2P Require Import Prelude Go Retry GoText K8s Types Provider ProviderMetrics.
From S2P Require Import Registry.
From S2P Require Import NodeMatch NodeMatchProps NodeMatchSystem NodeDNS NodeDNSProps.
From S2P Require Import NodeDNSSim.

Class ClusterLaws (V : Type) `{!ClusterAPI V, !NodeDNSGhost V} : Prop := {
  cll_index i n v : published (cl_ByIndex i n v).2 = published v;
  cll_sync v : published (cl_Sync v).2 = published v;
  cll_list v : published (cl_List v).2 = published v;
}.

Section system.
Context `{!KubeAPI} `{NodeDNSLaws V} `{!ClusterAPI V, !ClusterLaws V} `{!ProviderKinds, !GoFmt}.
Implicit Types (d : dnsEnablerDisabler) (v : V).
Local Abbreviation World := (dnsEnablerDisabler * V)%type.

(** ** The composition *)
(** A method of the publisher that changes the active nodes by [f] and publishes.
    A panic, which the theorems exclude, is not an outcome of the interface. *)
Definition publishing (f : gmap string Node → gmap string Node) (s : World) : unit * World :=
  let d := s.1 <| d_activeNodes ::= f |> in
  match applyDNS d s.2 with
  | Ret (_, d', v') => (tt, (d', v'))
  | _ => (tt, (d, s.2))
  end.
Definition insert_nodes (nodes : list Node) (m : gmap string Node) : gmap string Node :=
  foldl (λ m n, <[node_Name n := n]> m) m nodes.
Definition delete_nodes (nodes : list Node) (m : gmap string Node) : gmap string Node :=
  foldl (λ m n, delete (node_Name n) m) m nodes.

#[global] Instance dns_action : NodeEnableDisabler World := {|
  action_EnableNodes _ nodes := publishing (insert_nodes nodes);
  action_DisableNodes _ nodes := publishing (delete_nodes nodes);
|}.
#[global] Instance dns_range : MapRange World := {| range_order ks := behind (range_order ks) |}.
#[global] Instance dns_env : MatchEnv World := {|
  podIndexer_ByIndex i n := behind (cl_ByIndex i n);
  WaitForCacheSync := behind cl_Sync;
  nodeStore_List := behind cl_List;
|}.
#[global] Instance dns_active : MatchGhost World := {| active s := dom (d_activeNodes s.1) |}.

Lemma dom_insert_nodes nodes m : dom (insert_nodes nodes m) = dom m ∪ names_of nodes.
Proof.
  unfold insert_nodes, names_of. revert m. induction nodes as [|n nodes IH]; intros m; cbn; [set_solver|].
  rewrite IH, dom_insert_L. set_solver.
Qed.
Lemma dom_delete_nodes nodes m : dom (delete_nodes nodes m) = dom m ∖ names_of nodes.
Proof.
  unfold delete_nodes, names_of. revert m. induction nodes as [|n nodes IH]; intros m; cbn; [set_solver|].
  rewrite IH, dom_delete_L. set_solver.
Qed.

Lemma frame_applyDNS : frame (W := V) d_activeNodes applyDNS.
Proof. unfold applyDNS, activeIPs, range_keys, updateStatus, AfterFunc. solve_frame. Qed.
Lemma publishing_active f s : d_activeNodes (publishing f s).2.1 = f (d_activeNodes s.1).
Proof.
  unfold publishing. pose proof (frame_applyDNS (s.1 <| d_activeNodes ::= f |>) s.2) as Hf.
  destruct (applyDNS _ s.2) as [[[u d'] v']| |]; exact Hf || done.
Qed.

#[global] Instance dns_match_laws : MatchLaws World.
Proof.
  split; cbn; intros.
  - split. intros ks s. cbn. rewrite behind_answer. apply range_order_perm.
  - by rewrite behind_fst.
  - by rewrite publishing_active, dom_insert_nodes.
  - by rewrite publishing_active, dom_delete_nodes.
  - by rewrite behind_fst.
  - by rewrite behind_fst.
  - by rewrite behind_fst.
Qed.

(** The interface is the methods: [EnableNodes] and [DisableNodes] as the match
    controller calls them. *)
Lemma action_is_EnableNodes a nodes d v d' v' :
  EnableNodes nodes d v = Ret (tt, d', v') → action_EnableNodes a nodes (d, v) = (tt, (d', v')).
Proof.
  intros He. change (applyDNS (d <| d_activeNodes ::= insert_nodes nodes |>) v = Ret (tt, d', v')) in He.
  cbn. unfold publishing. cbn [fst snd]. by rewrite He.
Qed.
Lemma action_is_DisableNodes a nodes d v d' v' :
  DisableNodes nodes d v = Ret (tt, d', v') → action_DisableNodes a nodes (d, v) = (tt, (d', v')).
Proof.
  intros He. change (applyDNS (d <| d_activeNodes ::= delete_nodes nodes |>) v = Ret (tt, d', v')) in He.
  cbn. unfold publishing. cbn [fst snd]. by rewrite He.
Qed.

(** ** Publication *)
Variables (k8s : NodeDNSRecordSet) (p : Ref).
Definition current (s : World) : Prop :=
  let record := nds_DNSRecordSet (nds_Spec k8s) in
  published s.2 (dns_Zone record) (dns_RecordName record) = addresses (nds_Spec k8s) s.1.
Definition retrying d : Prop := ∃ id t, d_retryTimer d = Some id ∧ d_timers d !! id = Some t.
Definition Publishing (s : World) : Prop :=
  configured s.1 k8s p ∧ (current s ∨ retrying s.1).

Lemma applyDNS_publishing d v : configured d k8s p →
  wp False applyDNS (λ _ d' v', Publishing (d', v')) d v.
Proof.
  intros Hc. eapply wp_mono; [|by apply (applyDNS_spec _ _ k8s p)].
  intros [] d' v' (Hf & Hr & err & Ha & _ & Hp & _ & _).
  assert (d_activeNodes d' = d_activeNodes d) as Hact by (by injection Hf).
  split; [by eapply configured_fixed|]. destruct err as [e|].
  - right. destruct Ha as (after & _ & Ht & Hid). exists (d_nextTimer d), (Timer after false).
    split; [done|]. cbn. rewrite Ht. apply lookup_insert_eq.
  - left. unfold current. cbn. rewrite (Hp eq_refl). unfold addresses. by rewrite Hact.
Qed.

Lemma publishing_ok f s : configured s.1 k8s p → Publishing (publishing f s).2.
Proof.
  intros Hc. assert (configured (s.1 <| d_activeNodes ::= f |>) k8s p) as Hc' by (by destruct Hc).
  pose proof (applyDNS_publishing _ s.2 Hc') as Hwp. unfold wp in Hwp. unfold publishing.
  destruct (applyDNS _ s.2) as [[[u d'] v']| |]; [exact Hwp|done..].
Qed.

Lemma current_world d v v' : published v' = published v → current (d, v) → current (d, v').
Proof. unfold current. cbn. by intros ->. Qed.

Lemma handle_publishing e : preserves (C := NodeMatch.Controller) Publishing (handle e).
Proof.
  apply preserves_handle.
  - intros a ns s [Hc _]. by apply publishing_ok.
  - intros a ns s [Hc _]. by apply publishing_ok.
  - intros i n [d v]. cbn. unfold behind. pose proof (cll_index i n v) as Hi.
    cbn. destruct (cl_ByIndex i n v) as [r v']. cbn in *. intros [Hc [Hcur|Hr]]; (split; [done|]); [left|by right].
    by eapply current_world.
Qed.

Lemma expire_publishing id d v : Publishing (d, v) →
  Publishing (d <| d_timers ::= alter (λ t, Timer (tm_after t) true) id |>, v).
Proof.
  intros [Hc Hp]. split; [by destruct Hc|]. destruct Hp as [Hp|(id' & t & Hid & Ht)]; [by left|].
  right. cbn in *. unfold retrying. cbn. rewrite Hid. destruct (decide (id' = id)) as [->|Hne].
  - eexists id, _. split; [done|]. rewrite lookup_alter_eq, Ht. done.
  - exists id', t. split; [done|]. by rewrite lookup_alter_ne.
Qed.

Lemma fire_publishing id d v : Publishing (d, v) →
  wp False (fire id) (λ _ d' v', Publishing (d', v')) d v.
Proof.
  intros [Hc _]. unfold fire. wp_steps. apply applyDNS_publishing. by destruct Hc.
Qed.

(** ** Steps

    An event is handled, the cluster or the moods of the provider change, a timer
    expires, the function of an expired timer runs. *)
Inductive dns_step : NodeMatch.Controller * World → NodeMatch.Controller * World → Prop :=
  | ds_event e m s m' s' :
      deliverable e m s → handle e m s = Ret (tt, m', s') → dns_step (m, s) (m', s')
  | ds_world m d v v' :
      published v' = published v → dns_step (m, (d, v)) (m, (d, v'))
  | ds_expire id m d v d' v' :
      expire id d v = Ret (tt, d', v') → dns_step (m, (d, v)) (m, (d', v'))
  | ds_fire id t m d v d' v' :
      d_timers d !! id = Some t → tm_expired t = true →
      fire id d v = Ret (tt, d', v') → dns_step (m, (d, v)) (m, (d', v')).

Lemma dns_step_cluster m s m' s' : dns_step (m, s) (m', s') → cluster_step (m, s) (m', s').
Proof.
  intros Hs. inversion Hs as [e m1 s1 m2 s2 Hd He|m1 d v v' Hp|id m1 d v d' v' He|id t m1 d v d' v' Ht Hx He]; subst.
  - by eapply step_event.
  - by apply step_cluster.
  - injection He as <- <-. by apply step_cluster.
  - apply step_cluster. cbn. f_equal. unfold fire, mbind, M_bind, modify in He.
    pose proof (frame_applyDNS (d <| d_timers ::= delete id |>) v) as Hf. by rewrite He in Hf.
Qed.

Lemma dns_step_publishing m s m' s' : dns_step (m, s) (m', s') → Publishing s → Publishing s'.
Proof.
  intros Hs HP. inversion Hs as [e m1 s1 m2 s2 Hd He|m1 d v v' Hp|id m1 d v d' v' He|id t m1 d v d' v' Ht Hx He]; subst.
  - pose proof (handle_publishing e m s HP) as Hh. by rewrite He in Hh.
  - destruct HP as [Hc [Hcur|Hr]]; (split; [done|]); [left|by right]. by eapply current_world.
  - injection He as <- <-. by apply expire_publishing.
  - pose proof (fire_publishing id d v HP) as Hwp. unfold wp in Hwp. by rewrite He in Hwp.
Qed.

Lemma dns_steps m s m' s' : Sync m s → Publishing s → rtc dns_step (m, s) (m', s') →
  Sync m' s' ∧ Publishing s'.
Proof.
  intros HS HP Hrtc.
  assert (rtc cluster_step (m, s) (m', s') ∧ Publishing s') as [Hc HP'].
  { remember (m, s) as a eqn:Ha. remember (m', s') as b eqn:Hb. revert m s Ha HS HP.
    induction Hrtc as [a|a [m1 s1] b H12 _ IH]; intros m s Ha HS HP; subst.
    - injection Ha as <- <-. by split; [apply rtc_refl|].
    - pose proof (dns_step_cluster _ _ _ _ H12) as Hcl.
      assert (Sync m1 s1) as HS1 by (eapply steps_sync; [exact HS|by apply rtc_once]).
      destruct (IH eq_refl m1 s1 eq_refl HS1) as [Hrest HP'].
      { by eapply dns_step_publishing. }
      split; [by eapply rtc_l|done]. }
  split; [by eapply steps_sync|done].
Qed.
End system.


#[export] Instance dnssim_cluster : ClusterAPI DNSSim := {|
  cl_ByIndex _ name w := (inl (filter (λ p, pod_NodeName p = name) (dn_pods w)), w);
  cl_Sync w := (true, w);
  cl_List w := (dn_nodes w, w);
|}.
#[export] Instance dnssim_cluster_laws : ClusterLaws DNSSim.
Proof. by split. Qed.

(** The publisher of the resource with its primed match controller; a node appears
    while the provider is down, and the retry publishes it. *)
Module Following.
Definition m0 : NodeMatch.Controller :=
  SetCriteria (nds_Match (nds_Spec (DNSExample.resource ""))) (NodeMatch.NewController self)
    <| m_primed := true |>.
Definition s0 : dnsEnablerDisabler * DNSSim := DNSExample.configured0.
Definition down (s : dnsEnablerDisabler * DNSSim) := (s.1, s.2 <| dn_fail := Some (ErrorString "down") |>).
Definition up (s : dnsEnablerDisabler * DNSSim) := (s.1, s.2 <| dn_fail := None |>).
Definition appear : event := Upsert (ObjNode (DNSExample.node_ "a" "192.0.2.1" "10.0.0.1")).
Definition ran_event (e : event) (m : NodeMatch.Controller) (s : dnsEnablerDisabler * DNSSim) :=
  match handle e m s with Ret (_, m', s') => (m', s') | _ => (m, s) end.
Definition s1 := ran_event appear m0 (down s0).
Definition s2 : dnsEnablerDisabler * DNSSim :=
  DNSExample.run (expire 1) (s1.2).
Definition s3 := DNSExample.run (fire 1) (up s2).

Lemma mc0_empty name : m_nodeNameToNode m0 !! name = None.
Proof. assert (m_nodeNameToNode m0 = ∅) as -> by reflexivity. apply lookup_empty. Qed.
Lemma s0_empty : d_activeNodes s0.1 = ∅.
Proof. vm_compute. reflexivity. Qed.
Lemma sync0 : Sync m0 s0.
Proof.
  split.
  - split; [done|by eexists|by intros ?|]. intros name n Hn. by rewrite mc0_empty in Hn.
  - intros name. split.
    + intros Hin. change (active s0) with (dom (d_activeNodes s0.1)) in Hin.
      rewrite s0_empty, dom_empty in Hin. by apply elem_of_empty in Hin.
    + intros (n & Hn & _). by rewrite mc0_empty in Hn.
Qed.
Lemma publishing0 : Publishing (DNSExample.resource "") 2%positive s0.
Proof.
  split.
  - split; [vm_compute; reflexivity..|by eexists; vm_compute|vm_compute; discriminate].
  - left. vm_compute. reflexivity.
Qed.
Lemma step_appear : handle appear m0 (down s0) = Ret (tt, s1.1, s1.2).
Proof. vm_compute. reflexivity. Qed.
Lemma step_expire : expire 1 s1.2.1 s1.2.2 = Ret (tt, s2.1, s2.2).
Proof. vm_compute. reflexivity. Qed.
Lemma step_fire : fire 1 (up s2).1 (up s2).2 = Ret (tt, s3.1, s3.2).
Proof. vm_compute. reflexivity. Qed.
Lemma timer_expired : ∃ t, d_timers (up s2).1 !! 1%positive = Some t ∧ tm_expired t = true.
Proof. eexists. split; vm_compute; reflexivity. Qed.
(** The steps, for any states. *)
Lemma outage e id t m m1 (q0 q1 q2 q3 : dnsEnablerDisabler * DNSSim) :
  deliverable e m (down q0) → handle e m (down q0) = Ret (tt, m1, q1) →
  expire id q1.1 q1.2 = Ret (tt, q2.1, q2.2) →
  d_timers (up q2).1 !! id = Some t → tm_expired t = true →
  fire id (up q2).1 (up q2).2 = Ret (tt, q3.1, q3.2) → rtc dns_step (m, q0) (m1, q3).
Proof.
  destruct q0 as [d0 v0], q1 as [d1 v1], q2 as [d2 v2], q3 as [d3 v3].
  intros Hd Hh He Ht Hx Hf. eapply rtc_l; [by apply (ds_world _ _ _ (down (d0, v0)).2)|].
  eapply rtc_l; [exact (ds_event e _ _ _ _ Hd Hh)|].
  eapply rtc_l; [exact (ds_expire id _ _ _ _ _ He)|].
  eapply rtc_l; [by apply (ds_world _ _ _ (up (d2, v2)).2)|].
  eapply rtc_l; [exact (ds_fire id t _ _ _ _ _ Ht Hx Hf)|]. apply rtc_refl.
Qed.
Lemma deliver : deliverable appear m0 (down s0).
Proof. intros idx Hidx. discriminate Hidx. Qed.
Lemma steps03 : rtc dns_step (m0, s0) (s1.1, s3).
Proof.
  destruct timer_expired as (t & Ht & Hx).
  exact (outage appear 1 t m0 s1.1 s0 s1.2 s2 s3 deliver step_appear step_expire Ht Hx step_fire).
Qed.
End Following.

