(* ===== verification/NodeDNSResources.v ===== *)
(** * The resources of the DNS controller

    Which NodeDNSRecordSet resources are served by a publisher of their own. *)
From S2P Require Import Prelude Go Retry GoText K8s Types Provider ProviderMetrics.
From S2P Require Import Registry.
From S2P Require Import NodeMatch NodeMatchProps NodeMatchSystem NodeDNS NodeDNSProps NodeDNSSim.
Import Parent.

Section resources.
Context `{!KubeAPI} `{NodeDNSLaws W} `{!ProviderKinds, !GoFmt}.
Implicit Types (c : Parent.Controller) (d : dnsEnablerDisabler) (w : W) (nrs : NodeDNSRecordSet).

(** The resource can be served. *)
Definition servable (provs : Registry) nrs (p : Ref) : Prop :=
  let record := nds_DNSRecordSet (nds_Spec nrs) in
  Registry.Get provs (dns_Provider record) = Some p ∧ is_DNSProvider p = true ∧
  dns_Zone record ≠ "" ∧ dns_RecordName record ≠ "" ∧
  ValidateMatch (nds_Match (nds_Spec nrs)) = None.
Definition valid (provs : Registry) nrs : Prop := ∃ p, servable provs nrs p.

(** A publisher that serves a resource: set up for it, its match controller
    running with the criteria of the resource. *)
Definition serves (provs : Registry) d nrs : Prop :=
  ∃ p mc, servable provs nrs p ∧ configured d nrs p ∧ d_matchController d = Some mc ∧
    m_running mc = true ∧ m_match mc = Some (nds_Match (nds_Spec nrs)).
Definition Served c : Prop :=
  ∀ uid d, c_children c !! uid = Some d → ∃ nrs, serves (c_providers c) d nrs.

Lemma wp_invalid E nrs msg c w :
  wp E (invalid nrs msg) (λ b c' w', c' = c ∧ published w' = published w ∧ b = false) c w.
Proof.
  unfold invalid. wp_steps. eapply wp_mono; [|apply wp_updateStatus].
  intros r c' w' (-> & Hp & _). by wp_steps.
Qed.

Lemma wp_validate E nrs c w :
  wp E (validate nrs) (λ b c' w', c' = c ∧ published w' = published w ∧
    (b = true ↔ valid (c_providers c) nrs)) c w.
Proof.
  assert (∀ msg, ¬ valid (c_providers c) nrs →
    wp E (invalid nrs msg) (λ b c' w', c' = c ∧ published w' = published w ∧
      (b = true ↔ valid (c_providers c) nrs)) c w) as Hinv.
  { intros msg Hnot. eapply wp_mono; [|apply wp_invalid]. intros b c' w' (-> & Hp & ->). by split_and!. }
  unfold validate. wp_steps. destruct (Registry.Get _ _) as [p|] eqn:Hget.
  2: { apply Hinv. intros (p & Hp & _). congruence. }
  destruct (is_DNSProvider p) eqn:Hdns; cbn [negb].
  2: { apply Hinv. intros (p' & Hp & Hdns' & _). rewrite Hget in Hp. congruence. }
  destruct (bool_decide _ || bool_decide _) eqn:Hnames.
  { apply Hinv. intros (p' & _ & _ & Hz & Hn & _).
    by rewrite !bool_decide_false in Hnames. }
  apply orb_false_iff in Hnames as [Hz%bool_decide_eq_false Hn%bool_decide_eq_false].
  destruct (ValidateMatch _) as [err|] eqn:Hm.
  - apply Hinv. intros (p' & _ & _ & _ & _ & Hm'). congruence.
  - wp_steps. split_and!; [done..|]. split; [|done]. intros _. by exists p.
Qed.

Lemma wp_on_child {A} E uid (m : M dnsEnablerDisabler W A) Q c w d :
  c_children c !! uid = Some d →
  wp E m (λ a d' w', Q a (c <| c_children ::= <[uid := d']> |>) w') d w →
  wp E (on_child uid m) Q c w.
Proof.
  intros Hd. unfold wp, on_child. rewrite Hd. by destruct (m d w) as [[[a d'] w']| |].
Qed.

Lemma wp_start E ctx d w mc : d_matchController d = Some mc →
  wp E (start ctx) (λ _ d' w', w' = w ∧ d_matchController d' = Some (Start mc) ∧
    d_k8s d' = d_k8s d ∧ d_provider d' = d_provider d ∧ d_metricRecords d' = d_metricRecords d ∧
    d_retries d' = d_retries d ∧ d_activeNodes d' = d_activeNodes d) d w.
Proof. intros Hmc. unfold start. wp_steps. cbn. rewrite Hmc. wp_steps. by split_and!. Qed.

Lemma wp_stop E d w :
  wp E stop (λ _ d' w', w' = w ∧ d_k8s d' = d_k8s d ∧ d_provider d' = d_provider d) d w.
Proof.
  unfold stop. wp_steps. eapply wp_mono; [|apply wp_stopTimer].
  intros [] d' w' (-> & Hf & _). wp_steps. cbn. unfold fixed in Hf. by injection Hf.
Qed.

Lemma children_twice c uid d1 d2 :
  (c <| c_children ::= <[uid := d1]> |>) <| c_children ::= <[uid := d2]> |> =
  c <| c_children ::= <[uid := d2]> |>.
Proof.
  destruct c as [pr ch cx mr]. cbv [set_field set_c_children c_children c_providers c_ctx c_metricRecords].
  by rewrite insert_insert_eq.
Qed.

(** A valid resource is taken over by its publisher, new or not. *)
Lemma wp_serve E provs vec ctx uid nrs p c w d :
  servable provs nrs p → c_children c !! uid = Some d → updatable d →
  wp E (on_child uid (update nrs provs vec)) (λ _, wp E (on_child uid (start ctx))
    (λ _ c' w', published w' = published w ∧ ∃ d', serves provs d' nrs ∧
       c' = c <| c_children ::= <[uid := d']> |>)) c w.
Proof.
  intros Hs Hd Hu. pose proof Hs as (Hget & Hdns & _ & _ & Hm).
  eapply wp_on_child; [done|]. eapply wp_mono; [|by apply (wp_update E provs nrs vec d w p)].
  intros [] d1 w1 (Hc & Hp & Hk).
  assert (∃ mc, d_matchController d1 = Some mc ∧ m_match mc = Some (nds_Match (nds_Spec nrs)))
    as (mc & Hmc & Hmm).
  { destruct (d_matchController d) as [mc|]; [case_decide as Hkeep|]; destruct Hk as (-> & _).
    1: by exists mc; destruct Hkeep as (? & _).
    all: eexists; split; [done|]; by apply SetCriteria_valid. }
  eapply wp_on_child; [apply lookup_insert_eq|].
  eapply wp_mono; [|by apply (wp_start _ _ _ _ mc)].
  intros [] d2 w2 (-> & Hmc2 & Hk2 & Hp2 & Hg2 & Hr2 & _). split; [done|]. exists d2. split.
  - exists p, (Start mc). split_and!; [done| |done|apply Start_running|by rewrite Start_match].
    destruct Hc as [? ? ? ?]. split; congruence.
  - apply children_twice.
Qed.

Lemma serves_updatable provs d nrs : serves provs d nrs → updatable d.
Proof. intros (p & mc & _ & Hc & _). right. by exists nrs, p. Qed.

(** Everything but the resource [uid] is as before. *)
Definition others_kept c uid c' : Prop :=
  c_providers c' = c_providers c ∧
  ∀ uid', uid' ≠ uid → c_children c' !! uid' = c_children c !! uid'.

Lemma wp_updateOrAdd nrs c w :
  Served c →
  wp False (updateOrAdd nrs) (λ _ c' w',
    published w' = published w ∧ others_kept c (meta_UID (nds_meta nrs)) c' ∧
    match c_children c' !! meta_UID (nds_meta nrs) with
    | Some d => serves (c_providers c) d nrs
    | None => ¬ valid (c_providers c) nrs
    end) c w.
Proof.
  intros HS. set (uid := meta_UID (nds_meta nrs)). unfold updateOrAdd. fold uid. wp_steps.
  eapply wp_mono; [|apply wp_validate]. intros isValid c0 w0 (-> & Hw0 & Hvalid). wp_steps.
  destruct isValid; cbn [negb andb].
  - destruct Hvalid as [[p Hs] _]; [done|]. rewrite andb_false_r.
    apply wp_bind. set (new := newDNSEnablerDisabler _).
    apply (wp_mono _ _ (λ _ c' w', w' = w0 ∧ others_kept c uid c' ∧ c_metricRecords c' = c_metricRecords c ∧
      ∃ d, c_children c' !! uid = Some d ∧ updatable d)).
    + intros [] c1 w1 (-> & [Hpr Hkept] & _ & d & Hd & Hu). wp_steps. rewrite Hpr.
      eapply wp_mono; [|by eapply (wp_serve _ _ _ _ uid)].
      intros [] c3 w3 Hwp. eapply wp_mono; [|exact Hwp].
      intros [] c2 w2 (Hw2 & d' & Hserves & ->). split; [congruence|]. split.
      * split; [done|]. intros uid' Hne. cbn. rewrite lookup_insert_ne by done. by apply Hkept.
      * cbn. rewrite lookup_insert_eq. done.
    + destruct (c_children c !! uid) as [d|] eqn:Hd; cbn [negb when].
      * wp_steps. split; [done|]. split; [done|]. split; [done|]. exists d. split; [done|].
        destruct (HS _ _ Hd) as [nrs0 Hserves]. by eapply serves_updatable.
      * wp_steps. split; [done|]. split; [|split; [done|]].
        -- split; [done|]. intros uid' Hne. cbn. by rewrite lookup_insert_ne.
        -- exists new. cbn. rewrite lookup_insert_eq. split; [done|]. by left.
  - assert (¬ valid (c_providers c) nrs) as Hnot by (intros Hv; by apply Hvalid in Hv).
    destruct (c_children c !! uid) as [d|] eqn:Hd; cbn [negb andb when].
    + wp_steps. eapply wp_on_child; [done|]. eapply wp_mono; [|apply wp_stop].
      intros [] d' w' (-> & _). wp_steps. split; [congruence|]. split.
      * split; [done|]. intros uid' Hne. cbn. by rewrite lookup_delete_ne, lookup_insert_ne.
      * cbn. by rewrite lookup_delete_eq.
    + wp_steps. split; [done|]. split; [done|]. by rewrite Hd.
Qed.

Lemma wp_OnDelete nrs c w :
  Served c →
  wp False (OnDelete (ObjRecordSet nrs)) (λ _ c' w', published w' = published w ∧
    others_kept c (meta_UID (nds_meta nrs)) c' ∧ c_children c' !! meta_UID (nds_meta nrs) = None) c w.
Proof.
  intros HS. unfold OnDelete. set (uid := meta_UID (nds_meta nrs)). wp_steps.
  destruct (c_children c !! uid) as [d|] eqn:Hd; [|by wp_steps].
  destruct (HS _ _ Hd) as (nrs0 & p & mc & _ & Hc & _). wp_steps.
  eapply wp_on_child; [done|]. eapply wp_mono; [|apply wp_stop]. intros [] d1 w1 (-> & Hk & Hp). wp_steps.
  eapply wp_on_child; [apply lookup_insert_eq|].
  eapply wp_mono; [|eapply (wp_metricLabels _ _ _ nrs0 p); destruct Hc; congruence].
  intros labels d2 w2 [-> ->]. wp_steps. apply wp_quiet; [apply nl_delete|]. intros [] w3 Hv3. wp_steps.
  split; [done|]. split.
  - split; [done|]. intros uid' Hne. cbn. by rewrite lookup_delete_ne, !lookup_insert_ne.
  - cbn. by rewrite lookup_delete_eq.
Qed.

(** The invariant follows from what happened to one resource. *)
Lemma Served_step c uid c' : Served c → others_kept c uid c' →
  (∀ d, c_children c' !! uid = Some d → ∃ nrs, serves (c_providers c) d nrs) → Served c'.
Proof.
  intros HS [Hpr Hkept] Hu uid' d Hd. rewrite Hpr. destruct (decide (uid' = uid)) as [->|Hne].
  - by apply Hu.
  - rewrite Hkept in Hd by done. by eapply HS.
Qed.

(** The events of the resources. *)
Inductive resource_event : Type := Seen (nrs : NodeDNSRecordSet) | Deleted (nrs : NodeDNSRecordSet).
Definition on_resource (e : resource_event) : M Parent.Controller W unit :=
  match e with Seen nrs => OnUpdate (ObjRecordSet nrs) | Deleted nrs => OnDelete (ObjRecordSet nrs) end.
Definition event_uid (e : resource_event) : string :=
  match e with Seen nrs | Deleted nrs => meta_UID (nds_meta nrs) end.

Lemma wp_on_resource e c w : Served c →
  wp False (on_resource e) (λ _ c' w', Served c' ∧ published w' = published w ∧
    others_kept c (event_uid e) c' ∧
    match e with
    | Seen nrs => match c_children c' !! event_uid e with
                  | Some d => serves (c_providers c) d nrs
                  | None => ¬ valid (c_providers c) nrs
                  end
    | Deleted _ => c_children c' !! event_uid e = None
    end) c w.
Proof.
  intros HS. destruct e as [nrs|nrs]; cbn [on_resource OnUpdate event_uid].
  - eapply wp_mono; [|by apply wp_updateOrAdd]. intros [] c' w' (Hp & Hk & Hd). split; [|done].
    eapply Served_step; [done..|]. intros d Hd'. rewrite Hd' in Hd. by exists nrs.
  - eapply wp_mono; [|by apply wp_OnDelete]. intros [] c' w' (Hp & Hk & Hd). split; [|done].
    eapply Served_step; [done..|]. intros d Hd'. congruence.
Qed.
End resources.


