(* ===== verification/DNSProviders.v ===== *)
(** * The DNS publisher over the DNS providers

    DigitalOcean and Cloudflare keep the contract of a DNS provider that the theorems
    about the publisher assume: put together, the zone behind the API of the provider
    follows the cluster. *)
From S2P Require Import Prelude Go Retry GoText K8s Types Provider ProviderMetrics.
From S2P Require Import Registry DNSPlan DigitalOcean DigitalOceanDNS Cloudflare CloudflareProps DOSim.
From S2P Require Import NodeMatch NodeMatchProps NodeMatchSystem NodeDNS NodeDNSProps.
From S2P Require Import NodeDNSSim NodeDNSSystem.

Section digitalocean.
Context {W : Type} `{!Godo W, !Prometheus W, !Clock W, !MapRange W, !GoFmt}.

Lemma do_usable_checked {A} prefix (m : M digitalOcean W (reply A)) :
  usable_errors (DigitalOcean.checked prefix m).
Proof.
  apply usable_bind. intros [[a|err] res]; apply usable_ret; [done|]. intros e [= <-].
  unfold toRetryError. repeat case_match; try apply usable_RetryFast; try apply usable_ErrNotFound;
    by apply usable_plain.
Qed.
Lemma do_usable_scanRecord zone name ttl s r : usable_errors (scanRecord zone name ttl s r).
Proof.
  destruct s as [ipSet toDelete]. unfold scanRecord.
  case_match; [by apply usable_ret|]. case_match; [|by apply usable_ret].
  apply usable_or_return; [|intros; by apply usable_ret]. case_match; [by apply usable_ret|].
  apply usable_or_return; [apply do_usable_checked|]. intros. by apply usable_ret.
Qed.
Lemma do_usable_scanPages fuel zone name ttl page s : usable_errors (scanPages fuel zone name ttl page s).
Proof.
  revert page s. induction fuel as [|fuel IH]; intros page s; cbn [scanPages]; [by intros c w|].
  apply usable_or_return; [apply do_usable_checked|]. intros [records res].
  apply usable_or_return; [apply usable_for_return, do_usable_scanRecord|]. intros s'.
  destruct (res ≫= Links_IsLastPage) as [[]|]; [by apply usable_ret|apply IH|].
  apply usable_ret. intros e [= <-]. by apply usable_plain.
Qed.
Lemma do_usable_placeIP zone name ttl l ip : usable_errors (placeIP zone name ttl l ip).
Proof.
  unfold placeIP. destruct l; (apply usable_or_return; [apply do_usable_checked|intros; by apply usable_ret]).
Qed.
Lemma do_usable fuel ctx zone name ips ttl :
  usable_errors (DigitalOcean.EnsureDNSARecordSet fuel ctx zone name ips ttl).
Proof.
  apply usable_bind. intros m. apply usable_measured.
  apply usable_or_return; [apply do_usable_scanPages|]. intros [ipSet toDelete].
  apply usable_bind. intros order.
  apply usable_or_return; [apply usable_for_return; intros; apply do_usable_placeIP|]. intros l.
  apply usable_for_return. intros [] id.
  apply usable_or_return; [apply do_usable_checked|intros; by apply usable_ret].
Qed.
End digitalocean.

Section cloudflare.
Import Cloudflare.
Context {W : Type} `{!CloudflareAPI W, !Prometheus W, !Clock W, !MapRange W}.

Lemma cf_usable_checked {A} prefix (m : M cloudflareDNS W (A + error)) :
  usable_errors (checked prefix m).
Proof.
  apply usable_bind. intros [a|err]; apply usable_ret; [done|]. intros e [= <-].
  unfold toRetryError. repeat case_match; try apply usable_RetryFast; by apply usable_plain.
Qed.
Lemma cf_usable ctx zone name ips ttl : usable_errors (EnsureDNSARecordSet ctx zone name ips ttl).
Proof.
  apply usable_bind. intros m. apply usable_measured. apply usable_bind. intros r.
  apply usable_or_return.
  { apply usable_ret. intros e. destruct r; [done|]. intros [= <-]. by apply usable_plain. }
  intros existing. apply usable_or_return.
  { apply usable_for_return. intros [ipSet toDelete] rec. unfold scanRecord.
    case_match; [|by apply usable_ret]. apply usable_or_return; [|intros; by apply usable_ret].
    case_match; [apply cf_usable_checked|by apply usable_ret]. }
  intros [ipSet toDelete]. apply usable_bind. intros order. apply usable_or_return.
  { apply usable_for_return. intros l ip. unfold placeIP.
    destruct l; (apply usable_or_return; [apply cf_usable_checked|intros; by apply usable_ret]). }
  intros l. apply usable_for_return. intros [] id. apply cf_usable_checked.
Qed.
End cloudflare.

(** ** A service that hosts zones, as a provider keeps it

    [X]: the world of the service; [C]: the client; [zs_K]: the identifiers of the
    records.  The record set is a view of the zone: what the records hold. *)
Class ZoneService (X C : Type) : Type := {
  zs_K : Type;
  #[global] zs_eq :: EqDecision zs_K;
  #[global] zs_countable :: Countable zs_K;
  zs_rs : X → string → string → gmap zs_K (string * Z);
  zs_ensure : string → string → list string → Z → M C X (unit + error);
  zs_FQDN : string → string → string;
  zs_name : string;
}.
Class ZoneServiceLaws (X C : Type) `{!ZoneService X C} : Prop := {
  zs_ok zone name ips ttl c s :
    wp False (zs_ensure zone name ips ttl)
      (λ r c' s', c' = c ∧ (r = inl tt → exactly (list_to_set ips) ttl (zs_rs s' zone name))) c s;
  zs_usable zone name ips ttl : usable_errors (zs_ensure zone name ips ttl);
}.
Definition held_by `{Countable K} (v : gmap K (string * Z)) : gset string := map_img (fst <$> v).
Lemma held_exactly `{Countable K} ips ttl (v : gmap K (string * Z)) :
  exactly ips ttl v → held_by v = ips.
Proof.
  intros [Hs Hc _]. apply set_eq. intros ip. unfold held_by. rewrite elem_of_map_img. split.
  - intros (id & Hid). rewrite lookup_fmap in Hid. destruct (v !! id) as [[d t]|] eqn:Hv; [|done].
    injection Hid as <-. by eapply Hs.
  - intros (id & Hid)%Hc. exists id. by rewrite lookup_fmap, Hid.
Qed.

(** The cloud with the service, the client, and the rest of the world. *)
Record Hosted (X C V : Type) : Type := Hosted_ { cloud : X; client : C; rest : V }.
Arguments Hosted_ {X C V}. Arguments cloud {X C V}. Arguments client {X C V}. Arguments rest {X C V}.
Definition beside {X C V A} (f : V → A * V) (h : Hosted X C V) : A * Hosted X C V :=
  let '(a, v) := f (rest h) in (a, Hosted_ (cloud h) (client h) v).
Lemma beside_cloud {X C V A} (f : V → A * V) (h : Hosted X C V) : cloud (beside f h).2 = cloud h.
Proof. unfold beside. by destruct (f (rest h)). Qed.
Lemma beside_answer {X C V A} (f : V → A * V) (h : Hosted X C V) : (beside f h).1 = (f (rest h)).1.
Proof. unfold beside. by destruct (f (rest h)). Qed.

Section hosted.
Context `{ZoneServiceLaws X C}.
Context `{!NodeDNSEnv V, !MapRangeLaws V, !ClusterAPI V}.
Local Abbreviation World := (Hosted X C V).

(** The provider as the publisher calls it: the method of the client.  A panic,
    which [zs_ok] excludes, is not an outcome of the interface. *)
Definition hosted_ensure (zone name : string) (ips : list string) (ttl : Z) (h : World)
    : option error * World :=
  match zs_ensure zone name ips ttl (client h) (cloud h) with
  | Ret (r, c, s) => (match r with inl _ => None | inr err => Some err end, Hosted_ s c (rest h))
  | _ => (None, h)
  end.

#[global] Instance hosted_range : MapRange World := {| range_order ks := beside (range_order ks) |}.
#[global] Instance hosted_base : BaseProvider World := {| Provider.GetProviderName _ := zs_name |}.
#[global] Instance hosted_provider : DNSProvider World := {|
  Provider.EnsureDNSARecordSet _ := hosted_ensure;
  Provider.RecordNameAndZoneToFQDN _ := zs_FQDN;
|}.
#[global] Instance hosted_env : NodeDNSEnv World := {|
  api_Get ns name := beside (api_Get ns name);
  api_UpdateStatus ns nrs := beside (api_UpdateStatus ns nrs);
  gauge_Delete v l := beside (gauge_Delete v l);
  gauge_With v l := beside (gauge_With v l);
  gauge_Set g n := beside (gauge_Set g n);
  kind_of := kind_of (W := V);
|}.
#[global] Instance hosted_cluster : ClusterAPI World := {|
  cl_ByIndex i n := beside (cl_ByIndex i n);
  cl_Sync := beside cl_Sync;
  cl_List := beside cl_List;
|}.
#[global] Instance hosted_ghost : NodeDNSGhost World :=
  {| published h zone name := held_by (zs_rs (cloud h) zone name) |}.

Lemma beside_published {A} (f : V → A * V) (h : World) : published (beside f h).2 = published h.
Proof. cbn. by rewrite beside_cloud. Qed.

(** The service keeps the contract of a DNS provider. *)
#[global] Instance hosted_laws : NodeDNSLaws World.
Proof.
  split; try (intros; apply beside_published).
  - split. intros ks h. cbn. rewrite beside_answer. apply range_order_perm.
  - intros p zone name ips ttl h h'. cbn. unfold hosted_ensure.
    pose proof (zs_ok zone name ips ttl (client h) (cloud h)) as Hok. unfold wp in Hok.
    destruct (zs_ensure _ _ _ _ _ _) as [[[[[]|err] c] s]| |]; [|done..].
    intros [= <-]. destruct Hok as [_ Hex]. cbn. by eapply held_exactly, Hex.
  - intros p zone name ips ttl h e h'. cbn. unfold hosted_ensure.
    pose proof (zs_usable zone name ips ttl (client h) (cloud h)) as Hok.
    destruct (zs_ensure _ _ _ _ _ _) as [[[[[]|err] c] s]| |]; [done| |done..].
    by intros [= -> _].
Qed.
#[global] Instance hosted_cluster_laws : ClusterLaws World.
Proof. split; intros; apply beside_published. Qed.
End hosted.

(** ** The two providers *)

(** The pages a zone fills are fuel enough. *)
#[export] Instance do_service `{!Godo W, !Prometheus W, !Clock W, !MapRange W, !GoFmt, !DOGhost W} :
    ZoneService W digitalOcean := {|
  zs_rs w zone name := do_rs zone name w;
  zs_ensure zone name ips ttl c w :=
    DigitalOcean.EnsureDNSARecordSet (S (length (do_zone w zone) / 200)) Background zone name ips ttl c w;
  zs_FQDN := DigitalOcean.RecordNameAndZoneToFQDN;
  zs_name := DigitalOceanName;
|}.
#[export] Instance do_service_laws `{DNSLaws W, !GoFmt} : ZoneServiceLaws W digitalOcean.
Proof.
  split.
  - intros zone name ips ttl c w. cbn [zs_ensure do_service]. unfold wp at 1.
    eapply wp_mono; [|apply do_ensure_passes].
    + by intros r c' w' (-> & _ & Hex).
    + lia.
    + pose proof (Nat.div_mod_eq (length (do_zone w zone)) 200).
      pose proof (Nat.mod_upper_bound (length (do_zone w zone)) 200 ltac:(lia)). lia.
  - intros zone name ips ttl c w. apply do_usable.
Qed.

Import Cloudflare.
#[export] Instance cf_service `{!CloudflareAPI W, !Prometheus W, !Clock W, !MapRange W, !CFGhost W} :
    ZoneService W cloudflareDNS := {|
  zs_rs w zone name := cf_rs zone name w;
  zs_ensure := Cloudflare.EnsureDNSARecordSet Background;
  zs_FQDN := Cloudflare.RecordNameAndZoneToFQDN;
  zs_name := CloudflareName;
|}.
#[export] Instance cf_service_laws `{CFLaws W} : ZoneServiceLaws W cloudflareDNS.
Proof.
  split.
  - intros zone name ips ttl c w. eapply wp_mono; [|apply ensure_passes].
    by intros r c' w' (-> & _ & Hex).
  - intros zone name ips ttl. apply cf_usable.
Qed.

Lemma elem_of_held_by `{Countable K} (v : gmap K (string * Z)) ip :
  ip ∈ held_by v ↔ ∃ id t, v !! id = Some (ip, t).
Proof.
  unfold held_by. rewrite elem_of_map_img. split.
  - intros (id & Hid). rewrite lookup_fmap in Hid. destruct (v !! id) as [[d t]|] eqn:Hv; [|done].
    injection Hid as <-. eauto.
  - intros (id & t & Hid). exists id. by rewrite lookup_fmap, Hid.
Qed.
(** The records of the name, as the zones list them. *)
Lemma do_rs_holds `{DNSLaws W} zone name (w : W) ip :
  ip ∈ held_by (do_rs zone name w) ↔
  ∃ r, r ∈ do_zone w zone ∧ do_matches name r ∧ rec_Data r = ip.
Proof.
  rewrite elem_of_held_by. unfold do_rs. setoid_rewrite do_view_lookup; [|apply dz_nodup].
  naive_solver.
Qed.
Lemma cf_rs_holds `{CFLaws W} zone name (w : W) ip :
  ip ∈ held_by (cf_rs zone name w) ↔
  ∃ id r, cf_zone w zone !! id = Some r ∧ cf_matches name r = true ∧ cf_Content r = ip.
Proof. rewrite elem_of_held_by. unfold cf_rs. setoid_rewrite cf_view_lookup. naive_solver. Qed.

(** The nodes that match are active; unless a retry is pending the record set
    holds the addresses of the active nodes. *)
Lemma hosted_follows `{!KubeAPI, !ZoneService X C, !ZoneServiceLaws X C}
    `{!NodeDNSEnv V, !MapRangeLaws V, !ClusterAPI V, !ProviderKinds, !GoFmt}
    k8s p m m' d d' (h h' : Hosted X C V) :
  Sync m (d, h) → Publishing k8s p (d, h) → rtc dns_step (m, (d, h)) (m', (d', h')) →
  (∀ name, name ∈ dom (d_activeNodes d') ↔
     ∃ n, m_nodeNameToNode m' !! name = Some n ∧ desired m' n) ∧
  (retrying d' ∨
   let record := nds_DNSRecordSet (nds_Spec k8s) in
   ∀ ip, ip ∈ held_by (zs_rs (cloud h') (dns_Zone record) (dns_RecordName record)) ↔
     ∃ name node, d_activeNodes d' !! name = Some node ∧ ip ∈ nodeIPs (wantedType (nds_Spec k8s)) node).
Proof.
  intros HS HP Hrtc. destruct (dns_steps k8s p _ _ _ _ HS HP Hrtc) as [HS' [_ HP']].
  split; [apply HS'|]. destruct HP' as [Hcur|Hr]; [right|by left].
  intros record ip. rewrite <- elem_of_addresses. unfold current in Hcur. cbn in Hcur. subst record. by rewrite Hcur.
Qed.



(** The publisher of the resource, the zone of DigitalOcean or Cloudflare with
    another record in it, and a node that appears. *)
Module Hosting.
Definition do_sim : DOSim := dosim0 <| ds_records := [record_ 1 "other" "9.9.9.9" 30] |>.
Definition cf_sim : CFSim :=
  CFSim_ {["3" := of_params (RecordParams dnsRecordTypeA "mail" "9.9.9.9" 30)]} None.
Definition do_world : Hosted DOSim digitalOcean DNSSim := Hosted_ do_sim do0 DNSExample.w0.
Definition cf_world : Hosted CFSim cloudflareDNS DNSSim :=
  Hosted_ cf_sim (CloudflareDNS "t" None) DNSExample.w0.

Definition ran {X A W} (m : M X W A) (s : X * W) : X * W :=
  match m s.1 s.2 with Ret (_, x, w) => (x, w) | _ => s end.
Section run.
Context `{!NodeDNSEnv W, !ClusterAPI W}.
Definition set_up (w : W) : dnsEnablerDisabler * W :=
  ran (update (DNSExample.resource "") DNSExample.registry 9%positive ;; start Background)
    (DNSExample.d0, w).
Definition appeared (s : dnsEnablerDisabler * W) : NodeMatch.Controller * (dnsEnablerDisabler * W) :=
  match handle Following.appear Following.m0 s with
  | Ret (_, m, s') => (m, s')
  | _ => (Following.m0, s)
  end.
Lemma sync_empty (s : dnsEnablerDisabler * W) : d_activeNodes s.1 = ∅ → Sync Following.m0 (s.1, s.2).
Proof.
  rewrite <- surjective_pairing. intros He. split.
  - split; [done|by eexists|by intros ?|]. intros name n Hn. by rewrite Following.mc0_empty in Hn.
  - intros name. split.
    + intros Hin. change (active s) with (dom (d_activeNodes s.1)) in Hin.
      rewrite He, dom_empty in Hin. by apply elem_of_empty in Hin.
    + intros (n & Hn & _). by rewrite Following.mc0_empty in Hn.
Qed.
Lemma one_event `{!NodeDNSGhost W} e m m' (s s' : dnsEnablerDisabler * W) :
  deliverable e m s → handle e m s = Ret (tt, m', s') →
  rtc dns_step (m, (s.1, s.2)) (m', (s'.1, s'.2)).
Proof. rewrite <- !surjective_pairing. intros Hd Hh. by apply rtc_once, (ds_event e). Qed.
Lemma appear_deliverable (s : dnsEnablerDisabler * W) : deliverable Following.appear Following.m0 s.
Proof. intros idx Hidx. discriminate Hidx. Qed.
Lemma publishing_set_up `{!NodeDNSGhost W} (s : dnsEnablerDisabler * W) :
  d_k8s s.1 = Some (DNSExample.resource "") → d_provider s.1 = Some 2%positive →
  is_Some (d_metricRecords s.1) → d_retries s.1 = 0%Z → d_activeNodes s.1 = ∅ →
  published s.2 "z" "www" = ∅ → Publishing (DNSExample.resource "") 2%positive (s.1, s.2).
Proof.
  destruct s as [d w]. cbn [fst snd]. intros Hk Hp Hg Hr Ha He.
  split; [split; cbn [fst snd]; [done..|by rewrite Hr]|]. left. unfold current, addresses.
  cbn [fst snd]. rewrite Ha. exact He.
Qed.
End run.
Definition do_s0 := set_up do_world.
Definition do_s1 := appeared do_s0.
Definition cf_s0 := set_up cf_world.
Definition cf_s1 := appeared cf_s0.

Lemma do_ready : Publishing (DNSExample.resource "") 2%positive (do_s0.1, do_s0.2).
Proof. apply publishing_set_up; first [vm_compute; reflexivity|by eexists; vm_compute]. Qed.
Lemma cf_ready : Publishing (DNSExample.resource "") 2%positive (cf_s0.1, cf_s0.2).
Proof. apply publishing_set_up; first [vm_compute; reflexivity|by eexists; vm_compute]. Qed.
Lemma do_step : handle Following.appear Following.m0 do_s0 = Ret (tt, do_s1.1, do_s1.2).
Proof. vm_compute. reflexivity. Qed.
Lemma cf_step : handle Following.appear Following.m0 cf_s0 = Ret (tt, cf_s1.1, cf_s1.2).
Proof. vm_compute. reflexivity. Qed.
Lemma do_empty : d_activeNodes do_s0.1 = ∅.
Proof. vm_compute. reflexivity. Qed.
Lemma cf_empty : d_activeNodes cf_s0.1 = ∅.
Proof. vm_compute. reflexivity. Qed.
Lemma do_steps : rtc dns_step (Following.m0, (do_s0.1, do_s0.2)) (do_s1.1, (do_s1.2.1, do_s1.2.2)).
Proof. exact (one_event Following.appear _ _ _ _ (appear_deliverable do_s0) do_step). Qed.
Lemma cf_steps : rtc dns_step (Following.m0, (cf_s0.1, cf_s0.2)) (cf_s1.1, (cf_s1.2.1, cf_s1.2.2)).
Proof. exact (one_event Following.appear _ _ _ _ (appear_deliverable cf_s0) cf_step). Qed.
End Hosting.


