(* ===== verification/Pool.v ===== *)
(** * pkg/floatingip/floatingippool_controller.go

    The controller of FloatingIPPool resources.  Each pool is a match controller
    and the IP controller that is its action; the closures an IP controller calls
    back - to store new addresses and the status, and to annotate nodes - are the
    ones of this file. *)
From S2P Require Import Prelude Go Retry GoText OrderedSet K8s Types Provider.
From S2P Require Import ProviderMetrics.
From S2P Require Import Registry IPController NodeMatch.

(** JSON documents. *)
Inductive json : Type :=
  | JNull
  | JString (s : string)
  | JObject (fields : list (string * json)).

(** The Kubernetes API, and what of Go's conversion from [float64] to [int64] is
    left to the implementation. *)
Class PoolEnv (W : Type) : Type := {
  #[global] poolenv_range :: MapRange W;
  #[global] poolenv_clock :: Clock W;
  #[global] poolenv_base :: BaseProvider W;
  #[global] poolenv_ipprovider :: IPProvider W;
  #[global] poolenv_dnsprovider :: DNSProvider W;
  #[global] poolenv_lister :: NodeLister W;
  pool_now : W → Time * W;
  pool_ctx_Err : W → bool * W;
  pools_Get : string → string → W → (FloatingIPPool + error) * W;
  pools_Update : string → FloatingIPPool → W → option error * W;
  pools_UpdateStatus : string → FloatingIPPool → W → option error * W;
  nodes_Patch : string → string → W → option error * W;
  IsNotFound : error → bool;
  json_Marshal : json → string;
  pool_kind_of : FloatingIPPool → option string;
  float_to_int64_undefined : spec_float → Z;
}.

(** [time.Duration(seconds * float64(time.Second))]: the product is rounded to
    [float64], and truncated towards zero. *)
Definition float_Second : spec_float := binary_normalize 53 1024 Second 0 false.
Definition float_trunc (f : spec_float) : option Z :=
  match f with
  | S754_zero _ => Some 0%Z
  | S754_finite s m e =>
      let n := (if (0 <=? e)%Z then Z.shiftl (Zpos m) e else Z.shiftr (Zpos m) (- e))%Z in
      let n := if s then (- n)%Z else n in
      if ((- 2 ^ 63 <=? n) && (n <? 2 ^ 63))%Z then Some n else None
  | _ => None
  end.
Definition coolOff `{!PoolEnv W} (seconds : spec_float) : Duration :=
  let product := SFmul 53 1024 seconds float_Second in
  default (float_to_int64_undefined product) (float_trunc product).

(** ** State *)
Record floatingIPPool `{!KubeAPI} : Type := FloatingIPPool_ {
  p_namespace : string;
  p_name : string;
  p_matchController : NodeMatch.Controller;
  p_ipController : ipController;
}.
Definition eta_floatingIPPool `{!KubeAPI} (p : floatingIPPool) : floatingIPPool :=
  FloatingIPPool_ _ (p_namespace p) (p_name p) (p_matchController p) (p_ipController p).
#[export] Instance set_p_matchController `{!KubeAPI} : Setter p_matchController :=
  ltac:(let b := eval cbv beta delta [eta_floatingIPPool] in eta_floatingIPPool in
        derive_setter_in b p_matchController).
#[export] Instance set_p_ipController `{!KubeAPI} : Setter p_ipController :=
  ltac:(let b := eval cbv beta delta [eta_floatingIPPool] in eta_floatingIPPool in
        derive_setter_in b p_ipController).

(** The IP controller as the action of its match controller. *)
Definition action_ref : Ref := 1%positive.

(** The closures made by [ipUpdater] and [statusUpdater] are known by the names
    they capture; the one made by [annotationUpdater] captures no name. *)
Definition closure (name namespace : string) : Ref := encode (name, namespace).
Definition annotate_closure : Ref := 1%positive.

Definition with_IPs (ips : slice string) (k8s : FloatingIPPool) : FloatingIPPool :=
  let s := fip_Spec k8s in
  {| fip_meta := fip_meta k8s;
     fip_Spec := {| fip_IPs := ips; fip_DesiredIPs := fip_DesiredIPs s; fip_Provider := fip_Provider s;
                    fip_Region := fip_Region s; fip_Match := fip_Match s;
                    fip_DNSRecordSet := fip_DNSRecordSet s;
                    fip_AssignmentCoolOffSeconds := fip_AssignmentCoolOffSeconds s |};
     fip_Status := fip_Status k8s |}.
Definition with_Status (status : FloatingIPPoolStatus) (k8s : FloatingIPPool) : FloatingIPPool :=
  {| fip_meta := fip_meta k8s; fip_Spec := fip_Spec k8s; fip_Status := status |}.

(** ** The closures *)
Section closures.
Context `{!KubeAPI} {W : Type} `{!PoolEnv W, !GoFmt} {C : Type}.
Local Abbreviation M := (M C W).

(** [statusUpdater] *)
Definition statusUpdater (name namespace : string) (status : FloatingIPPoolStatus)
    : M (option error) :=
  r ← call (pools_Get namespace name);
  match r with
  | inr err => mret (Some (WrapError "loading FloatingIPPool: " err))
  | inl k8s =>
      if bool_decide (status = fip_Status k8s) then mret None
      else
        err ← call (pools_UpdateStatus (meta_Namespace (fip_meta k8s)) (with_Status status k8s));
        mret (WrapError "updating FloatingIPPool status: " <$> err)
  end.

(** [ipUpdater] *)
Definition ipUpdater (name namespace : string) (ips : slice string) : M (option error) :=
  r ← call (pools_Get namespace name);
  match r with
  | inr err => mret (Some (WrapError "loading FloatingIPPool: " err))
  | inl k8s =>
      err ← call (pools_Update namespace (with_IPs ips k8s));
      mret (WrapError "updating FloatingIPPool: " <$> err)
  end.

(** A [nodeGetter] is what its method [GetNodeByName] does; a match controller is
    one. *)
Definition nodeGetter : Type := string → M (Node + error).
Definition matchGetter (m : NodeMatch.Controller) : nodeGetter := λ nodeName c w,
  match GetNodeByName nodeName m w with
  | Ret (r, _, w') => Ret (r, c, w')
  | Panic => Panic
  | OutOfFuel => OutOfFuel
  end.

Definition getNodeFromControllers (nodeName : string) (controllers : list nodeGetter)
    : M (Node + error) :=
  r ← for_return controllers tt (λ _ controller,
        res ← controller nodeName;
        mret match res with
             | inl node => inr (inl node)
             | inr err => if IsNotFound err then inl tt
                          else inr (inr (WrapError "unexpected error retrieving node: " err))
             end);
  mret match r with
       | inr res => res
       | inl _ => inr (ErrorString ("unable to find node with name " +:+ nodeName +:+
                                    " in any FloatingIpPool"))
       end.

Definition getNodeFromPools (pools : gmap string floatingIPPool) (nodeName : string)
    : M (Node + error) :=
  uids ← range_keys pools;
  getNodeFromControllers nodeName
    (omap (λ uid, matchGetter ∘ p_matchController <$> pools !! uid) uids).

(** [annotationUpdater] *)
Definition annotation_patch (annotationValue : json) : json :=
  JObject [("metadata", JObject [("annotations",
    JObject [(IPv4ReservedIPAnnotation, annotationValue)])])].
Definition validIPv4 (ip : string) : bool :=
  match ParseIP ip ≫= To4 with Some _ => true | None => false end.
Definition annotationUpdater (getNodeFunc : nodeGetter) (nodeName ip : string) : M (option error) :=
  r ← getNodeFunc nodeName;
  match r with
  | inr err => mret (Some (WrapError "get node: " err))
  | inl node =>
      let currentAnnotationValue := map_get (node_Annotations node) IPv4ReservedIPAnnotation in
      if bool_decide (ip = currentAnnotationValue) then mret None
      else if negb (bool_decide (ip = "")) && negb (validIPv4 ip)
      then mret (Some (ErrorString ("invalid IPv4 address: " +:+ ip)))
      else
        let annotationValue := if bool_decide (ip = "") then JNull else JString ip in
        err ← call (nodes_Patch nodeName (json_Marshal (annotation_patch annotationValue)));
        mret (WrapError "updating annotation: " <$> err)
  end.
End closures.

(** ** The world of the IP controllers

    The closures answer for the callbacks: [pools] are the pools whose match
    controllers are asked for a node.  What a closure that panics leaves behind
    is not an outcome of the interface. *)
Definition run_closure {W A} (m : M unit W A) (a : A) : W → A * W := λ w,
  match m tt w with Ret (a, _, w') => (a, w') | _ => (a, w) end.
Definition captured (f : Ref) : string * string := default ("", "") (decode f).

Definition pool_ipenv `{!KubeAPI} {W} `{!PoolEnv W, !GoFmt} (pools : gmap string floatingIPPool)
    : IPEnv W := {|
  ipenv_range := poolenv_range;
  ipenv_clock := poolenv_clock;
  ipenv_ipprovider := poolenv_ipprovider;
  ipenv_dnsprovider := poolenv_dnsprovider;
  env_now := pool_now;
  ctx_Err := pool_ctx_Err;
  call_onNewIPs f ips := run_closure (ipUpdater (captured f).1 (captured f).2 ips) None;
  call_onStatusUpdate f status :=
    run_closure (statusUpdater (captured f).1 (captured f).2 status) None;
  call_onAnnotate _ nodeName ip :=
    run_closure (annotationUpdater (getNodeFromPools pools) nodeName ip) None;
|}.

(** ** The controller *)
Module Pool.
Record Controller `{!KubeAPI} : Type := Controller_ {
  c_providers : Registry;
  c_pools : gmap string floatingIPPool;
  c_ctx : Context;
}.
Definition eta_Controller `{!KubeAPI} (c : Controller) : Controller :=
  Controller_ _ (c_providers c) (c_pools c) (c_ctx c).
#[export] Instance set_c_pools `{!KubeAPI} : Setter c_pools :=
  ltac:(let b := eval cbv beta delta [eta_Controller] in eta_Controller in
        derive_setter_in b c_pools).
#[export] Instance set_c_ctx `{!KubeAPI} : Setter c_ctx :=
  ltac:(let b := eval cbv beta delta [eta_Controller] in eta_Controller in
        derive_setter_in b c_ctx).

(** An object the informer delivers. *)
Inductive object : Type :=
  | ObjPool (k8sPool : FloatingIPPool)
  | ObjOther.

Section pool.
Context `{!KubeAPI} {W : Type} `{!PoolEnv W, !ProviderKinds, !GoFmt}.
Local Abbreviation M := (M Controller W).

Definition NewController (providers : Registry) : Controller := Controller_ _ providers ∅ Background.

(** The methods of the two controllers of a pool, through its pointers; the IP
    controller runs in the world of the pools there are. *)
Definition on_match (uid : string) (f : NodeMatch.Controller → NodeMatch.Controller) : M unit :=
  modify (λ c, c <| c_pools ::= alter (λ p, p <| p_matchController ::= f |>) uid |>).
Definition on_ip {A} (uid : string) (m : Go.M ipController W A) : M A := λ c w,
  match c_pools c !! uid with
  | None => Panic
  | Some p =>
      match m (p_ipController p) w with
      | Ret (a, i, w') => Ret (a, c <| c_pools ::= <[uid := p <| p_ipController := i |>]> |>, w')
      | Panic => Panic
      | OutOfFuel => OutOfFuel
      end
  end.
Definition update_ip (uid : string) (f : ipController → ipController) : M unit :=
  on_ip uid (modify f).

(** [updateStatus] writes to the object it is given, which is the informer's; it
    answers the object as it is afterwards. *)
Definition updateStatus (k8sPool : FloatingIPPool) (errMsg : string) : M FloatingIPPool :=
  let s := {| status_IPs := None; status_NodeErrors := None; status_AssignableNodes := None;
              status_Error := errMsg |} in
  if bool_decide (s = fip_Status k8sPool) then mret k8sPool
  else
    let k8sPool := with_Status s k8sPool in
    _ ← call (pools_UpdateStatus (meta_Namespace (fip_meta k8sPool)) k8sPool);
    mret k8sPool.

(** [validate], with the object as it is afterwards. *)
Definition invalid (k8sPool : FloatingIPPool) (errMsg : string) : M (bool * FloatingIPPool) :=
  k8sPool ← updateStatus k8sPool errMsg; mret (false, k8sPool).
Definition validate (k8sPool : FloatingIPPool) : M (bool * FloatingIPPool) :=
  provs ← gets c_providers;
  let spec := fip_Spec k8sPool in
  match Registry.Get provs (fip_Provider spec) with
  | None => invalid k8sPool ("unknown provider " +:+ fmt_q (fip_Provider spec))
  | Some prov =>
      if negb (is_IPProvider prov) then
        invalid k8sPool ("provider " +:+ fmt_q (fip_Provider spec) +:+
                         " does not provide floating IPs")
      else if (slen (fip_IPs spec) =? 0)%Z && (fip_DesiredIPs spec =? 0)%Z then
        invalid k8sPool "ips or desiredIPs must be provided"
      else match ValidateMatch (fip_Match spec) with
           | Some err => invalid k8sPool ("Error " +:+ Error err)
           | None =>
               match fip_DNSRecordSet spec with
               | None => mret (true, k8sPool)
               | Some record =>
                   let dnsProv := default prov (Registry.Get provs (dns_Provider record)) in
                   if is_DNSProvider dnsProv then mret (true, k8sPool)
                   else invalid k8sPool "FloatingIPPool dns referenced provider without dns capability"
               end
           end
  end.

(** The providers of a valid specification: type assertions with and without
    [ok]. *)
Definition assert_IPProvider (v : option Ref) : M Ref :=
  p ← deref v; if is_IPProvider p then mret p else panic.
Definition as_DNSProvider (v : option Ref) : option Ref :=
  match v with Some p => if is_DNSProvider p then Some p else None | None => None end.
Definition dnsProviderOf (provs : Registry) (prov : Ref) (record : option DNSRecordSet) : option Ref :=
  match record with
  | Some r => if bool_decide (dns_Provider r = "") then as_DNSProvider (Some prov)
              else as_DNSProvider (Registry.Get provs (dns_Provider r))
  | None => as_DNSProvider (Some prov)
  end.

(** A new pool, its match controller started. *)
Definition newPool (k8sPool : FloatingIPPool) : floatingIPPool :=
  let name := meta_Name (fip_meta k8sPool) in
  let namespace := meta_Namespace (fip_meta k8sPool) in
  let ipc := ipController.newIPController (Some (closure name namespace))
               (Some (closure name namespace)) (Some annotate_closure) in
  let matchController := NodeMatch.NewController action_ref in
  FloatingIPPool_ _ namespace name
    (Start (SetCriteria (fip_Match (fip_Spec k8sPool)) matchController)) ipc.

(** Stop both controllers of a pool and forget it. *)
Definition removePool (uid : string) : M unit :=
  on_match uid Stop ;;
  update_ip uid ipController.stop ;;
  modify (λ c, c <| c_pools ::= delete uid |>).

Definition update_ips (uid : string) (ips : slice string) (desiredIPs : Z) : M unit :=
  pools ← gets c_pools;
  on_ip uid (ipController.updateIPs (IPEnv0 := pool_ipenv pools) ips desiredIPs).

Definition updateOrAdd (k8sPool : FloatingIPPool) : M FloatingIPPool :=
  let uid := meta_UID (fip_meta k8sPool) in
  let spec := fip_Spec k8sPool in
  v ← validate k8sPool;
  let '(isValid, k8sPool) := (v : bool * FloatingIPPool) in
  pools ← gets c_pools;
  isKnownPool ← match pools !! uid with
                | None => mret false
                | Some pool =>
                    if IsCriteriaEqual (Some (fip_Match spec)) (p_matchController pool) then mret true
                    else removePool uid ;; mret false
                end;
  if negb isKnownPool && negb isValid then mret k8sPool
  else
    when (negb isKnownPool) (modify (λ c, c <| c_pools ::= <[uid := newPool k8sPool]> |>)) ;;
    if negb isValid then removePool uid ;; mret k8sPool
    else
      provs ← gets c_providers;
      prov ← assert_IPProvider (Registry.Get provs (fip_Provider spec));
      let dnsProv := dnsProviderOf provs prov (fip_DNSRecordSet spec) in
      ipChange ← on_ip uid (λ i w,
        let '(change, i) := ipController.updateProviders (Some prov) dnsProv (fip_Region spec)
                              (coolOff (fip_AssignmentCoolOffSeconds spec)) i in
        Ret (change, i, w));
      update_ips uid (fip_IPs spec) (fip_DesiredIPs spec) ;;
      update_ip uid (ipController.updateDNSSpec (fip_DNSRecordSet spec)) ;;
      when ipChange (update_ip uid ipController.start) ;;
      mret k8sPool.

(** The event handlers; an object of another type is a [nil] pool. *)
Definition OnAdd (obj : object) : M FloatingIPPool :=
  match obj with ObjPool k8sPool => updateOrAdd k8sPool | ObjOther => panic end.
Definition OnUpdate (obj : object) : M FloatingIPPool :=
  match obj with ObjPool k8sPool => updateOrAdd k8sPool | ObjOther => panic end.
Definition OnDelete (obj : object) : M unit :=
  match obj with
  | ObjOther => panic
  | ObjPool k8sPool =>
      let uid := meta_UID (fip_meta k8sPool) in
      pools ← gets c_pools;
      match pools !! uid with
      | None => mret tt
      | Some _ => removePool uid
      end
  end.

(** [Run], before the informer runs and after it has stopped. *)
Definition Run_start (ctx : Context) (c : Controller) : Controller := c <| c_ctx := ctx |>.
Definition Run_shutdown : M unit :=
  pools ← gets c_pools;
  uids ← range_keys pools;
  for_each uids removePool.
End pool.
End Pool.
