(* ===== verification/PoolProps.v ===== *)
(** * Properties of the pool controller's operations

    Which resources are valid, what validation reports, what the providers,
    addresses and DNS record of a pool become, and what an annotation does. *)
From S2P Require Import Prelude Go Retry GoText OrderedSet K8s Types Provider.
From S2P Require Import ProviderMetrics.
From S2P Require Import Registry IPController IPInvariant IPReconcile IPSystem IPAssign.
From S2P Require Import IPSpec.
From S2P Require Import NodeMatch NodeMatchProps NodeMatchSystem Pool.
Import Pool.

Section props.
Context `{!KubeAPI} {W} `{!PoolEnv W, !MapRangeLaws W, !ProviderKinds, !GoFmt}.
Implicit Types (c : Pool.Controller) (i : ipController) (w : W) (k8s : FloatingIPPool).
Implicit Types (provs : Registry) (p : floatingIPPool).

(** ** Validation *)

(** The resource can be served by the provider [prov]. *)
Definition admissible provs k8s (prov : Ref) : Prop :=
  let spec := fip_Spec k8s in
  Registry.Get provs (fip_Provider spec) = Some prov ∧ is_IPProvider prov = true ∧
  ¬ (slen (fip_IPs spec) = 0%Z ∧ fip_DesiredIPs spec = 0%Z) ∧
  ValidateMatch (fip_Match spec) = None ∧
  ∀ record, fip_DNSRecordSet spec = Some record →
    is_DNSProvider (default prov (Registry.Get provs (dns_Provider record))) = true.
Definition valid_pool provs k8s : Prop := ∃ prov, admissible provs k8s prov.

(** An object with the same specification: only its status was written. *)
Definition same_object k8s k8s' : Prop := fip_meta k8s' = fip_meta k8s ∧ fip_Spec k8s' = fip_Spec k8s.

Lemma wp_updateStatus_pool E k8s msg (Q : FloatingIPPool → Pool.Controller → W → Prop) c w :
  (∀ k8s' w', same_object k8s k8s' → Q k8s' c w') → wp E (updateStatus k8s msg) Q c w.
Proof.
  intros HQ. unfold updateStatus. case_bool_decide; [wp_steps; by apply HQ|].
  wp_steps. apply wp_call. intros err w' _. wp_steps. by apply HQ.
Qed.

Lemma wp_validate_pool E k8s c w :
  wp E (validate k8s) (λ v c' _, c' = c ∧ same_object k8s v.2 ∧
    (v.1 = true ↔ valid_pool (c_providers c) k8s)) c w.
Proof.
  assert (∀ msg, ¬ valid_pool (c_providers c) k8s →
    wp E (invalid k8s msg) (λ v c' _, c' = c ∧ same_object k8s v.2 ∧
      (v.1 = true ↔ valid_pool (c_providers c) k8s)) c w) as Hinv.
  { intros msg Hnot. unfold invalid. wp_steps. apply wp_updateStatus_pool. intros k8s' w' Hs.
    wp_steps. split_and!; [done..|]. by split. }
  unfold validate. wp_steps. destruct (Registry.Get _ _) as [prov|] eqn:Hget.
  2: { apply Hinv. intros (prov & Hp & _). congruence. }
  destruct (is_IPProvider prov) eqn:Hip; cbn [negb].
  2: { apply Hinv. intros (p' & Hp & Hip' & _). congruence. }
  destruct ((slen _ =? 0)%Z && _) eqn:Hempty.
  { apply Hinv. intros (p' & _ & _ & Hne & _). apply Hne.
    by apply andb_true_iff in Hempty as [?%Z.eqb_eq ?%Z.eqb_eq]. }
  assert (¬ (slen (fip_IPs (fip_Spec k8s)) = 0%Z ∧ fip_DesiredIPs (fip_Spec k8s) = 0%Z)) as Hne.
  { intros [Hs0 Hd0]. by rewrite Hs0, Hd0 in Hempty. }
  destruct (ValidateMatch _) as [err|] eqn:Hm.
  { apply Hinv. intros (p' & _ & _ & _ & Hm' & _). congruence. }
  destruct (fip_DNSRecordSet _) as [record|] eqn:Hrec.
  - destruct (is_DNSProvider _) eqn:Hdns.
    + wp_steps. split_and!; [done..|]. split; [|done]. intros _. exists prov.
      split_and!; [done..|]. intros r [= <-]%(eq_trans (eq_sym Hrec)). done.
    + apply Hinv. intros (p' & Hp & _ & _ & _ & Hd). specialize (Hd _ Hrec). congruence.
  - wp_steps. split_and!; [done..|]. split; [|done]. intros _. exists prov. split_and!; [done..|].
    intros r Hr. congruence.
Qed.

(** ** The operations on an IP controller *)

(** What the specification decides once and for all. *)
Definition settings i :=
  (i_provider i, i_region i, i_assignmentCoolOff i, i_running i, i_dns i).

(** [updateIPs] does not panic, whatever the records hold. *)
Lemma removeIP_total `{!IPEnv W} ip i w : is_Some (i_ipToStatus i !! ip) →
  wp False (ipController.removeIP ip) (λ _ i' _, i_ipToStatus i' = delete ip (i_ipToStatus i)) i w.
Proof.
  intros [s Hs]. unfold ipController.removeIP, ipController.get_status. wp_steps. rewrite Hs. wp_steps.
  case_bool_decide; wp_steps; [done|]. destruct (i_providerIDToNodeName i !! _); wp_steps; [|done].
  unfold ipController.annotate. wp_steps. cbn. destruct (i_onAnnotate i); wp_steps; [|done].
  apply wp_call. intros err w' _. by wp_steps.
Qed.

Lemma removeIPs_total `{!IPEnv W} (body : string → M ipController W unit) keys i w :
  (∀ ip, body ip = mret tt ∨ body ip = ipController.removeIP ip) →
  NoDup keys → (∀ ip, ip ∈ keys → is_Some (i_ipToStatus i !! ip)) →
  wp False (for_each keys body) (λ _ _ _, True) i w.
Proof.
  intros Hb Hnd Hk. eapply wp_mono; [|apply (wp_for_each_prefix _ (λ visited i' _,
    ∀ ip, ip ∈ keys → ip ∉ visited → is_Some (i_ipToStatus i' !! ip)))]; [done|by auto|].
  intros visited ip todo i' w' Hkeys HI. destruct (Hb ip) as [->| ->].
  - wp_steps. intros ip' Hk' Hv. apply HI; [done|set_solver].
  - assert (ip ∉ visited) as Hv.
    { rewrite Hkeys, NoDup_app in Hnd. destruct Hnd as (_ & Hnd & _). intros Hv.
      apply (Hnd ip Hv). by left. }
    eapply wp_mono; [|apply removeIP_total, HI; [rewrite Hkeys; set_solver|done]].
    intros _ i2 w2 ->. intros ip' Hk' Hv'. rewrite lookup_delete_ne; [apply HI; set_solver|].
    set_solver.
Qed.

Lemma updateIPs_total (EN : IPEnv W) (HR : MapRangeLaws W (MapRange0 := ipenv_range)) ips n i w :
  (0 ≤ n)%Z →
  wp False (ipController.updateIPs ips n) (λ _ i' _,
    settings i' = settings i ∧ i_desiredIPs i' = n ∧ elems (i_ips i') = managed ips n) i w.
Proof.
  intros Hn. assert (frame settings (ipController.updateIPs ips n)) as Hf by solve_frame.
  eapply wp_mono; [|apply (wp_frame settings _ _ (λ _ i' _, i_desiredIPs i' = n ∧
    elems (i_ips i') = managed ips n) _ _ Hf)]; [by intros [] i' w' [[? ?] ?]|].
  unfold ipController.updateIPs. wp_steps. eapply wp_mono; [|by apply limitIPs_spec].
  intros ips' i1 w1 (-> & -> & Hm). wp_steps.
  destruct (ipController.sameIPs _ _ _) eqn:Hsame.
  - wp_steps. split; [done|]. apply andb_true_iff in Hsame as [Hsame%bool_decide_eq_true _].
    cbn in *. by subst ips'.
  - wp_steps. unfold range_keys. apply wp_call. intros keys w' Hkeys. wp_steps.
    eapply wp_mono; [|apply removeIPs_total].
    + intros [] i2 w2 _. by wp_steps.
    + intros ip. case_decide; auto.
    + exact (@range_order_nodup W ipenv_range HR _ _ _ _ _ Hkeys).
    + intros ip. apply (@range_order_elem W ipenv_range HR _ _ _ _ _ _ Hkeys).
Qed.

Lemma updateProviders_settings i prov dnsProv region cool :
  (i_provider i ≠ None → i_running i = true) →
  let '(change, i') := ipController.updateProviders (Some prov) dnsProv region cool i in
  i_provider i' = Some prov ∧ i_region i' = region ∧ i_assignmentCoolOff i' = cool ∧
  i_dns i' = i_dns i ∧ (change = true ∨ i_running i' = true).
Proof.
  intros Hrun. unfold ipController.updateProviders.
  destruct (bool_decide (i_provider i = _)) eqn:Hp; destruct (bool_decide (i_region i = _)) eqn:Hr;
    cbn [negb orb]; (destruct (_ =? cool)%Z eqn:Hcool; cbn [negb];
    [apply Z.eqb_eq in Hcool|destruct (negb _)]); cbn; try by split_and!; auto.
  all: apply bool_decide_eq_true in Hp, Hr; split_and!; auto.
  right. apply Hrun. congruence.
Qed.

(** The record a specification puts in force. *)
Definition in_force (dns : option DNSRecordSet) : option DNSRecordSet :=
  match dns with
  | Some d => if bool_decide (dns_RecordName d = "") || bool_decide (dns_Zone d = "") then None
              else Some (with_TTL d)
  | None => None
  end.
Lemma in_force_idemp d dns : in_force dns = Some d → in_force (Some d) = Some d.
Proof.
  destruct dns as [d0|]; [|done]. cbn. destruct (_ || _) eqn:Hb; [done|]. intros [= <-]. cbn.
  rewrite Hb. f_equal. unfold with_TTL at 1. cbn [dns_Provider dns_Zone dns_RecordName].
  pose proof (with_TTL_nonzero d0) as Hz. destruct (Z.eqb_spec (dns_TTL (with_TTL d0)) 0) as [|]; done.
Qed.

Lemma updateDNSSpec_settings i dns0 dns :
  i_dns i = in_force dns0 →
  let i' := ipController.updateDNSSpec dns i in
  i_dns i' = in_force dns ∧ i_provider i' = i_provider i ∧ i_region i' = i_region i ∧
  i_assignmentCoolOff i' = i_assignmentCoolOff i ∧ i_running i' = i_running i ∧
  i_desiredIPs i' = i_desiredIPs i ∧ i_ips i' = i_ips i.
Proof.
  intros Hi. unfold ipController.updateDNSSpec. case_bool_decide as Hd.
  - split; [|done]. subst dns. destruct (i_dns i) as [d|]; [|done].
    symmetry. by eapply in_force_idemp.
  - destruct dns as [d|]; [|done]. cbn. destruct (_ || _) eqn:Hb; cbn; by split_and!.
Qed.

(** ** Pools *)

(** A pool that serves a resource: its controllers run, with what the resource
    specifies. *)
Record serves provs p k8s : Prop := {
  sv_prov : ∃ prov, admissible provs k8s prov ∧ i_provider (p_ipController p) = Some prov;
  sv_match : m_match (p_matchController p) = Some (fip_Match (fip_Spec k8s));
  sv_running : m_running (p_matchController p) = true ∧ i_running (p_ipController p) = true;
  sv_region : i_region (p_ipController p) = fip_Region (fip_Spec k8s);
  sv_coolOff : i_assignmentCoolOff (p_ipController p) =
    coolOff (fip_AssignmentCoolOffSeconds (fip_Spec k8s));
  sv_dns : i_dns (p_ipController p) = in_force (fip_DNSRecordSet (fip_Spec k8s));
}.
Definition Served c : Prop :=
  ∀ uid p, c_pools c !! uid = Some p → ∃ k8s, serves (c_providers c) p k8s.

(** Every pool but [uid] is as before. *)
Definition others_kept c uid c' : Prop :=
  c_providers c' = c_providers c ∧ ∀ uid', uid' ≠ uid → c_pools c' !! uid' = c_pools c !! uid'.

Lemma Served_pools c uid c' : Served c → others_kept c uid c' →
  (∀ p, c_pools c' !! uid = Some p → ∃ k8s, serves (c_providers c) p k8s) → Served c'.
Proof.
  intros HS [Hpr Hkept] Hu uid' p Hp. rewrite Hpr. destruct (decide (uid' = uid)) as [->|Hne].
  - by apply Hu.
  - rewrite Hkept in Hp by done. by eapply HS.
Qed.

Lemma wp_on_ip {A} E uid (m : M ipController W A) Q c w p :
  c_pools c !! uid = Some p →
  wp E m (λ a i w', Q a (c <| c_pools ::= <[uid := p <| p_ipController := i |>]> |>) w')
    (p_ipController p) w →
  wp E (on_ip uid m) Q c w.
Proof.
  intros Hp. unfold wp, on_ip. rewrite Hp. by destruct (m _ w) as [[[a i] w']| |].
Qed.

Lemma wp_removePool E uid c w p (Q : unit → Pool.Controller → W → Prop) :
  c_pools c !! uid = Some p →
  (∀ c', others_kept c uid c' → c_pools c' !! uid = None → Q tt c' w) →
  wp E (removePool uid) Q c w.
Proof.
  intros Hp HQ. unfold removePool, on_match. wp_steps. unfold update_ip.
  eapply wp_on_ip; [cbn; by rewrite lookup_alter_eq, Hp|]. wp_steps. apply HQ.
  - split; [done|]. intros uid' Hne. cbn. by rewrite lookup_delete_ne, lookup_insert_ne, lookup_alter_ne.
  - cbn. by rewrite lookup_delete_eq.
Qed.

(** A pool that can be updated to serve the resource. *)
Record updatable p k8s : Prop := {
  up_match : m_match (p_matchController p) = Some (fip_Match (fip_Spec k8s));
  up_running : m_running (p_matchController p) = true;
  up_started : i_provider (p_ipController p) ≠ None → i_running (p_ipController p) = true;
  up_dns : ∃ dns, i_dns (p_ipController p) = in_force dns;
}.

Lemma serves_updatable_pool provs p k8s0 k8s :
  serves provs p k8s0 → m_match (p_matchController p) = Some (fip_Match (fip_Spec k8s)) → updatable p k8s.
Proof. intros [] Hm. split; [done|by destruct sv_running0..|by eexists]. Qed.

Lemma newPool_updatable k8s : ValidateMatch (fip_Match (fip_Spec k8s)) = None → updatable (newPool k8s) k8s.
Proof.
  intros Hm. split; cbn [newPool p_matchController p_ipController].
  - rewrite Start_match. by apply SetCriteria_valid.
  - apply Start_running.
  - done.
  - by exists None.
Qed.

Lemma start_settings (change : bool) i : change = true ∨ i_running i = true →
  let i' := if change then ipController.start i else i in
  settings i' = (i_provider i, i_region i, i_assignmentCoolOff i, true, i_dns i) ∧
  i_desiredIPs i' = i_desiredIPs i ∧ i_ips i' = i_ips i.
Proof.
  intros Hrun. unfold settings, ipController.start.
  destruct change; (destruct (i_running i) eqn:Hr; [cbn; by rewrite ?Hr|]); [done|].
  by destruct Hrun.
Qed.

(** The pool has just been brought in line with the resource. *)
Record current provs p k8s : Prop := {
  cu_serves : serves provs p k8s;
  cu_desired : i_desiredIPs (p_ipController p) = fip_DesiredIPs (fip_Spec k8s);
  cu_ips : elems (i_ips (p_ipController p)) =
    managed (fip_IPs (fip_Spec k8s)) (fip_DesiredIPs (fip_Spec k8s));
}.
Definition aligned c uid k8s c' : Prop :=
  others_kept c uid c' ∧ ∃ p, c_pools c' !! uid = Some p ∧ current (c_providers c) p k8s.

Lemma pools_twice c c1 uid (p2 : floatingIPPool) :
  others_kept c uid c1 → others_kept c uid (c1 <| c_pools ::= <[uid := p2]> |>).
Proof.
  intros [Hp Hk]. split; [done|]. intros uid' Hne. cbn. rewrite lookup_insert_ne by done. by apply Hk.
Qed.

Lemma wp_align uid k8s k8s' prov c w p :
  c_pools c !! uid = Some p → updatable p k8s → admissible (c_providers c) k8s prov →
  (0 ≤ fip_DesiredIPs (fip_Spec k8s))%Z →
  let spec := fip_Spec k8s in
  let dnsProv := dnsProviderOf (c_providers c) prov (fip_DNSRecordSet spec) in
  wp False (on_ip uid (λ i w,
        let '(change, i) := ipController.updateProviders (Some prov) dnsProv (fip_Region spec)
                              (coolOff (fip_AssignmentCoolOffSeconds spec)) i in
        Ret (change, i, w)))
    (λ ipChange, wp False (update_ips uid (fip_IPs spec) (fip_DesiredIPs spec) ;;
      update_ip uid (ipController.updateDNSSpec (fip_DNSRecordSet spec)) ;;
      when ipChange (update_ip uid ipController.start) ;; mret k8s')
      (λ r c' _, r = k8s' ∧ aligned c uid k8s c')) c w.
Proof.
  intros Hp [Hm Hmr Hst [dns0 Hdns]] Ha Hn spec dnsProv. subst spec. eapply wp_on_ip; [done|].
  pose proof (updateProviders_settings _ prov dnsProv (fip_Region (fip_Spec k8s))
    (coolOff (fip_AssignmentCoolOffSeconds (fip_Spec k8s))) Hst) as Hset.
  unfold wp at 1. destruct (ipController.updateProviders _ _ _ _ _) as [change i1].
  destruct Hset as (Hp1 & Hr1 & Hc1 & Hd1 & Hrun1).
  unfold update_ips. wp_steps. eapply wp_on_ip; [cbn; by rewrite lookup_insert_eq|].
  eapply wp_mono; [|apply (updateIPs_total (pool_ipenv _)); [exact MapRangeLaws0|done]].
  cbn [p_ipController set_field set_p_ipController]. intros _ i2 w2 (Hs2 & Hn2 & Hi2). wp_steps.
  unfold settings in Hs2. injection Hs2 as Hp2 Hr2 Hc2 Hrun2 Hd2.
  set (i3 := ipController.updateDNSSpec (fip_DNSRecordSet (fip_Spec k8s))).
  destruct (updateDNSSpec_settings i2 dns0 (fip_DNSRecordSet (fip_Spec k8s))) as (Hd3 & Hp3 & Hr3 & Hc3 & Hrun3 & Hn3 & Hi3);
    [congruence|]. fold i3 in Hd3, Hp3, Hr3, Hc3, Hrun3, Hn3, Hi3.
  assert (∀ c', others_kept c uid c' →
    c_pools c' !! uid = Some (p <| p_ipController := if change then ipController.start (i3 i2) else i3 i2 |>) →
    aligned c uid k8s c') as Hdone.
  { intros c' Hk Hp'. split; [done|]. eexists. split; [exact Hp'|].
    destruct (start_settings change (i3 i2)) as ([= H1p H1r H1c H1run H1d] & Hn4 & Hi4);
      [destruct Hrun1; [by left|right; congruence]|].
    split; [|etrans; [exact Hn4|]; by rewrite Hn3|cbn; by rewrite Hi4, Hi3].
    split; cbn; [exists prov; split; [done|congruence]|done|by split|congruence..]. }
  unfold update_ip. eapply wp_on_ip; [cbn; by rewrite lookup_insert_eq|]. wp_steps.
  apply wp_when; intros ->; wp_steps.
  - eapply wp_on_ip; [cbn; by rewrite lookup_insert_eq|]. wp_steps. split; [done|]. apply Hdone.
    + repeat apply pools_twice. by split.
    + cbn. by rewrite lookup_insert_eq.
  - split; [done|]. apply Hdone; [repeat apply pools_twice; by split|]. cbn. by rewrite lookup_insert_eq.
Qed.

Lemma wp_updateOrAdd_pool k8s c w :
  Served c → (0 ≤ fip_DesiredIPs (fip_Spec k8s))%Z →
  let uid := meta_UID (fip_meta k8s) in
  wp False (updateOrAdd k8s) (λ k8s' c' _, same_object k8s k8s' ∧
    others_kept c uid c' ∧
    match c_pools c' !! uid with
    | Some p => current (c_providers c) p k8s
    | None => ¬ valid_pool (c_providers c) k8s
    end) c w.
Proof.
  intros HS Hn uid. unfold updateOrAdd. fold uid. wp_steps.
  eapply wp_mono; [|apply wp_validate_pool]. intros [isValid k8s'] c0 w0 (-> & Hsame & Hvalid). cbn in Hsame, Hvalid.
  wp_steps.
  (* what is known of the pool after the criteria were compared *)
  apply (wp_mono _ _ (λ known c1 _, others_kept c uid c1 ∧
    match c_pools c1 !! uid with
    | Some p => known = true ∧ updatable p k8s
    | None => known = false
    end)).
  2: { destruct (c_pools c !! uid) as [p|] eqn:Hp; [|wp_steps; split; [done|by rewrite Hp]].
    destruct (IsCriteriaEqual _ _) eqn:Heq; wp_steps.
    - split; [done|]. rewrite Hp. split; [done|]. destruct (HS _ _ Hp) as [k8s0 Hs].
      eapply serves_updatable_pool; [done|]. by apply bool_decide_eq_true in Heq.
    - eapply wp_removePool; [done|]. intros c' Hk Hnone. wp_steps. split; [done|]. by rewrite Hnone. }
  intros known c1 w1 [Hk Hknown]. destruct isValid; cbn [negb andb].
  - destruct Hvalid as [[prov Ha] _]; [done|]. rewrite andb_false_r. wp_steps.
    apply (wp_mono _ _ (λ _ c2 _, others_kept c uid c2 ∧ ∃ p, c_pools c2 !! uid = Some p ∧ updatable p k8s)).
    + intros _ c2 w2 (Hk2 & p & Hp & Hu). wp_steps.
      assert (admissible (c_providers c2) k8s prov) as Ha2 by (by rewrite (proj1 Hk2)).
      pose proof Ha2 as (Hget & Hip & _). unfold assert_IPProvider. rewrite Hget. wp_steps. rewrite Hip. wp_steps.
      eapply wp_mono; [|by eapply (wp_align uid k8s k8s' prov)].
      intros ch c3 w3 Hwp. cbv beta in Hwp. eapply wp_mono; [|exact Hwp].
      intros r c4 w4 (-> & Hk4 & q & Hq & Hs). rewrite (proj1 Hk2) in Hs. split; [done|]. rewrite Hq.
      split; [|done]. split; [rewrite (proj1 Hk4); apply Hk2|]. intros uid' Hne. rewrite (proj2 Hk4) by done. by apply Hk2.
    + destruct (c_pools c1 !! uid) as [p|] eqn:Hp.
      * destruct Hknown as [-> Hu]. cbn [negb when]. wp_steps. by eauto.
      * rewrite Hknown. cbn [negb when]. wp_steps. split; [by apply (pools_twice _ _ _ (newPool k8s'))|].
        exists (newPool k8s'). cbn. rewrite lookup_insert_eq. split; [done|].
        assert (newPool k8s' = newPool k8s) as ->.
        { unfold newPool. destruct Hsame as [-> ->]. done. }
        apply newPool_updatable. by destruct Ha as (_ & _ & _ & ? & _).
  - assert (¬ valid_pool (c_providers c) k8s) as Hnot by (intros Hv; by apply Hvalid in Hv).
    destruct (c_pools c1 !! uid) as [p|] eqn:Hp.
    + destruct Hknown as [-> Hu]. cbn [negb andb when]. wp_steps. eapply wp_removePool; [done|].
      intros c' Hk' Hnone. wp_steps. split; [done|]. rewrite Hnone. split; [|done].
      split; [rewrite (proj1 Hk'); apply Hk|]. intros uid' Hne. rewrite (proj2 Hk') by done. by apply Hk.
    + rewrite Hknown. cbn [negb andb]. wp_steps. split; [done|]. by rewrite Hp.
Qed.

Lemma wp_OnDelete_pool k8s c w :
  let uid := meta_UID (fip_meta k8s) in
  wp False (OnDelete (ObjPool k8s)) (λ _ c' _, others_kept c uid c' ∧ c_pools c' !! uid = None) c w.
Proof.
  intros uid. unfold OnDelete. fold uid. wp_steps. destruct (c_pools c !! uid) as [p|] eqn:Hp; [|by wp_steps].
  eapply wp_removePool; [done|]. by intros c' Hk Hnone.
Qed.

(** ** What validation reports

    The reason why a specification is refused. *)
Definition complaint provs (spec : FloatingIPPoolSpec) : option string :=
  match Registry.Get provs (fip_Provider spec) with
  | None => Some ("unknown provider " +:+ fmt_q (fip_Provider spec))
  | Some prov =>
      if negb (is_IPProvider prov)
      then Some ("provider " +:+ fmt_q (fip_Provider spec) +:+ " does not provide floating IPs")
      else if (slen (fip_IPs spec) =? 0)%Z && (fip_DesiredIPs spec =? 0)%Z
      then Some "ips or desiredIPs must be provided"
      else match ValidateMatch (fip_Match spec), fip_DNSRecordSet spec with
           | Some err, _ => Some ("Error " +:+ Error err)
           | None, None => None
           | None, Some record =>
               if is_DNSProvider (default prov (Registry.Get provs (dns_Provider record))) then None
               else Some "FloatingIPPool dns referenced provider without dns capability"
           end
  end.
Lemma validate_complaint k8s c w :
  validate k8s c w = match complaint (c_providers c) (fip_Spec k8s) with
                     | Some msg => invalid k8s msg c w
                     | None => Ret ((true, k8s), c, w)
                     end.
Proof.
  unfold validate, complaint, mbind, M_bind, gets. destruct (Registry.Get _ _) as [prov|]; [|done].
  destruct (negb _); [done|]. destruct (_ && _); [done|]. destruct (ValidateMatch _); [done|].
  destruct (fip_DNSRecordSet _) as [record|]; [|done]. by destruct (is_DNSProvider _).
Qed.

Lemma wp_invalid_again E k8s msg c w :
  wp E (invalid k8s msg) (λ v c' _, c' = c ∧ v.1 = false ∧ same_object k8s v.2 ∧
    ∀ c2 w2, invalid v.2 msg c2 w2 = Ret ((false, v.2), c2, w2)) c w.
Proof.
  assert (∀ k, fip_Status k = {| status_IPs := None; status_NodeErrors := None;
      status_AssignableNodes := None; status_Error := msg |} →
    ∀ c2 w2, invalid k msg c2 w2 = Ret ((false, k), c2, w2)) as Hagain.
  { intros k Hk c2 w2. unfold invalid, updateStatus. by rewrite bool_decide_true. }
  unfold invalid, updateStatus. wp_steps. case_bool_decide as Hs; wp_steps.
  - split_and!; [done..|]. by apply Hagain.
  - apply wp_call. intros err w' _. wp_steps. split_and!; [done..|]. by apply Hagain.
Qed.

Lemma wp_OnUpdate_invalid k8s c w :
  ¬ valid_pool (c_providers c) k8s →
  wp False (OnUpdate (ObjPool k8s)) (λ k8s' c' _, same_object k8s k8s' ∧
    c_pools c' !! meta_UID (fip_meta k8s) = None ∧
    ∀ w2, OnUpdate (ObjPool k8s') c' w2 = Ret (k8s', c', w2)) c w.
Proof.
  intros Hnot. set (uid := meta_UID (fip_meta k8s)).
  assert (∃ msg, complaint (c_providers c) (fip_Spec k8s) = Some msg) as [msg Hmsg].
  { destruct (complaint _ _) as [msg|] eqn:Hc; [by eexists|]. destruct Hnot.
    pose proof (wp_validate_pool False k8s c w) as Hwp. unfold wp in Hwp. rewrite validate_complaint, Hc in Hwp.
    by apply Hwp. }
  cbn [OnUpdate]. unfold updateOrAdd. fold uid. wp_steps. unfold wp at 1. rewrite validate_complaint, Hmsg.
  pose proof (wp_invalid_again False k8s msg c w) as Hwp. unfold wp at 1 in Hwp.
  destruct (invalid k8s msg c w) as [[[[b k8s'] c0] w0]| |]; [|done..].
  destruct Hwp as (-> & Hb & [Hmeta Hspec] & Hagain). cbn in Hb, Hmeta, Hspec, Hagain. subst b. wp_steps.
  assert (∀ c', others_kept c uid c' → c_pools c' !! uid = None →
    same_object k8s k8s' ∧ c_pools c' !! uid = None ∧
    ∀ w2, updateOrAdd k8s' c' w2 = Ret (k8s', c', w2)) as Hdone.
  { intros c' [Hpr _] Hnone. split; [done|]. split; [done|]. intros w2.
    unfold updateOrAdd, mbind, M_bind, gets. rewrite validate_complaint, Hpr, Hspec, Hmsg, Hmeta.
    rewrite Hagain. fold uid. by rewrite Hnone. }
  destruct (c_pools c !! uid) as [p|] eqn:Hp.
  - apply (wp_mono _ _ (λ known c1 _, others_kept c uid c1 ∧
      (known = true ∧ is_Some (c_pools c1 !! uid) ∨ known = false ∧ c_pools c1 !! uid = None))).
    + intros known c1 w1 [Hk [[-> [q Hq]]|[-> Hnone]]]; cbn [negb andb when]; wp_steps; [|by apply Hdone].
      eapply wp_removePool; [done|]. intros c2 Hk2 Hnone. wp_steps. apply Hdone; [|done].
      split; [rewrite (proj1 Hk2); apply Hk|]. intros uid' Hne. rewrite (proj2 Hk2) by done. by apply Hk.
    + destruct (IsCriteriaEqual _ _); wp_steps; [split; [done|left; rewrite Hp; by eauto]|].
      eapply wp_removePool; [done|]. intros c2 Hk2 Hnone. wp_steps. auto.
  - wp_steps. cbn [negb andb]. wp_steps. by apply Hdone.
Qed.
End props.

(** A resource that is not valid is not served, and what is wrong with it is
    reported at most once: validation writes the message into the object the
    informer holds before the API has accepted it, so that when the same object is
    delivered again nothing happens at all - a refused update is never retried. *)
Theorem invalid_reported_once `{!KubeAPI} {W} `{!PoolEnv W, !MapRangeLaws W, !ProviderKinds, !GoFmt}
    (k8s : FloatingIPPool) (c : Pool.Controller) (w : W) :
  ¬ valid_pool (c_providers c) k8s →
  wp False (OnUpdate (ObjPool k8s)) (λ k8s' c' _, same_object k8s k8s' ∧
    c_pools c' !! meta_UID (fip_meta k8s) = None ∧
    ∀ w2, OnUpdate (ObjPool k8s') c' w2 = Ret (k8s', c', w2)) c w.
Proof. apply wp_OnUpdate_invalid. Qed.
