(* ===== verification/PoolSystem.v ===== *)
(** * The pool controller at work

    The controller of the resources, the goroutines of the IP controllers and the
    match controllers with their events, as one system of interleaved steps. *)
From S2P Require Import Prelude Go Retry GoText OrderedSet K8s Types Provider.
From S2P Require Import ProviderMetrics.
From S2P Require Import Registry IPController IPInvariant IPReconcile IPSystem IPAssign.
From S2P Require Import IPSpec.
From S2P Require Import NodeMatch NodeMatchProps NodeMatchSystem Pool PoolProps.
Import Pool.

(** ** What the goroutine of an IP controller leaves alone *)
Section frames.
Context `{!IPEnv W}.

Lemma settings_retry_ t i : settings (ipController.retry_ t i) = settings i.
Proof. unfold ipController.retry_. by destruct (_ || _). Qed.

Ltac frame_settings := solve_frame; try (rewrite ?settings_retry_; reflexivity).

Lemma frame_createIPs n : frame (W := W) settings (ipController.createIPs n).
Proof. induction n as [|n IH]; cbn [ipController.createIPs]; frame_settings. Qed.
Lemma frame_assignOne ip p : frame (W := W) settings (ipController.assignOne ip p).
Proof. unfold ipController.assignOne. frame_settings. Qed.
Lemma frame_assignLoop n l1 l2 : frame (W := W) settings (ipController.assignLoop n l1 l2).
Proof.
  revert l1 l2. induction n as [|n IH]; intros l1 l2; cbn [ipController.assignLoop]; frame_settings.
Qed.
#[local] Hint Resolve frame_createIPs frame_assignLoop : frame.
Lemma frame_iterate : frame (W := W) settings iterate.
Proof. unfold iterate. frame_settings. Qed.
Lemma frame_EnableNodes nodes : frame (W := W) settings (ipController.EnableNodes nodes).
Proof. solve_frame. Qed.
Lemma frame_DisableNodes nodes : frame (W := W) settings (ipController.DisableNodes nodes).
Proof. solve_frame. Qed.
End frames.

(** ** The IP controller as the action of its match controller

    The world of a match controller: the IP controller, with the names of the
    nodes it was told to enable, and what is behind it. *)
Section world.
Context `{!KubeAPI} {V} `{!PoolEnv V, !ClusterAPI V, !GoFmt}.
Local Abbreviation World := (gset string * ipController * V)%type.
Implicit Types (s : World).

Definition enabled_names s : gset string := s.1.1.
Definition ip_of s : ipController := s.1.2.

(** A panic, which the theorems exclude, is not an outcome of the interface. *)
Definition tell (f : gset string → gset string) (m : M ipController V unit) (s : World) : unit * World :=
  match m (ip_of s) s.2 with
  | Ret (_, i', v') => (tt, (f (enabled_names s), i', v'))
  | _ => (tt, (f (enabled_names s), ip_of s, s.2))
  end.

Definition pool_matchenv (pools : gmap string floatingIPPool) : MatchEnv World := {|
  matchenv_action := {|
    action_EnableNodes _ nodes := tell (λ g, g ∪ names_of nodes)
      (ipController.EnableNodes (IPEnv0 := pool_ipenv pools) nodes);
    action_DisableNodes _ nodes := tell (λ g, g ∖ names_of nodes)
      (ipController.DisableNodes (IPEnv0 := pool_ipenv pools) nodes);
  |};
  matchenv_range := {| range_order ks := behind (range_order ks) |};
  podIndexer_ByIndex i n := behind (cl_ByIndex i n);
  WaitForCacheSync := behind cl_Sync;
  nodeStore_List := behind cl_List;
|}.
#[global] Instance pool_active : MatchGhost World := {| active s := enabled_names s |}.

Lemma tell_active f m s : enabled_names (tell f m s).2 = f (enabled_names s).
Proof. unfold tell. by destruct (m _ _) as [[[u i'] v']| |]. Qed.

Lemma behind_active {A} (f : V → A * V) s : enabled_names (behind f s).2 = enabled_names s.
Proof. unfold enabled_names. by rewrite behind_fst. Qed.

Lemma pool_match_laws pools `{!MapRangeLaws V} : @MatchLaws World (pool_matchenv pools) pool_active.
Proof.
  split; intros; cbn; rewrite ?tell_active, ?behind_active; try done.
  split. intros ks s. cbn. rewrite behind_answer. apply range_order_perm.
Qed.

Lemma tell_settings f m s : frame settings m → settings (ip_of (tell f m s).2) = settings (ip_of s).
Proof.
  intros Hf. unfold tell. specialize (Hf (ip_of s) s.2). by destruct (m _ _) as [[[u i'] v']| |].
Qed.
End world.

(** ** Steps *)

(** What happens to a match controller: an event, or its goroutine runs. *)
Inductive match_op : Type :=
  | MEvent (e : event)
  | MRun (idx lister : Ref).

Section system.
Context `{!KubeAPI} {V} `{!PoolEnv V, !MapRangeLaws V, !ClusterAPI V, !ProviderKinds, !GoFmt}.
Implicit Types (c : Pool.Controller) (v : V) (p : floatingIPPool).
Local Abbreviation World := (gset string * ipController * V)%type.

Definition exec_match (pools : gmap string floatingIPPool) (o : match_op)
    : M NodeMatch.Controller World unit :=
  match o with
  | MEvent e => handle (MatchEnv0 := pool_matchenv pools) e
  | MRun idx lister => NodeMatch.run (MatchEnv0 := pool_matchenv pools) idx lister
  end.

Inductive pool_step : Pool.Controller * V → Pool.Controller * V → Prop :=
  | ps_seen k8s c v k8s' c' v' :
      (0 ≤ fip_DesiredIPs (fip_Spec k8s))%Z →
      OnUpdate (ObjPool k8s) c v = Ret (k8s', c', v') → pool_step (c, v) (c', v')
  | ps_deleted k8s c v c' v' :
      OnDelete (ObjPool k8s) c v = Ret (tt, c', v') → pool_step (c, v) (c', v')
  | ps_iterate uid c v t c' v' :
      on_ip uid (iterate (IPEnv0 := pool_ipenv (c_pools c))) c v = Ret (t, c', v') →
      pool_step (c, v) (c', v')
  | ps_match uid o p g c v m' g' i' v' :
      c_pools c !! uid = Some p →
      exec_match (c_pools c) o (p_matchController p) (g, p_ipController p, v) =
        Ret (tt, m', (g', i', v')) →
      pool_step (c, v)
        (c <| c_pools ::= <[uid := p <| p_matchController := m' |> <| p_ipController := i' |>]> |>, v')
  | ps_world c v v' : pool_step (c, v) (c, v').

(** *** The settings of a pool last *)
Definition criteria (m : NodeMatch.Controller) := (m_match m, m_running m).

Lemma frame_exec_match pools o : frame criteria (exec_match pools o).
Proof.
  destruct o as [[[k|pod|]|[k|pod|]]|idx lister]; cbn [exec_match]; [solve_frame..|].
  unfold NodeMatch.run, run_setup, run_synced, prime, range_keys. solve_frame.
Qed.

Lemma settings_exec_match pools o σ :
  preserves (C := NodeMatch.Controller) (λ s, settings (ip_of s) = σ) (exec_match pools o).
Proof.
  assert (∀ {A} (f : V → A * V) (s : World), settings (ip_of s) = σ → settings (ip_of (behind f s).2) = σ)
    as Hb by (intros A f s; unfold ip_of; by rewrite behind_fst).
  assert (∀ a ns (s : World), settings (ip_of s) = σ →
    settings (ip_of (action_EnableNodes (NodeEnableDisabler := @matchenv_action _ (pool_matchenv pools)) a ns s).2) = σ) as HE.
  { intros a ns s. cbn. by rewrite tell_settings by apply frame_EnableNodes. }
  assert (∀ a ns (s : World), settings (ip_of s) = σ →
    settings (ip_of (action_DisableNodes (NodeEnableDisabler := @matchenv_action _ (pool_matchenv pools)) a ns s).2) = σ) as HD.
  { intros a ns s. cbn. by rewrite tell_settings by apply frame_DisableNodes. }
  destruct o as [e|idx lister]; cbn [exec_match].
  - apply preserves_handle; [exact HE|exact HD|]. intros i n s. apply Hb.
  - unfold NodeMatch.run, run_setup, run_synced, prime, range_keys. solve_preserves.
    all: apply preserves_call; intros s; apply Hb.
Qed.

Lemma serves_settings provs p k8s p' :
  serves provs p k8s → criteria (p_matchController p') = criteria (p_matchController p) →
  settings (p_ipController p') = settings (p_ipController p) → serves provs p' k8s.
Proof.
  intros [(prov & Ha & Hp) ? [? ?] ? ? ?] [= Hm Hr] [= H1p H1r H1c H1run H1d].
  split; [exists prov; split; [done|]|..]; try congruence. split; congruence.
Qed.

Lemma Served_child c uid p p' :
  Served c → c_pools c !! uid = Some p → criteria (p_matchController p') = criteria (p_matchController p) →
  settings (p_ipController p') = settings (p_ipController p) →
  Served (c <| c_pools ::= <[uid := p']> |>).
Proof.
  intros HS Hp Hm Hs uid' q. cbn. intros [[<- <-]|[_ Hq]]%lookup_insert_Some; [|by eapply HS].
  destruct (HS _ _ Hp) as [k8s Hk]. exists k8s. by eapply serves_settings.
Qed.

Lemma Served_event uid k8s c c' :
  Served c → others_kept c uid c' →
  match c_pools c' !! uid with Some p => current (c_providers c) p k8s | None => True end → Served c'.
Proof.
  intros HS Hk Hp. eapply Served_pools; [done..|]. intros p Hq. rewrite Hq in Hp. exists k8s. apply Hp.
Qed.

Lemma step_Served c v c' v' :
  pool_step (c, v) (c', v') → Served c → Served c' ∧ c_providers c' = c_providers c.
Proof.
  intros Hs HS. inversion Hs as [k8s c1 v1 k8s' c2 v2 Hn He|k8s c1 v1 c2 v2 He|uid c1 v1 t c2 v2 He
    |uid o p g c1 v1 m' g' i' v2 Hp He|]; subst; [| | | |done].
  - pose proof (wp_updateOrAdd_pool k8s c v HS Hn) as Hwp. unfold wp in Hwp. cbn [OnUpdate] in He.
    rewrite He in Hwp. destruct Hwp as (_ & Hk & Hp). split; [|apply Hk].
    eapply (Served_event _ k8s); [done..|]. by destruct (c_pools c' !! _).
  - pose proof (wp_OnDelete_pool k8s c v) as Hwp. unfold wp in Hwp. rewrite He in Hwp.
    destruct Hwp as (Hk & Hp). split; [|apply Hk]. eapply (Served_event _ k8s); [done..|]. by rewrite Hp.
  - unfold on_ip in He. destruct (c_pools c !! uid) as [p|] eqn:Hp; [|done].
    pose proof (frame_iterate (IPEnv0 := pool_ipenv (c_pools c)) (p_ipController p) v) as Hf.
    destruct (iterate _ v) as [[[t0 i'] v2]| |]; [|done..]. injection He as <- <- <-.
    split; [|done]. by eapply Served_child.
  - split; [|done]. eapply Served_child; [done..| |].
    + pose proof (frame_exec_match (c_pools c) o (p_matchController p) (g, p_ipController p, v)) as Hf.
      by rewrite He in Hf.
    + pose proof (settings_exec_match (c_pools c) o (settings (p_ipController p))
        (p_matchController p) (g, p_ipController p, v) eq_refl) as Hf. by rewrite He in Hf.
Qed.

Lemma steps_Served c v c' v' :
  rtc pool_step (c, v) (c', v') → Served c → Served c' ∧ c_providers c' = c_providers c.
Proof.
  intros Hr. remember (c, v) as a eqn:Ha. remember (c', v') as b eqn:Hb. revert c v Ha.
  induction Hr as [a|a [c1 v1] b H12 _ IH]; intros c v -> HS; simplify_eq; [done|].
  destruct (step_Served _ _ _ _ H12 HS) as [HS1 Hp1]. destruct (IH eq_refl _ _ eq_refl HS1) as [HS2 Hp2].
  split; [done|congruence].
Qed.
End system.

