(* ===== verification/PoolCluster.v ===== *)
(** * A pool and the cluster

    The match controller of a pool, its IP controller and the provider composed:
    the nodes the IP controller serves are the nodes that match. *)
From S2P Require Import Prelude Go Retry GoText OrderedSet K8s Types Provider.
From S2P Require Import ProviderMetrics.
From S2P Require Import Registry IPController IPInvariant IPReconcile IPSystem IPAssign.
From S2P Require Import IPSpec.
From S2P Require Import NodeMatch NodeMatchProps NodeMatchSystem Pool PoolProps.
From S2P Require Import PoolSystem.

(** What the Kubernetes API and the provider promise: see [IPEnvLaws]. *)
Class PoolLaws (V : Type) `{!PoolEnv V, !ClusterAPI V, !IPGhost V} : Prop := {
  #[global] poollaws_range :: MapRangeLaws V;
  pl_range ks (v : V) : quiet v (range_order ks v).2;
  pl_time (v : V) : quiet v (time_Now v).2;
  pl_now (v : V) : quiet v (pool_now v).2;
  pl_ctx (v : V) : quiet v (pool_ctx_Err v).2;
  pl_create p r (v : V) : quiet v (CreateIP p r v).2;
  pl_lookup p ip (v : V) : quiet v (IPToProviderID p ip v).2;
  pl_dns p z r ips t (v : V) : quiet v (EnsureDNSARecordSet p z r ips t v).2;
  pl_get ns name (v : V) : quiet v (pools_Get ns name v).2;
  pl_update ns k8s (v : V) : quiet v (pools_Update ns k8s v).2;
  pl_status ns k8s (v : V) : quiet v (pools_UpdateStatus ns k8s v).2;
  pl_patch name data (v : V) : quiet v (nodes_Patch name data v).2;
  pl_lister l name (v : V) : quiet v (lister_Get l name v).2;
  pl_index i n (v : V) : quiet v (cl_ByIndex i n v).2;
  pl_assign_alloc p ip n (v : V) : allocated v ⊆ allocated (AssignIP p ip n v).2;
  pl_assign_alive p ip n (v : V) : alive v → alive (AssignIP p ip n v).2;
  pl_assign_trace p ip n (v : V) : assign_trace (AssignIP p ip n v).2 = assign_trace v ++ [(ip, n)];
  pl_alive (v : V) : alive v → (pool_ctx_Err v).1 = false;
  pl_create_fresh p r (v : V) ip (v' : V) :
    CreateIP p r v = (inl ip, v') → (ip ∉ allocated v) ∧ ip ∈ allocated v';
  pl_create_err p r (v : V) e (v' : V) : CreateIP p r v = (inr e, v') → usable_error e;
  pl_lookup_err p ip (v : V) e (v' : V) : IPToProviderID p ip v = (inr e, v') → usable_error e;
  pl_assign_err p ip n (v : V) e (v' : V) : AssignIP p ip n v = (Some e, v') → usable_error e;
  pl_now_pos (v : V) : (0 < (pool_now v).1)%Z;
  pl_time_pos (v : V) : (0 < (time_Now v).1)%Z;
}.

(** ** The closures keep the promises of the callbacks *)
Section closures.
Context `{!KubeAPI} {V} `{PoolLaws V} `{!GoFmt}.

(** A call that leaves the world quiet. *)
Definition calm {C A} (m : M C V A) : Prop := ∀ v0, preserves (quiet v0) m.
Lemma calm_call {C A} (f : V → A * V) : (∀ v, quiet v (f v).2) → calm (C := C) (call f).
Proof. intros Hf v0. apply preserves_call. intros v Hv. by etrans; [exact Hv|]. Qed.
Lemma calm_for_return {C A B R} (l : list A) (b : B) (body : B → A → M C V (B + R)) :
  (∀ b x, x ∈ l → calm (body b x)) → calm (for_return l b body).
Proof.
  revert b. induction l as [|x l IH]; intros b Hb v0; cbn; [apply preserves_ret|].
  apply preserves_bind; [apply Hb; by left|]. intros [b'|r]; [|apply preserves_ret].
  apply IH. intros b2 x2 Hx2. apply Hb. by right.
Qed.
Lemma calm_closure {A} (m : M unit V A) a v : calm m → quiet v (run_closure m a v).2.
Proof.
  intros Hm. unfold run_closure. specialize (Hm v tt v (reflexivity v)).
  destruct (m tt v) as [[[? ?] ?]| |]; [exact Hm|reflexivity..].
Qed.

Lemma calm_matchGetter {C} m name : calm (C := C) (matchGetter m name).
Proof.
  intros v0 c v Hv. unfold matchGetter, GetNodeByName, mbind, M_bind, gets.
  destruct (m_nodeLister m) as [l|]; [|exact I]. cbn. etrans; [exact Hv|apply pl_lister].
Qed.
Lemma calm_getNodeFromPools {C} pools name : calm (C := C) (getNodeFromPools pools name).
Proof.
  intros v0. unfold getNodeFromPools, range_keys. apply preserves_bind; [by apply calm_call, pl_range|].
  intros uids. unfold getNodeFromControllers. apply preserves_bind.
  - apply calm_for_return. intros b g Hg v1. apply preserves_bind.
    + apply list_elem_of_omap in Hg as (uid & _ & Hg). destruct (pools !! uid); [|discriminate Hg].
      injection Hg as <-. apply calm_matchGetter.
    + intros r. apply preserves_ret.
  - intros r. apply preserves_ret.
Qed.
Lemma calm_annotationUpdater {C} pools name ip :
  calm (C := C) (annotationUpdater (getNodeFromPools pools) name ip).
Proof.
  intros v0. unfold annotationUpdater. apply preserves_bind; [apply calm_getNodeFromPools|].
  intros [node|err]; [|apply preserves_ret]. case_bool_decide; [apply preserves_ret|].
  destruct (_ && _); [apply preserves_ret|]. apply preserves_bind; [by apply calm_call, pl_patch|].
  intros r. apply preserves_ret.
Qed.
Lemma calm_statusUpdater {C} name ns status : calm (C := C) (statusUpdater name ns status).
Proof.
  intros v0. unfold statusUpdater. apply preserves_bind; [by apply calm_call, pl_get|].
  intros [k8s|err]; [|apply preserves_ret]. case_bool_decide; [apply preserves_ret|].
  apply preserves_bind; [by apply calm_call, pl_status|]. intros r. apply preserves_ret.
Qed.
Lemma calm_ipUpdater {C} name ns ips : calm (C := C) (ipUpdater name ns ips).
Proof.
  intros v0. unfold ipUpdater. apply preserves_bind; [by apply calm_call, pl_get|].
  intros [k8s|err]; [|apply preserves_ret].
  apply preserves_bind; [by apply calm_call, pl_update|]. intros r. apply preserves_ret.
Qed.

#[global] Instance pool_ip_laws pools : @IPEnvLaws V (pool_ipenv pools) _.
Proof.
  split; cbn; intros; try by apply calm_closure; [apply calm_ipUpdater || apply calm_statusUpdater
    || apply calm_annotationUpdater].
  all: eauto using pl_range, pl_time, pl_now, pl_ctx, pl_create, pl_lookup, pl_dns, pl_assign_alloc,
    pl_assign_alive, pl_alive, pl_assign_trace, pl_create_fresh, pl_create_err, pl_lookup_err,
    pl_assign_err, pl_now_pos, pl_time_pos.
  exact poollaws_range.
Qed.
End closures.

(** ** A pool follows the cluster *)
Section follow.
Context `{!KubeAPI} {V} `{PoolLaws V} `{!GoFmt}.
Local Abbreviation World := (gset string * ipController * V)%type.
Implicit Types (m : NodeMatch.Controller) (s : World) (i : ipController) (v : V).

(** Every node has a provider ID of its own. *)
Variable pid : string → string.
Hypothesis pid_inj : ∀ a b, pid a = pid b → a = b.
Hypothesis pid_nonempty : ∀ a, pid a ≠ "".
Definition own (n : Node) : Prop := node_ProviderID n = pid (node_Name n).

Lemma own_ids nodes x : Forall own nodes →
  x ∈ node_ProviderID <$> nodes ↔ ∃ name, name ∈ names_of nodes ∧ pid name = x.
Proof.
  intros Hown. rewrite Forall_forall in Hown. unfold names_of. split.
  - intros (n & -> & Hn)%list_elem_of_fmap. exists (node_Name n). split; [|by rewrite <- Hown].
    rewrite elem_of_list_to_set. by apply list_elem_of_fmap_2.
  - intros (name & Hname & <-). rewrite elem_of_list_to_set in Hname.
    apply list_elem_of_fmap in Hname as (n & -> & Hn). rewrite <- Hown by done.
    by apply list_elem_of_fmap_2.
Qed.

(** The records are consistent, a provider is set, and the active nodes are those
    that were enabled. *)
Record Agree s : Prop := {
  ag_inv : Inv (ip_of s) s.2;
  ag_provider : is_Some (i_provider (ip_of s));
  ag_active : ∀ x, is_Some (i_providerIDToNodeName (ip_of s) !! x) ↔
    ∃ name, name ∈ enabled_names s ∧ pid name = x;
}.

Lemma provider_settings i i' : settings i' = settings i → is_Some (i_provider i) → is_Some (i_provider i').
Proof. by intros [= -> _ _ _ _]. Qed.

Lemma tell_enable pools nodes s : Forall own nodes → Agree s →
  Agree (tell (λ g, g ∪ names_of nodes) (ipController.EnableNodes (IPEnv0 := pool_ipenv pools) nodes) s).2.
Proof.
  intros Hown [HI Hp Ha]. unfold tell.
  pose proof (EnableNodes_spec (IPEnv0 := pool_ipenv pools) nodes (ip_of s) s.2 HI) as Hwp.
  pose proof (frame_EnableNodes (IPEnv0 := pool_ipenv pools) nodes (ip_of s) s.2) as Hf. unfold wp in Hwp.
  destruct (ipController.EnableNodes nodes _ _) as [[[u i'] v']| |]; [|done..].
  destruct Hwp as (HI' & Hn & _). split; cbn; [done|by eapply provider_settings|].
  intros x. rewrite Hn, enabled_active, Ha, own_ids by done. setoid_rewrite elem_of_union.
  split; [naive_solver|]. intros (name & [Hin|Hin] & Hx); [naive_solver|].
  right. split; [by rewrite <- Hx|by eauto].
Qed.

Lemma tell_disable pools nodes s : Forall own nodes → Agree s →
  Agree (tell (λ g, g ∖ names_of nodes) (ipController.DisableNodes (IPEnv0 := pool_ipenv pools) nodes) s).2.
Proof.
  intros Hown [HI Hp Ha]. unfold tell.
  pose proof (DisableNodes_spec (IPEnv0 := pool_ipenv pools) nodes (ip_of s) s.2 HI) as Hwp.
  pose proof (frame_DisableNodes (IPEnv0 := pool_ipenv pools) nodes (ip_of s) s.2) as Hf. unfold wp in Hwp.
  destruct (ipController.DisableNodes nodes _ _) as [[[u i'] v']| |]; [|done..].
  destruct Hwp as (HI' & Hn & _). split; cbn; [done|by eapply provider_settings|].
  intros x. rewrite Hn. setoid_rewrite elem_of_difference. case_decide as Hx.
  - split; [by intros []|]. intros (name & [_ Hnot] & <-). rewrite own_ids in Hx by done.
    destruct Hx as (name' & Hin & ->%pid_inj). done.
  - rewrite Ha. split; intros (name & Hin & <-); exists name; [|naive_solver].
    split; [|done]. split; [naive_solver|]. intros Hn'. apply Hx. rewrite own_ids by done. eauto.
Qed.

Lemma Agree_behind {A} (f : V → A * V) s : (∀ v, quiet v (f v).2) → Agree s → Agree (behind f s).2.
Proof.
  intros Hf [HI Hp Ha]. unfold behind. specialize (Hf s.2). destruct (f s.2) as [a v'].
  split; cbn; [|done..]. eapply Inv_grow; [|exact HI]. apply Hf.
Qed.

Local Abbreviation Tidy := (tidy own Agree).

Lemma handle_tidy pools e m s : own_event own e → Tidy m s →
  wp True (handle (MatchEnv0 := pool_matchenv pools) e) (λ _ m' s', Tidy m' s') m s.
Proof.
  intros He Ht. apply (tidies_handle (MatchEnv0 := pool_matchenv pools) own Agree); [..|done|done].
  - intros a nodes s'. apply tell_enable.
  - intros a nodes s'. apply tell_disable.
  - intros idx n s'. by apply Agree_behind, pl_index.
Qed.

(** *** Steps

    An event is handled; the goroutine of the IP controller makes a pass, or the
    pool controller updates the addresses or the DNS record; the cluster and the
    provider change.  [pools] are the pools there are at the time. *)
Inductive follow_step : NodeMatch.Controller * World → NodeMatch.Controller * World → Prop :=
  | fs_event pools e m s m' s' :
      own_event own e → deliverable (MatchEnv0 := pool_matchenv pools) e m s →
      handle (MatchEnv0 := pool_matchenv pools) e m s = Ret (tt, m', s') → follow_step (m, s) (m', s')
  | fs_iterate pools m g i v t i' v' :
      iterate (IPEnv0 := pool_ipenv pools) i v = Ret (t, i', v') →
      follow_step (m, (g, i, v)) (m, (g, i', v'))
  | fs_update pools o m g i v i' v' :
      match o with OpUpdateIPs _ _ | OpUpdateDNSSpec _ => True | _ => False end →
      allowed o i v → exec (IPEnv0 := pool_ipenv pools) o i v = Ret (tt, i', v') →
      follow_step (m, (g, i, v)) (m, (g, i', v'))
  | fs_world m g i v v' :
      allocated v ⊆ allocated v' → follow_step (m, (g, i, v)) (m, (g, i, v')).

Lemma Agree_same g i v i' v' :
  Agree (g, i, v) → Inv i' v' → i_provider i' = i_provider i →
  i_providerIDToNodeName i' = i_providerIDToNodeName i → Agree (g, i', v').
Proof.
  intros [HI Hp Ha] HI' Hpr Hn. cbn in *. unfold ip_of, enabled_names in *. cbn in *.
  split; unfold ip_of, enabled_names; cbn; [done|by rewrite Hpr|]. intros x. rewrite Hn. apply Ha.
Qed.

Lemma exec_agree pools o g i v i' v' :
  match o with OpUpdateIPs _ _ | OpUpdateDNSSpec _ => True | _ => False end →
  allowed o i v → exec (IPEnv0 := pool_ipenv pools) o i v = Ret (tt, i', v') →
  Agree (g, i, v) → Agree (g, i', v').
Proof.
  intros Ho Hal He HA. pose proof HA as [HI _ _]. cbn in HI.
  assert (i_provider i' = i_provider i) as Hp.
  { pose proof (frame_exec (IPEnv0 := pool_ipenv pools) o) as Hf. destruct o; try done;
      (specialize (Hf i v); rewrite He in Hf; by injection Hf). }
  destruct o as [|ips n|dns| | |]; try done.
  - destruct Hal as [Hn Hips].
    pose proof (updateIPs_spec (IPEnv0 := pool_ipenv pools) ips n i v Hn Hips HI) as Hwp.
    unfold wp in Hwp. cbn [exec] in He. rewrite He in Hwp. destruct Hwp as [HI' Hup].
    eapply Agree_same; [done..|]. apply Hup.
  - injection He as <- <-. eapply Agree_same; [done| |done|].
    + by apply updateDNSSpec_inv.
    + unfold ipController.updateDNSSpec. case_bool_decide; [done|]. destruct dns; [|done]. by destruct (_ || _).
Qed.

Lemma follow_step_inv m s m' s' : follow_step (m, s) (m', s') → Sync m s ∧ Tidy m s → Sync m' s' ∧ Tidy m' s'.
Proof.
  intros Hs [HS HT]. inversion Hs as [pools e m1 s1 m2 s2 Hown Hd He|pools m1 g i v t i' v' He
    |pools o m1 g i v i' v' Ho Hal He|m1 g i v v' Hg]; subst.
  - split.
    + pose proof (handle_sync (MatchEnv0 := pool_matchenv pools) (H0 := pool_match_laws pools) e m s HS Hd) as Hwp.
      unfold wp in Hwp. by rewrite He in Hwp.
    + pose proof (handle_tidy pools e m s Hown HT) as Hwp. unfold wp in Hwp. by rewrite He in Hwp.
  - split; [exact HS|]. destruct HT as [Ho HA]. split; [done|]. pose proof HA as [HI Hp _].
    pose proof (iterate_inv (IPEnv0 := pool_ipenv pools) True i v HI Hp) as Hwp.
    unfold wp in Hwp. rewrite He in Hwp. destruct Hwp as [HI' Hc]; [by left|].
    eapply Agree_same; [done..|by apply config_provider|by apply config_names].
  - split; [exact HS|]. destruct HT as [Hown HA]. split; [done|]. by eapply exec_agree.
  - split; [exact HS|]. destruct HT as [Hown HA]. split; [done|]. pose proof HA as [HI _ _].
    eapply Agree_same; [done| |done..]. by eapply Inv_grow.
Qed.

Lemma follow_steps m s m' s' :
  rtc follow_step (m, s) (m', s') → Sync m s ∧ Tidy m s → Sync m' s' ∧ Tidy m' s'.
Proof.
  intros Hr. remember (m, s) as a eqn:Ha. remember (m', s') as b eqn:Hb. revert m s Ha.
  induction Hr as [a|a [m1 s1] b H12 _ IH]; intros m s -> HI; simplify_eq; [done|].
  eapply IH; [done..|]. by eapply follow_step_inv.
Qed.

(** Then the nodes the IP controller serves are those that match. *)
Lemma agree_active m s : Sync m s → Tidy m s → ∀ x,
  is_Some (i_providerIDToNodeName (ip_of s) !! x) ↔
  ∃ name n, m_nodeNameToNode m !! name = Some n ∧ desired m n ∧ node_ProviderID (n_k8sNode n) = x.
Proof.
  intros [Hrd Hsy] [Hown [_ _ Ha]] x. rewrite Ha. split.
  - intros (name & Hname & <-). apply Hsy in Hname as (n & Hn & Hd). exists name, n.
    split_and!; [done..|]. rewrite (Hown _ _ Hn). by rewrite (rd_keys _ Hrd _ _ Hn).
  - intros (name & n & Hn & Hd & <-). exists name. split; [apply Hsy; by exists n|].
    rewrite (Hown _ _ Hn). by rewrite (rd_keys _ Hrd _ _ Hn).
Qed.
End follow.

