(* ===== verification/PoolSim.v ===== *)
(** * A simulated world of the pool controller

    The provider and the clock of [Sim], an API with one resource, and a cluster
    with nodes and pods; witnesses, and what happens to a pool whose DNS provider
    does not exist. *)
From S2P Require Import Prelude Go Retry GoText OrderedSet K8s Types Provider.
From S2P Require Import ProviderMetrics.
From S2P Require Import Registry IPController IPInvariant IPReconcile Sim IPSystem.
From S2P Require Import IPAssign IPSpec.
From S2P Require Import NodeMatch NodeMatchProps NodeMatchSystem Pool PoolProps.
From S2P Require Import PoolSystem PoolCluster.
Import Pool.

Record PoolSim : Type := PoolSim_ {
  px_sim : Sim;
  px_resource : FloatingIPPool;                 (* as the API has it *)
  px_nodes : list Node;
  px_pods : list Pod;
  px_refuse : option error;                     (* what an update of a status answers *)
  px_calls : nat;                               (* the updates of a status so far *)
}.
Definition eta_PoolSim (s : PoolSim) : PoolSim :=
  PoolSim_ (px_sim s) (px_resource s) (px_nodes s) (px_pods s) (px_refuse s) (px_calls s).
#[export] Instance set_px_sim : Setter px_sim := ltac:(derive_setter eta_PoolSim px_sim).
#[export] Instance set_px_resource : Setter px_resource := ltac:(derive_setter eta_PoolSim px_resource).
#[export] Instance set_px_nodes : Setter px_nodes := ltac:(derive_setter eta_PoolSim px_nodes).
#[export] Instance set_px_refuse : Setter px_refuse := ltac:(derive_setter eta_PoolSim px_refuse).
#[export] Instance set_px_calls : Setter px_calls := ltac:(derive_setter eta_PoolSim px_calls).

(** A call of the provider or of the clock. *)
Definition onsim {A} (f : Sim → A * Sim) (w : PoolSim) : A * PoolSim :=
  let '(a, s) := f (px_sim w) in (a, w <| px_sim := s |>).

#[export] Instance poolsim_range : MapRange PoolSim := {| range_order ks w := (ks, w) |}.
#[export] Instance poolsim_clock : Clock PoolSim := {| time_Now := onsim time_Now |}.
#[export] Instance poolsim_ipprovider : IPProvider PoolSim := {|
  IPToProviderID p ip := onsim (IPToProviderID p ip);
  AssignIP p ip n := onsim (AssignIP p ip n);
  NodeToIP p n := onsim (NodeToIP p n);
  CreateIP p r := onsim (CreateIP p r);
|}.
#[export] Instance poolsim_dnsprovider : DNSProvider PoolSim := {|
  EnsureDNSARecordSet p z r ips t := onsim (EnsureDNSARecordSet p z r ips t);
  RecordNameAndZoneToFQDN _ zone record := record +:+ "." +:+ zone;
|}.
#[export] Instance poolsim_env : PoolEnv PoolSim := {|
  poolenv_base := {| GetProviderName _ := "sim" |};
  poolenv_lister := {| lister_Get _ name w :=
    (match filter (λ n, node_Name n = name) (px_nodes w) with
     | n :: _ => inl n | [] => inr ErrNotFound end, w) |};
  pool_now := onsim env_now;
  pool_ctx_Err := onsim ctx_Err;
  pools_Get _ _ w := (inl (px_resource w), w);
  pools_Update _ k8s w := (None, w <| px_resource := k8s |>);
  pools_UpdateStatus _ k8s w := (px_refuse w, w <| px_calls ::= S |>);
  nodes_Patch _ _ w := (None, w);
  IsNotFound := is_ErrNotFound;
  json_Marshal _ := "";
  pool_kind_of _ := None;
  float_to_int64_undefined _ := (- 2 ^ 63)%Z;
|}.
#[export] Instance poolsim_cluster : ClusterAPI PoolSim := {|
  cl_ByIndex _ name w := (inl (filter (λ p, pod_NodeName p = name) (px_pods w)), w);
  cl_Sync w := (true, w);
  cl_List w := (px_nodes w, w);
|}.
#[export] Instance poolsim_fmt : GoFmt := {| fmt_q s := s |}.
(** The provider 2 serves floating IPs and DNS. *)
#[export] Instance poolsim_kinds : ProviderKinds := {|
  is_IPProvider p := bool_decide (p = 2%positive);
  is_DNSProvider p := bool_decide (p = 2%positive);
|}.
#[export] Instance poolsim_ghost : IPGhost PoolSim := {|
  allocated w := allocated (px_sim w);
  assign_trace w := assign_trace (px_sim w);
  alive w := alive (px_sim w);
  holder w := holder (px_sim w);
  cooperative w := cooperative (px_sim w);
|}.

Lemma onsim_quiet {A} (f : Sim → A * Sim) (w : PoolSim) :
  (∀ s, quiet s (f s).2) → quiet w (onsim f w).2.
Proof.
  intros Hf. unfold onsim. specialize (Hf (px_sim w)). destruct (f (px_sim w)) as [a s].
  destruct Hf. by split.
Qed.
Lemma onsim_inv {A} (f : Sim → A * Sim) (w w' : PoolSim) a :
  onsim f w = (a, w') → f (px_sim w) = (a, px_sim w').
Proof. unfold onsim. destruct (f (px_sim w)) as [a' s]. by intros [= -> <-]. Qed.
Lemma onsim_sim {A} (f : Sim → A * Sim) (w : PoolSim) : px_sim (onsim f w).2 = (f (px_sim w)).2.
Proof. unfold onsim. by destruct (f (px_sim w)). Qed.
Lemma onsim_answer {A} (f : Sim → A * Sim) (w : PoolSim) : (onsim f w).1 = (f (px_sim w)).1.
Proof. unfold onsim. by destruct (f (px_sim w)). Qed.

#[export] Instance poolsim_laws : PoolLaws PoolSim.
Proof.
  split; try (by split); cbn; intros; rewrite ?onsim_sim, ?onsim_answer; try by split.
  all: try (apply onsim_quiet; intros s).
  - exact (ctx_Err_quiet (W := Sim) s).
  - exact (CreateIP_quiet (W := Sim) p r s).
  - exact (IPToProviderID_quiet (W := Sim) p ip s).
  - exact (EnsureDNS_quiet (W := Sim) p z r ips t s).
  - exact (AssignIP_alloc (W := Sim) p ip n (px_sim v)).
  - exact (AssignIP_alive (W := Sim) p ip n (px_sim v) H).
  - exact (AssignIP_trace (W := Sim) p ip n (px_sim v)).
  - exact (ctx_Err_alive (W := Sim) (px_sim v) H).
  - exact (CreateIP_fresh (W := Sim) p r _ _ _ (onsim_inv _ _ _ _ H)).
  - exact (CreateIP_err (W := Sim) p r _ _ _ (onsim_inv _ _ _ _ H)).
  - exact (IPToProviderID_err (W := Sim) p ip _ _ _ (onsim_inv _ _ _ _ H)).
  - exact (AssignIP_err (W := Sim) p ip n _ _ _ (onsim_inv _ _ _ _ H)).
  - exact (env_now_pos (W := Sim) (px_sim v)).
  - exact (time_Now_pos (W := Sim) (px_sim v)).
Qed.

(** ** A run of the system *)
Module PoolExample.
Definition dns (provider : string) : DNSRecordSet :=
  {| dns_Provider := provider; dns_Zone := "example.com"; dns_RecordName := "pool"; dns_TTL := 30 |}.
Definition resource (provider dnsProvider : string) : FloatingIPPool := {|
  fip_meta := {| meta_Namespace := "ns"; meta_Name := "pool"; meta_UID := "u" |};
  fip_Spec := {|
    fip_IPs := Some ["10.0.0.1"]; fip_DesiredIPs := 2; fip_Provider := provider; fip_Region := "nyc3";
    fip_Match := {| NodeLabel := ""; PodLabel := ""; PodNamespace := ""; Tolerations := None |};
    fip_DNSRecordSet := Some (dns dnsProvider);
    fip_AssignmentCoolOffSeconds := S754_zero false |};
  fip_Status := {| status_IPs := None; status_NodeErrors := None; status_AssignableNodes := None;
                   status_Error := "" |} |}.
Definition node_ : Node := {|
  node_Name := "a"; node_ProviderID := "do://a"; node_Labels := ∅; node_Annotations := ∅;
  node_Deleting := false; node_Taints := []; node_Conditions := [Cluster.ready_cond];
  node_Addresses := [] |}.
Definition registry : Registry := Registry_ {["sim" := 2%positive]} None None.
Definition w0 : PoolSim := PoolSim_ sim0 (resource "sim" "") [node_] [] None 0.

Definition state : Type := Pool.Controller * PoolSim.
Inductive command : Type :=
  | Seen (k8s : FloatingIPPool)
  | Match (uid : string) (o : match_op)
  | Iterate (uid : string)
  | World (f : PoolSim → PoolSim).
Definition run_command (s : state) (x : command) : option state :=
  let '(c, v) := s in
  match x with
  | Seen k8s =>
      if (0 <=? fip_DesiredIPs (fip_Spec k8s))%Z then
        match OnUpdate (ObjPool k8s) c v with Ret (_, c', v') => Some (c', v') | _ => None end
      else None
  | Match uid o =>
      p ← c_pools c !! uid;
      match exec_match (c_pools c) o (p_matchController p) (∅, p_ipController p, v) with
      | Ret (_, m', (_, i', v')) =>
          Some (c <| c_pools ::= <[uid := p <| p_matchController := m' |> <| p_ipController := i' |>]> |>, v')
      | _ => None
      end
  | Iterate uid =>
      match on_ip uid (iterate (IPEnv0 := pool_ipenv (c_pools c))) c v with
      | Ret (_, c', v') => Some (c', v')
      | _ => None
      end
  | World f => Some (c, f v)
  end.
Definition run (l : list command) (s : state) : option state :=
  foldl (λ s x, s ← s; run_command s x) (Some s) l.

Lemma run_command_step s x s' : run_command s x = Some s' → pool_step s s'.
Proof.
  destruct s as [c v], s' as [c' v']. destruct x as [k8s|uid o|uid|f]; cbn [run_command].
  - destruct (Z.leb_spec 0 (fip_DesiredIPs (fip_Spec k8s))); [|done].
    destruct (OnUpdate _ _ _) as [[[k' c1] v1]| |] eqn:He; [|done..]. intros [= <- <-].
    by eapply ps_seen.
  - destruct (c_pools c !! uid) as [p|] eqn:Hp; [|done]. cbn [mbind option_bind].
    destruct (exec_match _ _ _ _) as [[[[] m'] [[g' i'] v1]]| |] eqn:He; [|done..]. intros [= <- <-].
    by eapply ps_match.
  - destruct (on_ip _ _ _ _) as [[[t c1] v1]| |] eqn:He; [|done..]. intros [= <- <-]. by eapply ps_iterate.
  - intros [= <- <-]. apply ps_world.
Qed.
Lemma run_steps l s s' : run l s = Some s' → rtc pool_step s s'.
Proof.
  unfold run. revert s. induction l as [|x l IH]; intros s; cbn.
  { by intros [= ->]. }
  assert (∀ l, foldl (λ s x, s ← s; run_command s x) None l = None) as Hnone
    by (induction l0; cbn; congruence).
  destruct (run_command s x) as [s1|] eqn:Hx; [|by rewrite Hnone].
  intros Hr. eapply rtc_l; [by apply (run_command_step _ x)|by apply IH].
Qed.

Definition c0 : Pool.Controller := NewController registry.
(** The resource is seen, the match controller primes, the pool is served. *)
Definition commands (k8s : FloatingIPPool) : list command :=
  [Seen k8s; Match "u" (MRun 1%positive 2%positive); Iterate "u"].
Definition later (w : PoolSim) : PoolSim := w <| px_sim ::= λ s, s <| sim_time := 5000 * Second |>%Z |>.
Definition served : state := default (c0, w0) (run (commands (resource "sim" "")) (c0, w0)).
Lemma run_served : run (commands (resource "sim" "")) (c0, w0) = Some served.
Proof. vm_compute. reflexivity. Qed.

(** The same resource, its DNS provider misspelt, an hour later. *)
Definition misspelt : FloatingIPPool := resource "sim" "nope".
Definition unserved : state :=
  default (c0, w0) (run (commands misspelt ++ [World later]) (c0, w0)).
Lemma run_unserved : run (commands misspelt ++ [World later]) (c0, w0) = Some unserved.
Proof. vm_compute. reflexivity. Qed.
Lemma misspelt_valid : valid_pool registry misspelt.
Proof.
  exists 2%positive. split_and!; try (vm_compute; reflexivity).
  - intros [? _]. discriminate.
  - intros record [= <-]. vm_compute. reflexivity.
Qed.
End PoolExample.



(** ** A pool that follows the cluster

    A primed match controller and an IP controller with a provider; the pool gets
    an address, a node appears, and a pass assigns the address to it. *)
Module PoolFollowing.
Definition pid (name : string) : string := "do://" +:+ name.
Lemma pid_inj a b : pid a = pid b → a = b.
Proof. unfold pid. intros Heq. by simplify_eq. Qed.
Lemma pid_nonempty a : pid a ≠ "".
Proof. discriminate. Qed.

Definition criteria_ : Match := fip_Match (fip_Spec (PoolExample.resource "sim" "")).
Definition m0 : NodeMatch.Controller :=
  SetCriteria criteria_ (NodeMatch.NewController action_ref) <| m_primed := true |>.
Definition i0 : ipController :=
  (ipController.updateProviders (Some 2%positive) None "nyc3" 0
     (ipController.newIPController None None None)).2.
Definition v0 : PoolSim := PoolExample.w0.
Definition no_pools : gmap string floatingIPPool := ∅.

Lemma m0_none name : m_nodeNameToNode m0 !! name = None.
Proof. assert (m_nodeNameToNode m0 = ∅) as -> by reflexivity. apply lookup_empty. Qed.
Lemma sync_start : Sync m0 (∅, i0, v0).
Proof.
  split.
  - split; [done|by eexists|by intros ?|]. intros name n Hn. by rewrite m0_none in Hn.
  - intros name. split; [by intros ?%elem_of_empty|]. intros (n & Hn & _). by rewrite m0_none in Hn.
Qed.
Lemma i0_inv (v : PoolSim) : Inv i0 v.
Proof. unfold i0. apply updateProviders_inv. apply new_inv. Qed.
Lemma i0_names : i_providerIDToNodeName i0 = ∅.
Proof. reflexivity. Qed.
Lemma i0_provider : i_provider i0 = Some 2%positive.
Proof. reflexivity. Qed.
Lemma tidy0 : tidy (own pid) (Agree pid) m0 (∅, i0, v0).
Proof.
  split; [intros name n Hn; by rewrite m0_none in Hn|].
  constructor; unfold ip_of, enabled_names, fst, snd; [apply i0_inv|rewrite i0_provider; by eexists|].
  intros x. rewrite i0_names, lookup_empty.
  split; [by intros []|intros (name & Hin & _); by apply elem_of_empty in Hin].
Qed.

(** The pool gets its address, the node appears, a pass is made. *)
Definition addresses : slice string := Some ["10.0.0.1"].
Definition appear : event := Upsert (ObjNode PoolExample.node_).
Definition s1 : ipController * PoolSim :=
  ran (ipController.updateIPs (IPEnv0 := pool_ipenv no_pools) addresses 1 i0 v0) (i0, v0).
Definition s2 : NodeMatch.Controller * (gset string * ipController * PoolSim) :=
  ran (handle (MatchEnv0 := pool_matchenv no_pools) appear m0 (∅, s1.1, s1.2)) (m0, (∅, s1.1, s1.2)).
Definition s3 : ipController * PoolSim :=
  ran (iterate (IPEnv0 := pool_ipenv no_pools) s2.2.1.2 s2.2.2) (i0, v0).

Lemma step1 : exec (IPEnv0 := pool_ipenv no_pools) (OpUpdateIPs addresses 1) i0 v0 = Ret (tt, s1.1, s1.2).
Proof. vm_compute. reflexivity. Qed.
Lemma allowed1 : allowed (OpUpdateIPs addresses 1) i0 v0.
Proof.
  split; [lia|]. intros ip Hip%list_elem_of_singleton. subst ip. split.
  - apply (bool_decide_unpack _). vm_compute. exact I.
  - apply (bool_decide_unpack _). vm_compute. exact I.
Qed.
Lemma step2 : handle (MatchEnv0 := pool_matchenv no_pools) appear m0 (∅, s1.1, s1.2) = Ret (tt, s2.1, s2.2).
Proof. vm_compute. reflexivity. Qed.
Lemma step3 : ∃ t, iterate (IPEnv0 := pool_ipenv no_pools) s2.2.1.2 s2.2.2 = Ret (t, s3.1, s3.2).
Proof. eexists. vm_compute. reflexivity. Qed.
Lemma deliver_appear : deliverable (MatchEnv0 := pool_matchenv no_pools) appear m0 (∅, s1.1, s1.2).
Proof. intros idx Hidx. discriminate Hidx. Qed.

(** The steps, for any states. *)
Lemma steps o e m (g : gset string) i v (q1 : ipController * PoolSim)
    (q2 : NodeMatch.Controller * (gset string * ipController * PoolSim)) (q3 : ipController * PoolSim) t :
  match o with OpUpdateIPs _ _ | OpUpdateDNSSpec _ => True | _ => False end → allowed o i v →
  exec (IPEnv0 := pool_ipenv no_pools) o i v = Ret (tt, q1.1, q1.2) →
  own_event (own pid) e → deliverable (MatchEnv0 := pool_matchenv no_pools) e m (g, q1.1, q1.2) →
  handle (MatchEnv0 := pool_matchenv no_pools) e m (g, q1.1, q1.2) = Ret (tt, q2.1, q2.2) →
  iterate (IPEnv0 := pool_ipenv no_pools) q2.2.1.2 q2.2.2 = Ret (t, q3.1, q3.2) →
  rtc (follow_step pid) (m, (g, i, v)) (q2.1, (q2.2.1.1, q3.1, q3.2)).
Proof.
  destruct q1 as [i1 v1], q2 as [m2 [[g2 i2] v2]], q3 as [i3 v3]. intros Ho Hal H1 He Hd H2 H3.
  eapply rtc_l; [exact (fs_update pid no_pools o _ _ _ _ _ _ Ho Hal H1)|].
  eapply rtc_l; [exact (fs_event pid no_pools e _ _ _ _ He Hd H2)|].
  eapply rtc_l; [exact (fs_iterate pid no_pools _ _ _ _ _ _ _ H3)|]. apply rtc_refl.
Qed.
Definition final : gset string * ipController * PoolSim := (s2.2.1.1, s3.1, s3.2).
Lemma steps_follow : rtc (follow_step pid) (m0, (∅, i0, v0)) (s2.1, final).
Proof.
  destruct step3 as [t H3].
  exact (steps (OpUpdateIPs addresses 1) appear m0 ∅ i0 v0 s1 s2 s3 t I allowed1 step1 eq_refl deliver_appear step2 H3).
Qed.
End PoolFollowing.


(** An unknown provider, and an API that refuses the status. *)
Lemma invalid_reported_once_witness :
  ∃ k8s' c' w', OnUpdate (ObjPool (PoolExample.resource "nope" "")) PoolExample.c0
      (PoolExample.w0 <| px_refuse := Some (ErrorString "conflict") |>) = Ret (k8s', c', w') ∧
    px_calls w' = 1 ∧ ∀ w2, OnUpdate (ObjPool k8s') c' w2 = Ret (k8s', c', w2).
Proof.
  assert (¬ valid_pool (c_providers PoolExample.c0) (PoolExample.resource "nope" "")) as Hnot.
  { intros (prov & Hget & _). vm_compute in Hget. discriminate Hget. }
  pose proof (invalid_reported_once _ _ (PoolExample.w0 <| px_refuse := Some (ErrorString "conflict") |>) Hnot) as Hwp.
  assert (∃ k8s' c' w', OnUpdate (ObjPool (PoolExample.resource "nope" "")) PoolExample.c0
      (PoolExample.w0 <| px_refuse := Some (ErrorString "conflict") |>) = Ret (k8s', c', w') ∧ px_calls w' = 1)
    as (k8s' & c' & w' & Hr & Hn).
  { do 3 eexists. split; vm_compute; reflexivity. }
  exists k8s', c', w'. split; [exact Hr|]. split; [exact Hn|].
  unfold wp in Hwp. rewrite Hr in Hwp. by destruct Hwp as (_ & _ & ?).
Defined.
