(* ===== verification/PoolProvider.v ===== *)
(** * A pool over DigitalOcean

    DigitalOcean keeps the contract of an IP provider that the theorems about the IP
    controller and its pool assume: put together, a pool whose addresses are floating
    IPs of DigitalOcean follows the cluster. *)
From S2P Require Import Prelude Go Retry GoText OrderedSet K8s Types Provider ProviderMetrics.
From S2P Require Import Registry DigitalOcean DigitalOceanDNS DigitalOceanIPs DOSim.
From S2P Require Import IPController IPInvariant IPReconcile IPSystem.
From S2P Require Import NodeMatch NodeMatchProps NodeMatchSystem Pool PoolProps PoolSystem PoolCluster PoolSim Sim.

(** ** What the API of DigitalOcean promises

    [do_allocated w]: the floating IPs of the account.  They are not withdrawn, and a
    new one was not there before.  [foreign]: no error of the client is one of this
    program's. *)
Class DOIPGhost (W : Type) : Type := { do_allocated : W → gset string }.
Definition foreign {A} (r : reply A) : Prop :=
  match r.1 with inr err => as_retryError err = None | inl _ => True end.
Class DOIPLaws (W : Type) `{!Godo W, !Prometheus W, !Clock W, !DOIPGhost W} : Prop := {
  dl_now w : do_allocated w ⊆ do_allocated (time_Now w).2;
  dl_inc m l w : do_allocated w ⊆ do_allocated (With_Inc m l w).2;
  dl_observe m l d w : do_allocated w ⊆ do_allocated (With_Observe m l d w).2;
  dl_get ip w : do_allocated w ⊆ do_allocated (ips_Get ip w).2;
  dl_create r w : do_allocated w ⊆ do_allocated (ips_Create r w).2;
  dl_assign ip d w : do_allocated w ⊆ do_allocated (ipActions_Assign ip d w).2;
  dl_action ip id w : do_allocated w ⊆ do_allocated (ipActions_Get ip id w).2;
  dl_droplet d w : do_allocated w ⊆ do_allocated (droplets_Get d w).2;
  dl_created r w flip res w' : ips_Create r w = ((inl (Some flip), res), w') →
    (flip_IP flip ∉ do_allocated w) ∧ flip_IP flip ∈ do_allocated w';
  dl_get_err ip w : foreign (ips_Get ip w).1;
  dl_create_err r w : foreign (ips_Create r w).1;
  dl_assign_err ip d w : foreign (ipActions_Assign ip d w).1;
  dl_action_err ip id w : foreign (ipActions_Get ip id w).1;
}.

Section operations.
Context `{DOIPLaws W} `{!MapRange W, !GoFmt}.
Implicit Types (c : digitalOcean) (w : W).

(** ** Errors *)
Lemma usable_asyncStatus ip : usable_errors (C := digitalOcean) (W := W) (asyncStatus ip).
Proof.
  unfold asyncStatus. repeat (apply usable_bind; intros ?). case_match; [|by apply usable_ret].
  apply (usable_answer foreign); [intros w; apply dl_action_err|]. intros [[action|err] res] Hf.
  - destruct action as [action|]; [|apply usable_bind; intros ?; by apply usable_ret].
    case_match; [apply usable_bind; intros ?; by apply usable_ret|].
    apply usable_ret. intros e [= <-]. apply usable_ErrInProgress.
  - apply usable_ret. intros e [= <-]. by apply usable_plain.
Qed.
Lemma usable_IPToProviderID ctx ip :
  usable_errors (C := digitalOcean) (W := W) (DigitalOcean.IPToProviderID ctx ip).
Proof.
  apply usable_bind. intros m. apply usable_measured. apply usable_or_return; [apply usable_asyncStatus|].
  intros []. apply (usable_answer foreign); [intros w; apply dl_get_err|]. intros [[flip|err] res] Hf.
  - apply usable_bind. intros flip'. case_match; by apply usable_ret.
  - apply usable_ret. intros e [= <-]. case_match; [apply usable_ErrNotFound|by apply usable_plain].
Qed.
Lemma usable_CreateIP ctx region :
  usable_errors (C := digitalOcean) (W := W) (DigitalOcean.CreateIP ctx region).
Proof.
  apply usable_bind. intros m. apply usable_measured.
  apply (usable_answer foreign); [intros w; apply dl_create_err|]. intros [[flip|err] res] Hf.
  - apply usable_bind. intros flip'. by apply usable_ret.
  - apply usable_ret. intros e [= <-]. by apply usable_plain.
Qed.
Lemma usable_unprocessable ctx ip pid err : as_retryError err = None →
  usable_errors (C := digitalOcean) (W := W) (assignUnprocessable ctx ip pid err).
Proof.
  intros Hf. apply usable_bind. intros cur. cbv zeta. destruct (_ && _); [by apply usable_ret|].
  apply usable_or_return.
  - destruct cur as [p|e]; [|by apply usable_ret]. apply usable_bind. intros nIP. apply usable_ret.
    case_match; [|done]. intros e [= <-]. apply usable_ErrNodeInUse.
  - intros []. apply usable_ret. intros e [= <-]. case_match; [apply usable_RetryFast|by apply usable_plain].
Qed.
Lemma usable_AssignIP ctx ip pid :
  usable_errors (C := digitalOcean) (W := W) (DigitalOcean.AssignIP ctx ip pid).
Proof.
  apply usable_bind. intros m. apply usable_measured. apply usable_or_return; [apply usable_asyncStatus|].
  intros []. apply usable_or_return.
  { apply usable_ret. unfold dropletID_of. intros e. case_match; [done|]. intros [= <-]. by apply usable_plain. }
  intros d. apply (usable_answer foreign); [intros w; apply dl_assign_err|]. intros [[action|err] res] Hf.
  - destruct action as [action|]; [|by apply usable_ret]. case_match; [by apply usable_ret|].
    repeat (apply usable_bind; intros ?). apply usable_ret. intros e [= <-]. apply usable_ErrInProgress.
  - case_match; [apply usable_ret; intros e [= <-]; apply usable_ErrNotFound|].
    case_match; [by apply usable_unprocessable|]. apply usable_ret. intros e [= <-]. by apply usable_plain.
Qed.

(** ** No address is withdrawn *)
Definition still (A : gset string) w : Prop := A ⊆ do_allocated w.
Lemma still_answer {A} (f : W → A * W) (X : gset string) :
  (∀ w, do_allocated w ⊆ do_allocated (f w).2) → preserves (C := digitalOcean) (still X) (call f).
Proof. intros Hf. apply preserves_call. unfold still. intros w Hw. by etrans; [|apply Hf]. Qed.
Lemma wp_measured_still {A} E m ctx caller (body : M digitalOcean W (A + error)) Q c w :
  (∀ w1, do_allocated w ⊆ do_allocated w1 →
     wp E body (λ r c' w2, ∀ w3, do_allocated w2 ⊆ do_allocated w3 → Q r c' w3) c w1) →
  wp E (measured m ctx caller body) Q c w.
Proof.
  intros Hb. destruct m as [m|].
  - unfold measured, startCall. destruct (KubeMetadataFromContext ctx) as [[[? ?] ?] ?].
    wp_steps. apply wp_call. intros start w1 H1. wp_steps.
    eapply wp_mono; [|apply Hb; pose proof (dl_now w) as Hn; by rewrite H1 in Hn].
    intros r c' w2 Hr. wp_steps. apply wp_call. intros finish w3 H3. wp_steps.
    apply wp_call. intros [] w4 H4. wp_steps. apply wp_call. intros [] w5 H5. wp_steps. apply Hr.
    etrans; [|etrans]; [pose proof (dl_now w2) as Hn; by rewrite H3 in Hn
      |by match type of H4 with _ ?m ?l ?w = _ => pose proof (dl_inc m l w) as Hn; rewrite H4 in Hn end
      |by match type of H5 with _ ?m ?l ?d ?w = _ => pose proof (dl_observe m l d w) as Hn; rewrite H5 in Hn end].
  - apply measured_None. eapply wp_mono; [|by apply Hb]. intros r c' w2 Hr. by apply Hr.
Qed.
(** What a call answers may matter to what follows. *)
Lemma still_bind {A B} X (Q : A → Prop) (m : M digitalOcean W A) (k : A → M digitalOcean W B) :
  (∀ c w, still X w → match m c w with Ret (a, _, w') => still X w' ∧ Q a | _ => True end) →
  (∀ a, Q a → preserves (still X) (k a)) → preserves (still X) (m ≫= k).
Proof.
  intros Hm Hk c w Hw. unfold mbind, M_bind. specialize (Hm c w Hw).
  destruct (m c w) as [[[a c'] w']| |]; [|done..]. destruct Hm as [Hw' Ha]. by apply Hk.
Qed.
Lemma still_measured {A} X m ctx caller (body : M digitalOcean W (A + error)) :
  preserves (still X) body → preserves (still X) (measured m ctx caller body).
Proof.
  intros Hb. apply (still_bind X (λ finish, ∀ err, preserves (still X) (finish err))).
  - intros c w Hw. unfold startCall. destruct m as [m|]; [|split; [done|intros; apply preserves_ret]].
    cbn. destruct (KubeMetadataFromContext ctx) as [[[b ns] name] kind]. cbn.
    split; [pose proof (dl_now w); unfold still in *; set_solver|]. intros err.
    apply preserves_bind; [apply still_answer, dl_now|intros finish].
    apply preserves_bind; [apply still_answer, dl_inc|intros []]. apply still_answer, dl_observe.
  - intros finish Hf. apply preserves_bind; [done|]. intros r.
    apply preserves_bind; [apply Hf|]. intros []. apply preserves_ret.
Qed.

Lemma still_asyncStatus X ip : preserves (still X) (asyncStatus ip).
Proof.
  unfold asyncStatus. repeat first [apply preserves_bind; [apply still_answer, dl_now|]
    |apply preserves_bind; [apply still_answer, dl_action|]|preserves_step].
Qed.
Lemma still_IPToProviderID X ctx ip : preserves (still X) (DigitalOcean.IPToProviderID ctx ip).
Proof.
  apply preserves_bind; [apply preserves_gets|]. intros m. apply still_measured.
  apply preserves_bind; [apply still_asyncStatus|]. intros [[]|err]; [|apply preserves_ret].
  apply preserves_bind; [apply still_answer, dl_get|]. solve_preserves.
Qed.
Lemma still_nodeIP_loop X fuel ctx pid ips i : preserves (still X) (nodeIP_loop fuel ctx pid ips i).
Proof.
  revert i. induction fuel as [|fuel IH]; intros i; cbn; [apply preserves_out_of_fuel|].
  case_match; [apply preserves_ret|]. apply preserves_bind; [apply preserves_deref|]. intros ip.
  apply preserves_bind; [apply still_IPToProviderID|].
  intros [p|e]; case_bool_decide; auto using preserves_ret.
Qed.
Lemma still_NodeToIP X ctx pid : preserves (still X) (DigitalOcean.NodeToIP ctx pid).
Proof.
  apply preserves_bind; [apply preserves_gets|]. intros m. apply still_measured.
  apply preserves_bind; [apply preserves_ret|]. intros [d|err]; [|apply preserves_ret].
  apply preserves_bind; [apply still_answer, dl_droplet|]. intros [[droplet|err] res]; [|apply preserves_ret].
  apply preserves_bind; [apply preserves_deref|]. intros dr. case_match; [|apply preserves_ret].
  cbv zeta. case_match; [apply preserves_ret|]. apply still_nodeIP_loop.
Qed.
Lemma still_CreateIP X ctx region : preserves (still X) (DigitalOcean.CreateIP ctx region).
Proof.
  apply preserves_bind; [apply preserves_gets|]. intros m. apply still_measured.
  apply preserves_bind; [apply still_answer, dl_create|]. solve_preserves.
Qed.
Lemma still_AssignIP X ctx ip pid : preserves (still X) (DigitalOcean.AssignIP ctx ip pid).
Proof.
  apply preserves_bind; [apply preserves_gets|]. intros m. apply still_measured.
  apply preserves_bind; [apply still_asyncStatus|]. intros [[]|err]; [|apply preserves_ret].
  apply preserves_bind; [apply preserves_ret|]. intros [d|err]; [|apply preserves_ret].
  apply preserves_bind; [apply still_answer, dl_assign|]. intros [[action|err] res].
  - repeat first [apply preserves_bind; [apply still_answer, dl_now|]|preserves_step].
  - case_match; [apply preserves_ret|]. case_match; [|apply preserves_ret]. unfold assignUnprocessable.
    apply preserves_bind; [apply still_IPToProviderID|]. intros cur. cbv zeta.
    destruct (_ && _); [apply preserves_ret|]. apply preserves_bind.
    + destruct cur; [apply preserves_bind; [apply still_NodeToIP|intros; apply preserves_ret]|apply preserves_ret].
    + intros [?|?]; apply preserves_ret.
Qed.

(** ** A new address *)
Lemma CreateIP_new ctx region c w :
  wp True (DigitalOcean.CreateIP ctx region) (λ r _ w',
    ∀ ip, r = inl ip → (ip ∉ do_allocated w) ∧ ip ∈ do_allocated w') c w.
Proof.
  unfold DigitalOcean.CreateIP, do_call. wp_steps. apply wp_measured_still. intros w1 Hw1. wp_steps.
  apply wp_call. intros [r res] w2 Hr. destruct r as [flip|err]; wp_steps; [|done].
  apply wp_deref; [|done]. intros flip' ->. wp_steps. intros w3 Hw3 ip [= <-].
  destruct (dl_created _ _ _ _ _ Hr) as [Hnot Hin]. set_solver.
Qed.

(** ** Calls that return

    No pointer of a reply without an error is [nil], and no droplet has a second
    public address, which [NodeToIP] would search for in vain. *)
Record well_answered : Prop := {
  wa_get ip w res w' : ips_Get ip w ≠ ((inl None, res), w');
  wa_create region w res w' : ips_Create region w ≠ ((inl None, res), w');
  wa_droplet d w res w' : droplets_Get d w ≠ ((inl None, res), w');
  wa_addresses d w droplet nets res w' : droplets_Get d w = ((inl (Some droplet), res), w') →
    droplet_Networks droplet = Some nets → length (publicIPs nets) < 2;
}.
Definition returns {A} (m : M digitalOcean W A) : Prop := ∀ c w, wp False m (λ _ _ _, True) c w.
Lemma returns_ret {A} (a : A) : returns (mret a).
Proof. done. Qed.
Lemma returns_bind {A B} (m : M digitalOcean W A) (k : A → M digitalOcean W B) :
  returns m → (∀ a, returns (k a)) → returns (m ≫= k).
Proof. intros Hm Hk c w. apply wp_bind. eapply wp_mono; [|apply Hm]. intros a c' w' _. apply Hk. Qed.
Lemma returns_simple {A} (f : digitalOcean → A) (g : digitalOcean → digitalOcean) (h : W → A * W) :
  returns (gets f) ∧ returns (modify g) ∧ returns (call h).
Proof. by repeat split. Qed.
Lemma returns_measured {A} m ctx caller (body : M digitalOcean W (A + error)) :
  returns body → returns (measured m ctx caller body).
Proof.
  intros Hb c w. apply wp_measured_still. intros w1 _. eapply wp_mono; [|apply Hb]. done.
Qed.
Lemma returns_asyncStatus ip : returns (asyncStatus ip).
Proof.
  intros c w. unfold asyncStatus. wp_steps. apply wp_call. intros now w1 _. wp_steps.
  case_match; wp_steps; [|done]. apply wp_call. intros [[action|err] res] w2 _; wp_steps; [|done].
  case_match; by wp_steps.
Qed.

Context (Hwell : well_answered).
Lemma returns_IPToProviderID ctx ip : returns (DigitalOcean.IPToProviderID ctx ip).
Proof.
  apply returns_bind; [done|]. intros m. apply returns_measured.
  apply returns_bind; [apply returns_asyncStatus|]. intros [[]|err]; [|apply returns_ret].
  intros c w. wp_steps. apply wp_call. intros [[flip|err] res] w1 Hr; wp_steps; [|done].
  apply wp_deref; [|intros ->; by apply (wa_get Hwell) in Hr]. intros flip' _. wp_steps.
  case_match; by wp_steps.
Qed.
Lemma returns_CreateIP ctx region : returns (DigitalOcean.CreateIP ctx region).
Proof.
  apply returns_bind; [done|]. intros m. apply returns_measured.
  intros c w. wp_steps. apply wp_call. intros [[flip|err] res] w1 Hr; wp_steps; [|done].
  apply wp_deref; [|intros ->; by apply (wa_create Hwell) in Hr]. intros flip' _. by wp_steps.
Qed.
Lemma returns_NodeToIP ctx pid : returns (DigitalOcean.NodeToIP ctx pid).
Proof.
  apply returns_bind; [done|]. intros m. apply returns_measured.
  apply returns_bind; [done|]. intros [d|err]; [|apply returns_ret].
  intros c w. wp_steps. apply wp_call. intros [[droplet|err] res] w1 Hr; wp_steps; [|done].
  apply wp_deref; [|intros ->; by apply (wa_droplet Hwell) in Hr]. intros dr ->. wp_steps.
  destruct (droplet_Networks dr) as [nets|] eqn:Hn; [|done]. cbv zeta.
  rewrite (proj2 (Nat.ltb_lt _ _) (wa_addresses Hwell _ _ _ _ _ _ Hr Hn)). done.
Qed.
Lemma returns_AssignIP ctx ip pid : returns (DigitalOcean.AssignIP ctx ip pid).
Proof.
  apply returns_bind; [done|]. intros m. apply returns_measured.
  apply returns_bind; [apply returns_asyncStatus|]. intros [[]|err]; [|apply returns_ret].
  apply returns_bind; [done|]. intros [d|err]; [|apply returns_ret].
  apply returns_bind; [done|]. intros [[action|err] res].
  - destruct action as [action|]; [|apply returns_ret]. case_match; [apply returns_ret|].
    repeat (apply returns_bind; [done|intros ?]). apply returns_ret.
  - case_match; [apply returns_ret|]. case_match; [|apply returns_ret].
    apply returns_bind; [apply returns_IPToProviderID|]. intros cur. cbv zeta.
    destruct (_ && _); [apply returns_ret|]. apply returns_bind.
    + destruct cur; [apply returns_bind; [apply returns_NodeToIP|intros; apply returns_ret]|apply returns_ret].
    + intros [?|?]; apply returns_ret.
Qed.
End operations.

(** ** The world of the pool

    The cloud, the client, and the rest of the world with the provider of the DNS
    records; what the code cannot see: the calls of [AssignIP] so far, and whether
    the process has died of a panic in a call of the client. *)
Record PoolHost (W V : Type) : Type := PoolHost_ {
  ph_cloud : W;
  ph_client : digitalOcean;
  ph_rest : V;
  ph_trace : list (string * string);
  ph_crashed : bool;
}.
Arguments PoolHost_ {W V}.
Arguments ph_cloud {W V}. Arguments ph_client {W V}. Arguments ph_rest {W V}.
Arguments ph_trace {W V}. Arguments ph_crashed {W V}.

Section host.
Context {W V : Type}.
Implicit Types (h : PoolHost W V).
Definition aside {A} (f : V → A * V) h : A * PoolHost W V :=
  let '(a, v) := f (ph_rest h) in
  (a, PoolHost_ (ph_cloud h) (ph_client h) v (ph_trace h) (ph_crashed h)).
(** A method of the client; what it answers when it panics is of no consequence. *)
Definition on_client {A} (m : M digitalOcean W (A + error)) h : (A + error) * PoolHost W V :=
  match m (ph_client h) (ph_cloud h) with
  | Ret (r, c, w) => (r, PoolHost_ w c (ph_rest h) (ph_trace h) (ph_crashed h))
  | _ => (inr ErrNotFound, PoolHost_ (ph_cloud h) (ph_client h) (ph_rest h) (ph_trace h) true)
  end.
Definition traced (x : string * string) h : PoolHost W V :=
  PoolHost_ (ph_cloud h) (ph_client h) (ph_rest h) (ph_trace h ++ [x]) (ph_crashed h).

Context `{!Godo W, !Prometheus W, !Clock W, !MapRange W, !GoFmt, !DOIPGhost W}.
Context `{!PoolEnv V, !ClusterAPI V, !IPGhost V}.

#[global] Instance host_range : MapRange (PoolHost W V) := {| range_order ks := aside (range_order ks) |}.
#[global] Instance host_clock : Clock (PoolHost W V) := {| time_Now := aside time_Now |}.
#[global] Instance host_ipprovider : IPProvider (PoolHost W V) := {|
  Provider.IPToProviderID _ ip := on_client (DigitalOcean.IPToProviderID Background ip);
  Provider.AssignIP _ ip n h :=
    let '(r, h') := on_client (DigitalOcean.AssignIP Background ip n) h in
    (match r with inl _ => None | inr err => Some err end, traced (ip, n) h');
  Provider.NodeToIP _ n := on_client (DigitalOcean.NodeToIP Background n);
  Provider.CreateIP _ region := on_client (DigitalOcean.CreateIP Background region);
|}.
#[global] Instance host_dnsprovider : DNSProvider (PoolHost W V) := {|
  Provider.EnsureDNSARecordSet p z r ips t := aside (Provider.EnsureDNSARecordSet p z r ips t);
  Provider.RecordNameAndZoneToFQDN := Provider.RecordNameAndZoneToFQDN (W := V);
|}.
#[global] Instance host_env : PoolEnv (PoolHost W V) := {|
  poolenv_base := {| Provider.GetProviderName _ := DigitalOceanName |};
  poolenv_lister := {| lister_Get l name := aside (lister_Get l name) |};
  pool_now := aside pool_now;
  pool_ctx_Err := aside pool_ctx_Err;
  pools_Get ns name := aside (pools_Get ns name);
  pools_Update ns k8s := aside (pools_Update ns k8s);
  pools_UpdateStatus ns k8s := aside (pools_UpdateStatus ns k8s);
  nodes_Patch name data := aside (nodes_Patch name data);
  IsNotFound := IsNotFound (W := V);
  json_Marshal := json_Marshal (W := V);
  pool_kind_of := pool_kind_of (W := V);
  float_to_int64_undefined := float_to_int64_undefined (W := V);
|}.
#[global] Instance host_cluster : ClusterAPI (PoolHost W V) := {|
  cl_ByIndex i n := aside (cl_ByIndex i n);
  cl_Sync := aside cl_Sync;
  cl_List := aside cl_List;
|}.
(** Somebody else may use the account. *)
#[global] Instance host_ghost : IPGhost (PoolHost W V) := {|
  allocated h := do_allocated (ph_cloud h);
  assign_trace h := ph_trace h;
  alive h := alive (ph_rest h);
  holder _ := ∅;
  cooperative _ := False;
|}.

Lemma aside_answer {A} (f : V → A * V) h : (aside f h).1 = (f (ph_rest h)).1.
Proof. unfold aside. by destruct (f (ph_rest h)). Qed.
Lemma aside_quiet {A} (f : V → A * V) h : (∀ v, quiet v (f v).2) → quiet h (aside f h).2.
Proof.
  intros Hf. unfold aside. specialize (Hf (ph_rest h)). destruct (f (ph_rest h)) as [a v].
  destruct Hf as [_ _ Ha _]. by split.
Qed.

Context `{!DOIPLaws W, !PoolLaws V}.
Lemma on_client_alloc {A} (m : M digitalOcean W (A + error)) h : (∀ X, preserves (still X) m) →
  do_allocated (ph_cloud h) ⊆ do_allocated (ph_cloud (on_client m h).2).
Proof.
  intros Hm. unfold on_client. specialize (Hm (do_allocated (ph_cloud h)) (ph_client h) (ph_cloud h)).
  destruct (m (ph_client h) (ph_cloud h)) as [[[r c] w]| |]; [|reflexivity..]. apply Hm. unfold still. reflexivity.
Qed.
Lemma on_client_rest {A} (m : M digitalOcean W (A + error)) h :
  ph_rest (on_client m h).2 = ph_rest h ∧ ph_trace (on_client m h).2 = ph_trace h.
Proof. unfold on_client. by destruct (m (ph_client h) (ph_cloud h)) as [[[r c] w]| |]. Qed.
Lemma on_client_quiet {A} (m : M digitalOcean W (A + error)) h : (∀ X, preserves (still X) m) →
  quiet h (on_client m h).2.
Proof.
  intros Hm. pose proof (on_client_alloc m h Hm) as Ha. destruct (on_client_rest m h) as [Hr Ht].
  split; cbn; [done|done|by rewrite Hr|done].
Qed.
Lemma on_client_err {A} (m : M digitalOcean W (A + error)) h e h' : usable_errors m →
  on_client m h = (inr e, h') → usable_error e.
Proof.
  intros Hm. unfold on_client. specialize (Hm (ph_client h) (ph_cloud h)).
  destruct (m (ph_client h) (ph_cloud h)) as [[[r c] w]| |];
    [intros [= -> _]; exact Hm|intros [= <- _]; apply usable_ErrNotFound..].
Qed.

Lemma on_client_returns {A} (m : M digitalOcean W (A + error)) h : returns m →
  ph_crashed (on_client m h).2 = ph_crashed h.
Proof.
  intros Hm. unfold on_client. specialize (Hm (ph_client h) (ph_cloud h)). unfold wp in Hm.
  by destruct (m (ph_client h) (ph_cloud h)) as [[[r c] w]| |].
Qed.
(** Then the process does not die in a call of the client. *)
Lemma client_survives p ip n region h : well_answered (W := W) →
  ph_crashed (Provider.IPToProviderID p ip h).2 = ph_crashed h ∧
  ph_crashed (Provider.AssignIP p ip n h).2 = ph_crashed h ∧
  ph_crashed (Provider.CreateIP p region h).2 = ph_crashed h.
Proof.
  intros Hw. cbn. split_and!.
  - by apply on_client_returns, returns_IPToProviderID.
  - pose proof (on_client_returns _ h (returns_AssignIP Hw Background ip n)) as Hc.
    by destruct (on_client _ h).
  - by apply on_client_returns, returns_CreateIP.
Qed.

#[global] Instance host_laws : PoolLaws (PoolHost W V).
Proof.
  split; intros; cbn in *.
  all: try (apply aside_quiet; intros; solve [eauto using pl_range, pl_time, pl_now, pl_ctx, pl_dns, pl_get,
    pl_update, pl_status, pl_patch, pl_lister, pl_index]).
  all: rewrite ?aside_answer.
  - split. intros ks h. cbn. rewrite aside_answer. apply range_order_perm.
  - apply on_client_quiet. intros X. apply still_CreateIP.
  - apply on_client_quiet. intros X. apply still_IPToProviderID.
  - pose proof (on_client_alloc (DigitalOcean.AssignIP Background ip n) v (λ X, still_AssignIP X _ _ _)).
    by destruct (on_client _ v).
  - pose proof (on_client_rest (DigitalOcean.AssignIP Background ip n) v) as [Hr _].
    destruct (on_client _ v) as [r h']. cbn in *. by rewrite Hr.
  - pose proof (on_client_rest (DigitalOcean.AssignIP Background ip n) v) as [_ Ht].
    destruct (on_client _ v) as [r h']. cbn in *. by rewrite Ht.
  - by apply pl_alive.
  - pose proof (CreateIP_new Background r (ph_client v) (ph_cloud v)) as Hn. unfold wp in Hn.
    match goal with He : _ = (inl ip, _) |- _ => revert He end. unfold on_client. destruct (DigitalOcean.CreateIP _ _ _ _) as [[[r' c] w]| |]; intros [= Hr <-];
      [by apply Hn|done..].
  - eapply on_client_err; [apply usable_CreateIP|done].
  - eapply on_client_err; [apply usable_IPToProviderID|done].
  - destruct (on_client _ v) as [[?|e'] h'] eqn:Hc; [done|].
    match goal with He : (Some _, _) = _ |- _ => injection He as <- _ end.
    eapply on_client_err; [apply usable_AssignIP|exact Hc].
  - apply pl_now_pos.
  - apply pl_time_pos.
Qed.
End host.


(** ** A run

    DigitalOcean with a floating IP that is free and one that a droplet holds; the
    node of another droplet appears, and a pass asks for the assignment. *)
#[export] Instance dosim_ips : DOIPGhost DOSim := {| do_allocated w := dom (ds_holder w) |}.
#[export] Instance dosim_ip_laws : DOIPLaws DOSim.
Proof.
  split; cbn; unfold foreign; intros; try done; try reflexivity.
  all: try (match goal with |- context [ds_held ?x ?y] => destruct (ds_held x y) as [[d'|]|] end;
    cbn; try done; try reflexivity).
  all: try (destruct (ds_droplets w !! d); reflexivity).
  all: case_decide; cbn; [|done || reflexivity].
  - rewrite dom_insert. set_solver.
  - done.
Qed.

Module Hosted.
Definition pid (name : string) : string := providerIDPrefix +:+ name.
Lemma droplet_pid_inj a b : pid a = pid b → a = b.
Proof. unfold pid. intros Heq. by simplify_eq. Qed.
Lemma droplet_pid_nonempty a : pid a ≠ "".
Proof. discriminate. Qed.
Definition World : Type := PoolHost DOSim PoolSim.
Definition h0 : World := PoolHost_ dosim0 do0 PoolExample.w0 [] false.
Definition node_ : Node := {|
  node_Name := "2"; node_ProviderID := "digitalocean://2"; node_Labels := ∅; node_Annotations := ∅;
  node_Deleting := false; node_Taints := []; node_Conditions := [Cluster.ready_cond];
  node_Addresses := [] |}.
Definition appear : event := Upsert (ObjNode node_).
Definition addresses : slice string := Some ["10.0.0.2"].
Definition m0 := PoolFollowing.m0.
Definition i0 := PoolFollowing.i0.
Definition no_pools := PoolFollowing.no_pools.
Definition s1 : ipController * World :=
  ran (ipController.updateIPs (IPEnv0 := pool_ipenv no_pools) addresses 1 i0 h0) (i0, h0).
Definition s2 : NodeMatch.Controller * (gset string * ipController * World) :=
  ran (handle (MatchEnv0 := pool_matchenv no_pools) appear m0 (∅, s1.1, s1.2)) (m0, (∅, s1.1, s1.2)).
Definition s3 : ipController * World :=
  ran (iterate (IPEnv0 := pool_ipenv no_pools) s2.2.1.2 s2.2.2) (i0, h0).

Lemma sync_h0 : Sync m0 (∅, i0, h0).
Proof.
  split.
  - split; [done|by eexists|by intros ?|]. intros name n Hn. by rewrite PoolFollowing.m0_none in Hn.
  - intros name. split; [by intros ?%elem_of_empty|]. intros (n & Hn & _).
    by rewrite PoolFollowing.m0_none in Hn.
Qed.
Lemma inv_i0 (h : World) : Inv i0 h.
Proof. unfold i0, PoolFollowing.i0. apply updateProviders_inv, new_inv. Qed.
Lemma i0_provided : is_Some (i_provider i0).
Proof. by eexists. Qed.
Lemma i0_no_nodes : i_providerIDToNodeName i0 = ∅.
Proof. reflexivity. Qed.
Lemma tidy_h0 : tidy (own pid) (Agree pid) m0 (∅, i0, h0).
Proof.
  split; [intros name n Hn; by rewrite PoolFollowing.m0_none in Hn|].
  constructor; unfold ip_of, enabled_names, fst, snd.
  - apply inv_i0.
  - apply i0_provided.
  - intros x. rewrite i0_no_nodes, lookup_empty.
    split; [by intros []|intros (name & Hin & _); by apply elem_of_empty in Hin].
Qed.
Lemma update_h0 : exec (IPEnv0 := pool_ipenv no_pools) (OpUpdateIPs addresses 1) i0 h0 = Ret (tt, s1.1, s1.2).
Proof. vm_compute. reflexivity. Qed.
Lemma allowed_h0 : allowed (OpUpdateIPs addresses 1) i0 h0.
Proof.
  split; [lia|]. intros ip Hip%list_elem_of_singleton. subst ip.
  split; apply (bool_decide_unpack _); vm_compute; exact I.
Qed.
Lemma handle_h1 : handle (MatchEnv0 := pool_matchenv no_pools) appear m0 (∅, s1.1, s1.2) = Ret (tt, s2.1, s2.2).
Proof. vm_compute. reflexivity. Qed.
Lemma deliver_h1 : deliverable (MatchEnv0 := pool_matchenv no_pools) appear m0 (∅, s1.1, s1.2).
Proof. intros idx Hidx. discriminate Hidx. Qed.
Lemma iterate_h2 : ∃ t, iterate (IPEnv0 := pool_ipenv no_pools) s2.2.1.2 s2.2.2 = Ret (t, s3.1, s3.2).
Proof. eexists. vm_compute. reflexivity. Qed.

(** The steps, for any states. *)
Lemma three_steps o e m (g : gset string) i h (q1 : ipController * World)
    (q2 : NodeMatch.Controller * (gset string * ipController * World)) (q3 : ipController * World) t :
  match o with OpUpdateIPs _ _ | OpUpdateDNSSpec _ => True | _ => False end → allowed o i h →
  exec (IPEnv0 := pool_ipenv no_pools) o i h = Ret (tt, q1.1, q1.2) →
  own_event (own pid) e → deliverable (MatchEnv0 := pool_matchenv no_pools) e m (g, q1.1, q1.2) →
  handle (MatchEnv0 := pool_matchenv no_pools) e m (g, q1.1, q1.2) = Ret (tt, q2.1, q2.2) →
  iterate (IPEnv0 := pool_ipenv no_pools) q2.2.1.2 q2.2.2 = Ret (t, q3.1, q3.2) →
  rtc (follow_step pid) (m, (g, i, h)) (q2.1, (q2.2.1.1, q3.1, q3.2)).
Proof.
  destruct q1 as [i1 h1], q2 as [m2 [[g2 i2] h2]], q3 as [i3 h3]. intros Ho Hal H1 He Hd H2 H3.
  eapply rtc_l; [exact (fs_update pid no_pools o _ _ _ _ _ _ Ho Hal H1)|].
  eapply rtc_l; [exact (fs_event pid no_pools e _ _ _ _ He Hd H2)|].
  eapply rtc_l; [exact (fs_iterate pid no_pools _ _ _ _ _ _ _ H3)|]. apply rtc_refl.
Qed.
Lemma steps_h : rtc (follow_step pid) (m0, (∅, i0, h0)) (s2.1, (s2.2.1.1, s3.1, s3.2)).
Proof.
  destruct iterate_h2 as [t H3].
  exact (three_steps (OpUpdateIPs addresses 1) appear m0 ∅ i0 h0 s1 s2 s3 t I allowed_h0 update_h0 eq_refl
    deliver_h1 handle_h1 H3).
Qed.
End Hosted.

