(* ===== verification/PoolMetrics.v ===== *)
(** * pkg/floatingip/metrics.go

    What the pool controller reports to prometheus: a sample is a descriptor with
    a value and the values of its labels. *)
From S2P Require Import Prelude Go Retry GoText OrderedSet K8s Types Provider.
From S2P Require Import ProviderMetrics.
From S2P Require Import Registry IPController NodeMatch Pool.

(** A descriptor: its name, and the names of its labels. *)
Definition metricNamespace : string := "flipop".
Definition metricSubsystem : string := "floatingippoolcontroller".
Record Desc : Type := NewDesc {
  desc_namespace : string;
  desc_subsystem : string;
  desc_name : string;
  desc_labels : list string;
}.
Definition newDesc (name : string) (labels : list string) : Desc :=
  NewDesc metricNamespace metricSubsystem name labels.

Definition nodeStatusDesc : Desc := newDesc "node_status" ["namespace"; "name"; "provider"; "dns"; "status"].
Definition ipAssignmentErrorsDesc : Desc :=
  newDesc "ip_assignment_errors" ["namespace"; "name"; "ip"; "provider"; "dns"].
Definition ipAssignmentsDesc : Desc :=
  newDesc "ip_assignments" ["namespace"; "name"; "ip"; "provider"; "dns"].
Definition ipNodeDesc : Desc :=
  newDesc "ip_node" ["namespace"; "name"; "ip"; "provider"; "dns"; "provider_id"; "node"].
Definition ipStateDesc : Desc :=
  newDesc "ip_state" ["namespace"; "name"; "ip"; "provider"; "dns"; "state"].
Definition unfulfilledIPsDesc : Desc := newDesc "unfulfilled_ips" ["namespace"; "name"; "provider"; "dns"].

Inductive ValueType : Type := CounterValue | GaugeValue.
Record sample : Type := Sample {
  sa_desc : Desc;
  sa_type : ValueType;
  sa_value : Z;
  sa_labels : list string;
}.

(** [prometheus.MustNewConstMetric], which panics where this is [None]. *)
Class ConstMetrics : Type := {
  Metric : Type;
  NewConstMetric : Desc → ValueType → Z → list string → option Metric;
}.

Section collect.
Context `{!KubeAPI} {W : Type} `{!PoolEnv W, !ConstMetrics}.

(** [ch <- prometheus.MustNewConstMetric(...)]: [out] is what was sent so far. *)
Definition send {C} (s : sample) (out : list sample) : M C W (list sample) :=
  _ ← deref (NewConstMetric (sa_desc s) (sa_type s) (sa_value s) (sa_labels s));
  mret (out ++ [s]).

(** The name of the DNS record, if the pool publishes one. *)
Definition dnsName (i : ipController) : string :=
  match i_dns i, i_dnsProvider i with
  | Some dns, Some prov => RecordNameAndZoneToFQDN prov (dns_Zone dns) (dns_RecordName dns)
  | _, _ => ""
  end.

(** The body of the loop over the statuses. *)
Definition collectIP {C} (p : floatingIPPool) (acc : Z * list sample) (ip : string)
    : M C W (Z * list sample) :=
  let '(assignedNodes, out) := acc in
  let i := p_ipController p in
  s ← deref (i_ipToStatus i !! ip);
  prov ← deref (i_provider i);
  let labels := [p_namespace p; p_name p; ip; GetProviderName prov; dnsName i] in
  out ← send (Sample ipAssignmentErrorsDesc CounterValue (s_assignmentErrors s) labels) out;
  out ← send (Sample ipAssignmentsDesc CounterValue (s_assignments s) labels) out;
  acc ← (if bool_decide (s_nodeProviderID s = "") then mret (assignedNodes, out)
         else
           let nodeLabels := labels ++ [s_nodeProviderID s;
                               map_get (i_providerIDToNodeName i) (s_nodeProviderID s)] in
           out ← send (Sample ipNodeDesc GaugeValue 1 nodeLabels) out;
           mret ((assignedNodes + 1)%Z, out));
  out ← send (Sample ipStateDesc GaugeValue 1 (labels ++ [s_state s])) acc.2;
  mret (acc.1, out).

Definition collect {C} (p : floatingIPPool) (out : list sample) : M C W (list sample) :=
  let i := p_ipController p in
  ips ← range_keys (i_ipToStatus i);
  acc ← for_fold ips (0%Z, out) (collectIP p);
  let '(assignedNodes, out) := (acc : Z * list sample) in
  prov ← deref (i_provider i);
  let labels := [p_namespace p; p_name p; GetProviderName prov; dnsName i] in
  let unfulfilledIPs := Z.max 0 (i_desiredIPs i - slen (i_ips i)) in
  out ← send (Sample unfulfilledIPsDesc GaugeValue unfulfilledIPs labels) out;
  out ← send (Sample nodeStatusDesc GaugeValue (Z.of_nat (orderedSet.Len (i_assignableNodes i)))
                (labels ++ ["available"])) out;
  send (Sample nodeStatusDesc GaugeValue assignedNodes (labels ++ ["assigned"])) out.

Definition Describe : list Desc :=
  [nodeStatusDesc; ipAssignmentErrorsDesc; ipAssignmentsDesc; ipNodeDesc; ipStateDesc; unfulfilledIPsDesc].

Definition Collect : M Pool.Controller W (list sample) :=
  pools ← gets Pool.c_pools;
  uids ← range_keys pools;
  for_fold uids [] (λ out uid, p ← deref (pools !! uid); collect p out).
End collect.
