(* ===== verification/PoolMetricsProps.v ===== *)
(** * What the pool controller reports *)
From S2P Require Import Prelude Go Retry GoText OrderedSet K8s Types Provider.
From S2P Require Import ProviderMetrics.
From S2P Require Import Registry IPController NodeMatch NodeMatchProps NodeMatchSystem.
From S2P Require Import Pool PoolProps PoolSystem.
From S2P Require Import PoolSim PoolMetrics.

(** A metric can be made of a descriptor and as many label values as it has
    labels. *)
Class ConstMetricsLaws `{!ConstMetrics} : Prop := {
  new_const_metric d ty v labels :
    length labels = length (desc_labels d) → is_Some (NewConstMetric d ty v labels);
}.
Definition well_typed (s : sample) : Prop :=
  length (sa_labels s) = length (desc_labels (sa_desc s)) ∧ sa_desc s ∈ Describe.

Section report.
Context `{!KubeAPI} {W} `{!PoolEnv W, !MapRangeLaws W} `{ConstMetricsLaws}.
Implicit Types (p : floatingIPPool) (prov : Ref) (s : ipStatus).

(** Going through the keys of a map. *)
Lemma keys_bind {T A} (m : gmap string T) (f : string → T → list A) :
  (map_to_list m).*1 ≫= (λ k, match m !! k with Some x => f k x | None => [] end) =
  map_to_list m ≫= λ x, f x.1 x.2.
Proof.
  assert (∀ l, (∀ x, x ∈ l → m !! x.1 = Some x.2) →
    l.*1 ≫= (λ k, match m !! k with Some x => f k x | None => [] end) = l ≫= λ x, f x.1 x.2) as Hl.
  { induction l as [|x l IH]; intros Hx; [done|]. cbn. rewrite IH by (intros y Hy; apply Hx; by right).
    by rewrite (Hx x) by left. }
  apply Hl. intros [k x] Hin. by apply elem_of_map_to_list in Hin.
Qed.

(** The samples of one address, and of a pool as a whole. *)
Definition ip_labels p prov (ip : string) : list string :=
  [p_namespace p; p_name p; ip; GetProviderName prov; dnsName (p_ipController p)].
Definition ip_samples p prov (ip : string) s : list sample :=
  let labels := ip_labels p prov ip in
  [Sample ipAssignmentErrorsDesc CounterValue (s_assignmentErrors s) labels;
   Sample ipAssignmentsDesc CounterValue (s_assignments s) labels] ++
  (if decide (s_nodeProviderID s = "") then []
   else [Sample ipNodeDesc GaugeValue 1 (labels ++ [s_nodeProviderID s;
           map_get (i_providerIDToNodeName (p_ipController p)) (s_nodeProviderID s)])]) ++
  [Sample ipStateDesc GaugeValue 1 (labels ++ [s_state s])].
Definition holders (st : gmap string ipStatus) : Z :=
  Z.of_nat (length (filter (λ x, s_nodeProviderID x.2 ≠ "") (map_to_list st))).
Definition totals p prov (held : Z) : list sample :=
  let i := p_ipController p in
  let labels := [p_namespace p; p_name p; GetProviderName prov; dnsName i] in
  [Sample unfulfilledIPsDesc GaugeValue (Z.max 0 (i_desiredIPs i - slen (i_ips i))) labels;
   Sample nodeStatusDesc GaugeValue (Z.of_nat (orderedSet.Len (i_assignableNodes i)))
     (labels ++ ["available"]);
   Sample nodeStatusDesc GaugeValue held (labels ++ ["assigned"])].
Definition pool_samples p : list sample :=
  match i_provider (p_ipController p) with
  | Some prov =>
      let st := i_ipToStatus (p_ipController p) in
      (map_to_list st ≫= λ x, ip_samples p prov x.1 x.2) ++ totals p prov (holders st)
  | None => []
  end.

Lemma pool_samples_typed p : Forall well_typed (pool_samples p).
Proof.
  unfold pool_samples. destruct (i_provider _) as [prov|]; [|constructor].
  apply Forall_app. split.
  - apply Forall_bind, Forall_forall. intros [ip s] _. unfold ip_samples. cbn.
    repeat constructor; cbn; [set_solver..|]. case_decide; repeat constructor; cbn; set_solver.
  - repeat constructor; cbn; set_solver.
Qed.

Lemma wp_send {C} E (s : sample) out (Q : list sample → C → W → Prop) c w :
  length (sa_labels s) = length (desc_labels (sa_desc s)) →
  Q (out ++ [s]) c w → wp E (send s out) Q c w.
Proof.
  intros Hlen HQ. unfold send. wp_steps.
  destruct (new_const_metric (sa_desc s) (sa_type s) (sa_value s) (sa_labels s) Hlen) as [m Hm].
  rewrite Hm. by wp_steps.
Qed.

(** One iteration of the loop, then the loop, then the pool. *)
Lemma wp_collectIP {C} p prov ip s held out (c : C) (w : W) :
  i_ipToStatus (p_ipController p) !! ip = Some s → i_provider (p_ipController p) = Some prov →
  wp False (collectIP p (held, out) ip) (λ r c' w', c' = c ∧ w' = w ∧
    r = ((held + if decide (s_nodeProviderID s = "") then 0 else 1)%Z, out ++ ip_samples p prov ip s)) c w.
Proof.
  intros Hs Hp. unfold collectIP, ip_samples. rewrite Hs, Hp. wp_steps. apply wp_send; [done|]. wp_steps.
  apply wp_send; [done|]. wp_steps. case_decide as Hn.
  - rewrite bool_decide_true by done. wp_steps. apply wp_send; [done|]. wp_steps. split_and!; [done..|].
    cbn. by rewrite <- !app_assoc, Z.add_0_r.
  - rewrite bool_decide_false by done. wp_steps. apply wp_send; [done|]. wp_steps. apply wp_send; [done|].
    wp_steps. split_and!; [done..|]. cbn. by rewrite <- !app_assoc.
Qed.

Definition samples_at p prov (ip : string) : list sample :=
  match i_ipToStatus (p_ipController p) !! ip with Some s => ip_samples p prov ip s | None => [] end.
Definition held_at p (ip : string) : bool :=
  match i_ipToStatus (p_ipController p) !! ip with
  | Some s => negb (bool_decide (s_nodeProviderID s = "")) | None => false end.
Lemma held_at_iff p ip s : i_ipToStatus (p_ipController p) !! ip = Some s →
  held_at p ip ↔ s_nodeProviderID s ≠ "".
Proof. unfold held_at. intros ->. by case_bool_decide. Qed.

Lemma held_at_all p :
  Z.of_nat (length (filter (held_at p) (map_to_list (i_ipToStatus (p_ipController p))).*1)) =
  holders (i_ipToStatus (p_ipController p)).
Proof.
  unfold holders. f_equal.
  assert (∀ l, (∀ x, x ∈ l → i_ipToStatus (p_ipController p) !! x.1 = Some x.2) →
    length (filter (held_at p) l.*1) = length (filter (λ x, s_nodeProviderID x.2 ≠ "") l)) as Hl.
  { induction l as [|x l IH]; intros Hx; [done|]. specialize (IH (λ y Hy, Hx y (list_elem_of_further _ _ _ Hy))).
    cbn [fmap list_fmap]. rewrite !filter_cons. pose proof (held_at_iff p x.1 x.2 (Hx x ltac:(by left))) as Hiff.
    destruct (decide (held_at p x.1)), (decide (s_nodeProviderID x.2 ≠ "")); cbn; tauto || congruence. }
  apply Hl. intros [ip s] Hin. by apply elem_of_map_to_list in Hin.
Qed.

Lemma wp_collect {C} p prov out (c : C) (w : W) :
  i_provider (p_ipController p) = Some prov →
  wp False (collect p out) (λ r c' _, c' = c ∧ r ≡ₚ out ++ pool_samples p) c w.
Proof.
  intros Hp. unfold collect, range_keys. wp_steps. apply wp_call. intros ips w1 Hips. wp_steps.
  pose proof (range_order_perm ((map_to_list (i_ipToStatus (p_ipController p))).*1) w) as Hperm.
  rewrite Hips in Hperm. cbn in Hperm.
  eapply wp_mono; [|apply (wp_for_fold_prefix _ (λ visited r c' _, c' = c ∧
    r = (Z.of_nat (length (filter (held_at p) visited)), out ++ (visited ≫= samples_at p prov))))].
  - intros r c' w' [-> ->]. cbn. rewrite Hp. wp_steps. do 2 (apply wp_send; [done|]; wp_steps).
    apply wp_send; [done|]. split; [done|]. unfold pool_samples. rewrite Hp.
    assert (Z.of_nat (length (filter (held_at p) ips)) = holders (i_ipToStatus (p_ipController p))) as Hheld.
    { rewrite <- held_at_all. f_equal. apply Permutation_length. by rewrite Hperm. }
    assert (ips ≫= samples_at p prov ≡ₚ
      map_to_list (i_ipToStatus (p_ipController p)) ≫= λ x, ip_samples p prov x.1 x.2) as Hall.
    { rewrite <- (keys_bind (i_ipToStatus (p_ipController p)) (ip_samples p prov)). by rewrite Hperm. }
    rewrite Hheld, <- Hall. by rewrite <- !app_assoc.
  - split; [done|]. cbn. by rewrite app_nil_r.
  - intros visited ip todo r c' w' Hsplit [-> ->].
    assert (is_Some (i_ipToStatus (p_ipController p) !! ip)) as [s Hs].
    { eapply range_order_elem; [exact Hips|]. rewrite Hsplit. set_solver. }
    eapply wp_mono; [|by apply (wp_collectIP p prov ip s)]. intros r' c2 w2 (-> & _ & ->). split; [done|].
    rewrite filter_app, length_app, bind_app, <- app_assoc. cbn. unfold samples_at at 3. rewrite Hs, app_nil_r.
    f_equal. rewrite Nat2Z.inj_add. f_equal. pose proof (held_at_iff p ip s Hs) as Hiff.
    destruct (decide (held_at p ip)), (decide (s_nodeProviderID s = "")); cbn; tauto || done.
Qed.
End report.

(** C35: in every reachable state of the system a collection succeeds: it reports,
    once for each pool, the state of each address with its counters and the node
    that holds it, how many addresses are missing, and how many nodes wait for one
    or hold one - and nothing else.  Every sample belongs to a descriptor that is
    announced, and has a value for each of its labels. *)
Theorem collection_complete `{!KubeAPI} {V} `{!PoolEnv V, !MapRangeLaws V, !ClusterAPI V} `{!ProviderKinds, !GoFmt}
    `{ConstMetricsLaws} (provs : Registry) (c : Pool.Controller) (v v0 : V) :
  rtc pool_step (Pool.NewController provs, v0) (c, v) →
  wp False Collect (λ out c' _, c' = c ∧ Forall well_typed out ∧
    out ≡ₚ map_to_list (Pool.c_pools c) ≫= λ x, pool_samples x.2) c v.
Proof.
  intros Hr. destruct (steps_Served _ _ _ _ Hr) as [HS _]; [by intros uid p|].
  unfold Collect, range_keys. wp_steps. apply wp_call. intros uids w1 Huids. wp_steps.
  pose proof (range_order_perm ((map_to_list (Pool.c_pools c)).*1) v) as Hperm.
  rewrite Huids in Hperm. cbn in Hperm.
  eapply wp_mono; [|apply (wp_for_fold_prefix _ (λ visited out c' _, c' = c ∧
    out ≡ₚ visited ≫= λ uid, match Pool.c_pools c !! uid with Some p => pool_samples p | None => [] end))].
  - intros out c' w' [-> Hout]. split; [done|].
    assert (out ≡ₚ map_to_list (Pool.c_pools c) ≫= λ x, pool_samples x.2) as Hall.
    { rewrite Hout, Hperm. by rewrite (keys_bind (Pool.c_pools c) (λ _, pool_samples)). }
    split; [|done]. rewrite Hall. apply Forall_bind, Forall_forall. intros x _. apply pool_samples_typed.
  - by split.
  - intros visited uid todo out c' w' Hsplit [-> Hout].
    assert (is_Some (Pool.c_pools c !! uid)) as [p Hp].
    { eapply range_order_elem; [exact Huids|]. rewrite Hsplit. set_solver. }
    rewrite Hp. wp_steps. destruct (HS _ _ Hp) as (k8s & [(prov & _ & Hprov) _ _ _ _ _]).
    eapply wp_mono; [|by apply (wp_collect p prov)]. intros out' c2 w2 [-> Hout']. split; [done|].
    rewrite Hout', Hout, bind_app. f_equiv. cbn. by rewrite Hp, app_nil_r.
Qed.

(** A library that makes a metric of any sample with as many values as labels. *)
#[export] Instance sim_metrics : ConstMetrics := {|
  Metric := unit;
  NewConstMetric d _ _ labels := if (length labels =? length (desc_labels d))%nat then Some tt else None;
|}.
#[export] Instance sim_metrics_laws : ConstMetricsLaws.
Proof. split. intros d ty v labels Hl. cbn. rewrite Hl, Nat.eqb_refl. by eexists. Qed.

Lemma collection_complete_witness :
  ∃ out c v, Collect PoolExample.served.1 PoolExample.served.2 = Ret (out, c, v) ∧
    length out = 10 ∧ Forall well_typed out.
Proof.
  pose proof (PoolExample.run_steps _ _ _ PoolExample.run_served) as Hr.
  rewrite (surjective_pairing PoolExample.served) in Hr.
  pose proof (collection_complete PoolExample.registry PoolExample.served.1 PoolExample.served.2
    PoolExample.w0 Hr) as Hwp.
  assert (∃ out c v, Collect PoolExample.served.1 PoolExample.served.2 = Ret (out, c, v) ∧ length out = 10)
    as (out & c & v & Hc & Hn).
  { do 3 eexists. split; vm_compute; reflexivity. }
  exists out, c, v. split; [exact Hc|]. split; [exact Hn|].
  unfold wp in Hwp. rewrite Hc in Hwp. by destruct Hwp as (_ & ? & _).
Defined.
