(* ===== verification/Locking.v ===== *)
(** * Locks and goroutines

    How the removal of a resource waits for the goroutines of its controllers: the
    mutexes each goroutine takes, in the order in which it takes them.  Removing a
    FloatingIPPool always comes to an end; removing a NodeDNSRecordSet can hang. *)
From S2P Require Import Prelude.

(** The goroutine that handles the removal; [run] of the match controller, the
    goroutine of its informers; [run] of the IP controller; the goroutine of the
    metrics server; that of the retry timers of a record set. *)
Inductive thread : Type := Remover | Runner | Informer | Reconciler | Collector | Timer.
#[export] Instance thread_eq_dec : EqDecision thread.
Proof. solve_decision. Defined.

(** The lock of the controller of the resources, of a match controller, and of its
    action: [dnsEnablerDisabler.lock] or [ipController.lock]. *)
Inductive mutex : Type := ControllerLock | MatchLock | ActionLock.
#[export] Instance mutex_eq_dec : EqDecision mutex.
Proof. solve_decision. Defined.

(** The contexts that are canceled: that of the match controller, and that of the
    IP controller. *)
Inductive context : Type := MatchCtx | IPCtx.
#[export] Instance context_eq_dec : EqDecision context.
Proof. solve_decision. Defined.

(** What a goroutine does, as far as it can block.  [Poll c] goes on, or returns
    from the goroutine if the context is canceled; [Listen c] waits for the
    cancellation; [WaitFor ts] is [wg.Wait()], for the goroutines [ts]. *)
Inductive instr : Type :=
  | Lock (l : mutex)
  | Unlock (l : mutex)
  | Cancel (c : context)
  | WaitFor (ts : list thread)
  | Poll (c : context)
  | Listen (c : context).
Definition prog : Type := list instr.

(** ** The goroutines *)

(** A call of the action: [EnableNodes] or [DisableNodes]. *)
Definition call_action : prog := [Lock ActionLock; Unlock ActionLock].
(** [updateNode], [updatePod], [deleteNode], [deletePod]: the action is called a
    number of times, once for a node and for each pod that changes it. *)
Definition update_node (calls : nat) : prog := mjoin (replicate calls call_action).

(** [Controller.run]: wait for the caches, look at every node without the lock,
    then prime under the lock.  [scan] says how often the action is called for each. *)
Definition run_prog (scan : list nat) : prog :=
  [Poll MatchCtx] ++ (scan ≫= update_node) ++ [Lock MatchLock] ++ call_action ++ [Unlock MatchLock].
(** The informers deliver events until the context is canceled. *)
Definition handler (calls : nat) : prog :=
  [Poll MatchCtx; Lock MatchLock] ++ update_node calls ++ [Unlock MatchLock].
Definition informer_prog (events : list nat) : prog := (events ≫= handler) ++ [Listen MatchCtx].
(** [ipController.run]: [n] passes, then the cancellation. *)
Definition reconcile_prog (n : nat) : prog := update_node n ++ [Listen IPCtx].

(** [Controller.Collect] of the pools, [n] times: under [poolLock] the locks of the
    IP controllers are taken, one after the other; one of them is the pool's.
    Collections at the same time exclude each other by the first lock. *)
Definition collect_prog (n : nat) : prog :=
  mjoin (replicate n ([Lock ControllerLock] ++ call_action ++ [Unlock ControllerLock])).
(** The functions of [n] retry timers: [applyDNS] under [d.lock].  Nothing waits for
    them, and each is one critical section. *)
Definition timer_prog (n : nat) : prog := update_node n.

(** The removal of a pool: [poolLock], [matchController.Stop()], [ipController.stop()]. *)
Definition remove_pool : prog :=
  [Lock ControllerLock; Cancel MatchCtx; WaitFor [Runner; Informer]; Cancel IPCtx;
   WaitFor [Reconciler]; Unlock ControllerLock].
(** [dnsEnablerDisabler.stop()] holds [d.lock] all along. *)
Definition remove_dns : prog :=
  [Lock ControllerLock; Lock ActionLock; Cancel MatchCtx; WaitFor [Runner; Informer];
   Unlock ActionLock; Unlock ControllerLock].

(** ** The system *)
Record system : Type := System {
  sy_prog : thread → prog;
  sy_owner : mutex → option thread;
  sy_canceled : context → bool;
}.
Definition set {K V} `{EqDecision K} (k : K) (v : V) (f : K → V) : K → V :=
  λ k', if decide (k' = k) then v else f k'.
Definition goto (t : thread) (r : prog) (s : system) : system :=
  System (set t r (sy_prog s)) (sy_owner s) (sy_canceled s).

Inductive lock_step (s : system) : system → Prop :=
  | ls_lock t l r : sy_prog s t = Lock l :: r → sy_owner s l = None →
      lock_step s (System (set t r (sy_prog s)) (set l (Some t) (sy_owner s)) (sy_canceled s))
  | ls_unlock t l r : sy_prog s t = Unlock l :: r → sy_owner s l = Some t →
      lock_step s (System (set t r (sy_prog s)) (set l None (sy_owner s)) (sy_canceled s))
  | ls_cancel t c r : sy_prog s t = Cancel c :: r →
      lock_step s (System (set t r (sy_prog s)) (sy_owner s) (set c true (sy_canceled s)))
  | ls_wait t ts r : sy_prog s t = WaitFor ts :: r → (∀ t', t' ∈ ts → sy_prog s t' = []) →
      lock_step s (goto t r s)
  | ls_poll t c r : sy_prog s t = Poll c :: r → lock_step s (goto t r s)
  | ls_return t c r : sy_prog s t = Poll c :: r → sy_canceled s c = true → lock_step s (goto t [] s)
  | ls_listen t c r : sy_prog s t = Listen c :: r → sy_canceled s c = true → lock_step s (goto t r s).

Definition start (remover runner informer reconciler collector timer : prog) : system := {|
  sy_prog t := match t with
               | Remover => remover | Runner => runner
               | Informer => informer | Reconciler => reconciler
               | Collector => collector | Timer => timer
               end;
  sy_owner _ := None;
  sy_canceled _ := false;
|}.
Definition pool_system (scan events : list nat) (passes collections : nat) : system :=
  start remove_pool (run_prog scan) (informer_prog events) (reconcile_prog passes)
    (collect_prog collections) [].
Definition dns_system (scan events : list nat) (timers : nat) : system :=
  start remove_dns (run_prog scan) (informer_prog events) [] [] (timer_prog timers).

Definition stuck (s : system) : Prop := ∀ s', ¬ lock_step s s'.
Definition finished (s : system) : Prop := ∀ t, sy_prog s t = [].

(** ** Every execution ends

    Each step shortens the programs. *)
Definition work (s : system) : nat :=
  length (sy_prog s Remover) + length (sy_prog s Runner) + length (sy_prog s Informer) +
  length (sy_prog s Reconciler) + length (sy_prog s Collector) + length (sy_prog s Timer).

Lemma set_eq {K V} `{EqDecision K} (k : K) (v : V) f : set k v f k = v.
Proof. unfold set. by rewrite decide_True. Qed.
Lemma set_ne {K V} `{EqDecision K} (k k' : K) (v : V) f : k' ≠ k → set k v f k' = f k'.
Proof. intros Hne. unfold set. by rewrite decide_False. Qed.

Lemma work_goto t r s own can : length r < length (sy_prog s t) →
  work (System (set t r (sy_prog s)) own can) < work s.
Proof.
  intros Hlt. unfold work. destruct t; cbn [sy_prog]; unfold set; repeat case_decide; try done; lia.
Qed.
Lemma step_work s s' : lock_step s s' → work s' < work s.
Proof.
  intros Hs. destruct Hs as [t l r Hp|t l r Hp|t c r Hp|t ts r Hp|t c r Hp|t c r Hp|t c r Hp];
    apply work_goto; rewrite Hp; cbn; lia.
Qed.
(** ** Which locks a goroutine holds

    Those it is going to release before it takes them again. *)
Fixpoint holds (r : prog) (l : mutex) : bool :=
  match r with
  | [] => false
  | Lock l' :: r' => if decide (l' = l) then false else holds r' l
  | Unlock l' :: r' => if decide (l' = l) then true else holds r' l
  | _ :: r' => holds r' l
  end.

(** The order in which locks are taken, and the discipline of a program: locks are
    taken in order and released; a goroutine that polls or listens holds none. *)
Definition rank (l : mutex) : nat :=
  match l with ControllerLock => 0 | MatchLock => 1 | ActionLock => 2 end.
Definition mutexes : list mutex := [ControllerLock; MatchLock; ActionLock].
Fixpoint disciplined (r : prog) : bool :=
  match r with
  | [] => true
  | i :: r' =>
      match i with
      | Lock l => holds r' l && forallb (λ l', negb (holds r l') || (rank l' <? rank l)%nat) mutexes
      | Unlock l => negb (holds r' l)
      | Poll _ | Listen _ => forallb (λ l, negb (holds r l)) mutexes
      | Cancel _ | WaitFor _ => true
      end && disciplined r'
  end.
Lemma elem_of_mutexes l : In l mutexes.
Proof. destruct l; cbn; tauto. Qed.

Lemma disciplined_lock l r : disciplined (Lock l :: r) = true →
  holds r l = true ∧ (∀ l', l' ≠ l → holds r l' = true → rank l' < rank l) ∧ disciplined r = true.
Proof.
  intros [[Hh Ho]%andb_true_iff Hd]%andb_true_iff. split_and!; [done| |done]. intros l' Hne Hl'.
  rewrite forallb_forall in Ho. specialize (Ho l' (elem_of_mutexes l')).
  cbn [holds] in Ho. rewrite decide_False, Hl' in Ho by done. by apply Nat.ltb_lt in Ho.
Qed.

(** The invariant: the owner of a lock is the one goroutine that holds it. *)
Record wf_locks (s : system) : Prop := {
  wl_prog : ∀ t, disciplined (sy_prog s t) = true;
  wl_owner : ∀ l t, sy_owner s l = Some t ↔ holds (sy_prog s t) l = true;
}.

(** A step that neither takes nor releases a lock. *)
Lemma wf_goto t i r s can : wf_locks s → sy_prog s t = i :: r →
  match i with Lock _ | Unlock _ => False | _ => True end →
  wf_locks (System (set t r (sy_prog s)) (sy_owner s) can).
Proof.
  intros [Hd Ho] Hp Hi. specialize (Hd t) as Hdt. rewrite Hp in Hdt. split; cbn.
  - intros t'. unfold set. case_decide; [|done]. by apply andb_true_iff in Hdt as [_ ?].
  - intros l t'. rewrite Ho. unfold set. case_decide; [|done]. subst t'. rewrite Hp. by destruct i.
Qed.

Lemma wf_step s s' : lock_step s s' → wf_locks s → wf_locks s'.
Proof.
  intros Hs Hwf. pose proof Hwf as [Hd Ho].
  destruct Hs as [t l r Hp Hn|t l r Hp Hn|t c r Hp|t ts r Hp|t c r Hp|t c r Hp|t c r Hp];
    try by eapply wf_goto.
  - specialize (Hd t) as Hdt. rewrite Hp in Hdt. apply disciplined_lock in Hdt as (Hh & _ & Hr). split; cbn.
    + intros t'. unfold set. by case_decide.
    + intros l' t'. unfold set. destruct (decide (l' = l)) as [->|Hne]; case_decide as Ht.
      * subst. by rewrite Hh.
      * split; [congruence|]. intros Hh'. apply Ho in Hh'. congruence.
      * subst. rewrite Ho, Hp. cbn. by rewrite decide_False.
      * apply Ho.
  - specialize (Hd t) as Hdt. rewrite Hp in Hdt. apply andb_true_iff in Hdt as [Hh%negb_true_iff Hr]. split; cbn.
    + intros t'. unfold set. by case_decide.
    + intros l' t'. unfold set. destruct (decide (l' = l)) as [->|Hne]; case_decide as Ht.
      * subst. by rewrite Hh.
      * split; [done|]. intros Hh'. apply Ho in Hh'. congruence.
      * subst. rewrite Ho, Hp. cbn. by rewrite decide_False.
      * apply Ho.
  - (* the goroutine returns: it held no lock *)
    specialize (Hd t) as Hdt. rewrite Hp in Hdt. apply andb_true_iff in Hdt as [Hh _]. split; cbn.
    + intros t'. unfold set. by case_decide.
    + intros l t'. rewrite Ho. unfold set. case_decide; [|done]. subst t'. rewrite Hp. cbn.
      rewrite forallb_forall in Hh. specialize (Hh l (elem_of_mutexes l)). cbn in Hh.
      apply negb_true_iff in Hh. by rewrite Hh.
Qed.

(** A program that takes locks as it should, and gives back all it takes. *)
Definition balanced (r : prog) : Prop := disciplined r = true ∧ ∀ l, holds r l = false.

Lemma wf_start a b c d e f : (∀ t, balanced (sy_prog (start a b c d e f) t)) →
  wf_locks (start a b c d e f).
Proof.
  intros Hb. split; [intros t; apply Hb|]. intros l t. split; [done|].
  destruct (Hb t) as [_ E]. by rewrite E.
Qed.

(** *** Programs put together *)
Lemma holds_app r1 r2 l : (∀ l, holds r2 l = false) → holds (r1 ++ r2) l = holds r1 l.
Proof. intros H2. induction r1 as [|i r1 IH]; [apply H2|]. cbn. destruct i; by rewrite ?IH. Qed.
Lemma balanced_app r1 r2 : balanced r1 → balanced r2 → balanced (r1 ++ r2).
Proof.
  intros [Hd1 Hh1] [Hd2 Hh2]. split; [clear Hh1|intros l; by rewrite holds_app].
  induction r1 as [|i r1 IH]; [done|]. cbn [app disciplined] in *.
  apply andb_true_iff in Hd1 as [Hi Hr]. apply andb_true_iff. split; [|by apply IH].
  destruct i; rewrite ?holds_app by done; try done.
  all: rewrite <-Hi; cbn; by rewrite ?holds_app by done.
Qed.
Lemma balanced_bind {A} (f : A → prog) l : (∀ x, balanced (f x)) → balanced (l ≫= f).
Proof. intros Hf. induction l as [|x l IH]; [done|]. apply (balanced_app (f x)); [apply Hf|exact IH]. Qed.

Ltac solve_balanced := split; [reflexivity|intros l0; destruct l0; reflexivity].
Lemma balanced_action n : balanced (update_node n).
Proof.
  induction n as [|n IH]; [solve_balanced|]. apply (balanced_app call_action); [solve_balanced|exact IH].
Qed.
Lemma balanced_run scan : balanced (run_prog scan).
Proof.
  apply balanced_app; [solve_balanced|]. apply balanced_app; [|solve_balanced].
  apply balanced_bind, balanced_action.
Qed.
(** The calls under the lock of the match controller. *)
Lemma holds_calls n l : holds (update_node n ++ [Unlock MatchLock]) l = bool_decide (l = MatchLock).
Proof.
  induction n as [|n IH]; [by destruct l|].
  change (holds (call_action ++ update_node n ++ [Unlock MatchLock]) l = bool_decide (l = MatchLock)).
  cbn [call_action app holds]. rewrite IH. by destruct l.
Qed.
Lemma disciplined_calls n : disciplined (update_node n ++ [Unlock MatchLock]) = true.
Proof.
  induction n as [|n IH]; [done|]. change (disciplined (call_action ++ update_node n ++ [Unlock MatchLock]) = true).
  cbn [call_action app disciplined holds mutexes forallb]. rewrite !holds_calls, IH. done.
Qed.
Lemma balanced_handler n : balanced (handler n).
Proof.
  unfold handler. split.
  - cbn [app disciplined holds mutexes forallb]. by rewrite !holds_calls, disciplined_calls.
  - intros l. cbn [app holds]. rewrite holds_calls. by destruct l.
Qed.
Lemma balanced_informer events : balanced (informer_prog events).
Proof. apply balanced_app; [|solve_balanced]. apply balanced_bind, balanced_handler. Qed.
Lemma balanced_reconcile n : balanced (reconcile_prog n).
Proof. apply balanced_app; [apply balanced_action|solve_balanced]. Qed.
Lemma balanced_collect n : balanced (collect_prog n).
Proof.
  induction n as [|n IH]; [solve_balanced|].
  apply (balanced_app ([Lock ControllerLock] ++ call_action ++ [Unlock ControllerLock]));
    [solve_balanced|exact IH].
Qed.

(** ** What a goroutine other than the remover does

    It cancels nothing, waits for no goroutine, listens to one context at most, and
    takes only some of the locks. *)
Definition listens (t : thread) : option context :=
  match t with
  | Runner | Informer => Some MatchCtx
  | Reconciler => Some IPCtx
  | _ => None
  end.
Definition takes (t : thread) (l : mutex) : bool :=
  match l, t with
  | ControllerLock, Collector | MatchLock, (Runner | Informer) | ActionLock, _ => true
  | _, _ => false
  end.
Definition worker_instr (t : thread) (i : instr) : Prop :=
  match i with
  | Lock l | Unlock l => takes t l = true
  | Cancel _ | WaitFor _ => False
  | Poll c | Listen c => listens t = Some c
  end.
Definition worker (t : thread) (r : prog) : Prop := Forall (worker_instr t) r.

Lemma worker_bind {A} t (f : A → prog) l : (∀ x, worker t (f x)) → worker t (l ≫= f).
Proof. intros Hf. induction l as [|x l IH]; [apply Forall_nil_2|].
  apply (Forall_app_2 _ (f x)); [apply Hf|exact IH].
Qed.
Lemma worker_action t n : worker t (update_node n).
Proof.
  induction n as [|n IH]; [apply Forall_nil_2|]. apply (Forall_app_2 _ call_action); [|exact IH].
  repeat constructor.
Qed.
Lemma worker_run scan : worker Runner (run_prog scan).
Proof.
  constructor; [done|]. apply Forall_app_2; [|repeat constructor; done]. apply worker_bind, worker_action.
Qed.
Lemma worker_informer events : worker Informer (informer_prog events).
Proof.
  apply Forall_app_2; [|repeat constructor; done]. apply worker_bind. intros n.
  apply Forall_cons_2; [done|]. apply Forall_cons_2; [done|].
  apply Forall_app_2; [apply worker_action|repeat constructor; done].
Qed.
Lemma worker_reconcile n : worker Reconciler (reconcile_prog n).
Proof. apply Forall_app_2; [apply worker_action|repeat constructor; done]. Qed.
Lemma worker_collect n : worker Collector (collect_prog n).
Proof.
  induction n as [|n IH]; [apply Forall_nil_2|].
  apply (Forall_app_2 _ ([Lock ControllerLock] ++ call_action ++ [Unlock ControllerLock])); [|exact IH].
  repeat constructor.
Qed.

(** A goroutine that holds a lock is going to release it. *)
Lemma holds_unlock r l : holds r l = true → Unlock l ∈ r.
Proof.
  induction r as [|i r IH]; [done|]. destruct i as [l'|l'|c|ts|c|c]; cbn; try (intros H; right; by apply IH).
  - case_decide; [done|]. intros H'. right. by apply IH.
  - case_decide; [subst; intros _; left|]. intros H'. right. by apply IH.
Qed.

(** The invariant of an execution: locks are held as they should be; the remover is
    somewhere in [all], and has canceled the contexts it is no longer going to
    cancel; the others are workers. *)
Record running (all : prog) (cs : list context) (s : system) : Prop := {
  rn_locks : wf_locks s;
  rn_remover : sy_prog s Remover `suffix_of` all;
  rn_workers : ∀ t, t ≠ Remover → worker t (sy_prog s t);
  rn_canceled : ∀ c, c ∈ cs → Cancel c ∈ sy_prog s Remover ∨ sy_canceled s c = true;
}.

(** Every step takes one goroutine to a rest of its program. *)
Lemma step_suffix s s' t : lock_step s s' → sy_prog s' t `suffix_of` sy_prog s t.
Proof.
  intros Hs. destruct Hs as [u l r Hp|u l r Hp|u c r Hp|u ts r Hp|u c r Hp|u c r Hp|u c r Hp];
    cbn; unfold set; case_decide; subst; rewrite ?Hp;
    first [done|apply suffix_nil|by apply suffix_cons_r].
Qed.
Lemma step_running all cs s s' : (∀ c, Poll c ∉ all) → lock_step s s' → running all cs s → running all cs s'.
Proof.
  intros Hpoll Hs [Hw Hr Hk Hc]. split.
  - by eapply wf_step.
  - etrans; [by apply step_suffix|done].
  - intros t Ht. destruct (step_suffix _ _ t Hs) as [k Hsuf]. specialize (Hk t Ht).
    rewrite Hsuf in Hk. by apply Forall_app in Hk as [_ ?].
  - intros c Hin. specialize (Hc c Hin).
    destruct Hs as [u l r Hp|u l r Hp|u c' r Hp|u ts r Hp|u c' r Hp|u c' r Hp|u c' r Hp]; cbn in *;
      destruct (decide (u = Remover)) as [->|Hu]; rewrite ?set_eq, ?(set_ne u) by done; try done.
    all: try (rewrite Hp in Hc; destruct Hc as [[Hc|Hc]%elem_of_cons|Hc]; try discriminate; tauto).
    + rewrite Hp in Hc. destruct (decide (c = c')) as [->|Hne]; [right; apply set_eq|].
      rewrite set_ne by done. destruct Hc as [[Hc|Hc]%elem_of_cons|Hc]; [congruence|tauto..].
    + destruct Hc as [Hc|Hc]; [by left|right]. unfold set. by case_decide.
    + (* the remover does not poll *)
      destruct Hr as [k Hr]. destruct (Hpoll c'). rewrite Hr, Hp. set_solver.
Qed.

(** ** What a stuck goroutine waits for *)
Section stuck.
Context (all : prog) (cs : list context) (s : system).
Context (Hrun : running all cs s) (Hstuck : stuck s).

Lemma stuck_worker t : t ≠ Remover →
  sy_prog s t = [] ∨
  (∃ l r u, sy_prog s t = Lock l :: r ∧ sy_owner s l = Some u ∧ takes t l = true) ∨
  (∃ c r, sy_prog s t = Listen c :: r ∧ listens t = Some c ∧ sy_canceled s c = false).
Proof.
  intros Ht. pose proof (rn_workers _ _ _ Hrun t Ht) as Hw.
  destruct (sy_prog s t) as [|i r] eqn:Hp; [by left|right].
  apply Forall_cons in Hw as [Hi _]. destruct i as [l|l|c|ts|c|c]; cbn in Hi; try done.
  - left. destruct (sy_owner s l) as [u|] eqn:Ho; [eauto 7|].
    destruct (Hstuck _ (ls_lock s t l r Hp Ho)).
  - assert (sy_owner s l = Some t) as Ho.
    { apply (wl_owner _ (rn_locks _ _ _ Hrun)). rewrite Hp. cbn. by rewrite decide_True. }
    destruct (Hstuck _ (ls_unlock s t l r Hp Ho)).
  - destruct (Hstuck _ (ls_poll s t c r Hp)).
  - right. exists c, r. split_and!; [done..|]. destruct (sy_canceled s c) eqn:Hc; [|done].
    destruct (Hstuck _ (ls_listen s t _ r Hp Hc)).
Qed.

(** A worker that holds a lock waits for one that is taken later. *)
Lemma stuck_holder t l : t ≠ Remover → sy_owner s l = Some t →
  ∃ l' r u, sy_prog s t = Lock l' :: r ∧ sy_owner s l' = Some u ∧ rank l < rank l'.
Proof.
  intros Ht Ho. pose proof (rn_locks _ _ _ Hrun) as [Hd Hown]. apply Hown in Ho. specialize (Hd t).
  destruct (stuck_worker t Ht) as [Hp|[(l' & r & u & Hp & Ho' & _)|(c & r & Hp & _)]]; rewrite Hp in Ho, Hd.
  - done.
  - exists l', r, u. split_and!; try done. apply disciplined_lock in Hd as (_ & Hrank & _).
    cbn in Ho. case_decide; [done|]. by apply Hrank.
  - apply andb_true_iff in Hd as [Hd _]. rewrite forallb_forall in Hd.
    specialize (Hd l (elem_of_mutexes l)). apply negb_true_iff in Hd. congruence.
Qed.

(** So a worker that waits for a lock waits, in the end, for the remover, and for a
    lock that is no earlier in the order. *)
Lemma stuck_blocked t l r : t ≠ Remover → sy_prog s t = Lock l :: r →
  ∃ l', sy_owner s l' = Some Remover ∧ rank l ≤ rank l'.
Proof.
  remember (2 - rank l)%nat as n eqn:Hn. revert t l r Hn.
  induction n as [n IH] using lt_wf_ind. intros t l r Hn Ht Hp.
  destruct (stuck_worker t Ht) as [Hp'|[(l1 & r1 & u & Hp' & Ho & _)|(c & r1 & Hp' & _)]];
    rewrite Hp in Hp'; [done| |done]. injection Hp' as <- <-.
  destruct (decide (u = Remover)) as [->|Hu]; [by exists l|].
  destruct (stuck_holder u l Hu Ho) as (l' & r' & u' & Hpu & _ & Hlt).
  destruct (IH (2 - rank l')%nat ltac:(destruct l, l'; cbn in *; lia) u l' r' eq_refl Hu Hpu) as (l2 & Ho2 & Hle).
  exists l2. split; [done|lia].
Qed.

(** While the remover holds no lock the workers need, none of them is blocked, but
    for the collector at the lock of the controller. *)
Hypothesis Hfree : ∀ l, l ≠ ControllerLock → sy_owner s l ≠ Some Remover.
Lemma free_worker t : t ≠ Remover →
  sy_prog s t = [] ∨
  (t = Collector ∧ ∃ r, sy_prog s t = Lock ControllerLock :: r ∧ sy_owner s ControllerLock = Some Remover) ∨
  (∃ c r, sy_prog s t = Listen c :: r ∧ listens t = Some c ∧ sy_canceled s c = false).
Proof.
  intros Ht. destruct (stuck_worker t Ht) as [Hp|[(l & r & u & Hp & _ & Htk)|Hp]]; [by left| |by right; right].
  right. left. destruct (stuck_blocked t l r Ht Hp) as (l' & Ho & Hle).
  destruct (decide (l' = ControllerLock)) as [->|Hne]; [|by destruct (Hfree l' Hne)].
  destruct l, t; cbn in *; try done; try lia. eauto.
Qed.
Lemma free_canceled t c : listens t = Some c → c ∈ cs → Cancel c ∉ sy_prog s Remover →
  sy_prog s t = [].
Proof.
  intros Hl Hin Hno. destruct (free_worker t) as [Hp|[[-> _]|(c' & r & _ & Hl' & Hcan)]]; [by intros ->|done..|].
  assert (c' = c) as -> by congruence. destruct (rn_canceled _ _ _ Hrun _ Hin); congruence.
Qed.
Lemma free_owner t l : t ≠ Remover → sy_owner s l ≠ Some t.
Proof.
  intros Ht Ho. destruct (stuck_holder t l Ht Ho) as (l' & r & u & Hp & _ & Hlt).
  destruct (free_worker t Ht) as [Hp'|[(_ & r' & Hp' & _)|(c & r' & Hp' & _)]]; [congruence| |congruence].
  rewrite Hp in Hp'. injection Hp' as -> _. cbn in Hlt. lia.
Qed.
(** The remover itself can take a lock it does not hold. *)
Lemma free_lock l r : sy_prog s Remover ≠ Lock l :: r.
Proof.
  intros Hp. destruct (sy_owner s l) as [t|] eqn:Ho; [|by eapply Hstuck, ls_lock].
  destruct (decide (t = Remover)) as [->|Ht]; [|by eapply free_owner].
  apply (wl_owner _ (rn_locks _ _ _ Hrun)) in Ho. rewrite Hp in Ho. cbn in Ho. by rewrite decide_True in Ho.
Qed.
(** When the remover has returned, all have. *)
Lemma free_finished : sy_prog s Remover = [] → (∀ t c, listens t = Some c → sy_prog s t = [] ∨ c ∈ cs) →
  finished s.
Proof.
  intros Hp Hcs t. destruct (decide (t = Remover)) as [->|Ht]; [done|].
  destruct (free_worker t Ht) as [?|[(_ & r & _ & Ho)|(c & r & Hpt & Hl & Hcan)]]; [done| |].
  - apply (wl_owner _ (rn_locks _ _ _ Hrun)) in Ho. by rewrite Hp in Ho.
  - destruct (Hcs t c Hl) as [?|Hin]; [done|].
    destruct (rn_canceled _ _ _ Hrun c Hin) as [Hc|Hc]; [rewrite Hp in Hc; by apply elem_of_nil in Hc|congruence].
Qed.
End stuck.

(** ** Setting a system up *)
Lemma start_running all cs a b c d e f (s := start a b c d e f) :
  a `suffix_of` all → (∀ x, x ∈ cs → Cancel x ∈ a) → (∀ t, balanced (sy_prog s t)) →
  (∀ t, t ≠ Remover → worker t (sy_prog s t)) → running all cs s.
Proof. intros Ha Hc Hb Hw. split; [by apply wf_start|done|done|by left; auto]. Qed.

(** *** The removal of a pool *)
Lemma suffix_cons_cases {A} (x : A) l k : k `suffix_of` x :: l → k = x :: l ∨ k `suffix_of` l.
Proof.
  intros [[|y k'] Heq]; cbn in Heq; [by left|right]. injection Heq as -> ->. by eexists.
Qed.

Lemma pool_stuck s : running remove_pool [MatchCtx; IPCtx] s → stuck s → finished s.
Proof.
  intros Hrun Hst. pose proof Hrun as [Hw Hr _ _].
  assert (∀ l, l ≠ ControllerLock → sy_owner s l ≠ Some Remover) as Hfree.
  { intros l Hne Ho. apply (wl_owner _ Hw) in Ho.
    repeat (apply suffix_cons_cases in Hr as [Hr|Hr]; [rewrite Hr in Ho; by destruct l|]).
    apply suffix_nil_inv in Hr. by rewrite Hr in Ho. }
  pose proof (free_canceled _ _ _ Hrun Hst Hfree) as Hdone.
  repeat (apply suffix_cons_cases in Hr as [Hr|Hr]; [exfalso|]).
  - by eapply (free_lock _ _ _ Hrun Hst Hfree).
  - by eapply Hst, ls_cancel.
  - eapply Hst, ls_wait; [done|]. intros t Ht. apply (Hdone t MatchCtx); rewrite ?Hr; destruct t; set_solver.
  - by eapply Hst, ls_cancel.
  - eapply Hst, ls_wait; [done|]. intros t Ht. apply (Hdone t IPCtx); rewrite ?Hr; destruct t; set_solver.
  - eapply Hst, ls_unlock; [done|]. apply (wl_owner _ Hw). by rewrite Hr.
  - apply suffix_nil_inv in Hr. apply (free_finished _ _ _ Hrun Hst Hfree Hr).
    intros t c _. right. destruct c; set_solver.
Qed.

(** C17: removing a pool always comes to an end: however its goroutines interleave,
    whatever nodes the match controller has seen, the events its informers have yet
    to deliver, the passes the IP controller has yet to do and the collections of the
    metrics that come in between, the removal returns and no goroutine is left. *)
Theorem pool_removal_ends scan events passes collections :
  always_ends lock_step lock_step finished (pool_system scan events passes collections).
Proof.
  apply (always_ends_invariant _ _ _ (running remove_pool [MatchCtx; IPCtx]) work).
  - intros s s' Hs Hi. split; [|by apply step_work]. eapply step_running; [|done..]. intros c Hin. repeat (apply elem_of_cons in Hin as [?|Hin]; [done|]). by apply elem_of_nil in Hin.
  - apply pool_stuck.
  - apply start_running; [done|intros c; destruct c; set_solver| |].
    + intros t. destruct t; [solve_balanced|apply balanced_run|apply balanced_informer
        |apply balanced_reconcile|apply balanced_collect|solve_balanced].
    + intros t Ht. destruct t; [done|apply worker_run|apply worker_informer|apply worker_reconcile
        |apply worker_collect|apply Forall_nil_2].
Qed.

(** *** The removal of a record set *)

(** It has two ends: either all is finished, or the removal, holding the lock of the
    action, waits for a goroutine that waits for that lock. *)
Definition hangs (s : system) : Prop :=
  sy_prog s Remover = [WaitFor [Runner; Informer]; Unlock ActionLock; Unlock ControllerLock] ∧
  sy_owner s ActionLock = Some Remover ∧
  ∃ t r, (t = Runner ∨ t = Informer) ∧ sy_prog s t = Lock ActionLock :: r.

Lemma dns_waits s : running remove_dns [MatchCtx] s → stuck s →
  sy_prog s Remover = [WaitFor [Runner; Informer]; Unlock ActionLock; Unlock ControllerLock] →
  ∃ t r, (t = Runner ∨ t = Informer) ∧ sy_prog s t = Lock ActionLock :: r.
Proof.
  intros Hrun Hst Hp. pose proof Hrun as [Hw _ Hk Hc].
  assert (∀ t, t = Runner ∨ t = Informer → sy_prog s t = [] ∨
    ∃ t' r', (t' = Runner ∨ t' = Informer) ∧ sy_prog s t' = Lock ActionLock :: r') as Hworker.
  { intros t Ht. assert (t ≠ Remover) as Hne by (by destruct Ht as [-> | ->]).
    destruct (stuck_worker _ _ _ Hrun Hst t Hne)
      as [?|[(l & r & u & Hpt & Ho & Htk)|(c & r & _ & Hl & Hcan)]]; [by left|right|].
    - destruct l; [by destruct Ht as [-> | ->]| |eauto].
      (* it waits for the owner of the match lock *)
      apply (wl_owner _ Hw) in Ho as Hh.
      destruct (decide (u = Remover)) as [->|Hu]; [by rewrite Hp in Hh|].
      destruct (stuck_holder _ _ _ Hrun Hst u MatchLock Hu Ho) as (l' & r' & _ & Hpu & _ & Hlt).
      exists u, r'. split; [|destruct l'; cbn in Hlt; try lia; done].
      pose proof (Hk u Hu) as Hku. unfold worker in Hku. rewrite Forall_forall in Hku.
      specialize (Hku _ (holds_unlock _ _ Hh)). destruct u; auto; done.
    - assert (c = MatchCtx) as -> by (destruct Ht as [-> | ->]; cbn in Hl; congruence).
      destruct (Hc MatchCtx) as [Hin|Htrue]; [set_solver|rewrite Hp in Hin; set_solver|congruence]. }
  destruct (Hworker Runner) as [H1|H1]; [by left| |done].
  destruct (Hworker Informer) as [H2|H2]; [by right| |done].
  destruct (Hst _ (ls_wait s _ _ _ Hp ltac:(set_solver))).
Qed.
Lemma dns_stuck s : running remove_dns [MatchCtx] s → sy_prog s Reconciler = [] → stuck s →
  finished s ∨ hangs s.
Proof.
  intros Hrun Hrec Hst. pose proof Hrun as [Hw Hr _ Hc].
  destruct (decide (sy_owner s ActionLock = Some Remover)) as [Hact|Hact].
  - (* the remover holds the lock of the action: it waits for a goroutine *)
    right. pose proof Hact as Hh. apply (wl_owner _ Hw) in Hh.
    repeat (apply suffix_cons_cases in Hr as [Hr|Hr]; [rewrite Hr in Hh; try done|]).
    + by destruct (Hst _ (ls_cancel s _ _ _ Hr)).
    + split_and!; [done..|]. by apply dns_waits.
    + by destruct (Hst _ (ls_unlock s _ _ _ Hr Hact)).
    + apply suffix_nil_inv in Hr. by rewrite Hr in Hh.
  - left.
    assert (∀ l, l ≠ ControllerLock → sy_owner s l ≠ Some Remover) as Hfree.
    { intros l Hne Ho. apply (wl_owner _ Hw) in Ho as Hh.
      repeat (apply suffix_cons_cases in Hr as [Hr|Hr]; [rewrite Hr in Hh; by destruct l|]).
      apply suffix_nil_inv in Hr. by rewrite Hr in Hh. }
    pose proof (free_canceled _ _ _ Hrun Hst Hfree) as Hdone.
    repeat (apply suffix_cons_cases in Hr as [Hr|Hr]; [exfalso|]).
    + by eapply (free_lock _ _ _ Hrun Hst Hfree).
    + by eapply (free_lock _ _ _ Hrun Hst Hfree).
    + by eapply Hst, ls_cancel.
    + eapply Hst, ls_wait; [done|]. intros t Ht. apply (Hdone t MatchCtx); rewrite ?Hr; destruct t; set_solver.
    + destruct Hact. apply (wl_owner _ Hw). by rewrite Hr.
    + eapply Hst, ls_unlock; [done|]. apply (wl_owner _ Hw). by rewrite Hr.
    + apply suffix_nil_inv in Hr. apply (free_finished _ _ _ Hrun Hst Hfree Hr).
      intros t c Hl. destruct t; try done; [right; injection Hl as <-; set_solver..|by left].
Qed.

(** The state the hanging executions end in. *)
Lemma hanging_stuck s r n :
  sy_prog s Remover = [WaitFor [Runner; Informer]; Unlock ActionLock; Unlock ControllerLock] →
  sy_prog s Runner = Lock ActionLock :: r → sy_prog s Informer = [] → sy_prog s Reconciler = [] →
  sy_prog s Collector = [] → sy_prog s Timer = timer_prog n →
  sy_owner s ActionLock = Some Remover → stuck s ∧ hangs s.
Proof.
  intros H1 H2 H3 H4 H5 H6 Ho. split; [|split_and!; [done..|exists Runner, r; auto]].
  intros s' Hs. destruct Hs as [t l q Hp|t l q Hp|t c q Hp|t ts q Hp Hts|t c q Hp|t c q Hp|t c q Hp];
    destruct t; rewrite ?H1, ?H2, ?H3, ?H4, ?H5, ?H6 in Hp; simplify_eq;
    try (destruct n; cbn in Hp; simplify_eq).
  specialize (Hts Runner ltac:(set_solver)). congruence.
Qed.
(** The informer, once the context is canceled. *)
Lemma informer_returns events s : sy_prog s Informer = informer_prog events → sy_canceled s MatchCtx = true →
  lock_step s (goto Informer [] s).
Proof.
  destruct events as [|b events]; intros Hp Hc; [by apply (ls_listen _ _ MatchCtx)|by eapply (ls_return _ _ MatchCtx); [exact Hp|]].
Qed.
(** The removal takes its locks after the runner has found its context not canceled. *)
Lemma removal_begins scan events n : ∃ s, rtc lock_step (dns_system scan events n) s ∧
  sy_prog s Remover = [Cancel MatchCtx; WaitFor [Runner; Informer]; Unlock ActionLock; Unlock ControllerLock] ∧
  sy_prog s Runner = (scan ≫= update_node) ++ [Lock MatchLock] ++ call_action ++ [Unlock MatchLock] ∧
  sy_prog s Informer = informer_prog events ∧ sy_prog s Reconciler = [] ∧
  sy_prog s Collector = [] ∧ sy_prog s Timer = timer_prog n ∧
  sy_owner s MatchLock = None ∧ sy_owner s ActionLock = Some Remover.
Proof.
  eexists. split; [|split_and!].
  - eapply rtc_l; [by eapply (ls_poll _ Runner)|].
    eapply rtc_l; [by eapply (ls_lock _ Remover)|]. apply rtc_once. by eapply (ls_lock _ Remover).
  - reflexivity.
  - reflexivity.
  - reflexivity.
  - reflexivity.
  - reflexivity.
  - reflexivity.
  - reflexivity.
  - reflexivity.
Qed.
(** The runner blocks at its first call of the action. *)
Lemma runner_blocks scan s : sy_prog s Runner = (scan ≫= update_node) ++ [Lock MatchLock] ++ call_action ++ [Unlock MatchLock] →
  sy_owner s MatchLock = None →
  ∃ s' r, rtc lock_step s s' ∧ sy_prog s' Runner = Lock ActionLock :: r ∧
    (∀ t, t ≠ Runner → sy_prog s' t = sy_prog s t) ∧ sy_owner s' ActionLock = sy_owner s ActionLock.
Proof.
  induction scan as [|b scan IH]; intros Hp Ho.
  - eexists _, _. split; [apply rtc_once; eapply (ls_lock _ Runner MatchLock); [exact Hp|done]|]. cbn. split_and!; try done.
    intros t Ht. by rewrite set_ne.
  - destruct b as [|b]; [by apply IH|]. exists s. eexists. split; [reflexivity|]. split; [exact Hp|]. by split_and!.
Qed.

(** C40: removing a record set can hang: every execution either finishes or ends in such a
    deadlock, and whatever nodes have been seen and whatever events and functions of
    retry timers are left, there is an execution that ends in one. *)
Theorem dns_removal_can_hang scan events timers :
  always_ends lock_step lock_step (λ s, finished s ∨ hangs s) (dns_system scan events timers) ∧
  ∃ s, rtc lock_step (dns_system scan events timers) s ∧ stuck s ∧ hangs s.
Proof.
  split.
  - apply (always_ends_invariant _ _ _ (λ s, running remove_dns [MatchCtx] s ∧ sy_prog s Reconciler = []) work).
    + intros s s' Hs [Hrun Hrec]. split; [split|by apply step_work].
      * refine (step_running _ _ _ _ _ Hs Hrun). intros c Hin. set_solver.
      * apply suffix_nil_inv. rewrite <-Hrec. by apply step_suffix.
    + intros s [??] ?. by apply dns_stuck.
    + split; [|done]. apply start_running; [done|set_solver| |].
      * intros t. destruct t; [solve_balanced|apply balanced_run|apply balanced_informer
          |solve_balanced|solve_balanced|apply balanced_action].
      * intros t Ht. destruct t; [done|apply worker_run|apply worker_informer|apply Forall_nil_2
          |apply Forall_nil_2|apply worker_action].
  - destruct (removal_begins scan events timers)
      as (s1 & H01 & Hp1 & Hr1 & Hi1 & Hrec1 & Hc1 & Ht1 & Hm1 & Ha1).
    destruct (runner_blocks scan s1 Hr1 Hm1) as (s2 & r & H12 & Hr2 & Hp2 & Ho2).
    set (s3 := System (set Remover [WaitFor [Runner; Informer]; Unlock ActionLock; Unlock ControllerLock]
                         (sy_prog s2)) (sy_owner s2) (set MatchCtx true (sy_canceled s2))).
    exists (goto Informer [] s3). split; [|apply (hanging_stuck _ r timers)].
    + etrans; [exact H01|]. etrans; [exact H12|].
      eapply rtc_l; [eapply (ls_cancel _ Remover); by rewrite Hp2|].
      apply rtc_once, (informer_returns events); [|done]. cbn. by rewrite set_ne, Hp2.
    + done.
    + cbn. by rewrite !set_ne.
    + done.
    + cbn. by rewrite !set_ne, Hp2.
    + cbn. by rewrite !set_ne, Hp2.
    + cbn. by rewrite !set_ne, Hp2.
    + cbn. by rewrite Ho2.
Qed.
