(* ===== verification/LeaderElection.v ===== *)
(** * pkg/leaderelection/leaderelection.go

    The controllers run while this process holds the lease.  The elector of client-go,
    which acquires, renews and releases the lease and calls the two callbacks, is a
    part of the step relation, with the documented behaviour of its [Run]. *)
From S2P Require Import Prelude.

(** ** State *)

(** [Run] of the elector: it tries to acquire the lease; it holds it; it does not any
    longer and calls [OnStoppedLeading]; it has returned. *)
Inductive phase : Type := Acquiring | Leading | Stopping | Returned.
(** A goroutine that waits for the runs, with [childLock] held, or that has or has not
    done so. *)
Inductive waiter : Type := Idle | Waiting | Done.

(** The variables [LeaderElection] shares with its goroutines. *)
Record election : Type := Election {
  el_ctx : bool;          (** [ctx] is canceled *)
  el_leaderCtx : bool;    (** [leaderCtx] is canceled *)
  el_childCtx : bool;     (** [childCtx] is not [nil] *)
  el_childCancel : bool;  (** [childCancel] was called *)
  el_wg : nat;            (** the runs that have not returned *)
  el_phase : phase;
  el_lost : bool;         (** the lease could not be renewed *)
  el_starting : bool;     (** the goroutine of [OnStartedLeading] has not run yet *)
  el_watcher : waiter;    (** the goroutine that waits for [ctx] *)
  el_stopper : waiter;    (** [OnStoppedLeading] *)
}.
Definition eta_election (s : election) : election :=
  Election (el_ctx s) (el_leaderCtx s) (el_childCtx s) (el_childCancel s) (el_wg s) (el_phase s)
    (el_lost s) (el_starting s) (el_watcher s) (el_stopper s).
#[export] Instance set_el_ctx : Setter el_ctx := ltac:(derive_setter eta_election el_ctx).
#[export] Instance set_el_leaderCtx : Setter el_leaderCtx := ltac:(derive_setter eta_election el_leaderCtx).
#[export] Instance set_el_childCtx : Setter el_childCtx := ltac:(derive_setter eta_election el_childCtx).
#[export] Instance set_el_childCancel : Setter el_childCancel := ltac:(derive_setter eta_election el_childCancel).
#[export] Instance set_el_wg : Setter el_wg := ltac:(derive_setter eta_election el_wg).
#[export] Instance set_el_phase : Setter el_phase := ltac:(derive_setter eta_election el_phase).
#[export] Instance set_el_lost : Setter el_lost := ltac:(derive_setter eta_election el_lost).
#[export] Instance set_el_starting : Setter el_starting := ltac:(derive_setter eta_election el_starting).
#[export] Instance set_el_watcher : Setter el_watcher := ltac:(derive_setter eta_election el_watcher).
#[export] Instance set_el_stopper : Setter el_stopper := ltac:(derive_setter eta_election el_stopper).

Definition LeaderElection_start : election := {|
  el_ctx := false; el_leaderCtx := false; el_childCtx := false; el_childCancel := false; el_wg := 0;
  el_phase := Acquiring; el_lost := false; el_starting := false; el_watcher := Idle; el_stopper := Idle;
|}.
(** [childLock]: held by a goroutine that waits with it. *)
Definition childLock_free (s : election) : Prop := el_watcher s ≠ Waiting ∧ el_stopper s ≠ Waiting.
(** [childCtx.Err() != nil]: it descends from [ctx]. *)
Definition childCtx_canceled (s : election) : bool := el_ctx s || el_childCancel s.

(** ** The goroutines *)

(** The goroutine that waits for [ctx]: with the lock, before and after [wg.Wait()]. *)
Definition watch (s : election) : election :=
  if el_childCtx s then s <| el_childCancel := true |> <| el_watcher := Waiting |>
  else s <| el_leaderCtx := true |> <| el_watcher := Done |>.
Definition watch_waited (s : election) : election :=
  s <| el_leaderCtx := true |> <| el_watcher := Done |>.

Definition OnStartedLeading (runs : nat) (s : election) : election :=
  if el_ctx s then s
  else s <| el_childCtx := true |> <| el_childCancel := false |> <| el_wg ::= Nat.add runs |>.

(** [Run] returns after the callback, and then [LeaderElection] returns and cancels
    [leaderCtx]. *)
Definition OnStoppedLeading (s : election) : election :=
  if el_childCtx s
  then s <| el_childCancel := true |> <| el_childCtx := false |> <| el_stopper := Waiting |>
  else s <| el_stopper := Done |> <| el_phase := Returned |> <| el_leaderCtx := true |>.
Definition OnStoppedLeading_waited (s : election) : election :=
  s <| el_stopper := Done |> <| el_phase := Returned |> <| el_leaderCtx := true |>.

(** What the goroutines do when they can; the runs are expected to return when their
    context is canceled, and the elector when [leaderCtx] is. *)
Inductive own_step (runs : nat) (s : election) : election → Prop :=
  | os_watch : el_ctx s = true → el_watcher s = Idle → childLock_free s → own_step runs s (watch s)
  | os_watch_waited : el_watcher s = Waiting → el_wg s = 0 → own_step runs s (watch_waited s)
  | os_canceled : el_phase s = Acquiring ∨ el_phase s = Leading → el_leaderCtx s = true →
      own_step runs s (s <| el_phase := Stopping |>)
  | os_started : el_starting s = true → childLock_free s →
      own_step runs s (OnStartedLeading runs s <| el_starting := false |>)
  | os_stopped : el_phase s = Stopping → el_stopper s = Idle → childLock_free s →
      own_step runs s (OnStoppedLeading s)
  | os_stopped_waited : el_stopper s = Waiting → el_wg s = 0 →
      own_step runs s (OnStoppedLeading_waited s)
  | os_return n : el_wg s = S n → childCtx_canceled s = true → own_step runs s (s <| el_wg := n |>).

(** The process is told to stop; the elector acquires the lease, or cannot renew it. *)
Inductive election_step (runs : nat) (s : election) : election → Prop :=
  | es_own s' : own_step runs s s' → election_step runs s s'
  | es_cancel : el_ctx s = false → election_step runs s (s <| el_ctx := true |>)
  | es_acquire : el_phase s = Acquiring → el_leaderCtx s = false →
      election_step runs s (s <| el_phase := Leading |> <| el_starting := true |>)
  | es_lose : el_phase s = Leading →
      election_step runs s (s <| el_phase := Stopping |> <| el_lost := true |>).

(** ** The invariant *)
Record election_ok (s : election) : Prop := {
  eo_watcher_done : el_watcher s = Done → el_ctx s = true ∧ el_wg s = 0;
  eo_watcher_wait : el_watcher s = Waiting → el_ctx s = true;
  eo_leader : el_leaderCtx s = true → el_watcher s = Done ∨ el_phase s = Returned;
  eo_acquiring : el_phase s = Acquiring → el_starting s = false ∧ el_wg s = 0 ∧ el_childCtx s = false;
  eo_stopping : el_phase s = Stopping ∨ el_phase s = Returned → el_lost s = true ∨ el_watcher s = Done;
  eo_stopper : el_stopper s = Done ↔ el_phase s = Returned;
  eo_stopper_wait : el_stopper s = Waiting → el_phase s = Stopping ∧ childCtx_canceled s = true;
  eo_one : el_watcher s = Waiting → el_stopper s ≠ Waiting;
  eo_child : el_childCtx s = false → el_wg s = 0 ∨ el_stopper s = Waiting;
  eo_leader_done : el_watcher s = Done → el_leaderCtx s = true;
}.

(** Case analysis on a state whose hypotheses are implications from equations. *)
Ltac solve_election :=
  repeat match goal with
  | H : ?x = ?x → _ |- _ => specialize (H eq_refl)
  | H : _ ↔ _ |- _ => destruct H
  | H : _ ∧ _ |- _ => destruct H
  | H : ?P → ?Q, H' : ?P |- _ => specialize (H H')
  | H : ?x ≠ ?x |- _ => by destruct H
  | H : true = false |- _ => discriminate H
  | H : false = true |- _ => discriminate H
  | H : true = false → _ |- _ => clear H
  | H : false = true → _ |- _ => clear H
  end; cbn in *; try done; try tauto; try (intuition congruence); try (intuition lia).

Lemma election_start_ok : election_ok LeaderElection_start.
Proof. by split; cbn; intuition. Qed.
Lemma election_step_ok runs s s' : election_step runs s s' → election_ok s → election_ok s'.
Proof.
  intros Hs [H1 H2 H3 H4 H5 H6 H7 H8 H9 H10]. destruct s as [c l k kc w p lo st wa so].
  destruct Hs as [s' Hs| | |]; [destruct Hs|..]; unfold watch, OnStartedLeading, OnStoppedLeading, childLock_free, childCtx_canceled in *; cbn in *.
  all: destruct wa, so, p; solve_election.
  all: repeat case_match; subst; cbn in *.
  all: split; unfold childCtx_canceled; cbn; rewrite ?orb_true_r; solve_election.
Qed.
Lemma reachable_ok runs s : rtc (election_step runs) LeaderElection_start s → election_ok s.
Proof.
  intros Hr. refine (rtc_ind_r (λ s, election_ok s) _ _ _ _ Hr); [apply election_start_ok|].
  intros y z _ Hs. by eapply election_step_ok.
Qed.

(** ** The runs and the lease *)

(** C18: while the lease is renewed in time the runs go on only in the process that holds
    it: the lease is given up on shutdown only after every run has returned, and none
    starts afterwards.  And what the comment in the code promises: once [leaderCtx]
    is canceled on shutdown no run is left. *)
Theorem runs_only_while_leading runs s :
  rtc (election_step runs) LeaderElection_start s → el_lost s = false →
  (0 < el_wg s → el_phase s = Leading) ∧ (el_leaderCtx s = true → el_wg s = 0).
Proof.
  intros [H1 H2 H3 H4 H5 H6 H7 H8 H9 H10]%reachable_ok Hlost. split.
  - intros Hw. destruct (el_phase s); [destruct H4 as (_ & ? & _); [done|lia]|done|..];
      (destruct H5 as [?|Hd]; [tauto|congruence|apply H1 in Hd as [_ ?]; lia]).
  - intros Hl. destruct (H3 Hl) as [Hd|Hp]; [by apply H1|].
    destruct H5 as [?|Hd]; [tauto|congruence|by apply H1].
Qed.

(** Two runs, while the process leads. *)
Definition leading_twice : election :=
  OnStartedLeading 2 (LeaderElection_start <| el_phase := Leading |> <| el_starting := true |>)
    <| el_starting := false |>.
Lemma runs_only_while_leading_witness :
  rtc (election_step 2) LeaderElection_start leading_twice ∧ el_wg leading_twice = 2 ∧
  (0 < el_wg leading_twice → el_phase leading_twice = Leading) ∧
  (el_leaderCtx leading_twice = true → el_wg leading_twice = 0).
Proof.
  assert (rtc (election_step 2) LeaderElection_start leading_twice) as Hr.
  { eapply rtc_l; [by apply es_acquire|]. apply rtc_once. by apply es_own, os_started. }
  split; [exact Hr|]. split; [reflexivity|]. by apply (runs_only_while_leading 2).
Defined.

(** ** Everything ends *)
Definition work (runs : nat) (s : election) : nat :=
  (if el_ctx s then 0 else 1) + el_wg s +
  match el_watcher s with Idle => 2 | Waiting => 1 | Done => 0 end +
  match el_stopper s with Idle => 2 | Waiting => 1 | Done => 0 end +
  match el_phase s with Acquiring => runs + 4 | Leading => 2 | Stopping => 1 | Returned => 0 end +
  (if el_starting s then runs + 1 else 0).

Lemma election_step_work runs s s' : election_step runs s s' → election_ok s → work runs s' < work runs s.
Proof.
  intros Hs [H1 H2 H3 H4 H5 H6 H7 H8 H9 H10]. destruct s as [c l k kc w p lo st wa so].
  destruct Hs as [s' Hs| | |]; [destruct Hs|..]; unfold watch, OnStartedLeading, OnStoppedLeading, childLock_free, childCtx_canceled in *; cbn in *.
  all: destruct wa, so, p; solve_election.
  all: repeat match goal with H : _ → _ |- _ => clear H | H : _ ∨ _ |- _ => clear H end.
  all: repeat case_match; subst; unfold work; cbn; lia.
Qed.

(** All goroutines have returned, and so has [LeaderElection]. *)
Definition election_over (s : election) : Prop :=
  el_phase s = Returned ∧ el_wg s = 0 ∧ el_watcher s = Done ∧ el_starting s = false.

Lemma rest_over runs s : election_ok s → (∀ s', ¬ own_step runs s s') → el_ctx s = true → election_over s.
Proof.
  intros [H1 H2 H3 H4 H5 H6 H7 H8 H9 H10] Hst Hc.
  assert (el_wg s = 0) as Hw.
  { destruct (el_wg s) as [|n] eqn:Hw; [done|].
    by destruct (Hst _ (os_return runs s n Hw ltac:(unfold childCtx_canceled; by rewrite Hc))). }
  assert (childLock_free s) as Hfree.
  { split; intros Hx; [by destruct (Hst _ (os_watch_waited runs s Hx Hw))|].
    by destruct (Hst _ (os_stopped_waited runs s Hx Hw)). }
  assert (el_watcher s = Done) as Hd.
  { destruct (el_watcher s) eqn:Hx; [|by destruct Hfree|done].
    by destruct (Hst _ (os_watch runs s Hc Hx Hfree)). }
  assert (el_phase s = Returned) as Hp.
  { specialize (H10 Hd). destruct (el_phase s) eqn:Hp; [|..|done].
    - by destruct (Hst _ (os_canceled runs s (or_introl Hp) H10)).
    - by destruct (Hst _ (os_canceled runs s (or_intror Hp) H10)).
    - destruct (el_stopper s) eqn:Hx.
      + by destruct (Hst _ (os_stopped runs s Hp Hx Hfree)).
      + by destruct (proj2 Hfree).
      + by apply H6. }
  split_and!; try done. destruct (el_starting s) eqn:Hx; [|done].
  by destruct (Hst _ (os_started runs s Hx Hfree)).
Qed.

(** Once the process is told to stop - by its context - everything ends: no
    goroutine of [LeaderElection] waits for ever, the runs return, and so does
    [LeaderElection]; it does not depend on the lease being acquired or lost. *)
Theorem election_ends runs :
  always_ends (election_step runs) (own_step runs) (λ s, el_ctx s = true → election_over s)
    LeaderElection_start.
Proof.
  apply (always_ends_invariant _ _ _ election_ok (work runs)).
  - intros s s' Hs Hok. split; [by eapply election_step_ok|by eapply election_step_work].
  - intros s Hok Hst. by eapply rest_over.
  - apply election_start_ok.
Qed.

(** If the lease is lost at once, the goroutine of [OnStartedLeading] may come after
    [OnStoppedLeading]: [LeaderElection] has returned, the lease is not held, and the
    runs go on. *)
Theorem runs_without_lease runs :
  ∃ s, rtc (election_step runs) LeaderElection_start s ∧
    el_phase s = Returned ∧ el_wg s = runs ∧ childCtx_canceled s = false.
Proof.
  eexists. split; [|split_and!].
  - eapply rtc_l; [by apply es_acquire|]. eapply rtc_l; [by apply es_lose|].
    eapply rtc_l; [by apply es_own, os_stopped|]. apply rtc_once. by apply es_own, os_started.
  - done.
  - cbn. lia.
  - done.
Qed.
