(* ===== verification/ProviderSetup.v ===== *)
(** * Loggers in contexts, and the providers built from the environment

    pkg/log/context.go, [AddKubeMetadataToLogger] of pkg/metacontext, and the
    construction of the two providers with their options. *)
From S2P Require Import Prelude Go Retry GoText K8s Types Provider ProviderMetrics Registry.
From S2P Require Import DigitalOcean Cloudflare.

(** What the program uses of logrus: [is_Entry] tells whether the dynamic type of a
    [FieldLogger] is [*Entry]; [WithField] is [WithFields] with one field. *)
Class Logrus : Type := {
  is_Entry : Ref → bool;
  log_WithContext : Context → Ref;
  log_WithFields : Ref → list (string * string) → Ref;
}.
Class LogrusLaws `{!Logrus} : Prop := {
  WithContext_Entry ctx : is_Entry (log_WithContext ctx) = true;
  WithFields_Entry l fs : is_Entry (log_WithFields l fs) = true;
}.

(** ** Loggers in contexts *)
Section log.
Context {C W : Type} `{!Logrus}.

(** A [nil] logger hides the one of the parent. *)
Definition AddToContext (ctx : Context) (logger : option Ref) : Context :=
  Context_ (ctx_metadata ctx) logger.
(** The type assertion panics on any logger that is not an entry. *)
Definition FromContext (ctx : Context) : M C W Ref :=
  match ctx_logger ctx with
  | None => mret (log_WithContext ctx)
  | Some log => if is_Entry log then mret log else panic
  end.
Definition AddKubeMetadataToLogger (ctx : Context) (ll : option Ref) : M C W Ref :=
  ll ← match ll with None => FromContext ctx | Some ll => mret ll end;
  let '(ok, namespace, name, kind) := KubeMetadataFromContext ctx in
  mret (if (ok : bool)
        then log_WithFields ll [("namespace", namespace); ("name", name); ("kind", kind)]
        else ll).
End log.

(** ** The environment and the clients

    [Getenv], the constants of the runtime, and the constructors of the clients: the
    token and the options they are given. *)
Inductive ClientOpt : Type := BaseURL (url : string) | UserAgent (agent : string).
Class Platform (W : Type) : Type := {
  Getenv : string → string;
  GOOS : string;
  GOARCH : string;
  godo_New : string → list ClientOpt → W → (Ref + error) * W;
  cloudflare_NewWithAPIToken : string → list ClientOpt → W → (Ref + error) * W;
}.

(** pkg/version *)
Definition Version : string := "dev".

(** A provider with its logger and its client. *)
Record built (C : Type) : Type := Built {
  b_state : C;
  b_log : option Ref;
  b_client : option Ref;
}.
Arguments Built {C}. Arguments b_state {C}. Arguments b_log {C}. Arguments b_client {C}.
Inductive provider : Type :=
  | DigitalOceanProvider (b : built digitalOcean)
  | CloudflareProvider (b : built Cloudflare.cloudflareDNS).
Definition provider_name (p : provider) : string :=
  match p with
  | DigitalOceanProvider _ => DigitalOceanName
  | CloudflareProvider _ => Cloudflare.GetProviderName
  end.
Definition serves_IPs (p : provider) : bool :=
  match p with DigitalOceanProvider _ => true | CloudflareProvider _ => false end.

(** The registry, and the providers by their pointers. *)
Record setup : Type := Setup {
  su_registry : Registry;
  su_objects : gmap Ref provider;
}.
Definition eta_setup (s : setup) : setup := Setup (su_registry s) (su_objects s).
#[export] Instance set_su_registry : Setter su_registry := ltac:(derive_setter eta_setup su_registry).
#[export] Instance set_su_objects : Setter su_objects := ltac:(derive_setter eta_setup su_objects).

Section providers.
Context {W : Type} `{!Logrus, !Platform W, !Prometheus W}.
Local Abbreviation M := (M setup W).

Definition defaultUserAgent : string :=
  "flipop/" +:+ Version +:+ " (" +:+ GOOS +:+ " " +:+ GOARCH +:+ ")".
Definition client_opts (urlVar agentVar : string) : list ClientOpt :=
  (if bool_decide (Getenv urlVar = "") then [] else [BaseURL (Getenv urlVar)]) ++
  [UserAgent (if bool_decide (Getenv agentVar = "") then defaultUserAgent else Getenv agentVar)].

(** An option is applied to the provider; it panics on a [nil] logger or on [nil]
    metrics. *)
Definition option_ (C : Type) : Type := built C → option (built C).
Definition apply_options {C} (opts : list (option_ C)) (b : built C) : option (built C) :=
  foldl (λ b o, b ≫= o) (Some b) opts.

Definition DigitalOceanWithLog (ll : option Ref) : option_ digitalOcean := λ d,
  ll ← ll; Some (Built (b_state d) (Some (log_WithFields ll [("provider", DigitalOceanName)])) (b_client d)).
Definition DigitalOceanWithMetrics (m : option metrics) : option_ digitalOcean := λ d,
  m ← m; Some (Built (digitalOceanWithMetrics m (b_state d)) (b_log d) (b_client d)).
Definition CloudflareWithLog (ll : option Ref) : option_ Cloudflare.cloudflareDNS := λ c,
  ll ← ll; Some (Built (b_state c) (Some (log_WithFields ll [("provider", CloudflareName)])) (b_client c)).
Definition CloudflareWithMetrics (m : option metrics) : option_ Cloudflare.cloudflareDNS := λ c,
  m ← m; Some (Built (Cloudflare.cloudflareWithMetrics m (b_state c)) (b_log c) (b_client c)).

(** [&digitalOcean{...}] *)
Definition alloc (p : provider) : M Ref :=
  objects ← gets su_objects;
  let ref := fresh (dom objects) in
  modify (λ s, s <| su_objects ::= <[ref := p]> |>) ;; mret ref.

Definition NewDigitalOcean (opts : list (option_ digitalOcean)) : M (Ref + error) :=
  let token := Getenv "DIGITALOCEAN_ACCESS_TOKEN" in
  d ← deref (apply_options opts (Built (DigitalOcean_ ∅ token None) None None));
  if bool_decide (do_token (b_state d) = "") then mret (inr errNoCredentials)
  else
    client ←? call (godo_New (do_token (b_state d))
                      (client_opts "DIGITALOCEAN_API_URL" "DIGITALOCEAN_USER_AGENT"));
    ref ← alloc (DigitalOceanProvider (Built (b_state d) (b_log d) (Some client)));
    mret (inl ref).
Definition NewCloudflare (opts : list (option_ Cloudflare.cloudflareDNS)) : M (Ref + error) :=
  let token := Getenv "CLOUDFLARE_TOKEN" in
  c ← deref (apply_options opts (Built (Cloudflare.CloudflareDNS token None) None None));
  if bool_decide (Cloudflare.token (b_state c) = "") then mret (inr errNoCredentials)
  else
    client ←? call (cloudflare_NewWithAPIToken (Cloudflare.token (b_state c))
                      (client_opts "CLOUDFLARE_API_URL" "CLOUDFLARE_USER_AGENT"));
    ref ← alloc (CloudflareProvider (Built (b_state c) (b_log c) (Some client)));
    mret (inl ref).

(** [r.providers[p.GetProviderName()] = p] *)
Definition register_new (name : string) (created : M (Ref + error)) : M (unit + error) :=
  p ←? created;
  modify (λ s, s <| su_registry ::= Registry.Register name p |>) ;;
  mret (inl tt).
Definition RegisterDigitalOcean (opts : list (option_ digitalOcean)) : M (unit + error) :=
  r ← gets su_registry;
  register_new DigitalOceanName
    (NewDigitalOcean ([DigitalOceanWithLog (reg_log r); DigitalOceanWithMetrics (reg_metrics r)] ++ opts)).
Definition RegisterCloudflare (opts : list (option_ Cloudflare.cloudflareDNS)) : M (unit + error) :=
  r ← gets su_registry;
  register_new Cloudflare.GetProviderName
    (NewCloudflare ([CloudflareWithLog (reg_log r); CloudflareWithMetrics (reg_metrics r)] ++ opts)).

(** An error other than [errNoCredentials] ends the initialisation. *)
Definition optional_provider (prefix : string) (m : M (unit + error)) : M (unit + error) :=
  r ← m;
  mret match r with
       | inl _ | inr errNoCredentials => inl tt
       | inr err => inr (WrapError prefix err)
       end.
Definition Init : M (unit + error) :=
  optional_provider "initializing digitalocean provider: " (RegisterDigitalOcean []) ;?
  optional_provider "initializing cloudflare provider: " (RegisterCloudflare []) ;?
  r ← gets su_registry;
  mret (if (size (reg_providers r) =? 0)%nat
        then inr (ErrorString "no providers initialized; set DIGITALOCEAN_ACCESS_TOKEN")
        else inl tt).
End providers.

(** ** Properties *)

(** Every logger a context can carry when only entries are added to it. *)
Definition entry_context `{!Logrus} (ctx : Context) : Prop :=
  ∀ log, ctx_logger ctx = Some log → is_Entry log = true.

Section log_props.
Context `{LogrusLaws} {C W : Type}.
Lemma Background_entries : entry_context Background.
Proof. done. Qed.
Lemma AddToContext_entries ctx l fs : entry_context (AddToContext ctx (Some (log_WithFields l fs))).
Proof. intros log [= <-]. apply WithFields_Entry. Qed.
Lemma WithKubeObject_entries ctx obj kind : entry_context ctx → entry_context (WithKubeObject ctx obj kind).
Proof. done. Qed.

(** Such a context always yields its logger, and only such a one. *)
Lemma FromContext_panics_iff (c : C) (w : W) ctx :
  FromContext ctx c w = Panic ↔ ¬ entry_context ctx.
Proof.
  unfold FromContext, entry_context. destruct (ctx_logger ctx) as [log|] eqn:Hl.
  - destruct (is_Entry log) eqn:He; cbn; split; try done.
    + intros Hn. destruct Hn. by intros log' [= <-].
    + intros _ Hn. specialize (Hn log eq_refl). congruence.
  - cbn. split; [done|]. intros Hn. by destruct Hn.
Qed.
(** The metadata is added to the logger that is given, or to the context's. *)
Lemma AddKubeMetadataToLogger_Entry (c : C) (w : W) ctx (ll : option Ref) :
  entry_context ctx → (∀ l, ll = Some l → is_Entry l = true) →
  wp False (AddKubeMetadataToLogger ctx ll) (λ l c' w', c' = c ∧ w' = w ∧ is_Entry l = true) c w.
Proof.
  intros Hc Hl. unfold AddKubeMetadataToLogger, KubeMetadataFromContext. apply wp_bind.
  eapply (wp_mono _ _ (λ l c' w', c' = c ∧ w' = w ∧ is_Entry l = true)).
  - intros l c' w' (-> & -> & He). destruct (ctx_metadata ctx); apply wp_ret; split_and!; try done.
    apply WithFields_Entry.
  - destruct ll as [l|]; [apply wp_ret; auto|]. unfold FromContext.
    destruct (ctx_logger ctx) as [l|] eqn:Hlog; [rewrite (Hc l Hlog); by apply wp_ret; auto|].
    apply wp_ret. split_and!; [done..|apply WithContext_Entry].
Qed.
End log_props.

(** Panics of the constructors: the initialisation needs a logger. *)
Lemma Init_needs_logger `{!Logrus, !Platform W, !Prometheus W} s (w : W) :
  reg_log (su_registry s) = None → Init s w = Panic.
Proof.
  intros Hl. unfold Init, or_return, optional_provider, RegisterDigitalOcean, register_new, or_return,
    NewDigitalOcean, mbind, M_bind, gets. cbn. by rewrite Hl.
Qed.

Class PlatformLaws (W : Type) `{!Platform W} : Prop := {
  godo_New_foreign token opts (w : W) w' : godo_New token opts w ≠ (inr errNoCredentials, w');
  cloudflare_New_foreign token opts (w : W) w' :
    cloudflare_NewWithAPIToken token opts w ≠ (inr errNoCredentials, w');
}.

Section setup_props.
Context {W : Type} `{!Logrus, !Platform W, !Prometheus W, !PlatformLaws W}.
Variables (log : Ref) (m : metrics).
Implicit Types (s : setup) (w : W).

Definition do_env : string := Getenv "DIGITALOCEAN_ACCESS_TOKEN".
Definition cf_env : string := Getenv "CLOUDFLARE_TOKEN".
Definition do_opts : list ClientOpt := client_opts "DIGITALOCEAN_API_URL" "DIGITALOCEAN_USER_AGENT".
Definition cf_opts : list ClientOpt := client_opts "CLOUDFLARE_API_URL" "CLOUDFLARE_USER_AGENT".

(** The providers as they are built, with the client the token gives.  The one of
    DigitalOcean has no metrics; that of Cloudflare has its own. *)
Definition do_provider (client : Ref) : provider :=
  DigitalOceanProvider (Built (DigitalOcean_ ∅ do_env None)
    (Some (log_WithFields log [("provider", DigitalOceanName)])) (Some client)).
Definition cf_provider (client : Ref) : provider :=
  CloudflareProvider (Built (Cloudflare.CloudflareDNS cf_env (Some (withProvider m CloudflareName)))
    (Some (log_WithFields log [("provider", CloudflareName)])) (Some client)).
Definition do_client (client : Ref + error) : Prop := ∃ w w', godo_New do_env do_opts w = (client, w').
Definition cf_client (client : Ref + error) : Prop :=
  ∃ w w', cloudflare_NewWithAPIToken cf_env cf_opts w = (client, w').

Definition registered (name : string) (p : Ref) (o : provider) s : setup :=
  s <| su_objects ::= <[p := o]> |> <| su_registry ::= Registry.Register name p |>.
(** What registering a provider does. *)
Definition outcome_of (name token : string) (client : Ref + error → Prop) (obj : Ref → provider) s
    (r : unit + error) s' : Prop :=
  match r with
  | inl _ => token ≠ "" ∧ ∃ p c, su_objects s !! p = None ∧ client (inl c) ∧ s' = registered name p (obj c) s
  | inr err => s' = s ∧ (token = "" ∧ err = errNoCredentials ∨
                         token ≠ "" ∧ err ≠ errNoCredentials ∧ client (inr err))
  end.

Definition equipped s : Prop := reg_log (su_registry s) = Some log ∧ reg_metrics (su_registry s) = Some m.

Lemma fresh_object s : su_objects s !! fresh (dom (su_objects s)) = None.
Proof. apply not_elem_of_dom, is_fresh. Qed.

Lemma RegisterDigitalOcean_spec s w : equipped s →
  wp False (RegisterDigitalOcean [])
    (λ r s' _, outcome_of DigitalOceanName do_env do_client do_provider s r s') s w.
Proof.
  intros [Hl Hm]. unfold RegisterDigitalOcean. wp_steps. rewrite Hl, Hm. unfold register_new.
  apply wp_or_return. unfold NewDigitalOcean. wp_steps.
  eapply wp_deref_some; [reflexivity|].
  case_bool_decide as Ht; [by apply wp_ret; split; [|left]|]. apply wp_or_return. cbn in Ht.
  apply wp_call. intros [c|err] w' Hc; wp_steps.
  - unfold alloc. wp_steps. split; [done|]. exists (fresh (dom (su_objects s))), c.
    split; [apply fresh_object|]. split; [by exists w, w'|done].
  - split; [done|]. right. split; [done|]. split; [|by exists w, w'].
    intros ->. by eapply godo_New_foreign.
Qed.
Lemma RegisterCloudflare_spec s w : equipped s →
  wp False (RegisterCloudflare [])
    (λ r s' _, outcome_of CloudflareName cf_env cf_client cf_provider s r s') s w.
Proof.
  intros [Hl Hm]. unfold RegisterCloudflare. wp_steps. rewrite Hl, Hm. unfold register_new.
  apply wp_or_return. unfold NewCloudflare. wp_steps.
  eapply wp_deref_some; [reflexivity|].
  case_bool_decide as Ht; [by apply wp_ret; split; [|left]|]. apply wp_or_return. cbn in Ht.
  apply wp_call. intros [c|err] w' Hc; wp_steps.
  - unfold alloc. wp_steps. split; [done|]. exists (fresh (dom (su_objects s))), c.
    split; [apply fresh_object|]. split; [by exists w, w'|done].
  - split; [done|]. right. split; [done|]. split; [|by exists w, w'].
    intros ->. by eapply cloudflare_New_foreign.
Qed.

(** A provider without a token is left out. *)
Definition tried (name token : string) (client : Ref + error → Prop) (obj : Ref → provider) prefix s
    (r : unit + error) s' : Prop :=
  match r with
  | inl _ => token = "" ∧ s' = s ∨
      token ≠ "" ∧ ∃ p c, su_objects s !! p = None ∧ client (inl c) ∧ s' = registered name p (obj c) s
  | inr err => ∃ e, err = WrapError prefix e ∧ token ≠ "" ∧ client (inr e)
  end.
Lemma optional_spec name token client obj prefix (reg : M setup W (unit + error)) s w :
  wp False reg (λ r s' _, outcome_of name token client obj s r s') s w →
  wp False (optional_provider prefix reg) (λ r s' _, tried name token client obj prefix s r s') s w.
Proof.
  intros Hr. unfold optional_provider. wp_steps. eapply wp_mono; [|exact Hr].
  intros [[]|err] s' w'; wp_steps; cbn; [by right|].
  intros [-> [[? ->]|(Ht & Hne & Hc)]]; wp_steps; [by left|]. destruct err; cbn; eauto 6; done.
Qed.

Lemma registered_equipped name p o s : equipped s → equipped (registered name p o s).
Proof. done. Qed.
Lemma lookup_registered name p o s name' :
  reg_providers (su_registry (registered name p o s)) !! name' =
    if decide (name' = name) then Some p else reg_providers (su_registry s) !! name'.
Proof.
  cbn. case_decide as Hn; [by rewrite Hn, lookup_insert_eq|by rewrite lookup_insert_ne].
Qed.
Lemma registered_size name p o s :
  (size (reg_providers (su_registry (registered name p o s))) =? 0)%nat = false.
Proof. apply Nat.eqb_neq, map_size_non_empty_iff, insert_non_empty. Qed.
End setup_props.

(** C22: the providers are those the environment has tokens for.  Started with a
    logger, the initialisation returns; if it succeeds at least one token is set, and
    the registry has DigitalOcean if and only if there is a token for it, and
    Cloudflare likewise, and no other provider; each was built with its token and its
    client, the logger of its own, and only Cloudflare with metrics.  If it fails
    there is no token at all, or the client of a provider whose token is set could
    not be built. *)
Theorem providers_from_environment `{!Logrus, !Platform W, !Prometheus W, !PlatformLaws W}
    (log : Ref) (m : metrics) (w : W) :
  wp False Init (λ r s' _,
    match r with
    | inl _ =>
        (do_env ≠ "" ∨ cf_env ≠ "") ∧
        (∀ name, is_Some (Registry.Get (su_registry s') name) ↔
           name = DigitalOceanName ∧ do_env ≠ "" ∨ name = CloudflareName ∧ cf_env ≠ "") ∧
        (do_env ≠ "" → ∃ p c, Registry.Get (su_registry s') DigitalOceanName = Some p ∧
           su_objects s' !! p = Some (do_provider log c) ∧ do_client (inl c)) ∧
        (cf_env ≠ "" → ∃ p c, Registry.Get (su_registry s') CloudflareName = Some p ∧
           su_objects s' !! p = Some (cf_provider log m c) ∧ cf_client (inl c))
    | inr err =>
        do_env = "" ∧ cf_env = "" ∧
          err = ErrorString "no providers initialized; set DIGITALOCEAN_ACCESS_TOKEN" ∨
        (∃ e, err = WrapError "initializing digitalocean provider: " e ∧ do_env ≠ "" ∧ do_client (inr e)) ∨
        (∃ e, err = WrapError "initializing cloudflare provider: " e ∧ cf_env ≠ "" ∧ cf_client (inr e))
    end) (Setup (Registry.NewRegistry m [Registry.WithLogger (Some log)]) ∅) w.
Proof.
  unfold Init. apply wp_or_return. eapply wp_mono; [|by apply optional_spec, (RegisterDigitalOcean_spec log m)].
  intros [[]|err] s1 w1; [|intros (e & -> & ? & ?); cbn; right; left; eauto].
  intros H1. apply or_done_inl, wp_or_return.
  assert (equipped log m s1) as He by (destruct H1 as [[_ ->]|(_ & p & c & _ & _ & ->)]; done).
  eapply wp_mono; [|by apply optional_spec, (RegisterCloudflare_spec log m)].
  intros [[]|err] s2 w2; [|intros (e & -> & ? & ?); cbn; right; right; eauto].
  intros H2. wp_steps. unfold Registry.Get.
  assert (DigitalOceanName ≠ CloudflareName) as Hn by done.
  destruct H1 as [[Hd ->]|(Hd & p & c & _ & Hc & ->)];
    destruct H2 as [[Hf ->]|(Hf & q & c' & Hq & Hc' & ->)];
    [by left|rewrite registered_size; split; [auto|]; split; [intros name|]; rewrite ?lookup_registered..].
  - cbn. rewrite lookup_empty. case_decide; [|split; [by intros []|naive_solver]].
    split; [auto|by eexists].
  - split; [done|]. intros _. exists q, c'. cbn. rewrite !lookup_insert_eq. eauto.
  - cbn. rewrite lookup_empty. case_decide; [|split; [by intros []|naive_solver]].
    split; [auto|by eexists].
  - split; [|done]. intros _. exists p, c. cbn. rewrite !lookup_insert_eq. eauto.
  - cbn. rewrite lookup_empty. destruct (decide (name = CloudflareName)) as [->|?].
    { split; [intros _; right; by split|by eexists]. }
    destruct (decide (name = DigitalOceanName)) as [->|?]; [split; [intros _; left; by split|by eexists]|].
    split; [by intros []|naive_solver].
  - split; intros _.
    + exists p, c. rewrite decide_False, decide_True by done.
      split; [done|]. split; [|done]. cbn in *.
      assert (p ≠ q) by (intros ->; by rewrite lookup_insert_eq in Hq).
      by rewrite lookup_insert_ne, lookup_insert_eq.
    + exists q, c'. rewrite decide_True by done. cbn. by rewrite lookup_insert_eq.
Qed.

(** An environment with a token for DigitalOcean only. *)
Module SetupExample.
#[export] Instance logrus : Logrus := {|
  is_Entry l := negb (bool_decide (l = 1%positive));
  log_WithContext _ := 2%positive;
  log_WithFields l _ := 3%positive;
|}.
#[export] Instance platform : Platform unit := {|
  Getenv v := if bool_decide (v = "DIGITALOCEAN_ACCESS_TOKEN") then "secret" else "";
  GOOS := "linux";
  GOARCH := "amd64";
  godo_New _ _ w := (inl 5%positive, w);
  cloudflare_NewWithAPIToken _ _ w := (inr (ErrorString "invalid"), w);
|}.
#[export] Instance prometheus : Prometheus unit := {|
  MustCurryWith r _ := r; With_Inc _ _ w := (tt, w); With_Observe _ _ _ w := (tt, w) |}.
#[export] Instance platform_laws : PlatformLaws unit.
Proof. by split. Qed.
Definition result := Init (W := unit)
  (Setup (Registry.NewRegistry (Metrics 6%positive 7%positive) [Registry.WithLogger (@Some Ref 3%positive)]) ∅) tt.
Definition after : setup := match result with Ret (_, s, _) => s | _ => Setup (Registry_ ∅ None None) ∅ end.
Lemma succeeds : result = Ret (inl tt, after, tt).
Proof. vm_compute. reflexivity. Qed.
End SetupExample.
Import SetupExample.

Lemma providers_from_environment_witness :
  client_opts (W := unit) "DIGITALOCEAN_API_URL" "DIGITALOCEAN_USER_AGENT" =
    [UserAgent "flipop/dev (linux amd64)"] ∧
  (∀ name, is_Some (Registry.Get (su_registry SetupExample.after) name) ↔
     name = DigitalOceanName ∧ do_env (W := unit) ≠ "" ∨ name = CloudflareName ∧ cf_env (W := unit) ≠ "").
Proof.
  split; [vm_compute; reflexivity|].
  pose proof (providers_from_environment (W := unit) 3%positive (Metrics 6%positive 7%positive) tt) as Hwp.
  pose proof SetupExample.succeeds as Hs. unfold SetupExample.result in Hs.
  unfold wp in Hwp. rewrite Hs in Hwp. exact (proj1 (proj2 Hwp)).
Defined.
