(* ===== verification/Command.v ===== *)
(** * cmd/flipop/main.go

    The start-up of the process, with the construction of the controllers, of the
    clients and of the collectors it registers, and the two signals that end it.
    The libraries it sets up - prometheus, client-go, the elector - are part of the
    world. *)
From S2P Require Import Prelude Go Retry GoText K8s Types Provider ProviderMetrics Registry.
From S2P Require NodeMatch Pool NodeDNS PoolMetrics.
From S2P Require Import LeaderElection ProviderSetup.

(** ** The clientset (generated/clientset/versioned) *)

(** The fields of a [rest.Config] that are read or set. *)
Record restConfig : Type := RestConfig {
  cfg_RateLimiter : option Ref;
  cfg_QPS : spec_float;
  cfg_Burst : Z;
  cfg_GroupVersion : option (string * string);
  cfg_APIPath : string;
  cfg_NegotiatedSerializer : option Ref;
  cfg_UserAgent : string;
}.
Definition eta_restConfig (c : restConfig) : restConfig :=
  RestConfig (cfg_RateLimiter c) (cfg_QPS c) (cfg_Burst c) (cfg_GroupVersion c) (cfg_APIPath c)
    (cfg_NegotiatedSerializer c) (cfg_UserAgent c).
#[export] Instance set_cfg_RateLimiter : Setter cfg_RateLimiter := ltac:(derive_setter eta_restConfig cfg_RateLimiter).
#[export] Instance set_cfg_GroupVersion : Setter cfg_GroupVersion := ltac:(derive_setter eta_restConfig cfg_GroupVersion).
#[export] Instance set_cfg_APIPath : Setter cfg_APIPath := ltac:(derive_setter eta_restConfig cfg_APIPath).
#[export] Instance set_cfg_NegotiatedSerializer : Setter cfg_NegotiatedSerializer := ltac:(derive_setter eta_restConfig cfg_NegotiatedSerializer).
#[export] Instance set_cfg_UserAgent : Setter cfg_UserAgent := ltac:(derive_setter eta_restConfig cfg_UserAgent).

(** The constructors of client-go. *)
Class ClientGo (W : Type) : Type := {
  NewTokenBucketRateLimiter : spec_float → Z → Ref;
  Codecs_WithoutConversion : Ref;
  DefaultKubernetesUserAgent : string;
  RESTClientFor : restConfig → W → (Ref + error) * W;
  NewDiscoveryClientForConfig : restConfig → W → (Ref + error) * W;
  kubernetes_NewForConfig : restConfig → W → (Ref + error) * W;
}.

Record Clientset : Type := Clientset_ { cs_flipopV1alpha1 : Ref; cs_DiscoveryClient : Ref }.

Section clientset.
Context {W : Type} `{!ClientGo W} {C : Type}.

Definition setConfigDefaults (config : restConfig) : restConfig :=
  let config := config <| cfg_GroupVersion := Some SchemeGroupVersion |>
                       <| cfg_APIPath := "/apis" |>
                       <| cfg_NegotiatedSerializer := Some Codecs_WithoutConversion |> in
  if bool_decide (cfg_UserAgent config = "")
  then config <| cfg_UserAgent := DefaultKubernetesUserAgent |> else config.
Definition flipopv1alpha1_NewForConfig (c : restConfig) : M C W (Ref + error) :=
  call (RESTClientFor (setConfigDefaults c)).

Definition positive_float (f : spec_float) : bool := SFltb (S754_zero false) f.
Definition limitedConfig (c : restConfig) : restConfig + error :=
  if bool_decide (cfg_RateLimiter c = None) && positive_float (cfg_QPS c) then
    if (cfg_Burst c <=? 0)%Z
    then inr (ErrorString "burst is required to be greater than 0 when RateLimiter is not set and QPS is set to greater than 0")
    else inl (c <| cfg_RateLimiter := Some (NewTokenBucketRateLimiter (cfg_QPS c) (cfg_Burst c)) |>)
  else inl c.
Definition Clientset_NewForConfig (c : restConfig) : M C W (Clientset + error) :=
  match limitedConfig c with
  | inr err => mret (inr err)
  | inl config =>
      flipop ← flipopv1alpha1_NewForConfig config;
      match flipop with
      | inr err => mret (inr err)
      | inl flipop =>
          disc ← call (NewDiscoveryClientForConfig config);
          match disc with
          | inr err => mret (inr err)
          | inl disc => mret (inl (Clientset_ flipop disc))
          end
      end
  end.
End clientset.

(** ** The collectors *)

(** The two vectors of the provider calls, and the vector of the record sets. *)
Definition provider_desc (name : string) (labels : list string) : PoolMetrics.Desc :=
  PoolMetrics.NewDesc "flipop" "providers" name labels.
Definition callsTotalDesc : PoolMetrics.Desc :=
  provider_desc "calls_total" ["provider"; "call"; "outcome"; "kind"; "namespace"; "name"].
Definition callLatencyDesc : PoolMetrics.Desc :=
  provider_desc "call_duration_seconds" ["provider"; "call"; "kind"; "namespace"; "name"].
Definition recordsOpts : PoolMetrics.Desc :=
  PoolMetrics.NewDesc "flipop" "nodednsrecordset" "records" ["namespace"; "name"; "provider"; "dns"].

(** [NewCounterVec], [NewHistogramVec], [NewGaugeVec], and what a vector describes; the
    names of the process and Go collectors. [Register] and [BuildFQName] are those of
    prometheus. *)
Class PromRegistry (W : Type) : Type := {
  NewVec : PoolMetrics.Desc → Ref;
  Vec_Describe : Ref → list PoolMetrics.Desc;
  runtimeNames : list string;
  FQName : PoolMetrics.Desc → string;
  Register_names : list string → W → option error * W;
}.

Section collectors.
Context {W : Type} `{!PromRegistry W}.
Definition initMetrics : metrics := Metrics (NewVec callsTotalDesc) (NewVec callLatencyDesc).
(** [Registry.Describe]; it dereferences the metrics. *)
Definition Registry_Describe (r : Registry) : option (list PoolMetrics.Desc) :=
  m ← reg_metrics r; Some (Vec_Describe (callLatency m) ++ Vec_Describe (callsTotal m)).
(** [Controller.Describe] of the node DNS controller. *)
Definition NodeDNS_Describe (metricRecords : Ref) : list PoolMetrics.Desc := Vec_Describe metricRecords.
(** [promRegistry.Register] of a collector with these descriptors. *)
Definition Register {C} (descs : list PoolMetrics.Desc) : M C W (unit + error) :=
  err ← call (Register_names (FQName <$> descs));
  mret match err with Some e => inr e | None => inl tt end.
End collectors.

(** What a vector holds, as prometheus hands it out; each metric has a descriptor. *)
Class PromCollect (W : Type) : Type := {
  Vec_Collect : Ref → W → list Ref * W;
  metric_Desc : Ref → PoolMetrics.Desc;
}.
Section collect.
Context {W : Type} `{!PromRegistry W, !PromCollect W} {C : Type}.
(** [Registry.Collect], and [Controller.Collect] of the node DNS controller: what is
    sent to the channel, in order. *)
Definition Registry_Collect (r : Registry) : M C W (list Ref) :=
  m ← deref (reg_metrics r);
  latencies ← call (Vec_Collect (callLatency m));
  totals ← call (Vec_Collect (callsTotal m));
  mret (latencies ++ totals).
Definition NodeDNS_Collect (metricRecords : Ref) : M C W (list Ref) := call (Vec_Collect metricRecords).

(** A registry that checks the collectors accepts them: what is collected was
    described, if that is so for a vector. *)
Definition collects_described : Prop := ∀ v (w : W) x,
  x ∈ (Vec_Collect v w).1 → metric_Desc x ∈ Vec_Describe v.
Lemma Registry_Collect_described (r : Registry) (c : C) w descs : collects_described →
  Registry_Describe r = Some descs →
  wp False (Registry_Collect r) (λ ms _ _, ∀ x, x ∈ ms → metric_Desc x ∈ descs) c w.
Proof.
  intros Hc Hd. unfold Registry_Describe in Hd. unfold Registry_Collect.
  destruct (reg_metrics r) as [m|]; [|done]. injection Hd as <-. wp_steps.
  apply wp_call. intros l w1 Hl. wp_steps. apply wp_call. intros t w2 Ht. wp_steps.
  intros x [Hx|Hx]%elem_of_app; apply elem_of_app; [left; eapply Hc; by rewrite Hl|right; eapply Hc; by rewrite Ht].
Qed.
End collect.

(** ** Before [runMain]

    The flags with their defaults, [init], and the settings of the logger. *)
Record flags : Type := Flags { fl_debug : bool; fl_kubeconfig : string; fl_metricsBindAddr : string }.
Definition default_flags : flags := Flags false "" ":8080".
Inductive logLevel : Type := InfoLevel | DebugLevel.
Inductive logFormat : Type := JSONFormatter | TextFormatter.
Definition PersistentPreRun (debug terminal : bool) (settings : logLevel * logFormat) : logLevel * logFormat :=
  let settings := if debug then (DebugLevel, settings.2) else settings in
  if terminal then (settings.1, TextFormatter) else settings.
(** [init]; [signalContext] adds no value to the context. *)
Definition init_settings : logLevel * logFormat := (InfoLevel, JSONFormatter).
Definition init {C W} `{!Logrus} : M C W (Ref * Context) :=
  log ← FromContext Background;
  let log := log_WithFields log [("version", Version)] in
  mret (log, AddToContext Background (Some log)).

(** So every context of the program yields its logger. *)
Lemma init_context {C W} `{LogrusLaws} (c : C) (w : W) :
  wp False init (λ r _ _, entry_context r.2 ∧ ctx_logger r.2 = Some r.1) c w.
Proof.
  unfold init, FromContext. wp_steps. split; [|done]. apply (AddToContext_entries Background).
Qed.

(** ** The process *)

(** What [os.Exit] was called with, and what was printed. *)
Record Exit : Type := Exit_ { exit_status : Z; exit_output : string }.
(** The functions [LeaderElection] runs while it holds the lease. *)
Inductive run : Type := RunPools | RunNodeDNS.
Record election_config : Type := ElectionConfig {
  ec_namespace : string;
  ec_resource : string;
  ec_client : Ref;
  ec_runs : list run;
}.
(** The goroutine of the metrics server, and the elector that was started. *)
Record process : Type := Process {
  pr_server : option string;
  pr_elector : option election_config;
}.
Definition eta_process (p : process) : process := Process (pr_server p) (pr_elector p).
#[export] Instance set_pr_server : Setter pr_server := ltac:(derive_setter eta_process pr_server).
#[export] Instance set_pr_elector : Setter pr_elector := ltac:(derive_setter eta_process pr_elector).
Definition process_start : process := Process None None.

(** What the elector is set up with; its callbacks are those of LeaderElection.v. *)
Record LeaderElectionConfig : Type := LeaderElectionConfig_ {
  le_Lock : Ref;
  le_LeaseDuration : Duration;
  le_RenewDeadline : Duration;
  le_RetryPeriod : Duration;
  le_ReleaseOnCancel : bool;
}.
(** The loaded kubeconfig, the elector; [elector_Run] returns when the elector has
    stopped. *)
Class Startup (W : Type) : Type := {
  config_ClientConfig : W → (restConfig + error) * W;
  config_Namespace : W → (string + error) * W;
  os_Hostname : W → (string + error) * W;
  uuid_NewUUID : W → string * W;
  resourcelock_New : string → string → Ref → string → W → (Ref + error) * W;
  NewLeaderElector : LeaderElectionConfig → W → (Ref + error) * W;
  elector_Run : Ref → W → unit * W;
}.

Definition leaderElectionResource : string := "floating-ip-pool-controller-leader-election".
Definition newline : string := String (Ascii.ascii_of_nat 10) EmptyString.

Section command.
Context {W : Type} `{!NodeMatch.KubeAPI, !ClientGo W, !PromRegistry W, !Startup W, !BaseProvider W}.
Abbreviation M := (Go.M process W).

(** [floatingip.NewController] and [nodedns.NewController]. *)
Definition buildClients : M (Ref * Clientset + error) :=
  config ← call config_ClientConfig;
  match config with
  | inr _ => mret (inr (ErrorString "building kubernetes client config"))
  | inl config =>
      kubeCS ← call (kubernetes_NewForConfig config);
      match kubeCS with
      | inr err => mret (inr (WrapError "building kubernetes clientset: " err))
      | inl kubeCS =>
          flipopCS ← Clientset_NewForConfig config;
          match flipopCS with
          | inr err => mret (inr (WrapError "building flipop clientset: " err))
          | inl flipopCS => mret (inl (kubeCS, flipopCS))
          end
      end
  end.
Definition floatingip_NewController (providers : Registry) : M (Pool.Pool.Controller + error) :=
  clients ← buildClients;
  mret match clients with
       | inr err => inr err
       | inl _ => inl (Pool.Pool.NewController providers)
       end.
Definition nodedns_NewController (providers : Registry) : M (NodeDNS.Parent.Controller * Ref + error) :=
  let metricRecords := NewVec recordsOpts in
  clients ← buildClients;
  mret match clients with
       | inr err => inr err
       | inl _ => inl (NodeDNS.Parent.NewController providers metricRecords, metricRecords)
       end.

(** The set-up of [LeaderElection], whose error it returns, and its run. *)
Definition LeaderElection (namespace resourceName : string) (client : Ref) (runs : list run)
    : M (option error) :=
  hostname ← call os_Hostname;
  match hostname with
  | inr err => mret (Some err)
  | inl hostname =>
      uuid ← call uuid_NewUUID;
      let id := hostname +:+ "_" +:+ uuid in
      rl ← call (resourcelock_New namespace resourceName client id);
      match rl with
      | inr err => mret (Some err)
      | inl rl =>
          l ← call (NewLeaderElector
                      (LeaderElectionConfig_ rl (15 * Second) (10 * Second) (2 * Second) true));
          match l with
          | inr err => mret (Some err)
          | inl l =>
              modify (λ p, p <| pr_elector :=
                                  Some (ElectionConfig namespace resourceName client runs) |>) ;;
              call (elector_Run l) ;;
              mret None
          end
      end
  end.

(** [fmt.Fprintf(os.Stdout, ...); os.Exit(1)] on an error. *)
Definition or_exit {A} (message : string) (m : M (A + error)) : M (A + Exit) :=
  r ← m;
  mret match r with
       | inl a => inl a
       | inr err => inr (Exit_ 1 (message +:+ Error err +:+ newline))
       end.

(** [digitalocean] and [cloudflare] are what the constructors of the providers answer. *)
Definition runMain (log : Ref) (digitalocean cloudflare : Ref + error) (healthBindAddr : string)
    : M (unit + Exit) :=
  err ← call (Register_names runtimeNames);
  (if err is Some _ then panic else mret tt) ;;
  let '(err, providers) :=
    Registry.Init digitalocean cloudflare (Registry.NewRegistry initMetrics [Registry.WithLogger (Some log)]) in
  or_exit "" (mret (match err with Some e => inr e | None => inl tt end)) ;?
  descs ← deref (Registry_Describe providers);
  or_exit "Failed to register providers with prometheus: " (Register descs) ;?
  flipCtrl ←? or_exit "Failed to create Floating IP Pool controller: "
                (floatingip_NewController providers);
  or_exit "Failed to register Floating IP Pool controller with prometheus: "
    (Register PoolMetrics.Describe) ;?
  nodednsCtrl ←? or_exit "Failed to create NodeDNSRecordSet controller: "
                   (nodedns_NewController providers);
  or_exit "Failed to register NodeDNSRecordSet controller with prometheus: "
    (Register (NodeDNS_Describe nodednsCtrl.2)) ;?
  ns ←? or_exit "determining kubernetes namespace: " (call config_Namespace);
  clientConfig ←? or_exit "building kubernetes client config: " (call config_ClientConfig);
  kubeCS ←? or_exit "creating kubernetes client: " (call (kubernetes_NewForConfig clientConfig));
  (if bool_decide (healthBindAddr = "") then mret tt
   else modify (λ p, p <| pr_server := Some healthBindAddr |>)) ;;
  _ ← LeaderElection ns leaderElectionResource kubeCS [RunPools; RunNodeDNS];
  mret (inl tt).

(** The exit status of the process, when [runMain] returns or exits. *)
Definition exit_code (r : unit + Exit) : Z := match r with inl _ => 0 | inr e => exit_status e end.
End command.

(** ** Start-up *)

(** [healthy]: every constructor answers; [registered]: the names known to the registry
    of collectors. *)
Class StartupGhost (W : Type) : Type := { healthy : W → Prop; registered : W → list string }.

Definition is_inl {A B} (s : A + B) : Prop := match s with inl _ => True | inr _ => False end.

Section laws.
Context {W : Type} `{!StartupGhost W}.
Definition answers {A} (ok : A → Prop) (op : W → (A + error) * W) : Prop :=
  ∀ w, healthy w → ∃ a w', op w = (inl a, w') ∧ ok a ∧ healthy w' ∧ registered w' = registered w.

Lemma wp_answers {C A} (ok : A → Prop) op (Q : A + error → C → W → Prop) c w :
  answers ok op → healthy w →
  (∀ a w', ok a → healthy w' → registered w' = registered w → Q (inl a) c w') →
  wp False (call op) Q c w.
Proof.
  intros Ha Hw HQ. destruct (Ha w Hw) as (a & w' & Hop & Hok & Hh & Hr).
  apply wp_call. intros r w1 Heq. rewrite Hop in Heq. simplify_eq. by apply HQ.
Qed.
End laws.

(** The durations an elector accepts: the lease outlives its renewal, which is retried
    with a jitter of 1.2. *)
Definition valid_durations (l : LeaderElectionConfig) : Prop :=
  (le_RenewDeadline l < le_LeaseDuration l ∧ 6 * le_RetryPeriod l < 5 * le_RenewDeadline l ∧
   0 < le_RetryPeriod l)%Z.

(** What is documented of prometheus and client-go: a collector is registered if none
    of its names is; a name joins its parts; a vector describes its own descriptor; the
    collectors of the process and of the Go runtime have names of their own. *)
Class StartupLaws (W : Type) `{!StartupGhost W, !ClientGo W, !PromRegistry W, !Startup W} : Prop := {
  ok_ClientConfig : answers (λ c, is_inl (limitedConfig c)) config_ClientConfig;
  ok_Namespace : answers (λ _, True) config_Namespace;
  ok_RESTClient c : answers (λ _, True) (RESTClientFor c);
  ok_Discovery c : answers (λ _, True) (NewDiscoveryClientForConfig c);
  ok_kubernetes c : answers (λ _, True) (kubernetes_NewForConfig c);
  ok_Hostname : answers (λ _, True) os_Hostname;
  ok_UUID w : healthy w → healthy (uuid_NewUUID w).2 ∧ registered (uuid_NewUUID w).2 = registered w;
  ok_resourcelock n r c i : answers (λ _, True) (resourcelock_New n r c i);
  ok_Elector l : valid_durations l → answers (λ _, True) (NewLeaderElector l);
  ok_Register names w : healthy w → NoDup names → (∀ n, n ∈ names → n ∉ registered w) →
    ∃ w', Register_names names w = (None, w') ∧ healthy w' ∧ registered w' = registered w ++ names;
  ok_Run l w : registered (elector_Run l w).2 = registered w;
  Vec_describes d : Vec_Describe (NewVec d) = [d];
  FQName_joins d : PoolMetrics.desc_namespace d ≠ "" → PoolMetrics.desc_subsystem d ≠ "" →
    PoolMetrics.desc_name d ≠ "" →
    FQName d = PoolMetrics.desc_namespace d +:+ "_" +:+ PoolMetrics.desc_subsystem d +:+ "_" +:+
               PoolMetrics.desc_name d;
  runtime_nodup : NoDup runtimeNames;
  runtime_own : Forall (λ n, strip_prefix "flipop_" n = None) runtimeNames;
}.

(** The names the program registers, in order. *)
Definition flipopNames : list (list string) :=
  [["flipop_providers_call_duration_seconds"; "flipop_providers_calls_total"];
   ["flipop_floatingippoolcontroller_node_status"; "flipop_floatingippoolcontroller_ip_assignment_errors";
    "flipop_floatingippoolcontroller_ip_assignments"; "flipop_floatingippoolcontroller_ip_node";
    "flipop_floatingippoolcontroller_ip_state"; "flipop_floatingippoolcontroller_unfulfilled_ips"];
   ["flipop_nodednsrecordset_records"]].

Section startup.
Context {W : Type} `{!NodeMatch.KubeAPI, !BaseProvider W} `{StartupLaws W}.
Implicit Types (w : W).

Lemma wp_or_exit {A} E msg (m : M process W (A + error)) (Q : A + Exit → process → W → Prop) p w :
  wp E m (λ r p' w', Q (match r with
                        | inl a => inl a
                        | inr err => inr (Exit_ 1 (msg +:+ Error err +:+ newline))
                        end) p' w') p w →
  wp E (or_exit msg m) Q p w.
Proof. intros Hm. unfold or_exit. wp_steps. eapply wp_mono; [|exact Hm]. intros. by wp_steps. Qed.

Lemma buildClients_ok p w : healthy w →
  wp False buildClients (λ r p' w', p' = p ∧ healthy w' ∧ registered w' = registered w ∧ is_inl r) p w.
Proof.
  intros Hw. unfold buildClients, Clientset_NewForConfig, flipopv1alpha1_NewForConfig. wp_steps.
  eapply wp_answers; [apply ok_ClientConfig|done|]. intros c w1 Hc H1 Hr1. wp_steps.
  eapply wp_answers; [apply ok_kubernetes|done|]. intros k w2 _ H2 Hr2. wp_steps.
  change (is_inl (limitedConfig c)) in Hc. destruct (limitedConfig c) as [c'|]; [|by destruct Hc]. wp_steps.
  eapply wp_answers; [apply ok_RESTClient|done|]. intros f w3 _ H3 Hr3. wp_steps.
  eapply wp_answers; [apply ok_Discovery|done|]. intros d w4 _ H4 Hr4. wp_steps.
  split_and!; [done..|congruence|done].
Qed.

Lemma Register_ok descs p w : healthy w → NoDup (FQName <$> descs) →
  (∀ n, n ∈ FQName <$> descs → n ∉ registered w) →
  wp False (Register descs) (λ (r : unit + error) (p' : process) w', r = inl tt ∧ p' = p ∧ healthy w' ∧
    registered w' = registered w ++ (FQName <$> descs)) p w.
Proof.
  intros Hw Hnd Hn. unfold Register. wp_steps.
  destruct (ok_Register _ w Hw Hnd Hn) as (w' & Hr & Hw' & Hreg).
  apply wp_call. intros r w1 Heq. rewrite Hr in Heq. simplify_eq. by wp_steps.
Qed.

(** The election is set up and run. *)
Lemma LeaderElection_ok ns res client runs p w : healthy w →
  wp False (LeaderElection ns res client runs) (λ r p' w', r = None ∧
    p' = p <| pr_elector := Some (ElectionConfig ns res client runs) |> ∧
    registered w' = registered w) p w.
Proof.
  intros Hw. unfold LeaderElection. wp_steps.
  eapply wp_answers; [apply ok_Hostname|done|]. intros h w1 _ H1 Hr1. wp_steps.
  apply wp_call. intros u wu Hu. pose proof (ok_UUID w1 H1) as [Hhu Hru].
  rewrite Hu in Hhu, Hru. cbn in Hhu, Hru. wp_steps.
  eapply wp_answers; [apply ok_resourcelock|done|]. intros l w2 _ H2 Hr2. wp_steps.
  eapply wp_answers; [by apply ok_Elector|done|]. intros e w3 _ H3 Hr3. wp_steps.
  apply wp_call. intros [] w4 Heq. wp_steps. split_and!; [done..|].
  pose proof (ok_Run e w3) as Hr. rewrite Heq in Hr. cbn in Hr. congruence.
Qed.

Lemma FQNames_providers :
  FQName <$> [callLatencyDesc; callsTotalDesc] = ["flipop_providers_call_duration_seconds"; "flipop_providers_calls_total"].
Proof. cbn. by rewrite !FQName_joins. Qed.
Lemma FQNames_pools : FQName <$> PoolMetrics.Describe =
  ["flipop_floatingippoolcontroller_node_status"; "flipop_floatingippoolcontroller_ip_assignment_errors";
   "flipop_floatingippoolcontroller_ip_assignments"; "flipop_floatingippoolcontroller_ip_node";
   "flipop_floatingippoolcontroller_ip_state"; "flipop_floatingippoolcontroller_unfulfilled_ips"].
Proof. cbn. by rewrite !FQName_joins. Qed.
Lemma FQNames_records : FQName <$> [recordsOpts] = ["flipop_nodednsrecordset_records"].
Proof. cbn. by rewrite !FQName_joins. Qed.
End startup.

(** [compute_decision] evaluates a decidable proposition. *)
Ltac compute_decision := refine (bool_decide_unpack _ _); vm_compute; exact I.

Section run.
Context {W : Type} `{!NodeMatch.KubeAPI, !BaseProvider W} `{StartupLaws W}.
Implicit Types (w : W).

(** The names of the program do not clash, with each other or with those of the
    runtime. *)
Lemma flipop_name_new (done names : list string) w :
  registered w = runtimeNames ++ done →
  Forall (λ n, strip_prefix "flipop_" n ≠ None) names → Forall (λ n, n ∉ done) names →
  ∀ n, n ∈ names → n ∉ registered w.
Proof.
  intros Hr Hf Hd n Hn. rewrite Hr. intros [Hin|Hin]%elem_of_app.
  - pose proof (proj1 (Forall_forall _ _) runtime_own n Hin) as Hown.
    exact (proj1 (Forall_forall _ _) Hf n Hn Hown).
  - exact (proj1 (Forall_forall _ _) Hd n Hn Hin).
Qed.

Lemma register_step {B} descs names (done : list string) msg (k : unit → M process W (B + Exit)) Q p w :
  FQName <$> descs = names → healthy w → registered w = runtimeNames ++ done → NoDup names →
  Forall (λ n, strip_prefix "flipop_" n ≠ None) names → Forall (λ n, n ∉ done) names →
  (∀ w', healthy w' → registered w' = runtimeNames ++ (done ++ names) → wp False (k tt) Q p w') →
  wp False (or_return (or_exit msg (Register descs)) k) Q p w.
Proof.
  intros Hn Hw Hr Hnd Hf Hd HQ. unfold or_return. wp_step. apply wp_or_exit.
  eapply wp_mono; [|apply Register_ok; [done|by rewrite Hn|rewrite Hn; by eapply flipop_name_new]].
  intros r p' w' (-> & -> & Hw' & Hr'). wp_steps. apply HQ; [done|]. by rewrite Hr', Hr, Hn, app_assoc.
Qed.
Lemma or_exit_step {A B} msg (m : M process W (A + error)) (k : A → M process W (B + Exit)) Q (I : A → W → Prop) p w :
  wp False m (λ r p' w', p' = p ∧ if r is inl a then I a w' else False) p w →
  (∀ a w', I a w' → wp False (k a) Q p w') →
  wp False (or_return (or_exit msg m) k) Q p w.
Proof.
  intros Hm HQ. unfold or_return. wp_step. apply wp_or_exit. eapply wp_mono; [|exact Hm].
  intros [a|e] p' w' (-> & HI); [|done]. wp_steps. by apply HQ.
Qed.
Lemma wp_call_answers {A} (ok : A → Prop) op (p : process) w : answers ok op → healthy w →
  wp False (call op) (λ (r : A + error) p' w', p' = p ∧
    if r is inl a then healthy w' ∧ registered w' = registered w else False) p w.
Proof. intros Ho Hw. eapply wp_answers; [done..|]. by intros. Qed.

Lemma Init_metrics do cf r : reg_metrics (Registry.Init do cf r).2 = reg_metrics r.
Proof.
  unfold Registry.Init, Registry.register. destruct do as [d|e]; destruct cf as [f|e'];
    repeat (case_match; simplify_eq; cbn); try done.
Qed.
End run.

(** C20: with providers that can be set up and libraries that answer, the process starts: it
    registers all of its collectors, whose names do not clash, serves the metrics on the
    address it was given, unless that is empty, and runs both controllers for the
    leader of the election of its namespace. *)
Theorem process_starts {W} `{!NodeMatch.KubeAPI, !BaseProvider W} `{StartupLaws W}
    (log : Ref) (digitalocean cloudflare : Ref + error) (addr : string) (w : W) :
  healthy w → registered w = [] →
  (Registry.Init digitalocean cloudflare (Registry.NewRegistry initMetrics [Registry.WithLogger (Some log)])).1 = None →
  wp False (runMain log digitalocean cloudflare addr) (λ r p w',
    exit_code r = 0%Z ∧ pr_server p = (if decide (addr = "") then None else Some addr) ∧
    registered w' = runtimeNames ++ concat flipopNames ∧
    ∃ ns client, pr_elector p =
      Some (ElectionConfig ns leaderElectionResource client [RunPools; RunNodeDNS])) process_start w.
Proof.
  intros Hw Hr HI. unfold runMain. wp_steps.
  destruct (ok_Register runtimeNames w Hw runtime_nodup) as (w1 & Hreg & H1 & Hr1);
    [rewrite Hr; by intros n _ ?%elem_of_nil|].
  apply wp_call. intros err w1' Heq. rewrite Hreg in Heq. simplify_eq. wp_steps.
  pose proof (Init_metrics digitalocean cloudflare (Registry.NewRegistry initMetrics [Registry.WithLogger (Some log)])) as Hm.
  destruct (Registry.Init _ _ _) as [err providers]. cbn in HI, Hm. subst err.
  rewrite Hr in Hr1. apply (or_exit_step _ _ _ _ (λ _ w2, w2 = w1')); [by wp_steps|].
  intros [] w2 ->. wp_step. unfold Registry_Describe. rewrite Hm. cbn [mbind option_bind deref]. apply wp_ret.
  eapply (register_step _ _ []); [cbn; rewrite !Vec_describes; apply FQNames_providers|done|by rewrite app_nil_r|
    by compute_decision..|].
  intros w3 H3 Hr3. eapply (or_exit_step _ _ _ _ (λ _ w', healthy w' ∧ registered w' = registered w3)).
  { unfold floatingip_NewController. wp_step. eapply wp_mono; [|by apply buildClients_ok].
    intros [a|e] p' w' (-> & H4 & Hr4 & Hl); [|by destruct Hl]. by wp_steps. }
  intros _ w4 [H4 Hr4]. rewrite <- Hr4 in Hr3.
  eapply register_step; [apply FQNames_pools|done|exact Hr3|by compute_decision..|].
  intros w5 H5 Hr5. eapply (or_exit_step _ _ _ _ (λ c w', c.2 = NewVec recordsOpts ∧ healthy w' ∧ registered w' = registered w5)).
  { unfold nodedns_NewController. wp_step. eapply wp_mono; [|by apply buildClients_ok].
    intros [a|e] p' w' (-> & H6 & Hr6 & Hl); [|by destruct Hl]. by wp_steps. }
  intros c w6 (Hc & H6 & Hr6). rewrite <- Hr6 in Hr5.
  eapply register_step; [unfold NodeDNS_Describe; rewrite Hc, Vec_describes; apply FQNames_records|
    done|exact Hr5|by compute_decision..|].
  intros w7 H7 Hr7.
  eapply or_exit_step; [by apply (wp_call_answers _ _ _ _ ok_Namespace)|]. intros ns w8 [H8 Hr8].
  eapply or_exit_step; [by apply (wp_call_answers _ _ _ _ ok_ClientConfig)|]. intros cfg w9 [H9 Hr9].
  eapply or_exit_step; [by apply (wp_call_answers _ _ _ _ (ok_kubernetes cfg))|]. intros k w10 [H10 Hr10].
  wp_step. apply (wp_mono _ _ (λ _ p w', w' = w10 ∧ pr_server p = (if decide (addr = "") then None else Some addr))).
  - intros [] p w' [-> Hs]. wp_step. eapply wp_mono; [|by apply LeaderElection_ok].
    intros r p' w' (-> & -> & Hr'). wp_steps. split_and!; [done|done| |by eexists _, _].
    rewrite Hr', Hr10, Hr9, Hr8, Hr7. by rewrite <- !app_assoc.
  - case_bool_decide; [rewrite decide_True by done|rewrite decide_False by done]; by wp_steps.
Qed.

(** A step that may exit leaves the process as it is. *)
Section failing.
Context {W : Type} `{!NodeMatch.KubeAPI, !BaseProvider W, !ClientGo W, !PromRegistry W, !Startup W}.

Definition keeps {A} (m : M process W A) : Prop := ∀ E p w Q,
  (∀ a w', Q a p w') → wp E m Q p w.

Lemma keeps_call {A} (f : W → A * W) : keeps (call f).
Proof. intros E p w Q HQ. apply wp_call. auto. Qed.
Lemma keeps_ret {A} (a : A) : keeps (mret a).
Proof. intros E p w Q HQ. wp_steps. auto. Qed.
Lemma keeps_bind {A B} (m : M process W A) (f : A → M process W B) :
  keeps m → (∀ a, keeps (f a)) → keeps (m ≫= f).
Proof. intros Hm Hf E p w Q HQ. apply wp_bind, Hm. intros a w'. by apply Hf. Qed.
Ltac solve_keeps :=
  repeat first
    [ apply keeps_bind; [|intros ?] | apply keeps_call | apply keeps_ret
    | progress cbv beta | case_match ].

Lemma keeps_Clientset c : keeps (Clientset_NewForConfig c).
Proof. unfold Clientset_NewForConfig, flipopv1alpha1_NewForConfig. solve_keeps. Qed.
Lemma keeps_buildClients : keeps buildClients.
Proof.
  unfold buildClients. repeat first [apply keeps_Clientset|apply keeps_bind; [|intros ?]|
    apply keeps_call|apply keeps_ret|case_match].
Qed.
Lemma keeps_Register descs : keeps (Register descs).
Proof. unfold Register. solve_keeps. Qed.

(** How the process may end: it exits in [p], or it has gone on. *)
Definition ended (Q : process → Prop) (p : process) (r : unit + Exit) (p' : process) : Prop :=
  match r with
  | inl _ => Q p'
  | inr e => exit_status e = 1%Z ∧ exit_output e ≠ "" ∧ p' = p
  end.
Lemma ended_step {A} E msg (m : M process W (A + error)) k Q p w :
  keeps m → (∀ a w', wp E (k a) (λ r p' _, ended Q p r p') p w') →
  wp E (or_return (or_exit msg m) k) (λ r p' _, ended Q p r p') p w.
Proof.
  intros Hm Hk. unfold or_return. wp_step. apply wp_or_exit, Hm. intros [a|e] w'.
  - wp_steps. apply Hk.
  - wp_steps. split_and!; [done| |done]. cbn. intros Heq.
    destruct msg; [|done]. by destruct (Error e).
Qed.

Lemma LeaderElection_outcome ns res client runs p w E :
  wp E (LeaderElection ns res client runs) (λ r p' _,
    if r is Some _ then p' = p
    else p' = p <| pr_elector := Some (ElectionConfig ns res client runs) |>) p w.
Proof.
  unfold LeaderElection. wp_steps. apply wp_call. intros [h|e] w1 _; wp_steps; [|done].
  apply wp_call. intros u wu _. wp_steps.
  apply wp_call. intros [l|e] w2 _; wp_steps; [|done].
  apply wp_call. intros [l'|e] w3 _; wp_steps; [|done].
  apply wp_call. intros [] w4 _. by wp_steps.
Qed.
End failing.


(** ** Signals

    [signalContext]: the goroutine that takes the signals from its channel, next to the
    election, whose context it cancels. *)
Record running : Type := Running {
  ru_election : election;
  ru_signals : nat;           (** the signals it has taken *)
  ru_exited : option Z;       (** [os.Exit] was called *)
}.
Definition eta_running (s : running) : running := Running (ru_election s) (ru_signals s) (ru_exited s).
#[export] Instance set_ru_election : Setter ru_election := ltac:(derive_setter eta_running ru_election).
#[export] Instance set_ru_signals : Setter ru_signals := ltac:(derive_setter eta_running ru_signals).
#[export] Instance set_ru_exited : Setter ru_exited := ltac:(derive_setter eta_running ru_exited).
Definition running_start : running := Running LeaderElection_start 0 None.

Definition on_signal (s : running) : running :=
  match ru_signals s with
  | 0 => s <| ru_election ::= λ e, e <| el_ctx := true |> |> <| ru_signals := 1 |>
  | _ => s <| ru_signals := 2 |> <| ru_exited := Some 1%Z |>
  end.

(** The goroutines of the process move until it exits; [runs] controllers run, and the
    metrics server if the process is [serving]: it exits when the server fails. *)
Inductive due_step (runs : nat) (s : running) : running → Prop :=
  | ds_election e' : ru_exited s = None → own_step runs (ru_election s) e' →
      due_step runs s (s <| ru_election := e' |>).
Inductive running_step (runs : nat) (serving : bool) (s : running) : running → Prop :=
  | rs_due s' : due_step runs s s' → running_step runs serving s s'
  | rs_signal : ru_exited s = None → ru_signals s < 2 →
      running_step runs serving s (on_signal s)
  | rs_server_fails : ru_exited s = None → serving = true →
      running_step runs serving s (s <| ru_exited := Some 1%Z |>)
  | rs_acquire : ru_exited s = None → el_phase (ru_election s) = Acquiring →
      el_leaderCtx (ru_election s) = false →
      running_step runs serving s (s <| ru_election ::= λ e, e <| el_phase := Leading |> <| el_starting := true |> |>)
  | rs_lose : ru_exited s = None → el_phase (ru_election s) = Leading →
      running_step runs serving s (s <| ru_election ::= λ e, e <| el_phase := Stopping |> <| el_lost := true |> |>).

(** The context is canceled by the first signal; the second one ends the process, if it
    has not ended. *)
Record running_ok (s : running) : Prop := {
  ro_election : election_ok (ru_election s);
  ro_ctx : el_ctx (ru_election s) = true ↔ 0 < ru_signals s;
  ro_exited : ru_exited s = Some 1%Z ∨ (ru_exited s = None ∧ ru_signals s < 2);
}.

Lemma own_step_ctx runs e e' : own_step runs e e' → el_ctx e' = el_ctx e.
Proof.
  intros []; unfold watch, watch_waited, OnStartedLeading, OnStoppedLeading, OnStoppedLeading_waited;
    repeat case_match; cbn; try done; congruence.
Qed.
(** A step moves the election, cancels its context, or ends the process. *)
Lemma running_step_cases runs serving s s' : running_step runs serving s s' →
  ru_exited s = None ∧
  ((election_step runs (ru_election s) (ru_election s') ∧ ru_signals s' = ru_signals s ∧
    el_ctx (ru_election s') = el_ctx (ru_election s) ∧ ru_exited s' = None) ∨
   (ru_signals s = 0 ∧ ru_signals s' = 1 ∧ ru_election s' = (ru_election s) <| el_ctx := true |> ∧
    ru_exited s' = None) ∨
   (ru_signals s ≤ ru_signals s' ∧ (0 < ru_signals s' → 0 < ru_signals s) ∧
    ru_election s' = ru_election s ∧ ru_exited s' = Some 1%Z)).
Proof.
  intros [s1 [e' Hx Hs]|Hx Hn|Hx Hv|Hx Hp Hl|Hx Hp]; (split; [done|]); cbn.
  - left. split_and!; [by apply es_own|done|by eapply own_step_ctx|done].
  - right. unfold on_signal. destruct (ru_signals s) as [|[|]] eqn:Hsg; cbn; [by left| |lia].
    right. split_and!; [lia|lia|done..].
  - right; right. split_and!; [lia|lia|done..].
  - left. by split_and!; [apply es_acquire|..].
  - left. by split_and!; [apply es_lose|..].
Qed.

Lemma running_step_ok runs serving s s' : running_step runs serving s s' → running_ok s → running_ok s'.
Proof.
  intros Hs [He Hc Hx]. destruct (running_step_cases _ _ _ _ Hs) as
    [Hn [(Hst & Hsg & Hct & Hx')|[(H0 & H1 & Hel & Hx')|(Hle & Hpos & Hel & Hx')]]].
  - split; [by eapply election_step_ok| |]; rewrite ?Hct, ?Hsg; [done|right].
    destruct Hx as [Hx|[_ Hlt]]; [congruence|done].
  - split; [|rewrite Hel, H1|rewrite H1]; [|cbn; split; [lia|done]|right; split; [done|lia]].
    eapply election_step_ok; [|exact He]. rewrite Hel. apply (es_cancel runs).
    destruct (el_ctx (ru_election s)); [|done]. destruct Hc as [Hc _]. specialize (Hc eq_refl). lia.
  - split; rewrite ?Hel; [done| |by left]. rewrite Hc. split; [lia|done].
Qed.

(** What is left to do: the work of the election, and the end of the process. *)
Definition left_to_do (runs : nat) (s : running) : nat :=
  work runs (ru_election s) + (2 - ru_signals s) + (if ru_exited s is None then 1 else 0).

Lemma running_step_work runs serving s s' : running_step runs serving s s' → running_ok s →
  left_to_do runs s' < left_to_do runs s.
Proof.
  intros Hs [He Hc Hx]. unfold left_to_do. destruct (running_step_cases _ _ _ _ Hs) as
    [Hn [(Hst & Hsg & Hct & Hx')|[(H0 & H1 & Hel & Hx')|(Hle & Hpos & Hel & Hx')]]]; rewrite Hn, Hx'.
  - pose proof (election_step_work _ _ _ Hst He). lia.
  - assert (el_ctx (ru_election s) = false) as Hf.
    { destruct (el_ctx (ru_election s)); [|done]. destruct Hc as [Hc _]. specialize (Hc eq_refl). lia. }
    pose proof (election_step_work runs _ _ (es_cancel runs _ Hf) He) as Hw. rewrite Hel. lia.
  - rewrite Hel. lia.
Qed.


(** *** An example *)
Module Example.
(** A world of collectors' names in which every constructor answers; no labels are parsed. *)
Definition World : Type := list string.
#[export] Instance clientgo : ClientGo World := {|
  NewTokenBucketRateLimiter _ _ := 1%positive; Codecs_WithoutConversion := 2%positive;
  DefaultKubernetesUserAgent := "flipop"; RESTClientFor _ w := (inl 3%positive, w);
  NewDiscoveryClientForConfig _ w := (inl 4%positive, w);
  kubernetes_NewForConfig _ w := (inl 5%positive, w);
|}.
Definition join (d : PoolMetrics.Desc) : string :=
  PoolMetrics.desc_namespace d +:+ "_" +:+ PoolMetrics.desc_subsystem d +:+ "_" +:+ PoolMetrics.desc_name d.
#[export] Instance startup : Startup World := {|
  config_ClientConfig w := (inl (RestConfig None (S754_zero false) 0 None "" None ""), w);
  config_Namespace w := (inl "flipop", w);
  os_Hostname w := (inl "host", w);
  uuid_NewUUID w := ("cb0f", w);
  resourcelock_New _ _ _ _ w := (inl 6%positive, w);
  NewLeaderElector _ w := (inl 7%positive, w);
  elector_Run _ w := (tt, w);
|}.
#[export] Instance ghost : StartupGhost World := {| healthy _ := True; registered w := w |}.

(** A vector is the encoding of its descriptor. *)
Definition tuple_of (d : PoolMetrics.Desc) : string * (string * (string * list string)) :=
  (PoolMetrics.desc_namespace d, (PoolMetrics.desc_subsystem d, (PoolMetrics.desc_name d, PoolMetrics.desc_labels d))).
#[export] Instance prom : PromRegistry World := {|
  NewVec d := encode (tuple_of d);
  Vec_Describe r := match decode r with
                    | Some (a, (b, (c, l))) => [PoolMetrics.NewDesc a b c l]
                    | None => []
                    end;
  runtimeNames := ["go_goroutines"; "process_cpu_seconds_total"];
  FQName := join;
  Register_names names w :=
    if decide (Exists (λ n, n ∈ w) names ∨ ¬ NoDup names) then (Some (ErrorString "duplicate"), w)
    else (None, w ++ names);
|}.
#[export] Instance laws : StartupLaws World.
Proof.
  split.
  all: try (intros; intros v _; eexists _, _; split_and!; [reflexivity|exact I..|reflexivity]).
  - done.
  - intros names w _ Hnd Hn. cbn. rewrite decide_False; [by eexists|].
    intros [[n [Hin Hw]]%Exists_exists|Hd]; [by apply (Hn n)|done].
  - done.
  - intros [a b c l]. cbn. by rewrite decode_encode.
  - intros d _ _ _. done.
  - compute_decision.
  - compute_decision.
Qed.
#[export] Instance base : BaseProvider World := {| GetProviderName _ := "digitalocean" |}.
#[export] Instance api : NodeMatch.KubeAPI := {|
  NodeMatch.Selector := unit; NodeMatch.labels_Parse _ := inl tt;
  NodeMatch.Matches _ _ := true; NodeMatch.ToleratesTaint _ _ := false;
|}.
End Example.

Import Example.

Lemma process_starts_witness :
  healthy (W := Example.World) [] ∧ registered (W := Example.World) [] = [] ∧
  (Registry.Init (W := Example.World) (inl 8%positive) (inr errNoCredentials)
     (Registry.NewRegistry (initMetrics (W := Example.World)) [Registry.WithLogger (Some 3%positive)])).1 = None ∧
  wp False (runMain (W := Example.World) 3%positive (inl 8%positive) (inr errNoCredentials) ":8080") (λ r p w',
    exit_code r = 0%Z ∧ pr_server p = Some ":8080" ∧
    registered w' = runtimeNames (W := Example.World) ++ concat flipopNames ∧
    ∃ ns client, pr_elector p =
      Some (ElectionConfig ns leaderElectionResource client [RunPools; RunNodeDNS])) process_start [].
Proof.
  split; [exact I|]. split; [reflexivity|]. split; [reflexivity|].
  exact (process_starts (W := Example.World) 3%positive (inl 8%positive) (inr errNoCredentials) ":8080" [] I eq_refl eq_refl).
Defined.
