(* ===== verification/Clientset.v ===== *)
(** * The other constructors of the clients, the scheme and the fake clientset

    clientset.go, flipop_client.go and register.go of the API group, and
    fake/clientset_generated.go: [NewForConfig] itself is modelled with the command. *)
From S2P Require Import Prelude Go Retry GoText K8s Types Provider ProviderMetrics Registry Command.

(** ** Clients *)
Section clients.
Context {W : Type} `{!ClientGo W} {C : Type}.

(** [panic(err)] *)
Definition or_die {A} (m : M C W (A + error)) : M C W A :=
  r ← m; match r with inl a => mret a | inr _ => panic end.
Definition flipopv1alpha1_NewForConfigOrDie (c : restConfig) : M C W Ref :=
  or_die (flipopv1alpha1_NewForConfig c).
(** [discovery.NewDiscoveryClientForConfigOrDie] panics where
    [NewDiscoveryClientForConfig] fails. *)
Definition Clientset_NewForConfigOrDie (c : restConfig) : M C W Clientset :=
  flipop ← flipopv1alpha1_NewForConfigOrDie c;
  disc ← or_die (call (NewDiscoveryClientForConfig c));
  mret (Clientset_ flipop disc).

(** [New]: the client of the group is the REST client it is given;
    [newDiscovery] is [discovery.NewDiscoveryClient]. *)
Definition Clientset_New (newDiscovery : Ref → Ref) (c : Ref) : Clientset := Clientset_ c (newDiscovery c).
(** The accessors accept a [nil] receiver, but for [FlipopV1alpha1]. *)
Definition Clientset_Discovery (c : option Clientset) : option Ref := cs_DiscoveryClient <$> c.
Definition FlipopV1alpha1 (c : option Clientset) : M C W Ref :=
  c ← deref c; mret (cs_flipopV1alpha1 c).
Definition FlipopV1alpha1Client_RESTClient (c : option Ref) : option Ref := c.

(** For a configuration that needs no rate limiter of its own the two ways agree:
    [NewForConfigOrDie] panics on the errors of [NewForConfig]. *)
Lemma OrDie_is_NewForConfig c (s : C) (w : W) : limitedConfig c = inl c →
  Clientset_NewForConfigOrDie c s w =
    match Clientset_NewForConfig c s w with
    | Ret (inl cs, s', w') => Ret (cs, s', w')
    | Ret (inr _, _, _) => Panic
    | Panic => Panic
    | OutOfFuel => OutOfFuel
    end.
Proof.
  intros Hl. unfold Clientset_NewForConfig. rewrite Hl.
  unfold Clientset_NewForConfigOrDie, flipopv1alpha1_NewForConfigOrDie, or_die, flipopv1alpha1_NewForConfig,
    mbind, M_bind, call, mret, M_ret.
  destruct (RESTClientFor (setConfigDefaults c) w) as [[r|e] w1]; cbn; [|done].
  by destruct (NewDiscoveryClientForConfig c w1) as [[d|e] w2]; cbn.
Qed.
Lemma limited_unneeded c : cfg_RateLimiter c ≠ None ∨ positive_float (cfg_QPS c) = false →
  limitedConfig c = inl c.
Proof.
  unfold limitedConfig. intros [H|H]; [by rewrite bool_decide_false|]. rewrite H, andb_false_r. done.
Qed.
End clients.

(** ** The scheme

    [Sch]: a [runtime.Scheme]; adding a type under a kind that stands for another one
    panics. *)
Definition GroupVersionKind : Type := (string * string) * string.
Class RuntimeScheme (Sch : Type) : Type := {
  NewScheme : Sch;
  AddKnownTypes : string * string → list string → Sch → option Sch;
  AddToGroupVersion : string * string → Sch → option Sch;
}.

Section scheme.
Context {Sch : Type} `{!RuntimeScheme Sch}.
(** The Go types of the package that are objects, by their names. *)
Definition known_types : list string :=
  ["FloatingIPPool"; "FloatingIPPoolList"; "NodeDNSRecordSet"; "NodeDNSRecordSetList"].
Definition addKnownTypes (s : Sch) : option Sch :=
  s ← AddKnownTypes SchemeGroupVersion known_types s;
  AddToGroupVersion SchemeGroupVersion s.
(** [init] of the schemes of the two clientsets. *)
Definition scheme_init : option Sch := AddToGroupVersion ("", "v1") NewScheme ≫= addKnownTypes.
End scheme.

(** What a scheme knows: the type of a kind. The types of the meta group have kinds
    of their own. *)
Class SchemeLaws (Sch : Type) `{!RuntimeScheme Sch} : Type := {
  recognizes : Sch → GroupVersionKind → option string;
  meta_kinds : list string;
  NewScheme_empty k : recognizes NewScheme k = None;
  AddKnownTypes_ok gv ts s : NoDup ts → (∀ t, t ∈ ts → recognizes s (gv, t) = None) →
    ∃ s', AddKnownTypes gv ts s = Some s' ∧
      ∀ gv' k, recognizes s' (gv', k) =
        if decide (gv' = gv ∧ k ∈ ts) then Some k else recognizes s (gv', k);
  AddToGroupVersion_ok gv s : ∃ s', AddToGroupVersion gv s = Some s' ∧
    ∀ gv' k, k ∉ meta_kinds → recognizes s' (gv', k) = recognizes s (gv', k);
  meta_kinds_foreign : Forall (λ t, t ∉ meta_kinds) known_types;
}.

Section scheme_props.
Context `{SchemeLaws Sch}.
(** The clientsets start, and their schemes know the resources and their lists. *)
Lemma scheme_knows : ∃ s, scheme_init = Some s ∧
  ∀ t, t ∈ known_types → recognizes s (SchemeGroupVersion, t) = Some t.
Proof.
  unfold scheme_init. destruct (AddToGroupVersion_ok ("", "v1") NewScheme) as (s1 & Hs1 & H1).
  rewrite Hs1. cbn. unfold addKnownTypes.
  pose proof meta_kinds_foreign as Hm. rewrite Forall_forall in Hm.
  destruct (AddKnownTypes_ok SchemeGroupVersion known_types s1) as (s2 & -> & H2).
  { compute_decision. }
  { intros t Ht. rewrite H1 by (by apply Hm). apply NewScheme_empty. }
  cbn. destruct (AddToGroupVersion_ok SchemeGroupVersion s2) as (s3 & -> & H3).
  exists s3. split; [done|]. intros t Ht. rewrite H3 by (by apply Hm). rewrite H2.
  by rewrite decide_True.
Qed.
End scheme_props.

(** ** The fake clientset

    The tracker, the reactions it gives, and the fakes of discovery are client-go's. *)
Class FakeTracker (Obj W : Type) : Type := {
  NewObjectTracker : W → Ref * W;
  tracker_Add : Ref → Obj → W → option error * W;
  tracker_Watch : Ref → GroupVersionResource → string → W → (Ref + error) * W;
}.
Inductive reaction : Type := ObjectReaction (tracker : Ref).
Record FakeClientset : Type := FakeClientset_ {
  fc_tracker : Ref;
  fc_reactors : list (string * string * reaction);      (* verb, resource *)
  fc_watchReactors : list (string * Ref);               (* resource, tracker *)
}.

Section fake.
Context {Obj W : Type} `{!FakeTracker Obj W} {C : Type}.
Definition NewSimpleClientset (objects : list Obj) : M C W FakeClientset :=
  o ← call NewObjectTracker;
  for_each objects (λ obj,
    err ← call (tracker_Add o obj);
    if err is Some _ then panic else mret tt) ;;
  mret (FakeClientset_ o [("*", "*", ObjectReaction o)] [("*", o)]).
(** The reaction to a watch: [handled], the watch, the error. *)
Definition watch_reaction (o : Ref) (gvr : GroupVersionResource) (ns : string)
    : M C W (bool * option Ref * option error) :=
  watch ← call (tracker_Watch o gvr ns);
  mret match watch with
       | inr err => (false, None, Some err)
       | inl watch => (true, Some watch, None)
       end.
Definition Tracker (c : FakeClientset) : Ref := fc_tracker c.

(** The objects are all tracked, in order, or the call panics. *)
Fixpoint tracked (o : Ref) (objects : list Obj) (w : W) : option W :=
  match objects with
  | [] => Some w
  | obj :: objects =>
      match tracker_Add o obj w with (None, w') => tracked o objects w' | (Some _, _) => None end
  end.
Lemma NewSimpleClientset_tracks objects (c : C) (w : W) :
  NewSimpleClientset objects c w =
    let '(o, w1) := NewObjectTracker w in
    match tracked o objects w1 with
    | Some w2 => Ret (FakeClientset_ o [("*", "*", ObjectReaction o)] [("*", o)], c, w2)
    | None => Panic
    end.
Proof.
  unfold NewSimpleClientset, mbind, M_bind, call. destruct (NewObjectTracker w) as [o w1]. cbn [fst snd].
  revert w1. induction objects as [|obj objects IH]; intros w1; [done|].
  cbn [for_each tracked]. unfold mbind, M_bind at 1. destruct (tracker_Add o obj w1) as [[e|] w2]; [done|].
  apply IH.
Qed.
End fake.
