(* ===== verification/APIClient.v ===== *)
(** * The generated clients of the resources

    typed/flipop/v1alpha1: the client that sends REST requests, and the fake of the unit
    tests, which invokes actions.  Both implement the interface of their resource;
    client-go, which performs the requests and the actions, is part of the world. *)
From S2P Require Import Prelude Go Retry K8s Types Provider.
From S2P Require NodeMatch.

(** ** What the clients are made of *)

(** The options of metav1, of which [ListOptions] has fields the clients use, the rest of
    the metadata of a list, the selector of labels in list options, and the conversion of
    an integer to [int64]. *)
Class Meta `{!NodeMatch.KubeAPI} : Type := {
  GetOptions : Type;
  CreateOptions : Type;
  UpdateOptions : Type;
  DeleteOptions : Type;
  PatchOptions : Type;
  ListFilter : Type;
  ListMeta : Type;
  ListMeta_zero : ListMeta;
  labels_Everything : NodeMatch.Selector;
  ExtractLabel : ListFilter → option NodeMatch.Selector;
}.
Definition int64 (z : Z) : Z := ((z + 2 ^ 63) mod 2 ^ 64 - 2 ^ 63)%Z.

(** An object of the API: its type, with its zero value, its name and its labels. *)
Class Object (T : Type) : Type := {
  object_zero : T;
  object_Name : T → string;
  object_Labels : T → gmap string string;
}.

Section meta.
Context `{!NodeMatch.KubeAPI, !Meta}.

Record ListOptions : Type := ListOptions_ {
  lo_TimeoutSeconds : option Z;
  lo_Watch : bool;
  lo_filter : ListFilter;
}.
(** [opts.Watch = true] *)
Definition set_Watch (opts : ListOptions) : ListOptions :=
  ListOptions_ (lo_TimeoutSeconds opts) true (lo_filter opts).
Record ObjectList (T : Type) : Type := ObjectList_ { list_Meta : ListMeta; list_Items : slice T }.
End meta.
Arguments ObjectList {_ _} T.
Arguments ObjectList_ {_ _ T}.
Arguments list_Meta {_ _ T}.
Arguments list_Items {_ _ T}.

(** *** Requests *)
Inductive verb : Type := GET | POST | PUT | DELETE | PATCH (pt : string).

Section requests.
Context `{!NodeMatch.KubeAPI, !Meta} (T : Type).

Inductive params : Type :=
  | GetParams (opts : GetOptions)
  | ListParams (opts : ListOptions)
  | CreateParams (opts : CreateOptions)
  | UpdateParams (opts : UpdateOptions)
  | PatchParams (opts : PatchOptions).
Inductive body : Type :=
  | BodyObject (x : T)
  | BodyDelete (opts : DeleteOptions)
  | BodyData (data : list Byte.byte).

(** A [rest.Request] under construction. *)
Record Request : Type := Request_ {
  rq_Verb : verb;
  rq_Namespace : option string;
  rq_Resource : option string;
  rq_Name : option string;
  rq_SubResource : list string;
  rq_VersionedParams : option params;
  rq_Timeout : option Duration;
  rq_Body : option body;
}.

(** *** Actions *)
Inductive action : Type :=
  | NewGetAction (r : GroupVersionResource) (ns name : string)
  | NewListAction (r : GroupVersionResource) (kind : string) (ns : string) (opts : ListOptions)
  | NewWatchAction (r : GroupVersionResource) (ns : string) (opts : ListOptions)
  | NewCreateAction (r : GroupVersionResource) (ns : string) (x : T)
  | NewUpdateAction (r : GroupVersionResource) (ns : string) (x : T)
  | NewUpdateSubresourceAction (r : GroupVersionResource) (sub ns : string) (x : T)
  | NewDeleteAction (r : GroupVersionResource) (ns name : string)
  | NewDeleteCollectionAction (r : GroupVersionResource) (ns : string) (opts : ListOptions)
  | NewPatchSubresourceAction (r : GroupVersionResource) (ns name pt : string)
      (data : list Byte.byte) (subs : list string).
(** A [runtime.Object]: one of the resource, a list of them, or of another type. *)
Inductive object : Type := AnObject (x : T) | AList (l : ObjectList T) | OtherObject.

(** *** client-go *)
Class RESTClient (W : Type) : Type := {
  Result : Type;
  rest_Do : Ref → Request → W → Result * W;
  rest_Watch : Ref → Request → W → (Ref + error) * W;
  Result_Into : Result → T → T * option error;
  Result_IntoList : Result → ObjectList T → ObjectList T * option error;
  Result_Error : Result → option error;
}.
Class Fake (W : Type) : Type := {
  Invokes : Ref → action → object → W → (option object * option error) * W;
  InvokesWatch : Ref → action → W → (Ref + error) * W;
}.
End requests.
Arguments Request {_ _} T.
Arguments Request_ {_ _ T}.
Arguments action {_ _} T.
Arguments object {_ _} T.
Arguments BodyObject {_ _ T}.
Arguments BodyDelete {_ _ T}.
Arguments BodyData {_ _ T}.
Arguments rq_Verb {_ _ T}.
Arguments rq_Namespace {_ _ T}.
Arguments rq_Resource {_ _ T}.
Arguments rq_Name {_ _ T}.
Arguments rq_SubResource {_ _ T}.
Arguments rq_VersionedParams {_ _ T}.
Arguments rq_Timeout {_ _ T}.
Arguments rq_Body {_ _ T}.
Arguments AnObject {_ _ T}.
Arguments AList {_ _ T}.
Arguments OtherObject {_ _ T}.
Arguments NewGetAction {_ _ T}.
Arguments NewListAction {_ _ T}.
Arguments NewWatchAction {_ _ T}.
Arguments NewCreateAction {_ _ T}.
Arguments NewUpdateAction {_ _ T}.
Arguments NewUpdateSubresourceAction {_ _ T}.
Arguments NewDeleteAction {_ _ T}.
Arguments NewDeleteCollectionAction {_ _ T}.
Arguments NewPatchSubresourceAction {_ _ T}.
Arguments RESTClient {_ _} T W.
Arguments Fake {_ _} T W.
Arguments Result {_ _ T W}.
Arguments rest_Do {_ _ T W _}.
Arguments rest_Watch {_ _ T W _}.
Arguments Result_Into {_ _ T W _}.
Arguments Result_IntoList {_ _ T W _}.
Arguments Result_Error {_ _ T W _}.
Arguments Invokes {_ _ T W _}.
Arguments InvokesWatch {_ _ T W _}.

(** ** The interface of a resource *)
Section interface.
Context `{!NodeMatch.KubeAPI, !Meta} (T C W : Type).
Local Abbreviation M := (M C W).

(** [FloatingIPPoolInterface], [NodeDNSRecordSetInterface]: a pointer may be [nil]. *)
Record Interface : Type := Interface_ {
  i_Create : T → CreateOptions → M (option T * option error);
  i_Update : T → UpdateOptions → M (option T * option error);
  i_UpdateStatus : T → UpdateOptions → M (option T * option error);
  i_Delete : string → DeleteOptions → M (option error);
  i_DeleteCollection : DeleteOptions → ListOptions → M (option error);
  i_Get : string → GetOptions → M (option T * option error);
  i_List : ListOptions → M (option (ObjectList T) * option error);
  i_Watch : ListOptions → M (Ref + error);
  i_Patch : string → string → list Byte.byte → PatchOptions → list string →
    M (option T * option error);
}.
End interface.
Arguments Interface_ {_ _ T C W}.
Arguments i_Create {_ _ T C W}.
Arguments i_Update {_ _ T C W}.
Arguments i_UpdateStatus {_ _ T C W}.
Arguments i_Delete {_ _ T C W}.
Arguments i_DeleteCollection {_ _ T C W}.
Arguments i_Get {_ _ T C W}.
Arguments i_List {_ _ T C W}.
Arguments i_Watch {_ _ T C W}.
Arguments i_Patch {_ _ T C W}.

(** ** The client that sends requests

    [floatingIPPools] and [nodeDNSRecordSets] are generated from one template; they
    differ in the type and in the name of the resource. *)
Section client.
Context `{!NodeMatch.KubeAPI, !Meta} {T : Type} `{!Object T} {W : Type} `{!RESTClient T W} {C : Type}.
Context (resource : string) (client : Ref) (ns : string).
Local Abbreviation M := (M C W).

Definition eta_Request (r : Request T) : Request T :=
  Request_ (rq_Verb r) (rq_Namespace r) (rq_Resource r) (rq_Name r) (rq_SubResource r)
    (rq_VersionedParams r) (rq_Timeout r) (rq_Body r).
#[local] Instance set_rq_Namespace : Setter (rq_Namespace (T := T)) := ltac:(derive_setter eta_Request (rq_Namespace (T := T))).
#[local] Instance set_rq_Resource : Setter (rq_Resource (T := T)) := ltac:(derive_setter eta_Request (rq_Resource (T := T))).
#[local] Instance set_rq_Name : Setter (rq_Name (T := T)) := ltac:(derive_setter eta_Request (rq_Name (T := T))).
#[local] Instance set_rq_SubResource : Setter (rq_SubResource (T := T)) := ltac:(derive_setter eta_Request (rq_SubResource (T := T))).
#[local] Instance set_rq_VersionedParams : Setter (rq_VersionedParams (T := T)) := ltac:(derive_setter eta_Request (rq_VersionedParams (T := T))).
#[local] Instance set_rq_Timeout : Setter (rq_Timeout (T := T)) := ltac:(derive_setter eta_Request (rq_Timeout (T := T))).
#[local] Instance set_rq_Body : Setter (rq_Body (T := T)) := ltac:(derive_setter eta_Request (rq_Body (T := T))).

(** [c.client.Get()] and the like; a call that follows sets a field. *)
Definition request (v : verb) : Request T := Request_ v None None None [] None None None.

Definition list_timeout (opts : ListOptions) : Duration :=
  match lo_TimeoutSeconds opts with
  | Some seconds => int64 (seconds * Second)
  | None => 0%Z
  end.
(** [Do(ctx).Into(result)], [Do(ctx).Error()] *)
Definition Do_Into (rq : Request T) : M (option T * option error) :=
  res ← call (rest_Do client rq);
  let '(result, err) := Result_Into res object_zero in mret (Some result, err).
Definition Do_Error (rq : Request T) : M (option error) :=
  res ← call (rest_Do client rq); mret (Result_Error res).

Definition Get (name : string) (options : GetOptions) : M (option T * option error) :=
  Do_Into ((request GET) <| rq_Namespace := Some ns |> <| rq_Resource := Some resource |>
    <| rq_Name := Some name |> <| rq_VersionedParams := Some (GetParams options) |>).
Definition List (opts : ListOptions) : M (option (ObjectList T) * option error) :=
  let timeout := list_timeout opts in
  res ← call (rest_Do client ((request GET) <| rq_Namespace := Some ns |>
    <| rq_Resource := Some resource |> <| rq_VersionedParams := Some (ListParams opts) |>
    <| rq_Timeout := Some timeout |>));
  let '(result, err) := Result_IntoList res (ObjectList_ ListMeta_zero None) in
  mret (Some result, err).
Definition Watch (opts : ListOptions) : M (Ref + error) :=
  let timeout := list_timeout opts in
  let opts := set_Watch opts in
  call (rest_Watch client ((request GET) <| rq_Namespace := Some ns |>
    <| rq_Resource := Some resource |> <| rq_VersionedParams := Some (ListParams opts) |>
    <| rq_Timeout := Some timeout |>)).
Definition Create (x : T) (opts : CreateOptions) : M (option T * option error) :=
  Do_Into ((request POST) <| rq_Namespace := Some ns |> <| rq_Resource := Some resource |>
    <| rq_VersionedParams := Some (CreateParams opts) |> <| rq_Body := Some (BodyObject x) |>).
Definition Update (x : T) (opts : UpdateOptions) : M (option T * option error) :=
  Do_Into ((request PUT) <| rq_Namespace := Some ns |> <| rq_Resource := Some resource |>
    <| rq_Name := Some (object_Name x) |> <| rq_VersionedParams := Some (UpdateParams opts) |>
    <| rq_Body := Some (BodyObject x) |>).
Definition UpdateStatus (x : T) (opts : UpdateOptions) : M (option T * option error) :=
  Do_Into ((request PUT) <| rq_Namespace := Some ns |> <| rq_Resource := Some resource |>
    <| rq_Name := Some (object_Name x) |> <| rq_SubResource := ["status"] |>
    <| rq_VersionedParams := Some (UpdateParams opts) |> <| rq_Body := Some (BodyObject x) |>).
Definition Delete (name : string) (opts : DeleteOptions) : M (option error) :=
  Do_Error ((request DELETE) <| rq_Namespace := Some ns |> <| rq_Resource := Some resource |>
    <| rq_Name := Some name |> <| rq_Body := Some (BodyDelete opts) |>).
Definition DeleteCollection (opts : DeleteOptions) (listOpts : ListOptions) : M (option error) :=
  let timeout := list_timeout listOpts in
  Do_Error ((request DELETE) <| rq_Namespace := Some ns |> <| rq_Resource := Some resource |>
    <| rq_VersionedParams := Some (ListParams listOpts) |> <| rq_Timeout := Some timeout |>
    <| rq_Body := Some (BodyDelete opts) |>).
Definition Patch (name pt : string) (data : list Byte.byte) (opts : PatchOptions)
    (subresources : list string) : M (option T * option error) :=
  Do_Into ((request (PATCH pt)) <| rq_Namespace := Some ns |> <| rq_Resource := Some resource |>
    <| rq_Name := Some name |> <| rq_SubResource := subresources |>
    <| rq_VersionedParams := Some (PatchParams opts) |> <| rq_Body := Some (BodyData data) |>).
Definition typedClient : Interface T C W :=
  Interface_ Create Update UpdateStatus Delete DeleteCollection Get List Watch Patch.
End client.

(** ** The fake that invokes actions *)
Section fake.
Context `{!NodeMatch.KubeAPI, !Meta} {T : Type} `{!Object T} {W : Type} `{!Fake T W} {C : Type}.
Context (resource : GroupVersionResource) (kind : string) (fake : Ref) (ns : string).
Local Abbreviation M := (M C W).

(** [obj.( *T)] after the test for [nil]; a failed assertion panics. *)
Definition as_object (obj : option (object T)) (err : option error) : M (option T * option error) :=
  match obj with
  | None => mret (None, err)
  | Some (AnObject x) => mret (Some x, err)
  | Some _ => panic
  end.
Definition zero_list : ObjectList T := ObjectList_ ListMeta_zero None.

Definition Fake_Get (name : string) (options : GetOptions) : M (option T * option error) :=
  '(obj, err) ← call (Invokes fake (NewGetAction resource ns name) (AnObject object_zero));
  as_object obj err.
Definition Fake_List (opts : ListOptions) : M (option (ObjectList T) * option error) :=
  '(obj, err) ← call (Invokes fake (NewListAction resource kind ns opts) (AList zero_list));
  match obj with
  | None => mret (None, err)
  | Some (AList l) =>
      let label := default labels_Everything (ExtractLabel (lo_filter opts)) in
      items ← for_fold (elems (list_Items l)) (None : slice T) (λ (items : slice T) item,
        mret (if NodeMatch.Matches label (object_Labels item) then append items [item] else items));
      mret (Some (ObjectList_ (list_Meta l) items), err)
  | Some _ => panic
  end.
Definition Fake_Watch (opts : ListOptions) : M (Ref + error) :=
  call (InvokesWatch fake (NewWatchAction resource ns opts)).
Definition Fake_Create (x : T) (opts : CreateOptions) : M (option T * option error) :=
  '(obj, err) ← call (Invokes fake (NewCreateAction resource ns x) (AnObject object_zero));
  as_object obj err.
Definition Fake_Update (x : T) (opts : UpdateOptions) : M (option T * option error) :=
  '(obj, err) ← call (Invokes fake (NewUpdateAction resource ns x) (AnObject object_zero));
  as_object obj err.
Definition Fake_UpdateStatus (x : T) (opts : UpdateOptions) : M (option T * option error) :=
  '(obj, err) ← call (Invokes fake (NewUpdateSubresourceAction resource "status" ns x)
                        (AnObject object_zero));
  as_object obj err.
Definition Fake_Delete (name : string) (opts : DeleteOptions) : M (option error) :=
  '(_, err) ← call (Invokes fake (NewDeleteAction resource ns name) (AnObject object_zero));
  mret err.
Definition Fake_DeleteCollection (opts : DeleteOptions) (listOpts : ListOptions)
    : M (option error) :=
  '(_, err) ← call (Invokes fake (NewDeleteCollectionAction resource ns listOpts)
                      (AList zero_list));
  mret err.
Definition Fake_Patch (name pt : string) (data : list Byte.byte) (opts : PatchOptions)
    (subresources : list string) : M (option T * option error) :=
  '(obj, err) ← call (Invokes fake
    (NewPatchSubresourceAction resource ns name pt data subresources) (AnObject object_zero));
  as_object obj err.
Definition fakeClient : Interface T C W :=
  Interface_ Fake_Create Fake_Update Fake_UpdateStatus Fake_Delete Fake_DeleteCollection
    Fake_Get Fake_List Fake_Watch Fake_Patch.
End fake.

(** ** The clients of the two resources *)

(** The zero values; the labels of an object are not part of the model of its metadata. *)
Class ResourceLabels : Type := {
  pool_Labels : FloatingIPPool → gmap string string;
  record_Labels : NodeDNSRecordSet → gmap string string;
}.
Definition match_zero : Match := Build_Match "" "" "" None.
Definition pool_zero : FloatingIPPool := {|
  fip_meta := Build_ObjectMeta "" "" "";
  fip_Spec := Build_FloatingIPPoolSpec None 0 "" "" match_zero None (S754_zero false);
  fip_Status := Build_FloatingIPPoolStatus None None None "" |}.
Definition record_zero : NodeDNSRecordSet := {|
  nds_meta := Build_ObjectMeta "" "" "";
  nds_Spec := Build_NodeDNSRecordSetSpec match_zero (Build_DNSRecordSet "" "" "" 0) "";
  nds_Status := Build_NodeDNSRecordSetStatus "" "" |}.
#[export] Instance FloatingIPPool_object `{!ResourceLabels} : Object FloatingIPPool := {|
  object_zero := pool_zero; object_Name x := meta_Name (fip_meta x); object_Labels := pool_Labels;
|}.
#[export] Instance NodeDNSRecordSet_object `{!ResourceLabels} : Object NodeDNSRecordSet := {|
  object_zero := record_zero; object_Name x := meta_Name (nds_meta x); object_Labels := record_Labels;
|}.

Section resources.
Context `{!NodeMatch.KubeAPI, !Meta, !ResourceLabels}.
Context {W : Type} {C : Type}.

Definition newFloatingIPPools `{!RESTClient FloatingIPPool W} (restClient : Ref) (namespace : string)
    : Interface FloatingIPPool C W :=
  typedClient "floatingippools" restClient namespace.
Definition newNodeDNSRecordSets `{!RESTClient NodeDNSRecordSet W} (restClient : Ref) (namespace : string)
    : Interface NodeDNSRecordSet C W :=
  typedClient "nodednsrecordsets" restClient namespace.

Definition floatingippoolsResource : GroupVersionResource :=
  GVR "flipop.digitalocean.com" "v1alpha1" "floatingippools".
Definition floatingippoolsKind : string := "FloatingIPPool".
Definition nodednsrecordsetsResource : GroupVersionResource :=
  GVR "flipop.digitalocean.com" "v1alpha1" "nodednsrecordsets".
Definition nodednsrecordsetsKind : string := "NodeDNSRecordSet".

Definition FakeFloatingIPPools `{!Fake FloatingIPPool W} (fake : Ref) (namespace : string)
    : Interface FloatingIPPool C W :=
  fakeClient floatingippoolsResource floatingippoolsKind fake namespace.
Definition FakeNodeDNSRecordSets `{!Fake NodeDNSRecordSet W} (fake : Ref) (namespace : string)
    : Interface NodeDNSRecordSet C W :=
  fakeClient nodednsrecordsetsResource nodednsrecordsetsKind fake namespace.
End resources.

(** The timeout is the seconds of the options, as long as they fit: [time.Duration] counts
    nanoseconds in 64 bits, and one second more wraps around to a negative timeout. *)
Lemma list_timeout_exact `{!NodeMatch.KubeAPI, !Meta} opts seconds :
  lo_TimeoutSeconds opts = Some seconds → (-9223372036 ≤ seconds ≤ 9223372036)%Z →
  list_timeout opts = (seconds * Second)%Z.
Proof.
  intros Hs Hb. unfold list_timeout, int64, Second. rewrite Hs, Z.mod_small; lia.
Qed.
Lemma list_timeout_wraps `{!NodeMatch.KubeAPI, !Meta} filter watch :
  (list_timeout (ListOptions_ (Some 9223372037%Z) watch filter) < 0)%Z.
Proof. reflexivity. Qed.

(** ** What requests mean *)

(** The action of the API a request asks for, by the conventions of Kubernetes: the verb
    with or without a name, the subresource, and for a list whether to watch. *)
Section meaning.
Context `{!NodeMatch.KubeAPI, !Meta} {T : Type} `{!Object T}.

Definition action_of (kind : string) (rq : Request T) : option (action T) :=
  ns ← rq_Namespace rq; resource ← rq_Resource rq;
  let r := WithResource SchemeGroupVersion resource in
  match rq_Verb rq, rq_Name rq, rq_SubResource rq, rq_VersionedParams rq, rq_Body rq with
  | GET, Some name, [], Some (GetParams _), None => Some (NewGetAction r ns name)
  | GET, None, [], Some (ListParams opts), None =>
      Some (if lo_Watch opts then NewWatchAction r ns opts else NewListAction r kind ns opts)
  | POST, None, [], Some (CreateParams _), Some (BodyObject x) => Some (NewCreateAction r ns x)
  | PUT, Some name, subs, Some (UpdateParams _), Some (BodyObject x) =>
      if bool_decide (name = object_Name x) then
        match subs with
        | [] => Some (NewUpdateAction r ns x)
        | [sub] => Some (NewUpdateSubresourceAction r sub ns x)
        | _ => None
        end
      else None
  | DELETE, Some name, [], None, Some (BodyDelete _) => Some (NewDeleteAction r ns name)
  | DELETE, None, [], Some (ListParams opts), Some (BodyDelete _) =>
      Some (NewDeleteCollectionAction r ns opts)
  | PATCH pt, Some name, subs, Some (PatchParams _), Some (BodyData data) =>
      Some (NewPatchSubresourceAction r ns name pt data subs)
  | _, _, _, _, _ => None
  end.

(** The actions that answer with an object, and those that delete. *)
Definition of_object (a : action T) : Prop :=
  match a with
  | NewGetAction _ _ _ | NewCreateAction _ _ _ | NewUpdateAction _ _ _
  | NewUpdateSubresourceAction _ _ _ _ | NewPatchSubresourceAction _ _ _ _ _ _ => True
  | _ => False
  end.
Definition of_delete (a : action T) : Prop :=
  match a with NewDeleteAction _ _ _ | NewDeleteCollectionAction _ _ _ => True | _ => False end.
Definition selected (opts : ListOptions) (l : ObjectList T) : list T :=
  filter (λ item, NodeMatch.Matches (default labels_Everything (ExtractLabel (lo_filter opts)))
    (object_Labels item) = true) (elems (list_Items l)).
End meaning.

(** A server and the reactors of a fake that answer alike: an action has the same effect,
    and the same answer or error; a server selects the items of a list itself.  An error
    leaves the object decoded into as it is. *)
Class SameServer `{!NodeMatch.KubeAPI, !Meta} {T} `{!Object T} {W}
    `{!RESTClient T W, !Fake T W} (kind : string) (client fake : Ref) : Prop := {
  same_object rq a w : action_of kind rq = Some a → of_object a →
    ∃ res obj err w', rest_Do client rq w = (res, w') ∧
      Invokes fake a (AnObject object_zero) w = ((obj, err), w') ∧
      match err with
      | None => ∃ x, obj = Some (AnObject x) ∧ Result_Into res object_zero = (x, None)
      | Some e => obj = None ∧ Result_Into res object_zero = (object_zero, Some e)
      end;
  same_list rq r ns opts w : action_of kind rq = Some (NewListAction r kind ns opts) →
    ∃ res obj err w', rest_Do client rq w = (res, w') ∧
      Invokes fake (NewListAction r kind ns opts) (AList zero_list) w = ((obj, err), w') ∧
      match err with
      | None => ∃ l items, obj = Some (AList l) ∧ elems items = selected opts l ∧
          Result_IntoList res zero_list = (ObjectList_ (list_Meta l) items, None)
      | Some e => obj = None ∧ Result_IntoList res zero_list = (zero_list, Some e)
      end;
  same_delete rq a dflt w : action_of kind rq = Some a → of_delete a →
    ∃ res obj w', rest_Do client rq w = (res, w') ∧
      Invokes fake a dflt w = ((obj, Result_Error res), w');
  same_watch rq r ns opts w : action_of kind rq = Some (NewWatchAction r ns (set_Watch opts)) →
    rest_Watch client rq w = InvokesWatch fake (NewWatchAction r ns opts) w;
}.

(** ** The clients are alike *)

(** Two operations with the same effect on the world and related results; a failed
    request leaves a pointer to the zero value, a failed action leaves [nil]. *)
Definition agree {C W A} (R : A → A → Prop) (m m' : M C W A) : Prop :=
  ∀ c w, ∃ a b w', m c w = Ret (a, c, w') ∧ m' c w = Ret (b, c, w') ∧ R a b.
Definition same_answer {A} (R : A → A → Prop) (zero : A) (real fake : option A * option error) : Prop :=
  match fake with
  | (Some y, None) => ∃ x, real = (Some x, None) ∧ R x y
  | (None, Some e) => real = (Some zero, Some e)
  | _ => False
  end.

Section alike.
Context `{!NodeMatch.KubeAPI, !Meta} {T : Type} `{!Object T} {C W : Type}.

Definition same_items (l l' : ObjectList T) : Prop :=
  list_Meta l = list_Meta l' ∧ elems (list_Items l) = elems (list_Items l').
(** [List] agrees unless the options ask to watch. *)
Record same_interface (i j : Interface T C W) : Prop := {
  si_Create x o : agree (same_answer eq object_zero) (i_Create i x o) (i_Create j x o);
  si_Update x o : agree (same_answer eq object_zero) (i_Update i x o) (i_Update j x o);
  si_UpdateStatus x o : agree (same_answer eq object_zero) (i_UpdateStatus i x o) (i_UpdateStatus j x o);
  si_Delete n o : agree eq (i_Delete i n o) (i_Delete j n o);
  si_DeleteCollection o lo : agree eq (i_DeleteCollection i o lo) (i_DeleteCollection j o lo);
  si_Get n o : agree (same_answer eq object_zero) (i_Get i n o) (i_Get j n o);
  si_List o : lo_Watch o = false →
    agree (same_answer same_items zero_list) (i_List i o) (i_List j o);
  si_Watch o : agree eq (i_Watch i o) (i_Watch j o);
  si_Patch n pt d o subs :
    agree (same_answer eq object_zero) (i_Patch i n pt d o subs) (i_Patch j n pt d o subs);
}.

Context `{!RESTClient T W, !Fake T W} (kind : string) (client fake : Ref).
Context `{!SameServer kind client fake} (resource ns : string).
Abbreviation gvr := (WithResource SchemeGroupVersion resource).

(** A request for an object and the action it means. *)
Lemma agree_object rq a : action_of kind rq = Some a → of_object a →
  agree (same_answer eq object_zero) (Do_Into (C := C) client rq)
    ('(obj, err) ← call (Invokes fake a (AnObject object_zero)); as_object obj err).
Proof.
  intros Ha Ho c w. destruct (same_object rq a w Ha Ho) as (res & obj & err & w' & Hr & Hf & Hs).
  destruct err as [e|].
  - destruct Hs as [-> HI]. exists (Some object_zero, Some e), (None, Some e), w'.
    unfold Do_Into, mbind, M_bind, call. rewrite Hr, Hf. cbn. rewrite HI. by split_and!.
  - destruct Hs as (x & -> & HI). exists (Some x, None), (Some x, None), w'.
    unfold Do_Into, mbind, M_bind, call. rewrite Hr, Hf. cbn. rewrite HI. split_and!; [done..|by exists x].
Qed.
Lemma agree_delete rq a dflt : action_of kind rq = Some a → of_delete a →
  agree eq (Do_Error (C := C) client rq)
    ('(_, err) ← call (Invokes fake a dflt); mret err).
Proof.
  intros Ha Ho c w. destruct (same_delete rq a dflt w Ha Ho) as (res & obj & w' & Hr & Hf).
  exists (Result_Error res), (Result_Error res), w'.
  unfold Do_Error, mbind, M_bind, call. by rewrite Hr, Hf.
Qed.

Lemma elems_append {A} (s : slice A) xs : elems (append s xs) = elems s ++ xs.
Proof. destruct s; [done|]. by destruct xs. Qed.
(** The loop of the fake selects the items. *)
Lemma for_fold_filter (P : T → bool) (xs : list T) (items : slice T) (c : C) (w : W) :
  ∃ items', for_fold xs items (λ items item,
      mret (if P item then append items [item] else items)) c w = Ret (items', c, w) ∧
    elems items' = elems items ++ filter (λ x, P x = true) xs.
Proof.
  revert items. induction xs as [|x xs IH]; intros items; cbn [for_fold].
  - exists items. by rewrite app_nil_r.
  - destruct (IH (if P x then append items [x] else items)) as (items' & Hf & He).
    exists items'. split; [exact Hf|]. rewrite He, filter_cons. destruct (P x).
    + rewrite decide_True by done. rewrite elems_append. by rewrite <- app_assoc.
    + by rewrite decide_False.
Qed.
End alike.

Section same.
Context `{!NodeMatch.KubeAPI, !Meta} {T : Type} `{!Object T} {W : Type}.
Context `{!RESTClient T W, !Fake T W} (kind : string) (client fake : Ref).
Context `{!SameServer kind client fake} {C : Type}.

Lemma agree_list resource ns opts : lo_Watch opts = false →
  agree (same_answer same_items zero_list) (List (C := C) resource client ns opts)
    (Fake_List (WithResource SchemeGroupVersion resource) kind fake ns opts).
Proof.
  intros Hw c w. unfold List, Fake_List.
  match goal with |- context [rest_Do client ?rq] => pose (q := rq) end.
  destruct (same_list q (WithResource SchemeGroupVersion resource) ns opts w) as
    (res & obj & err & w' & Hr & Hf & Hs).
  { unfold action_of. cbn. by rewrite Hw. }
  unfold mbind, M_bind, call. fold q. rewrite Hr, Hf. cbn beta iota zeta delta [fst snd]. destruct err as [e|].
  - destruct Hs as [-> HI]. unfold zero_list in HI. rewrite HI.
    exists (Some zero_list, Some e), (None, Some e), w'. by split_and!.
  - destruct Hs as (l & items & -> & Hit & HI). unfold zero_list in HI. rewrite HI.
    destruct (for_fold_filter (λ item, NodeMatch.Matches (default labels_Everything
      (ExtractLabel (lo_filter opts))) (object_Labels item)) (elems (list_Items l)) None c w')
      as (items' & Hl & He).
    exists (Some (ObjectList_ (list_Meta l) items), None), (Some (ObjectList_ (list_Meta l) items'), None), w'.
    rewrite Hl. split_and!; [done..|]. eexists; split; [done|]. split; [done|]. change (elems items = elems items'). by rewrite Hit, He.
Qed.

Lemma same_client resource ns :
  same_interface (typedClient (C := C) resource client ns)
    (fakeClient (WithResource SchemeGroupVersion resource) kind fake ns).
Proof.
  split; cbn [i_Create i_Update i_UpdateStatus i_Delete i_DeleteCollection i_Get i_List i_Watch
              i_Patch typedClient fakeClient]; intros.
  1-3,6,9: by apply (agree_object kind client fake); [unfold action_of; cbn; rewrite ?bool_decide_true|].
  1-2: by apply (agree_delete kind client fake).
  - by apply agree_list.
  - intros c w. unfold Watch, Fake_Watch, call.
    rewrite (same_watch _ (WithResource SchemeGroupVersion resource) ns o) by done.
    by destruct (InvokesWatch _ _ w) as [r w']; eexists _, _, _.
Qed.
End same.


(** ** An example

    A store of the objects of each resource by namespace and name serves requests and
    actions; it has no patches. *)
Module Example.
#[export] Instance api : NodeMatch.KubeAPI := {|
  NodeMatch.Selector := bool; NodeMatch.labels_Parse _ := inl true;
  NodeMatch.Matches b _ := b; NodeMatch.ToleratesTaint _ _ := false;
|}.
#[export] Instance meta : Meta := {|
  GetOptions := unit; CreateOptions := unit; UpdateOptions := unit; DeleteOptions := unit;
  PatchOptions := unit; ListFilter := option bool; ListMeta := unit; ListMeta_zero := tt;
  labels_Everything := true; ExtractLabel := id;
|}.
Class Store (T W : Type) : Type := {
  get : W → gmap (string * string) T;
  put : gmap (string * string) T → W → W;
}.

Section store.
Context {T W : Type} `{!Object T, !Store T W} (kind : string).
Definition found (x : option T) : option (object T) * option error :=
  match x with
  | Some x => (Some (AnObject x), None)
  | None => (None, Some (ErrorString "not found"))
  end.
Definition serve (a : action T) (w : W) : (option (object T) * option error) * W :=
  match a with
  | NewGetAction _ ns name => (found (get w !! (ns, name)), w)
  | NewListAction _ _ ns _ =>
      ((Some (AList (ObjectList_ tt (Some (snd <$> filter (λ p, p.1.1 = ns) (map_to_list (get w)))))),
        None), w)
  | NewCreateAction _ ns x =>
      match get w !! (ns, object_Name x) with
      | Some _ => ((None, Some (ErrorString "already exists")), w)
      | None => ((Some (AnObject x), None), put (<[(ns, object_Name x) := x]> (get w)) w)
      end
  | NewUpdateAction _ ns x | NewUpdateSubresourceAction _ _ ns x =>
      match get w !! (ns, object_Name x) with
      | Some _ => ((Some (AnObject x), None), put (<[(ns, object_Name x) := x]> (get w)) w)
      | None => ((None, Some (ErrorString "not found")), w)
      end
  | NewDeleteAction _ ns name => ((None, None), put (delete (ns, name) (get w)) w)
  | NewDeleteCollectionAction _ ns _ => ((None, None), put (filter (λ p, p.1.1 ≠ ns) (get w)) w)
  | NewPatchSubresourceAction _ _ _ _ _ _ => ((None, Some (ErrorString "no patches")), w)
  | NewWatchAction _ _ _ => ((None, None), w)
  end.
(** The server selects the items of a list. *)
Definition select (a : action T) (r : option (object T) * option error) :=
  match a, r with
  | NewListAction _ _ _ opts, (Some (AList l), err) =>
      (Some (AList (ObjectList_ (list_Meta l) (Some (selected opts l)))), err)
  | _, r => r
  end.
#[export] Instance fake : Fake T W := {|
  Invokes _ a _ w := serve a w;
  InvokesWatch _ _ w := (inl 1%positive, w);
|}.
#[local] Instance client : RESTClient T W := {|
  Result := option (object T) * option error;
  rest_Do _ rq w :=
    match action_of kind rq with
    | Some a => let '(r, w') := serve a w in (select a r, w')
    | None => ((None, Some (ErrorString "bad request")), w)
    end;
  rest_Watch _ _ w := (inl 1%positive, w);
  Result_Into r zero := match r with
                        | (_, Some e) => (zero, Some e)
                        | (Some (AnObject x), None) => (x, None)
                        | _ => (zero, Some (ErrorString "not an object"))
                        end;
  Result_IntoList r zero := match r with
                            | (_, Some e) => (zero, Some e)
                            | (Some (AList l), None) => (l, None)
                            | _ => (zero, Some (ErrorString "not a list"))
                            end;
  Result_Error := snd;
|}.
Lemma same c f : SameServer (T := T) (W := W) kind c f.
Proof.
  split.
  - intros rq a w Ha Ho. cbn. rewrite Ha.
    destruct a as [r ns n| | |r ns x|r ns x|r sub ns x| | |]; try done; cbn.
    + destruct (get w !! (ns, n)) as [x|]; cbn; eexists _, _, _, _; split_and!; try done. by exists x.
    + destruct (get w !! _); eexists _, _, _, _; split_and!; try done. by exists x.
    + destruct (get w !! _); eexists _, _, _, _; split_and!; try done. by exists x.
    + destruct (get w !! _); eexists _, _, _, _; split_and!; try done. by exists x.
    + eexists _, _, _, _; by split_and!.
  - intros rq r ns opts w Ha. cbn. rewrite Ha. eexists _, _, _, _. split; [reflexivity|].
    split; [reflexivity|]. eexists _, (Some (selected opts _)). by split_and!.
  - intros rq a dflt w Ha Ho. cbn. rewrite Ha. destruct a; try done; cbn; by eexists _, _, _.
  - done.
Qed.
End store.

(** A world with both. *)
Definition World : Type := gmap (string * string) FloatingIPPool * gmap (string * string) NodeDNSRecordSet.
#[export] Instance pools : Store FloatingIPPool World := {| get := fst; put m w := (m, w.2) |}.
#[export] Instance records : Store NodeDNSRecordSet World := {| get := snd; put m w := (w.1, m) |}.
#[export] Instance labels : ResourceLabels := {| pool_Labels _ := ∅; record_Labels _ := ∅ |}.
#[export] Instance pools_client : RESTClient FloatingIPPool World := client floatingippoolsKind.
#[export] Instance records_client : RESTClient NodeDNSRecordSet World := client nodednsrecordsetsKind.
End Example.
Import Example.

