(* ===== verification/Informers.v ===== *)
(** * The generated informers and listers

    informers/externalversions: the factory that shares one informer per type, starts
    each once and waits for their caches; the informers list and watch with the client of
    their resource.  listers/flipop/v1alpha1: reading from the index of an informer.  The
    informers and indices of client-go are part of the world. *)
From S2P Require Import Prelude Go Retry K8s Types Provider APIClient.
From S2P Require NodeMatch.
From Stdlib Require Import Ascii.

(** ** Informers *)

(** What an informer is made of: [cache.ListWatch] is known by what its closures capture,
    the type by its name. *)
Record ListWatch : Type := ListWatch_ {
  lw_client : Ref;
  lw_namespace : string;
  lw_tweak : option Ref;
}.
Record informer_config : Type := InformerConfig {
  ic_ListWatch : ListWatch;
  ic_type : string;
  ic_resync : Duration;
  ic_indexers : list string;
}.
Definition NamespaceIndex : string := "namespace".
Definition NamespaceAll : string := "".

Class InformerEnv `{!NodeMatch.KubeAPI, !Meta} (W : Type) : Type := {
  #[global] informer_range :: MapRange W;
  NewSharedIndexInformer : informer_config → W → Ref * W;
  go_Run : Ref → Ref → W → unit * W;               (** [go informer.Run(stopCh)] *)
  cache_WaitForCacheSync : Ref → Ref → W → bool * W;
  GetIndexer : Ref → Ref;
  call_tweak : Ref → ListOptions → W → ListOptions * W;
}.

Section informers.
Context `{!NodeMatch.KubeAPI, !Meta} {W : Type} `{!InformerEnv W} {C : Type}.
Local Abbreviation M := (M C W).

(** [ListFunc] and [WatchFunc], at the client of the resource. *)
Definition tweaked (lw : ListWatch) (options : ListOptions) : M ListOptions :=
  match lw_tweak lw with
  | Some tweakListOptions => call (call_tweak tweakListOptions options)
  | None => mret options
  end.
Definition ListFunc {T} (resource : Ref → string → Interface T C W) (lw : ListWatch) (options : ListOptions)
    : M (option (ObjectList T) * option error) :=
  options ← tweaked lw options;
  i_List (resource (lw_client lw) (lw_namespace lw)) options.
Definition WatchFunc {T} (resource : Ref → string → Interface T C W) (lw : ListWatch) (options : ListOptions)
    : M (Ref + error) :=
  options ← tweaked lw options;
  i_Watch (resource (lw_client lw) (lw_namespace lw)) options.

Definition FloatingIPPoolType : string := "*v1alpha1.FloatingIPPool".
Definition NodeDNSRecordSetType : string := "*v1alpha1.NodeDNSRecordSet".

Definition NewFilteredFloatingIPPoolInformer (client : Ref) (namespace : string)
    (resyncPeriod : Duration) (indexers : list string) (tweakListOptions : option Ref) : M Ref :=
  call (NewSharedIndexInformer (InformerConfig (ListWatch_ client namespace tweakListOptions)
    FloatingIPPoolType resyncPeriod indexers)).
Definition NewFloatingIPPoolInformer (client : Ref) (namespace : string) (resyncPeriod : Duration)
    (indexers : list string) : M Ref :=
  NewFilteredFloatingIPPoolInformer client namespace resyncPeriod indexers None.
Definition NewFilteredNodeDNSRecordSetInformer (client : Ref) (namespace : string)
    (resyncPeriod : Duration) (indexers : list string) (tweakListOptions : option Ref) : M Ref :=
  call (NewSharedIndexInformer (InformerConfig (ListWatch_ client namespace tweakListOptions)
    NodeDNSRecordSetType resyncPeriod indexers)).
Definition NewNodeDNSRecordSetInformer (client : Ref) (namespace : string) (resyncPeriod : Duration)
    (indexers : list string) : M Ref :=
  NewFilteredNodeDNSRecordSetInformer client namespace resyncPeriod indexers None.
End informers.

(** ** The factory *)
Record sharedInformerFactory : Type := SharedInformerFactory_ {
  f_client : Ref;
  f_namespace : string;
  f_tweakListOptions : option Ref;
  f_defaultResync : Duration;
  f_customResync : gmap string Duration;
  f_informers : gmap string Ref;
  f_startedInformers : gmap string bool;
}.
Definition eta_factory (f : sharedInformerFactory) : sharedInformerFactory :=
  SharedInformerFactory_ (f_client f) (f_namespace f) (f_tweakListOptions f) (f_defaultResync f)
    (f_customResync f) (f_informers f) (f_startedInformers f).
#[export] Instance set_f_namespace : Setter f_namespace := ltac:(derive_setter eta_factory f_namespace).
#[export] Instance set_f_tweakListOptions : Setter f_tweakListOptions := ltac:(derive_setter eta_factory f_tweakListOptions).
#[export] Instance set_f_customResync : Setter f_customResync := ltac:(derive_setter eta_factory f_customResync).
#[export] Instance set_f_informers : Setter f_informers := ltac:(derive_setter eta_factory f_informers).
#[export] Instance set_f_startedInformers : Setter f_startedInformers := ltac:(derive_setter eta_factory f_startedInformers).

(** [SharedInformerOption]; the periods by type are in the order of the iteration. *)
Definition SharedInformerOption : Type := sharedInformerFactory → sharedInformerFactory.
Definition WithCustomResyncConfig (resyncConfig : list (string * Duration)) : SharedInformerOption := λ factory,
  factory <| f_customResync ::= λ m, foldl (λ m kv, <[kv.1 := kv.2]> m) m resyncConfig |>.
Definition WithTweakListOptions (tweakListOptions : option Ref) : SharedInformerOption := λ factory,
  factory <| f_tweakListOptions := tweakListOptions |>.
Definition WithNamespace (namespace : string) : SharedInformerOption := λ factory,
  factory <| f_namespace := namespace |>.
Definition NewSharedInformerFactoryWithOptions (client : Ref) (defaultResync : Duration)
    (options : list SharedInformerOption) : sharedInformerFactory :=
  foldl (λ factory opt, opt factory)
    (SharedInformerFactory_ client NamespaceAll None defaultResync ∅ ∅ ∅) options.
Definition NewSharedInformerFactory (client : Ref) (defaultResync : Duration) : sharedInformerFactory :=
  NewSharedInformerFactoryWithOptions client defaultResync [].
Definition NewFilteredSharedInformerFactory (client : Ref) (defaultResync : Duration)
    (namespace : string) (tweakListOptions : option Ref) : sharedInformerFactory :=
  NewSharedInformerFactoryWithOptions client defaultResync
    [WithNamespace namespace; WithTweakListOptions tweakListOptions].

Section factory.
Context `{!NodeMatch.KubeAPI, !Meta} {W : Type} `{!InformerEnv W}.
Local Abbreviation M := (M sharedInformerFactory W).

Definition started (f : sharedInformerFactory) (informerType : string) : bool :=
  default false (f_startedInformers f !! informerType).
Definition Start (stopCh : Ref) : M unit :=
  informers ← gets f_informers;
  types ← range_keys informers;
  for_each types (λ informerType,
    informer ← deref (informers !! informerType);
    running ← gets (λ f, started f informerType);
    if (running : bool) then mret tt
    else
      call (go_Run informer stopCh) ;;
      modify (λ f, f <| f_startedInformers ::= <[informerType := true]> |>)).
Definition WaitForCacheSync (stopCh : Ref) : M (gmap string bool) :=
  informers ← gets (λ f, filter (λ ti, started f ti.1 = true) (f_informers f));
  types ← range_keys informers;
  for_fold types ∅ (λ res informType,
    informer ← deref (informers !! informType);
    synced ← call (cache_WaitForCacheSync stopCh informer);
    mret (<[informType := synced]> res)).
Definition InformerFor (informerType : string) (newFunc : Ref → Duration → M Ref) : M Ref :=
  exists_ ← gets (λ f, f_informers f !! informerType);
  match exists_ with
  | Some informer => mret informer
  | None =>
      resyncPeriod ← gets (λ f, default (f_defaultResync f) (f_customResync f !! informerType));
      client ← gets f_client;
      informer ← newFunc client resyncPeriod;
      modify (λ f, f <| f_informers ::= <[informerType := informer]> |>) ;;
      mret informer
  end.

(** *** What the factory gives access to

    [group], [version] and the informer of a resource are the namespace and the filter
    they were made with, next to the factory itself. *)
Record scope : Type := Scope { sc_namespace : string; sc_tweakListOptions : option Ref }.
Definition Flipop : M scope := gets (λ f, Scope (f_namespace f) (f_tweakListOptions f)).
Definition V1alpha1 (g : scope) : scope := Scope (sc_namespace g) (sc_tweakListOptions g).
Definition version_FloatingIPPools (v : scope) : scope := Scope (sc_namespace v) (sc_tweakListOptions v).
Definition version_NodeDNSRecordSets (v : scope) : scope := Scope (sc_namespace v) (sc_tweakListOptions v).

Definition pools_defaultInformer (f : scope) (client : Ref) (resyncPeriod : Duration) : M Ref :=
  NewFilteredFloatingIPPoolInformer client (sc_namespace f) resyncPeriod [NamespaceIndex]
    (sc_tweakListOptions f).
Definition pools_Informer (f : scope) : M Ref := InformerFor FloatingIPPoolType (pools_defaultInformer f).
Definition pools_Lister (f : scope) : M Ref := i ← pools_Informer f; mret (GetIndexer i).
Definition records_defaultInformer (f : scope) (client : Ref) (resyncPeriod : Duration) : M Ref :=
  NewFilteredNodeDNSRecordSetInformer client (sc_namespace f) resyncPeriod [NamespaceIndex]
    (sc_tweakListOptions f).
Definition records_Informer (f : scope) : M Ref := InformerFor NodeDNSRecordSetType (records_defaultInformer f).
Definition records_Lister (f : scope) : M Ref := i ← records_Informer f; mret (GetIndexer i).

Record genericInformer : Type := GenericInformer { gi_informer : Ref; gi_resource : string * string }.
Definition ForResource (resource : GroupVersionResource) : M (genericInformer + error) :=
  if bool_decide (resource = WithResource SchemeGroupVersion "floatingippools") then
    flipop ← Flipop;
    i ← pools_Informer (version_FloatingIPPools (V1alpha1 flipop));
    mret (inl (GenericInformer i (GroupResource resource)))
  else if bool_decide (resource = WithResource SchemeGroupVersion "nodednsrecordsets") then
    flipop ← Flipop;
    i ← records_Informer (version_NodeDNSRecordSets (V1alpha1 flipop));
    mret (inl (GenericInformer i (GroupResource resource)))
  else mret (inr (ErrorString ("no informer found for " +:+ gvr_Group resource +:+ "/" +:+
                               gvr_Version resource +:+ ", Resource=" +:+ gvr_Resource resource))).
End factory.

(** ** Each informer runs once *)

(** The informers made so far, and those that were run. *)
Class InformerGhost (W : Type) : Type := { made : W → list Ref; runs : W → list Ref }.
Class InformerLaws `{!NodeMatch.KubeAPI, !Meta} (W : Type) `{!InformerEnv W, !InformerGhost W} : Prop := {
  informer_range_laws :: MapRangeLaws W;
  range_keeps ks w : made (range_order ks w).2 = made w ∧ runs (range_order ks w).2 = runs w;
  new_informer c w : (NewSharedIndexInformer c w).1 ∉ made w ∧
    made (NewSharedIndexInformer c w).2 = made w ++ [(NewSharedIndexInformer c w).1] ∧
    runs (NewSharedIndexInformer c w).2 = runs w;
  go_Run_runs i stop w : runs (go_Run i stop w).2 = runs w ++ [i] ∧ made (go_Run i stop w).2 = made w;
  WaitForCacheSync_keeps stop i w : runs (cache_WaitForCacheSync stop i w).2 = runs w ∧
    made (cache_WaitForCacheSync stop i w).2 = made w;
}.

(** What the users of a factory do with it. *)
Inductive use : Type :=
  | UsePools
  | UseRecords
  | UseResource (r : GroupVersionResource)
  | UseStart (stopCh : Ref)
  | UseWait (stopCh : Ref).
Section use.
Context `{!NodeMatch.KubeAPI, !Meta} {W : Type} `{!InformerEnv W}.
Local Abbreviation M := (M sharedInformerFactory W).
Definition use_factory (u : use) : M unit :=
  match u with
  | UsePools => f ← Flipop; _ ← pools_Lister (version_FloatingIPPools (V1alpha1 f)); mret tt
  | UseRecords => f ← Flipop; _ ← records_Lister (version_NodeDNSRecordSets (V1alpha1 f)); mret tt
  | UseResource r => _ ← ForResource r; mret tt
  | UseStart stopCh => Start stopCh
  | UseWait stopCh => _ ← WaitForCacheSync stopCh; mret tt
  end.
End use.

Section run_once.
Context `{!NodeMatch.KubeAPI, !Meta} {W : Type} `{!InformerEnv W, !InformerGhost W, !InformerLaws W}.
Implicit Types (f : sharedInformerFactory) (w : W).

(** The informers of a factory are distinct; the started ones run, once each. *)
Record factory_ok f w : Prop := {
  fo_made t i : f_informers f !! t = Some i → i ∈ made w;
  fo_inj t t' i : f_informers f !! t = Some i → f_informers f !! t' = Some i → t = t';
  fo_started t i : f_informers f !! t = Some i → started f t = true ↔ i ∈ runs w;
  fo_known t : started f t = true → is_Some (f_informers f !! t);
  fo_runs i : i ∈ runs w → ∃ t, f_informers f !! t = Some i;
  fo_once : NoDup (runs w);
}.
Lemma factory_ok_world f w w' : made w' = made w → runs w' = runs w → factory_ok f w → factory_ok f w'.
Proof. intros Hm Hr []. by split; rewrite ?Hm, ?Hr. Qed.

Lemma InformerFor_ok t newFunc f w :
  (∀ client resync (Q : Ref → sharedInformerFactory → W → Prop),
     (∀ i w', i ∉ made w → made w' = made w ++ [i] → runs w' = runs w → Q i f w') →
     wp False (newFunc client resync) Q f w) →
  factory_ok f w →
  wp False (InformerFor t newFunc) (λ i f' w', factory_ok f' w' ∧ f_informers f ⊆ f_informers f' ∧
    f_informers f' !! t = Some i ∧ f_startedInformers f' = f_startedInformers f) f w.
Proof.
  intros Hnew Hok. unfold InformerFor. wp_steps.
  destruct (f_informers f !! t) as [i|] eqn:Ht; [by wp_steps|]. wp_steps.
  apply Hnew. intros i w' Hi Hm Hr. wp_steps.
  assert (Hf : ∀ t', started (f <| f_informers ::= <[t := i]> |>) t' = started f t') by done.
  split_and!; [|by apply insert_subseteq|apply lookup_insert_eq|done].
  split; cbn [f_informers set_field set_f_informers]; [..|by rewrite Hr; apply Hok].
  - intros t' j. rewrite Hm, elem_of_app, list_elem_of_singleton. intros [[_ ->]|[_ Hj]]%lookup_insert_Some;
      [by right|left; by eapply fo_made].
  - intros t1 t2 j [[<- <-]|[Hn1 H1]]%lookup_insert_Some [[<- Hj]|[Hn2 H2]]%lookup_insert_Some; [done| | |].
    + by apply (fo_made _ _ Hok) in H2.
    + subst j. by apply (fo_made _ _ Hok) in H1.
    + by eapply fo_inj.
  - intros t' j. rewrite Hf, Hr. intros [[<- <-]|[Hn1 H1]]%lookup_insert_Some; [|by apply (fo_started _ _ Hok)].
    split; intros Hs.
    + apply (fo_known _ _ Hok) in Hs. rewrite Ht in Hs. by destruct Hs.
    + apply (fo_runs _ _ Hok) in Hs as [t' Hs]. by apply (fo_made _ _ Hok) in Hs.
  - intros t'. rewrite Hf. intros Hs%(fo_known _ _ Hok). destruct (decide (t = t')) as [->|].
    + rewrite lookup_insert_eq. by eexists.
    + by rewrite lookup_insert_ne.
  - intros j. rewrite Hr. intros [t' Hj]%(fo_runs _ _ Hok). exists t'. rewrite lookup_insert_ne; [done|].
    intros ->. by rewrite Ht in Hj.
Qed.

(** Starting one informer. *)
Lemma start_ok f w t i w' : factory_ok f w → f_informers f !! t = Some i → started f t = false →
  made w' = made w → runs w' = runs w ++ [i] →
  factory_ok (f <| f_startedInformers ::= <[t := true]> |>) w'.
Proof.
  intros Hok Ht Hs Hm Hr.
  assert (Hf : ∀ t', started (f <| f_startedInformers ::= <[t := true]> |>) t' = true ↔ t' = t ∨ started f t' = true).
  { intros t'. unfold started. cbn. destruct (decide (t = t')) as [->|].
    - rewrite lookup_insert_eq. split; [by left|done].
    - rewrite lookup_insert_ne by done. naive_solver. }
  split; cbn [f_informers set_field set_f_startedInformers]; rewrite ?Hm.
  - apply Hok.
  - apply Hok.
  - intros t' j Hj. rewrite Hf, Hr, elem_of_app, list_elem_of_singleton, <- (fo_started _ _ Hok t' j Hj).
    split; [intros [->|?]|intros [?| ->]]; [right; congruence|by left|by right|left; by eapply fo_inj].
  - intros t'. rewrite Hf. intros [->|Ht']; [by eexists|by apply Hok].
  - intros j. rewrite Hr, elem_of_app, list_elem_of_singleton. intros [Hj| ->]; [by apply Hok|by eexists].
  - rewrite Hr. apply NoDup_app. split_and!; [apply Hok| |apply NoDup_singleton].
    intros j Hj ->%list_elem_of_singleton. apply (fo_started _ _ Hok t i Ht) in Hj. congruence.
Qed.

Lemma Start_ok stopCh f w : factory_ok f w →
  wp False (Start stopCh) (λ _ f' w', factory_ok f' w' ∧ f_informers f' = f_informers f ∧
    ∀ t i, f_informers f !! t = Some i → i ∈ runs w') f w.
Proof.
  intros Hok. unfold Start. wp_steps. unfold range_keys. apply wp_call. intros ks w1 Hks.
  pose proof (range_keeps ((map_to_list (f_informers f)).*1) w) as [Hm Hr]. rewrite Hks in Hm, Hr.
  assert (Hall : ∀ t, t ∈ ks ↔ is_Some (f_informers f !! t)) by (intros t; by eapply range_order_elem).
  apply (factory_ok_world f w w1) in Hok; [|done..]. clear Hks Hm Hr.
  apply (wp_mono _ _ (λ _ f' w', factory_ok f' w' ∧ f_informers f' = f_informers f ∧
    ∀ t, t ∈ ks → started f' t = true)).
  { intros _ f' w' (Hok' & Hi & Hs). split_and!; [done..|]. intros t i Ht.
    apply (fo_started _ _ Hok' t i); [by rewrite Hi|]. apply Hs, Hall. by eexists. }
  assert (Hin : ∀ t, t ∈ ks → is_Some (f_informers f !! t)) by (intros t; apply Hall). clear Hall.
  eapply (wp_for_each_prefix _ (λ done f' w', factory_ok f' w' ∧ f_informers f' = f_informers f ∧
    ∀ t, t ∈ done → started f' t = true)).
  { split_and!; [done..|]. by intros t ?%elem_of_nil. }
  intros past t todo f' w' -> (Hok' & Hi & Hs).
  destruct (Hin t ltac:(set_solver)) as [i Ht]. rewrite Ht. cbn [deref]. wp_steps.
  destruct (started f' t) eqn:Hst; wp_steps.
  - split_and!; [done..|]. intros t' [?| ->%list_elem_of_singleton]%elem_of_app; [by apply Hs|done].
  - apply wp_call. intros [] w2 Hrun. pose proof (go_Run_runs i stopCh w') as [Hr Hm].
    rewrite Hrun in Hr, Hm. wp_steps. split_and!; [by eapply start_ok; [|rewrite Hi| | |]|done|].
    intros t' Ht'. unfold started. cbn. destruct (decide (t = t')) as [->|Hne].
    + by rewrite lookup_insert_eq.
    + rewrite lookup_insert_ne by done. apply Hs. set_solver.
Qed.

Lemma WaitForCacheSync_ok stopCh f w : factory_ok f w →
  wp False (WaitForCacheSync stopCh) (λ res f' w', f' = f ∧ factory_ok f' w' ∧ runs w' = runs w ∧
    ∀ t, is_Some (res !! t) ↔ started f t = true) f w.
Proof.
  intros Hok. unfold WaitForCacheSync. wp_steps. unfold range_keys. apply wp_call. intros ks w1 Hks.
  set (informers := filter _ _) in *.
  pose proof (range_keeps ((map_to_list informers).*1) w) as [Hm Hr]. rewrite Hks in Hm, Hr.
  assert (Hall : ∀ t, t ∈ ks ↔ is_Some (informers !! t)) by (intros t; by eapply range_order_elem).
  assert (Hst : ∀ t, is_Some (informers !! t) ↔ started f t = true).
  { intros t. unfold informers. split.
    - intros [i [_ Hi]%map_lookup_filter_Some]. exact Hi.
    - intros Hs. destruct (fo_known _ _ Hok t Hs) as [i Hi]. exists i. by apply map_lookup_filter_Some. }
  eapply wp_mono; [|apply (wp_for_fold_prefix _ (λ done (res : gmap string bool) f' w', f' = f ∧
    made w' = made w ∧ runs w' = runs w ∧ ∀ t, is_Some (res !! t) ↔ t ∈ done))].
  - intros res f' w' (-> & Hm' & Hr' & Hd). split_and!; [done|by eapply factory_ok_world|done|].
    intros t. by rewrite Hd, Hall, Hst.
  - split_and!; [done..|]. intros t. rewrite lookup_empty. split; [by intros []|by intros ?%elem_of_nil].
  - intros past t todo res f' w' -> (-> & Hm' & Hr' & Hd).
    destruct (proj1 (Hall t) ltac:(set_solver)) as [i Ht]. rewrite Ht. cbn [deref]. wp_steps.
    apply wp_call. intros b w2 Hw. pose proof (WaitForCacheSync_keeps stopCh i w') as [Hr2 Hm2].
    rewrite Hw in Hr2, Hm2. cbn in Hr2, Hm2. wp_steps. split_and!; [done|congruence..|].
    intros t'. rewrite elem_of_app, list_elem_of_singleton, <- Hd. destruct (decide (t = t')) as [->|Hne].
    + rewrite lookup_insert_eq. split; [by right|by eexists].
    + rewrite lookup_insert_ne by done. naive_solver.
Qed.

(** The informers of the two resources. *)
Definition informer_ok (m : M sharedInformerFactory W Ref) : Prop := ∀ f w, factory_ok f w →
  wp False m (λ i f' w', factory_ok f' w' ∧ f_informers f ⊆ f_informers f') f w.
Lemma pools_Informer_ok sc : informer_ok (pools_Informer sc).
Proof.
  intros f w Hok. eapply wp_mono; [|apply InformerFor_ok; [|exact Hok]].
  - by intros i f' w' (H1 & H2 & _).
  - intros client resync Q HQ. apply wp_call. intros i w' Hn.
    match type of Hn with NewSharedIndexInformer ?c w = _ => pose proof (new_informer c w) as (H1 & H2 & H3) end.
    rewrite Hn in H1, H2, H3. by apply HQ.
Qed.
Lemma records_Informer_ok sc : informer_ok (records_Informer sc).
Proof.
  intros f w Hok. eapply wp_mono; [|apply InformerFor_ok; [|exact Hok]].
  - by intros i f' w' (H1 & H2 & _).
  - intros client resync Q HQ. apply wp_call. intros i w' Hn.
    match type of Hn with NewSharedIndexInformer ?c w = _ => pose proof (new_informer c w) as (H1 & H2 & H3) end.
    rewrite Hn in H1, H2, H3. by apply HQ.
Qed.

Lemma use_ok u f w : factory_ok f w →
  wp False (use_factory u) (λ _ f' w', factory_ok f' w' ∧ f_informers f ⊆ f_informers f') f w.
Proof.
  intros Hok. destruct u as [| |r|stopCh|stopCh]; cbn [use_factory]; unfold Flipop, pools_Lister, records_Lister.
  - wp_steps. eapply wp_mono; [|by apply pools_Informer_ok]. intros i f' w' Hf. by wp_steps.
  - wp_steps. eapply wp_mono; [|by apply records_Informer_ok]. intros i f' w' Hf. by wp_steps.
  - unfold ForResource, Flipop. wp_step. case_bool_decide; [|case_bool_decide].
    + wp_steps. eapply wp_mono; [|by apply pools_Informer_ok]. intros i f' w' Hf. by wp_steps.
    + wp_steps. eapply wp_mono; [|by apply records_Informer_ok]. intros i f' w' Hf. by wp_steps.
    + by wp_steps.
  - eapply wp_mono; [|by apply Start_ok]. by intros _ f' w' (H1 & -> & _).
  - wp_step. eapply wp_mono; [|by apply WaitForCacheSync_ok]. intros res f' w' (Hf & H1 & _). wp_steps. by rewrite Hf in *.
Qed.

Lemma factory_start_ok client resync options w : runs w = [] →
  Forall (λ opt, ∀ f, f_informers (opt f) = f_informers f ∧ f_startedInformers (opt f) = f_startedInformers f) options →
  factory_ok (NewSharedInformerFactoryWithOptions client resync options) w.
Proof.
  intros Hr Hopts. assert (Hf : f_informers (NewSharedInformerFactoryWithOptions client resync options) = ∅ ∧
    f_startedInformers (NewSharedInformerFactoryWithOptions client resync options) = ∅).
  { unfold NewSharedInformerFactoryWithOptions.
    enough (∀ f, f_informers f = ∅ ∧ f_startedInformers f = ∅ →
      f_informers (foldl (λ factory opt, opt factory) f options) = ∅ ∧
      f_startedInformers (foldl (λ factory opt, opt factory) f options) = ∅) as Hf by by apply Hf.
    induction Hopts as [|opt options Hopt _ IH]; intros f Hf; cbn; [done|].
    apply IH. by destruct (Hopt f) as [-> ->]. }
  destruct Hf as [Hi Hs]. split; rewrite ?Hi, ?Hr; try done.
  - intros t. unfold started. by rewrite Hs, lookup_empty.
  - by intros i ?%elem_of_nil.
  - constructor.
Qed.

End run_once.

(** The options the package has. *)
Inductive package_option : SharedInformerOption → Prop :=
  | po_resync c : package_option (WithCustomResyncConfig c)
  | po_tweak t : package_option (WithTweakListOptions t)
  | po_namespace ns : package_option (WithNamespace ns).

(** C34: a factory shares its informers: whatever its users ask of it, in whatever order,
    there is one informer for a type, the next to ask for it gets the same one, no
    informer is run twice, one that was not requested never is, and [Start] runs all that were requested
    so far; waiting for the caches answers for exactly the started ones. *)
Theorem informers_run_once `{!NodeMatch.KubeAPI, !Meta} {W} `{!InformerEnv W, !InformerGhost W, !InformerLaws W}
    (client : Ref) (resync : Duration) (options : list SharedInformerOption) (uses : list use) (w : W) :
  runs w = [] → Forall package_option options →
  wp False (for_each uses use_factory) (λ _ f w',
    NoDup (runs w') ∧ (∀ i, i ∈ runs w' → ∃ t, f_informers f !! t = Some i) ∧
    (∀ t t' i, f_informers f !! t = Some i → f_informers f !! t' = Some i → t = t') ∧
    (∀ t i newFunc, f_informers f !! t = Some i → InformerFor t newFunc f w' = Ret (i, f, w')) ∧
    (∀ stopCh, wp False (Start stopCh) (λ _ f' w'', f_informers f' = f_informers f ∧ NoDup (runs w'') ∧
       ∀ t i, f_informers f !! t = Some i → i ∈ runs w'') f w') ∧
    (∀ stopCh, wp False (WaitForCacheSync stopCh) (λ res f' w'', f' = f ∧ runs w'' = runs w' ∧
       ∀ t, is_Some (res !! t) ↔ ∃ i, f_informers f !! t = Some i ∧ i ∈ runs w') f w'))
    (NewSharedInformerFactoryWithOptions client resync options) w.
Proof.
  intros Hr Hopts. eapply wp_mono; [|apply (wp_for_each _ factory_ok)].
  - intros [] f w' Hok. split_and!; [apply Hok..| | |].
    + intros t i newFunc Ht. unfold InformerFor, gets, mbind, M_bind. by rewrite Ht.
    + intros stopCh. eapply wp_mono; [|by apply Start_ok]. intros _ f' w2 (Hok' & Hi & Hs).
      split_and!; [done|apply Hok'|done].
    + intros stopCh. eapply wp_mono; [|by apply WaitForCacheSync_ok]. intros res f' w2 (Hf & Hok' & Hr' & Hd).
      split_and!; [done..|]. intros t. rewrite Hd. split.
      * intros Hs. destruct (fo_known _ _ Hok t Hs) as [i Hi]. exists i. split; [done|]. by apply (fo_started _ _ Hok t).
      * intros [i [Hi Hin]]. by apply (fo_started _ _ Hok t i).
  - apply factory_start_ok; [done|]. eapply Forall_impl; [exact Hopts|]. by intros opt [].
  - intros u f v _ Hok. eapply wp_mono; [|by apply use_ok]. by intros _ f' w2 [H1 _].
Qed.

(** ** Listers *)

(** The index of an informer holds objects by key; it is asked for all of them, those of a
    namespace, or one. *)
Class Indexer `{!NodeMatch.KubeAPI, !Meta} (T W : Type) : Type := {
  cache_ListAll : Ref → NodeMatch.Selector → W → (list (object T) * option error) * W;
  cache_ListAllByNamespace : Ref → string → NodeMatch.Selector → W →
    (list (object T) * option error) * W;
  GetByKey : Ref → string → W → (option (object T) * bool * option error) * W;
  errors_NewNotFound : string * string → string → error;
}.

Section lister.
Context `{!NodeMatch.KubeAPI, !Meta} {T W : Type} `{!Indexer T W} {C : Type}.
Context (resource : string) (indexer : Ref).
Local Abbreviation M := (M C W).

(** [ret = append(ret, m.( *T))] for each of the objects. *)
Definition append_objects (ms : list (object T)) : M (slice T) :=
  for_fold ms (None : slice T) (λ (ret : slice T) m,
    match m with AnObject x => mret (append ret [x]) | _ => panic end).
Definition lister_List (selector : NodeMatch.Selector) : M (slice T * option error) :=
  '(ms, err) ← call (cache_ListAll indexer selector);
  ret ← append_objects ms; mret (ret, err).
Definition namespaceLister_List (namespace : string) (selector : NodeMatch.Selector)
    : M (slice T * option error) :=
  '(ms, err) ← call (cache_ListAllByNamespace indexer namespace selector);
  ret ← append_objects ms; mret (ret, err).
Definition namespaceLister_Get (namespace name : string) : M (option T * option error) :=
  '(obj, exists_, err) ← call (GetByKey indexer (namespace +:+ "/" +:+ name));
  match err with
  | Some err => mret (None, Some err)
  | None =>
      if negb exists_ then mret (None, Some (errors_NewNotFound (Resource resource) name))
      else match obj with Some (AnObject x) => mret (Some x, None) | _ => panic end
  end.
End lister.
(** The listers of the two resources. *)
Section listers.
Context `{!NodeMatch.KubeAPI, !Meta} {W C : Type}.
Definition floatingIPPools_Get `{!Indexer FloatingIPPool W} (indexer : Ref) (namespace name : string)
    : M C W (option FloatingIPPool * option error) :=
  namespaceLister_Get "floatingippool" indexer namespace name.
Definition nodeDNSRecordSets_Get `{!Indexer NodeDNSRecordSet W} (indexer : Ref) (namespace name : string)
    : M C W (option NodeDNSRecordSet * option error) :=
  namespaceLister_Get "nodednsrecordset" indexer namespace name.
Definition floatingIPPoolLister_List `{!Indexer FloatingIPPool W} (indexer : Ref)
    : NodeMatch.Selector → M C W (slice FloatingIPPool * option error) := lister_List indexer.
Definition floatingIPPoolNamespaceLister_List `{!Indexer FloatingIPPool W} (indexer : Ref)
    : string → NodeMatch.Selector → M C W (slice FloatingIPPool * option error) := namespaceLister_List indexer.
Definition nodeDNSRecordSetLister_List `{!Indexer NodeDNSRecordSet W} (indexer : Ref)
    : NodeMatch.Selector → M C W (slice NodeDNSRecordSet * option error) := lister_List indexer.
Definition nodeDNSRecordSetNamespaceLister_List `{!Indexer NodeDNSRecordSet W} (indexer : Ref)
    : string → NodeMatch.Selector → M C W (slice NodeDNSRecordSet * option error) := namespaceLister_List indexer.
End listers.

(** [cache.MetaNamespaceKeyFunc], by which an informer indexes its objects. *)
Definition MetaNamespaceKey (namespace name : string) : string :=
  if bool_decide (namespace = "") then name else namespace +:+ "/" +:+ name.
Fixpoint has_slash (s : string) : bool :=
  match s with
  | EmptyString => false
  | String c s' => bool_decide (c = "/"%char) || has_slash s'
  end.
Lemma key_inj ns ns' n n' : has_slash ns = false → has_slash ns' = false →
  ns +:+ "/" +:+ n = ns' +:+ "/" +:+ n' → ns = ns' ∧ n = n'.
Proof.
  revert ns'. induction ns as [|c ns IH]; intros [|c' ns']; cbn.
  - intros _ _ Heq. split; [done|]. change (String "/" n = String "/" n') in Heq. by injection Heq.
  - intros _ [Hc _]%orb_false_iff [= <- _]. by case_bool_decide.
  - intros [Hc _]%orb_false_iff _ [= -> _]. by case_bool_decide.
  - intros [_ H1]%orb_false_iff [_ H2]%orb_false_iff [= -> Heq]. by destruct (IH ns' H1 H2 Heq) as [-> ->].
Qed.
Lemma key_slash ns n name : has_slash name = false → name ≠ ns +:+ "/" +:+ n.
Proof.
  revert name. induction ns as [|c ns IH]; intros [|c' name]; cbn; try done.
  - intros Hs [= -> _]. by case_bool_decide.
  - intros [_ Hs]%orb_false_iff [= _ Heq]. by apply (IH name).
Qed.

(** The index of a cache by namespace and name. *)
Class IndexerLaws `{!NodeMatch.KubeAPI, !Meta} (T W : Type) `{!Indexer T W, !Object T}
    (Namespace_of : T → string) (indexed : W → Ref → list T) : Prop := {
  GetByKey_finds i key w : ∃ obj, GetByKey i key w = (obj, w) ∧
    match list_find (λ x, MetaNamespaceKey (Namespace_of x) (object_Name x) = key) (indexed w i) with
    | Some (_, x) => obj = (Some (AnObject x), true, None)
    | None => obj = (None, false, None)
    end;
  indexed_names i w x : x ∈ indexed w i →
    has_slash (Namespace_of x) = false ∧ has_slash (object_Name x) = false;
}.

(** A lister finds the object with this namespace and name, or says that there is
    none. *)
Lemma lister_Get_finds `{!NodeMatch.KubeAPI, !Meta} {T W C} `{!Indexer T W, !Object T}
    Namespace_of indexed `{!IndexerLaws T W Namespace_of indexed} resource indexer ns name (c : C) (w : W) :
  has_slash ns = false → ns ≠ "" →
  wp False (namespaceLister_Get resource indexer ns name) (λ r c' w', c' = c ∧ w' = w ∧
    match r with
    | (Some x, None) => x ∈ indexed w indexer ∧ Namespace_of x = ns ∧ object_Name x = name
    | (x, err) => x = None ∧ err = Some (errors_NewNotFound (Resource resource) name) ∧
        ∀ x, x ∈ indexed w indexer → ¬ (Namespace_of x = ns ∧ object_Name x = name)
    end) c w.
Proof.
  intros Hns Hne. unfold namespaceLister_Get. wp_step.
  destruct (GetByKey_finds indexer (ns +:+ "/" +:+ name) w) as (obj & Hg & Hobj).
  apply wp_call. intros r w' Hr. rewrite Hg in Hr. simplify_eq.
  destruct (list_find _ _) as [[j x]|] eqn:Hf; subst r.
  - apply list_find_Some in Hf as (Hx & Hkey & _). wp_steps. split; [done|]. split; [done|].
    apply list_elem_of_lookup_2 in Hx. split; [done|].
    destruct (indexed_names indexer w' x Hx) as [H1 H2]. unfold MetaNamespaceKey in Hkey.
    case_bool_decide as Hempty; [by apply key_slash in Hkey|by apply key_inj in Hkey].
  - wp_steps. split_and!; [done..|]. intros x Hx [<- <-].
    apply list_find_None in Hf. apply (proj1 (Forall_forall _ _) Hf x Hx).
    unfold MetaNamespaceKey. by case_bool_decide.
Qed.

(** ** An example: a world of the informers made and of those that run *)
Module InformerExample.
Import APIClient.Example.
Definition World : Type := list Ref * list Ref.
#[export] Instance ghost : InformerGhost World := {| made := fst; runs := snd |}.
#[export] Instance informers : InformerEnv World := {|
  informer_range := {| range_order ks w := (ks, w) |};
  NewSharedIndexInformer _ w := let i := fresh (w.1) in (i, (w.1 ++ [i], w.2));
  go_Run i _ w := (tt, (w.1, w.2 ++ [i]));
  cache_WaitForCacheSync _ _ w := (true, w);
  GetIndexer i := i;
  call_tweak _ o w := (o, w);
|}.
#[export] Instance laws : InformerLaws World.
Proof. split; try done. intros c w. split; [apply infinite_is_fresh|done]. Qed.
Definition uses : list use :=
  [UsePools; UseStart 9%positive; UsePools; UseRecords; UseStart 9%positive; UseStart 9%positive].
End InformerExample.
Import APIClient.Example InformerExample.

Lemma informers_run_once_witness :
  let w : InformerExample.World := ([], []) in
  runs w = [] ∧
  wp False (for_each InformerExample.uses use_factory) (λ _ f w',
    NoDup (runs w') ∧ ∀ i, i ∈ runs w' → ∃ t, f_informers f !! t = Some i)
    (NewSharedInformerFactoryWithOptions 1%positive Minute [WithNamespace "prod"]) w.
Proof.
  intros w. split; [reflexivity|].
  refine (wp_mono _ _ _ _ _ _ _ (informers_run_once 1%positive Minute [WithNamespace "prod"]
    InformerExample.uses w eq_refl _)).
  - intros [] f w' (H1 & H2 & _). split; assumption.
  - constructor; [apply po_namespace|constructor].
Defined.
(** Two informers were requested; each runs once. *)
Example two_informers :
  match for_each InformerExample.uses use_factory
          (NewSharedInformerFactoryWithOptions 1%positive Minute []) ([], []) with
  | Ret (_, _, w) => runs w = [1%positive; 2%positive]
  | _ => False
  end.
Proof. vm_compute. reflexivity. Qed.
