(* ===== verification/APIStatus.v ===== *)
(** * What the controllers write

    The controllers over the generated clients: the operations of the API that the
    controllers call are those of the client that sends requests, and a server that
    knows the status subresource performs them. *)
From S2P Require Import Prelude Go Retry GoText OrderedSet K8s Types Provider.
From S2P Require Import ProviderMetrics Registry NodeMatch Pool NodeDNS APIClient.

(** ** The controllers' API, through the clients *)
Section clients.
Context `{!KubeAPI, !Meta, !ResourceLabels} {W : Type} (client : Ref).
Context (GetOptions_zero : GetOptions) (UpdateOptions_zero : UpdateOptions).

(** A call of a method of a client, and what its caller sees of the answer. *)
Definition answer {T} `{!Object T} (m : M unit W (option T * option error)) (w : W)
    : (T + error) * W :=
  let '(r, w') := run_closure m (None, None) w in
  (match r with
   | (_, Some err) => inr err
   | (x, None) => inl (default object_zero x)
   end, w').
Definition only_error {A} (r : (A + error) * W) : option error * W :=
  (match r.1 with inl _ => None | inr err => Some err end, r.2).
Definition only_done {A} (r : (A + error) * W) : (unit + error) * W :=
  (match r.1 with inl _ => inl tt | inr err => inr err end, r.2).

Definition pools_env `{!RESTClient FloatingIPPool W} (E : PoolEnv W)
    : PoolEnv W :=
  let pools ns := newFloatingIPPools client ns in {|
  poolenv_range := @poolenv_range _ E; poolenv_clock := @poolenv_clock _ E;
  poolenv_base := @poolenv_base _ E; poolenv_ipprovider := @poolenv_ipprovider _ E;
  poolenv_dnsprovider := @poolenv_dnsprovider _ E; poolenv_lister := @poolenv_lister _ E;
  pool_now := @pool_now _ E; pool_ctx_Err := @pool_ctx_Err _ E;
  pools_Get ns name := answer (i_Get (pools ns) name GetOptions_zero);
  pools_Update ns x w := only_error (answer (i_Update (pools ns) x UpdateOptions_zero) w);
  pools_UpdateStatus ns x w := only_error (answer (i_UpdateStatus (pools ns) x UpdateOptions_zero) w);
  nodes_Patch := @nodes_Patch _ E; IsNotFound := @IsNotFound _ E; json_Marshal := @json_Marshal _ E;
  pool_kind_of := @pool_kind_of _ E; float_to_int64_undefined := @float_to_int64_undefined _ E;
|}.
Definition nodedns_env `{!RESTClient NodeDNSRecordSet W} (E : NodeDNSEnv W)
    : NodeDNSEnv W :=
  let records ns := newNodeDNSRecordSets client ns in {|
  nodedns_range := @nodedns_range _ E; nodedns_base := @nodedns_base _ E;
  nodedns_provider := @nodedns_provider _ E;
  api_Get ns name := answer (i_Get (records ns) name GetOptions_zero);
  api_UpdateStatus ns x w := only_done (answer (i_UpdateStatus (records ns) x UpdateOptions_zero) w);
  gauge_Delete := @gauge_Delete _ E; gauge_With := @gauge_With _ E; gauge_Set := @gauge_Set _ E;
  kind_of := @kind_of _ E;
|}.
End clients.

(** ** The server

    What is written to the stored objects: the server takes the status of an object from
    the status subresource only, and everything else from the object itself. *)
Inductive write (T : Type) : Type :=
  | WriteObject (ns : string) (x : T)
  | WriteStatus (ns : string) (x : T).
Arguments WriteObject {T}.
Arguments WriteStatus {T}.
Class Written (T W : Type) : Type := { writes : W → list (write T) }.

(** The objects by namespace and name, after what was written to them. *)
Definition store (T : Type) : Type := gmap (string * string) T.
Definition apply_write {T} `{!Object T} (status_onto : T → T → T) (m : store T) (wr : write T) : store T :=
  match wr with
  | WriteObject ns x => alter (λ old, status_onto old x) (ns, object_Name x) m
  | WriteStatus ns x => alter (λ old, status_onto x old) (ns, object_Name x) m
  end.
(** [status_onto x y]: the status of [x] with everything else from [y]. *)
Definition pool_status_onto (x y : FloatingIPPool) : FloatingIPPool := with_Status (fip_Status x) y.
Definition record_status_onto (x y : NodeDNSRecordSet) : NodeDNSRecordSet :=
  {| nds_meta := nds_meta y; nds_Spec := nds_Spec y; nds_Status := nds_Status x |}.
Definition stored_pools `{!ResourceLabels} : store FloatingIPPool → list (write FloatingIPPool) →
    store FloatingIPPool := foldl (apply_write pool_status_onto).
Definition stored_records `{!ResourceLabels} : store NodeDNSRecordSet →
    list (write NodeDNSRecordSet) → store NodeDNSRecordSet := foldl (apply_write record_status_onto).

Class StatusServer `{!KubeAPI, !Meta} {T} `{!Object T} {W} `{!RESTClient T W, !Written T W}
    (Namespace_of : T → string) (kind : string) (client : Ref) : Prop := {
  server_Get rq r ns name w : action_of kind rq = Some (NewGetAction r ns name) →
    ∃ res w', rest_Do client rq w = (res, w') ∧ writes w' = writes w ∧
      ∀ x, Result_Into res object_zero = (x, None) → Namespace_of x = ns ∧ object_Name x = name;
  server_Update rq r ns x w : action_of kind rq = Some (NewUpdateAction r ns x) →
    ∃ res w', rest_Do client rq w = (res, w') ∧
      writes w' = writes w ++ (match (Result_Into res object_zero).2 with
                               | None => [WriteObject ns x] | Some _ => [] end);
  server_UpdateStatus rq r ns x w :
    action_of kind rq = Some (NewUpdateSubresourceAction r "status" ns x) →
    ∃ res w', rest_Do client rq w = (res, w') ∧
      writes w' = writes w ++ (match (Result_Into res object_zero).2 with
                               | None => [WriteStatus ns x] | Some _ => [] end);
}.

Section calls.
Context `{!KubeAPI, !Meta} {T : Type} `{!Object T} {W : Type} `{!RESTClient T W, !Written T W}.
Context {Namespace_of : T → string} {kind : string} {client : Ref} `{!StatusServer Namespace_of kind client}.
Implicit Types (w : W).

(** The three calls of the controllers, at a typed client. *)
Lemma answer_Do_Into rq w :
  answer (Do_Into client rq) w =
    let res := rest_Do client rq w in
    (match (Result_Into res.1 object_zero).2 with
     | Some err => inr err
     | None => inl (Result_Into res.1 object_zero).1
     end, res.2).
Proof.
  unfold answer, run_closure, Do_Into, mbind, M_bind, call. cbn.
  destruct (Result_Into _ _) as [x [e|]]; done.
Qed.
Lemma client_Get resource ns name o w r w' :
  answer (i_Get (typedClient resource client ns) name o) w = (r, w') →
  writes w' = writes w ∧ ∀ x, r = inl x → Namespace_of x = ns ∧ object_Name x = name.
Proof.
  cbn [i_Get typedClient]. unfold Get. rewrite answer_Do_Into. intros [= <- <-].
  edestruct server_Get as (res & w' & Hr & Hw & Hx); [|rewrite Hr; cbn [fst snd]].
  { unfold action_of. cbn. done. }
  split; [done|]. intros x Heq. apply Hx. destruct (Result_Into res object_zero) as [y [e|]]; by simplify_eq/=.
Qed.
Lemma client_Update resource ns y o w r w' :
  answer (i_Update (typedClient resource client ns) y o) w = (r, w') →
  writes w' = writes w ++ (if r is inl _ then [WriteObject ns y] else []).
Proof.
  cbn [i_Update typedClient]. unfold Update. rewrite answer_Do_Into. intros [= <- <-].
  edestruct server_Update as (res & w' & Hr & Hw); [|rewrite Hr; cbn [fst snd]].
  { unfold action_of. cbn. by rewrite bool_decide_true. }
  rewrite Hw. by destruct (Result_Into res object_zero) as [y' [e|]].
Qed.
Lemma client_UpdateStatus resource ns y o w r w' :
  answer (i_UpdateStatus (typedClient resource client ns) y o) w = (r, w') →
  writes w' = writes w ++ (if r is inl _ then [WriteStatus ns y] else []).
Proof.
  cbn [i_UpdateStatus typedClient]. unfold UpdateStatus. rewrite answer_Do_Into. intros [= <- <-].
  edestruct server_UpdateStatus as (res & w' & Hr & Hw); [|rewrite Hr; cbn [fst snd]].
  { unfold action_of. cbn. by rewrite bool_decide_true. }
  rewrite Hw. by destruct (Result_Into res object_zero) as [y' [e|]].
Qed.
End calls.

(** What a write changes, if it is one of these. *)
Lemma alter_keeps {K V B} `{Countable K} (f : V → B) (g : V → V) k (m : gmap K V) :
  (∀ x, f (g x) = f x) → f <$> alter g k m = f <$> m.
Proof.
  intros Hg. apply map_eq. intros i. rewrite !lookup_fmap.
  destruct (decide (k = i)) as [->|Hne].
  - rewrite lookup_alter_eq. destruct (m !! i); cbn; [by rewrite Hg|done].
  - by rewrite lookup_alter_ne.
Qed.

(** ** What the controllers do to the store

    Nothing, or this. *)
Definition may_change {T} (m m' change : store T) : Prop := m' = m ∨ m' = change.

Section controllers.
Context `{!KubeAPI, !Meta, !ResourceLabels, !GoFmt} {W : Type}.
Context `{!RESTClient FloatingIPPool W, !Written FloatingIPPool W}.
Context `{!RESTClient NodeDNSRecordSet W, !Written NodeDNSRecordSet W}.
Context (client : Ref) (gz : GetOptions) (uz : UpdateOptions) (E : PoolEnv W) (E' : NodeDNSEnv W).
Context `{!StatusServer (λ x, meta_Namespace (fip_meta x)) floatingippoolsKind client}.
Context `{!StatusServer (λ x, meta_Namespace (nds_meta x)) nodednsrecordsetsKind client}.
#[local] Instance env : PoolEnv W := pools_env client gz uz E.
#[local] Instance env' : NodeDNSEnv W := nodedns_env client gz uz E'.
Context (pools : store FloatingIPPool) (records : store NodeDNSRecordSet).
Implicit Types (w : W).
Abbreviation pools_in w := (stored_pools pools (writes w)).
Abbreviation records_in w := (stored_records records (writes w)).

(** A call of [UpdateStatus] writes the status of its object at most. *)
Lemma pools_UpdateStatus_store ns x err w w' : pools_UpdateStatus ns x w = (err, w') →
  may_change (pools_in w) (pools_in w')
    (alter (with_Status (fip_Status x)) (ns, meta_Name (fip_meta x)) (pools_in w)).
Proof.
  cbn [pools_UpdateStatus env pools_env]. unfold only_error.
  destruct (answer _ w) as [r w1] eqn:Ha. apply (client_UpdateStatus
    (Namespace_of := λ x, meta_Namespace (fip_meta x)) (kind := floatingippoolsKind)) in Ha.
  cbn. intros [= <- <-]. unfold stored_pools. rewrite Ha, foldl_app.
  by destruct r; [right|left].
Qed.
Lemma statusUpdater_store {C} name ns status (c : C) w :
  wp False (statusUpdater name ns status) (λ err c' w', c' = c ∧
    may_change (pools_in w) (pools_in w') (alter (with_Status status) (ns, name) (pools_in w))) c w.
Proof.
  unfold statusUpdater. wp_step. apply wp_call. intros r w1 Hg.
  destruct (client_Get (Namespace_of := λ x, meta_Namespace (fip_meta x)) (kind := floatingippoolsKind)
    _ _ _ _ _ _ _ Hg) as [Hw Hx].
  destruct r as [k8s|err]; [|wp_steps; split; [done|left; by rewrite Hw]].
  case_bool_decide; [wp_steps; split; [done|left; by rewrite Hw]|].
  destruct (Hx k8s eq_refl) as [Hns Hn]. wp_step. apply wp_call. intros r w2 Hu.
  wp_steps. split; [done|]. apply pools_UpdateStatus_store in Hu. cbn in Hu, Hns, Hn.
  by rewrite Hns, Hn, Hw in Hu.
Qed.

Lemma updateStatus_store k8s msg (c : Pool.Controller) w :
  wp False (Pool.updateStatus k8s msg) (λ _ c' w', c' = c ∧
    may_change (pools_in w) (pools_in w')
      (alter (with_Status (Build_FloatingIPPoolStatus None None None msg))
         (meta_Namespace (fip_meta k8s), meta_Name (fip_meta k8s)) (pools_in w))) c w.
Proof.
  unfold Pool.updateStatus. cbv zeta. case_bool_decide; [wp_steps; split; [done|by left]|].
  wp_step. apply wp_call. intros r w1 Hu. wp_steps. split; [done|].
  by apply pools_UpdateStatus_store in Hu.
Qed.

Lemma ipUpdater_store {C} name ns ips (c : C) w :
  wp False (ipUpdater name ns ips) (λ err c' w', c' = c ∧
    (pools_in w' = pools_in w ∨
     ∃ k8s, (pools_Get ns name w).1 = inl k8s ∧
       pools_in w' = alter (λ old, with_Status (fip_Status old) (with_IPs ips k8s)) (ns, name) (pools_in w))) c w.
Proof.
  unfold ipUpdater. wp_step. apply wp_call. intros r w1 Hg.
  destruct (client_Get (Namespace_of := λ x, meta_Namespace (fip_meta x)) (kind := floatingippoolsKind)
    _ _ _ _ _ _ _ Hg) as [Hw Hx].
  destruct r as [k8s|err]; [|wp_steps; split; [done|left; by rewrite Hw]].
  destruct (Hx k8s eq_refl) as [_ Hn]. cbn in Hn. wp_step. apply wp_call. intros r w2 Hu. wp_steps.
  split; [done|]. rewrite Hg. cbn [pools_Update env pools_env] in Hu. unfold only_error in Hu.
  destruct (answer _ w1) as [r' w2'] eqn:Ha. apply (client_Update
    (Namespace_of := λ x, meta_Namespace (fip_meta x)) (kind := floatingippoolsKind)) in Ha.
  cbn in Hu. injection Hu as <- <-. unfold stored_pools. rewrite Ha, Hw, foldl_app.
  destruct r'; [right|by left]. exists k8s. split; [done|]. cbn. by rewrite Hn.
Qed.

Definition record_with_Status (status : NodeDNSRecordSetStatus) (old : NodeDNSRecordSet) : NodeDNSRecordSet :=
  {| nds_meta := nds_meta old; nds_Spec := nds_Spec old; nds_Status := status |}.
Lemma record_updateStatus_store {C} name ns status (c : C) w :
  wp False (NodeDNS.updateStatus name ns status) (λ err c' w', c' = c ∧
    may_change (records_in w) (records_in w')
      (alter (record_with_Status status) (ns, name) (records_in w))) c w.
Proof.
  unfold NodeDNS.updateStatus. wp_step. apply wp_call. intros r w1 Hg.
  destruct (client_Get (Namespace_of := λ x, meta_Namespace (nds_meta x)) (kind := nodednsrecordsetsKind)
    _ _ _ _ _ _ _ Hg) as [Hw Hx].
  destruct r as [k8s|err]; [|wp_steps; split; [done|left; by rewrite Hw]].
  case_bool_decide; [wp_steps; split; [done|left; by rewrite Hw]|].
  destruct (Hx k8s eq_refl) as [_ Hn]. cbn in Hn. wp_step. apply wp_call. intros r w2 Hu.
  cbn [api_UpdateStatus env' nodedns_env] in Hu. unfold only_done in Hu.
  destruct (answer _ w1) as [r' w2'] eqn:Ha. apply (client_UpdateStatus
    (Namespace_of := λ x, meta_Namespace (nds_meta x)) (kind := nodednsrecordsetsKind)) in Ha.
  cbn in Hu. injection Hu as <- <-. unfold stored_records.
  destruct r'; wp_steps; (split; [done|]); rewrite Ha, Hw, foldl_app; [right|by left].
  cbn. by rewrite Hn.
Qed.
End controllers.

(** C31: through the generated clients the controllers keep to their part of a resource: what
    they write as a status changes nothing but the status of the object they name, and
    the update of addresses changes no status; no other object is touched. *)
Theorem controllers_write_their_part `{!KubeAPI, !Meta, !ResourceLabels, !GoFmt} {W}
    `{!RESTClient FloatingIPPool W, !Written FloatingIPPool W}
    `{!RESTClient NodeDNSRecordSet W, !Written NodeDNSRecordSet W}
    (client : Ref) (gz : GetOptions) (uz : UpdateOptions) (E : PoolEnv W) (E' : NodeDNSEnv W)
    (pools : store FloatingIPPool) (records : store NodeDNSRecordSet) (w : W) :
  let pools_in w := stored_pools pools (writes w) in
  let records_in w := stored_records records (writes w) in
  let P := pools_env client gz uz E in let N := nodedns_env client gz uz E' in
  StatusServer (λ x, meta_Namespace (fip_meta x)) floatingippoolsKind client →
  StatusServer (λ x, meta_Namespace (nds_meta x)) nodednsrecordsetsKind client →
  (∀ name ns status, wp False (statusUpdater (PoolEnv0 := P) name ns status) (λ _ _ w',
     may_change (pools_in w) (pools_in w') (alter (with_Status status) (ns, name) (pools_in w))) tt w) ∧
  (∀ k8s msg c, wp False (Pool.updateStatus (PoolEnv0 := P) k8s msg) (λ _ _ w',
     may_change (pools_in w) (pools_in w')
       (alter (with_Status (Build_FloatingIPPoolStatus None None None msg))
          (meta_Namespace (fip_meta k8s), meta_Name (fip_meta k8s)) (pools_in w))) c w) ∧
  (∀ name ns ips, wp False (ipUpdater (PoolEnv0 := P) name ns ips) (λ _ _ w',
     pools_in w' = pools_in w ∨
     ∃ k8s, (pools_Get (PoolEnv := P) ns name w).1 = inl k8s ∧
       pools_in w' = alter (λ old, with_Status (fip_Status old) (with_IPs ips k8s)) (ns, name) (pools_in w)) tt w) ∧
  (∀ name ns status, wp False (NodeDNS.updateStatus (NodeDNSEnv0 := N) name ns status) (λ _ _ w',
     may_change (records_in w) (records_in w')
       (alter (record_with_Status status) (ns, name) (records_in w))) tt w).
Proof.
  intros pools_in records_in P N Hpools Hrecords. split_and!; intros.
  - eapply wp_mono; [|by apply statusUpdater_store]. by intros a c' w' [_ H'].
  - eapply wp_mono; [|by apply updateStatus_store]. by intros a c' w' [_ H'].
  - eapply wp_mono; [|by apply ipUpdater_store]. by intros a c' w' [_ H'].
  - eapply wp_mono; [|by apply record_updateStatus_store]. by intros a c' w' [_ H'].
Qed.

(** ** An example

    A server that stores objects and keeps a log of what was written. *)
Module ServerExample.
Import APIClient.Example.
Definition World : Type := APIClient.Example.World * (list (write FloatingIPPool) * list (write NodeDNSRecordSet)).
Class Log (T W : Type) : Type := { log : write T → W → W }.

Section server.
Context {T W : Type} `{!Object T, !Store T W, !Written T W, !Log T W}.
Context (status_onto : T → T → T) (Namespace_of : T → string) (kind : string).
Definition serve_write (wr : write T) (ns : string) (x : T) (w : W) : option (object T) * option error * W :=
  match get w !! (ns, object_Name x) with
  | Some _ => ((Some (AnObject x), None), log wr (put (apply_write status_onto (get w) wr) w))
  | None => ((None, Some (ErrorString "not found")), w)
  end.
Definition serve_object (a : action T) (w : W) : option (object T) * option error * W :=
  match a with
  | NewGetAction _ ns name =>
      (match get w !! (ns, name) with
       | Some x => if decide (Namespace_of x = ns ∧ object_Name x = name) then (Some (AnObject x), None)
                   else (None, Some (ErrorString "not found"))
       | None => (None, Some (ErrorString "not found"))
       end, w)
  | NewUpdateAction _ ns x => serve_write (WriteObject ns x) ns x w
  | NewUpdateSubresourceAction _ _ ns x => serve_write (WriteStatus ns x) ns x w
  | _ => serve a w
  end.
#[local] Instance rest : RESTClient T W := {|
  Result := option (object T) * option error;
  rest_Do _ rq w := match action_of kind rq with
                    | Some a => serve_object a w
                    | None => ((None, Some (ErrorString "bad request")), w)
                    end;
  rest_Watch _ _ w := (inl 1%positive, w);
  Result_Into r zero := match r with
                        | (_, Some e) => (zero, Some e)
                        | (Some (AnObject x), None) => (x, None)
                        | _ => (zero, Some (ErrorString "not an object"))
                        end;
  Result_IntoList r zero := (zero, Some (ErrorString "not a list"));
  Result_Error := snd;
|}.
Context (Hlog : ∀ wr m w, writes (log wr (put m w)) = writes w ++ [wr]).
Lemma serve_write_log wr ns x w : ∃ res w', serve_write wr ns x w = (res, w') ∧
  writes w' = writes w ++ (match (Result_Into res object_zero).2 with None => [wr] | Some _ => [] end).
Proof.
  unfold serve_write. destruct (get w !! _); eexists _, _; (split; [reflexivity|]); cbn.
  - apply Hlog.
  - by rewrite app_nil_r.
Qed.
Lemma server_ok client : StatusServer Namespace_of kind client.
Proof.
  split; intros; cbn [rest_Do rest]; rewrite H; try apply serve_write_log. cbn [serve_object].
  destruct (get w !! (ns, name)) as [x|]; [case_decide as Hx|]; eexists _, _; split_and!; try done;
    cbn; intros y; [|done..]. by intros [= <-].
Qed.
End server.

#[export] Instance pools : Store FloatingIPPool World := {| get w := w.1.1; put m w := ((m, w.1.2), w.2) |}.
#[export] Instance records : Store NodeDNSRecordSet World := {| get w := w.1.2; put m w := ((w.1.1, m), w.2) |}.
#[export] Instance pools_written : Written FloatingIPPool World := {| writes w := w.2.1 |}.
#[export] Instance records_written : Written NodeDNSRecordSet World := {| writes w := w.2.2 |}.
#[export] Instance pools_log : Log FloatingIPPool World := {| log wr w := (w.1, (w.2.1 ++ [wr], w.2.2)) |}.
#[export] Instance records_log : Log NodeDNSRecordSet World := {| log wr w := (w.1, (w.2.1, w.2.2 ++ [wr])) |}.
#[export] Instance pools_rest : RESTClient FloatingIPPool World :=
  rest pool_status_onto (λ x, meta_Namespace (fip_meta x)) floatingippoolsKind.
#[export] Instance records_rest : RESTClient NodeDNSRecordSet World :=
  rest record_status_onto (λ x, meta_Namespace (nds_meta x)) nodednsrecordsetsKind.

(** The rest of the world of the controllers does nothing. *)
Definition pool_env : PoolEnv World := {|
  poolenv_range := {| range_order ks w := (ks, w) |};
  poolenv_clock := {| time_Now w := (0%Z, w) |};
  poolenv_base := {| GetProviderName _ := "none" |};
  poolenv_ipprovider := {| IPToProviderID _ _ w := (inr ErrNotFound, w);
    AssignIP _ _ _ w := (None, w); NodeToIP _ _ w := (inr ErrNotFound, w);
    CreateIP _ _ w := (inr ErrNotFound, w) |};
  poolenv_dnsprovider := {| EnsureDNSARecordSet _ _ _ _ _ w := (None, w);
    RecordNameAndZoneToFQDN _ zone record := record +:+ "." +:+ zone |};
  poolenv_lister := {| lister_Get _ _ w := (inr ErrNotFound, w) |};
  pool_now w := (0%Z, w); pool_ctx_Err w := (false, w);
  pools_Get _ _ w := (inr ErrNotFound, w); pools_Update _ _ w := (None, w);
  pools_UpdateStatus _ _ w := (None, w); nodes_Patch _ _ w := (None, w);
  IsNotFound _ := false; json_Marshal _ := ""; pool_kind_of _ := None;
  float_to_int64_undefined _ := 0%Z;
|}.
Definition nodedns : NodeDNSEnv World := {|
  nodedns_range := {| range_order ks w := (ks, w) |};
  nodedns_base := {| GetProviderName _ := "none" |};
  nodedns_provider := {| EnsureDNSARecordSet _ _ _ _ _ w := (None, w);
    RecordNameAndZoneToFQDN _ zone record := record +:+ "." +:+ zone |};
  api_Get _ _ w := (inr ErrNotFound, w); api_UpdateStatus _ _ w := (inl tt, w);
  gauge_Delete _ _ w := (tt, w); gauge_With _ _ w := (1%positive, w); gauge_Set _ _ w := (tt, w);
  kind_of _ := None;
|}.
#[export] Instance fmt : GoFmt := {| fmt_q s := s |}.

(** One pool, whose status is stored. *)
Definition pool_ : FloatingIPPool := with_IPs (Some ["1.2.3.4"]) {|
  fip_meta := Build_ObjectMeta "prod" "web" "u"; fip_Spec := fip_Spec pool_zero;
  fip_Status := fip_Status pool_zero |}.
Definition start : World := (({[("prod", "web") := pool_]}, ∅), ([], [])).
Definition status_ : FloatingIPPoolStatus := Build_FloatingIPPoolStatus None None None "invalid".
End ServerExample.
Import APIClient.Example ServerExample.

Lemma controllers_write_their_part_witness :
  let P := pools_env 1%positive tt tt ServerExample.pool_env in
  let m := stored_pools (get ServerExample.start) (writes ServerExample.start) in
  wp False (statusUpdater (PoolEnv0 := P) "web" "prod" ServerExample.status_) (λ _ _ w',
    may_change m (stored_pools (get ServerExample.start) (writes w'))
      (alter (with_Status ServerExample.status_) ("prod", "web") m)) tt ServerExample.start.
Proof.
  intros P m.
  refine (proj1 (controllers_write_their_part 1%positive tt tt ServerExample.pool_env
    ServerExample.nodedns (get ServerExample.start) ∅ ServerExample.start _ _) "web" "prod" _);
    by apply ServerExample.server_ok.
Defined.
(** There it does store the status, and keeps the addresses. *)
Example status_is_stored :
  let P := pools_env 1%positive tt tt ServerExample.pool_env in
  match statusUpdater (PoolEnv0 := P) "web" "prod" ServerExample.status_ tt ServerExample.start with
  | Ret (err, _, w) => err = None ∧ get w !! ("prod", "web") = Some (with_Status ServerExample.status_ ServerExample.pool_)
  | _ => False
  end.
Proof. split; reflexivity. Qed.
