(* ===== verification/K8sTest.v ===== *)
(** * pkg/k8stest and pkg/provider/mock.go: what the unit tests build their cases from

    Example objects with the mutators that customise them, and a provider made of
    closures.  A failed type assertion of a mutator is [None]; an object is fresh in
    every case, so that a mutator is a function of its value.  The tests themselves are
    replayed in UnitTests. *)
From S2P Require Import Prelude Go Retry K8s Types Provider.

(** ** k8s.go *)

(** A [metav1.Object]: a node, a pod, a resource, or bare metadata, which is no
    [runtime.Object]. *)
Inductive Object : Type :=
  | NodeObject (n : Node)
  | PodObject (p : Pod)
  | PoolObject (k : FloatingIPPool)
  | MetaObject (m : ObjectMeta).

Definition Mutator : Type := Object → option Object.

Definition TolerationOpEqual : string := "Equal".
Definition TaintEffectNoExecute : string := "NoExecute".
Definition TaintEffectNoSchedule : string := "NoSchedule".
Definition ConditionFalse : string := "False".

Definition PodTolerations : list Toleration := [
  {| tol_Key := "shields"; tol_Operator := TolerationOpEqual; tol_Value := "down";
     tol_Effect := TaintEffectNoExecute; tol_TolerationSeconds := None |};
  {| tol_Key := "alert"; tol_Operator := TolerationOpEqual; tol_Value := "red";
     tol_Effect := TaintEffectNoSchedule; tol_TolerationSeconds := None |}].

Definition MatchingPodLabels : gmap string string :=
  {["vessel" := "runabout"; "class" := "danube"]}.
Definition MatchingNodeLabels : gmap string string :=
  {["system" := "bajor"; "quadrant" := "alpha"]}.
Definition starshipLabels : gmap string string :=
  {["vessel" := "starship"; "class" := "galaxy"]}.

Definition NoSchedule : list Taint :=
  [{| taint_Key := "node.kubernetes.io/unschedulable"; taint_Value := "";
      taint_Effect := TaintEffectNoSchedule |}].

Definition eta_Node (n : Node) : Node :=
  Build_Node (node_Name n) (node_ProviderID n) (node_Labels n) (node_Annotations n)
    (node_Deleting n) (node_Taints n) (node_Conditions n) (node_Addresses n).
#[export] Instance set_node_Labels : Setter node_Labels := ltac:(derive_setter eta_Node node_Labels).
#[export] Instance set_node_Deleting : Setter node_Deleting :=
  ltac:(derive_setter eta_Node node_Deleting).
#[export] Instance set_node_Taints : Setter node_Taints := ltac:(derive_setter eta_Node node_Taints).
#[export] Instance set_node_Conditions : Setter node_Conditions :=
  ltac:(derive_setter eta_Node node_Conditions).
#[export] Instance set_node_Addresses : Setter node_Addresses :=
  ltac:(derive_setter eta_Node node_Addresses).
Definition eta_Pod (p : Pod) : Pod :=
  Build_Pod (pod_Name p) (pod_Namespace p) (pod_NodeName p) (pod_Labels p) (pod_Deleting p)
    (pod_Phase p) (pod_Conditions p).
#[export] Instance set_pod_Namespace : Setter pod_Namespace :=
  ltac:(derive_setter eta_Pod pod_Namespace).
#[export] Instance set_pod_Labels : Setter pod_Labels := ltac:(derive_setter eta_Pod pod_Labels).
#[export] Instance set_pod_Deleting : Setter pod_Deleting :=
  ltac:(derive_setter eta_Pod pod_Deleting).
#[export] Instance set_pod_Phase : Setter pod_Phase := ltac:(derive_setter eta_Pod pod_Phase).
#[export] Instance set_pod_Conditions : Setter pod_Conditions :=
  ltac:(derive_setter eta_Pod pod_Conditions).

Definition in_namespace (ns : string) (m : ObjectMeta) : ObjectMeta :=
  {| meta_Namespace := ns; meta_Name := meta_Name m; meta_UID := meta_UID m |}.

Module k8stest.

(** Labels and deletion of a resource, and the namespace of a node, which has none,
    are not part of the modelled objects. *)
Definition SetLabels (l : gmap string string) : Mutator := λ o,
  Some (match o with
        | NodeObject n => NodeObject (n <| node_Labels := l |>)
        | PodObject p => PodObject (p <| pod_Labels := l |>)
        | _ => o
        end).

Definition SetTaints (t : list Taint) : Mutator := λ o,
  match o with NodeObject n => Some (NodeObject (n <| node_Taints := t |>)) | _ => None end.

(** [for _, f := range mutators { p = f(p) }] *)
Definition mutate (o : Object) (mutators : list Mutator) : option Object :=
  foldl (λ o f, o ≫= f) (Some o) mutators.

Definition MakePod (name nodeName : string) (mutators : list Mutator) : option Pod :=
  o ← mutate (PodObject {|
        pod_Name := name; pod_Namespace := "star-fleet"; pod_NodeName := nodeName;
        pod_Labels := starshipLabels; pod_Deleting := false; pod_Phase := "Pending";
        pod_Conditions := [{| cond_Type := PodReady; cond_Status := ConditionFalse |}] |})
      mutators;
  match o with PodObject p => Some p | _ => None end.

Definition MakeNode (name providerID : string) (mutators : list Mutator) : option Node :=
  o ← mutate (NodeObject {|
        node_Name := name; node_ProviderID := providerID; node_Labels := starshipLabels;
        node_Annotations := ∅; node_Deleting := false; node_Taints := [];
        node_Conditions := [{| cond_Type := NodeReady; cond_Status := ConditionFalse |}];
        node_Addresses := [] |}) mutators;
  match o with NodeObject n => Some n | _ => None end.

Definition MarkReady : Mutator := λ o,
  match o with
  | NodeObject n => Some (NodeObject
      (n <| node_Conditions := [{| cond_Type := NodeReady; cond_Status := ConditionTrue |}] |>))
  | PodObject p => Some (PodObject
      (p <| pod_Conditions := [{| cond_Type := PodReady; cond_Status := ConditionTrue |}] |>))
  | _ => None
  end.

Definition MarkRunning : Mutator := λ o,
  match o with PodObject p => Some (PodObject (p <| pod_Phase := PodRunning |>)) | _ => None end.

Definition MarkDeleting : Mutator := λ o,
  Some (match o with
        | NodeObject n => NodeObject (n <| node_Deleting := true |>)
        | PodObject p => PodObject (p <| pod_Deleting := true |>)
        | _ => o
        end).

Definition SetNamespace (ns : string) : Mutator := λ o,
  Some (match o with
        | NodeObject n => NodeObject n
        | PodObject p => PodObject (p <| pod_Namespace := ns |>)
        | PoolObject k => PoolObject {| fip_meta := in_namespace ns (fip_meta k);
                                        fip_Spec := fip_Spec k; fip_Status := fip_Status k |}
        | MetaObject m => MetaObject (in_namespace ns m)
        end).

(** [m.(runtime.Object)] for each of the objects. *)
Definition AsRuntimeObjects (objects : list Object) : option (list Object) :=
  mapM (λ m, match m with MetaObject _ => None | _ => Some m end) objects.

Definition MakeMatch : Match :=
  {| NodeLabel := "system=bajor"; PodNamespace := "star-fleet";
     PodLabel := "vessel=runabout,class=danube"; Tolerations := Some PodTolerations |}.

Definition MakeDNS : DNSRecordSet :=
  {| dns_Zone := "example.com"; dns_RecordName := "nodes"; dns_TTL := 120;
     dns_Provider := "mock" |}.

Definition SetNodeAddress (t addr : string) : Mutator := λ o,
  match o with
  | NodeObject n => Some (NodeObject
      (n <| node_Addresses ::= λ l, l ++ [{| addr_Type := t; addr_Address := addr |}] |>))
  | _ => None
  end.

(** The mutators of a pod and of a node that cannot fail on it. *)
Definition of_pod (f : Mutator) : Prop := ∀ p, ∃ p', f (PodObject p) = Some (PodObject p').
Definition of_node (f : Mutator) : Prop := ∀ n, ∃ n', f (NodeObject n) = Some (NodeObject n').

Lemma mutate_invariant (P : Object → Prop) o fs :
  (∀ f o, f ∈ fs → P o → ∃ o', f o = Some o' ∧ P o') → P o →
  ∃ o', mutate o fs = Some o' ∧ P o'.
Proof.
  unfold mutate. revert o. induction fs as [|f fs IH]; intros o Hf Ho; [by exists o|].
  destruct (Hf f o) as (o' & Heq & Ho'); [left|done|]. cbn. rewrite Heq. apply IH; [|done].
  intros g o'' Hg. apply Hf. by right.
Qed.

(** A pod, or a node, comes of mutators that apply to it. *)
Lemma MakePod_total name nodeName fs : Forall of_pod fs → is_Some (MakePod name nodeName fs).
Proof.
  intros Hfs. unfold MakePod.
  edestruct (mutate_invariant (λ o, ∃ p, o = PodObject p)) as (? & -> & p & ->); [|by eexists|by eexists].
  intros f ? Hf [p ->]. destruct (proj1 (Forall_forall _ _) Hfs f Hf p) as [p' ->]. eauto.
Qed.
Lemma MakeNode_total name providerID fs : Forall of_node fs → is_Some (MakeNode name providerID fs).
Proof.
  intros Hfs. unfold MakeNode.
  edestruct (mutate_invariant (λ o, ∃ n, o = NodeObject n)) as (? & -> & n & ->); [|by eexists|by eexists].
  intros f ? Hf [n ->]. destruct (proj1 (Forall_forall _ _) Hfs f Hf n) as [n' ->]. eauto.
Qed.
End k8stest.

(** ** mock.go *)

Definition Mock : string := "mock".

(** The closures, possibly [nil]; the embedded pointers of [MockProvider] too. *)
Record MockIPProvider (W : Type) : Type := MockIPProvider_ {
  IPToProviderIDFunc : option (string → W → (string + error) * W);
  AssignIPFunc : option (string → string → W → option error * W);
  NodeToIPFunc : option (string → W → (string + error) * W);
  CreateIPFunc : option (string → W → (string + error) * W);
}.
Record MockDNSProvider (W : Type) : Type := MockDNSProvider_ {
  EnsureDNSARecordSetFunc :
    option (string → string → list string → Z → W → option error * W);
  RecordNameAndZoneToFQDNFunc : option (string → string → string);
}.
Record MockProvider (W : Type) : Type := MockProvider_ {
  mock_ip : option (MockIPProvider W);
  mock_dns : option (MockDNSProvider W);
}.
Arguments MockIPProvider_ {W}. Arguments MockDNSProvider_ {W}. Arguments MockProvider_ {W}.
Arguments IPToProviderIDFunc {W}. Arguments AssignIPFunc {W}. Arguments NodeToIPFunc {W}.
Arguments CreateIPFunc {W}. Arguments EnsureDNSARecordSetFunc {W}.
Arguments RecordNameAndZoneToFQDNFunc {W}. Arguments mock_ip {W}. Arguments mock_dns {W}.

Module mock.
Section methods.
Context {C W : Type}.
Local Abbreviation M := (M C W).

(** Every method calls the closure of its field: a panic where it is [nil]. *)
Definition IPToProviderID (m : MockIPProvider W) (ip : string) : M (string + error) :=
  f ← deref (IPToProviderIDFunc m); call (f ip).
Definition AssignIP (m : MockIPProvider W) (ip providerID : string) : M (option error) :=
  f ← deref (AssignIPFunc m); call (f ip providerID).
Definition NodeToIP (m : MockIPProvider W) (providerID : string) : M (string + error) :=
  f ← deref (NodeToIPFunc m); call (f providerID).
Definition CreateIP (m : MockIPProvider W) (region : string) : M (string + error) :=
  f ← deref (CreateIPFunc m); call (f region).
Definition EnsureDNSARecordSet (m : MockDNSProvider W) (zone recordName : string)
    (ips : list string) (ttl : Z) : M (option error) :=
  f ← deref (EnsureDNSARecordSetFunc m); call (f zone recordName ips ttl).
Definition RecordNameAndZoneToFQDN (m : MockDNSProvider W) (zone recordName : string) : M string :=
  f ← deref (RecordNameAndZoneToFQDNFunc m); mret (f zone recordName).
Definition GetProviderName : string := Mock.

(** A method of [MockProvider] is the one of the embedded provider. *)
Definition promoted_ip {A} (method : MockIPProvider W → M A) (m : MockProvider W) : M A :=
  ip ← deref (mock_ip m); method ip.
Definition promoted_dns {A} (method : MockDNSProvider W → M A) (m : MockProvider W) : M A :=
  dns ← deref (mock_dns m); method dns.
End methods.

(** A mock that has all its closures is an IP provider. *)
Section complete.
Context {W : Type} (lookup : string → W → (string + error) * W)
  (assign : string → string → W → option error * W)
  (holds create : string → W → (string + error) * W).
Definition complete : MockIPProvider W :=
  MockIPProvider_ (Some lookup) (Some assign) (Some holds) (Some create).
#[local] Instance provider : IPProvider W := {|
  Provider.IPToProviderID _ := lookup; Provider.AssignIP _ := assign;
  Provider.NodeToIP _ := holds; Provider.CreateIP _ := create;
|}.
Lemma complete_provides {C} (r : Ref) ip providerID region (c : C) (w : W) :
  IPToProviderID complete ip c w = call (Provider.IPToProviderID r ip) c w ∧
  AssignIP complete ip providerID c w = call (Provider.AssignIP r ip providerID) c w ∧
  NodeToIP complete providerID c w = call (Provider.NodeToIP r providerID) c w ∧
  CreateIP complete region c w = call (Provider.CreateIP r region) c w.
Proof. done. Qed.
End complete.
End mock.
