(* ===== verification/UnitTests.v ===== *)
(** * The unit tests of the repository, replayed on the model

    The cases of src/pkg/nodematch/match_controller_test.go and of
    src/pkg/floatingip/ip_controller_test.go, each evaluated: the definitions answer what
    the tests demand of the code.  A case builds its objects with the fixtures of K8sTest;
    the action, the pod index, the callbacks and the closures of the mock provider are
    those of the tests, in the world [Bench]. *)
From S2P Require Import Prelude Go Retry OrderedSet K8s Types Provider IPController NodeMatch.
From S2P Require Import K8sTest.
From Stdlib Require Import Ascii.

(** ** The bench

    The answers the closures have left, with the arguments they insist on; [b_failed] is
    set by a call that is not expected.  Unless a test fixes it, [now] is the wall clock. *)
Record Bench : Type := Bench_ {
  b_lookups : list (string * (string + error));
  b_assigns : list ((string * string) * option error);
  b_creates : list (string * (string + error));
  b_failed : bool;
  b_now : Time;
  b_annotated : list (string * string);
  b_newIPs : list (slice string);
  b_pods : list Pod;
  b_enabled : gmap string Node;
}.
Definition eta_Bench (b : Bench) : Bench :=
  Bench_ (b_lookups b) (b_assigns b) (b_creates b) (b_failed b) (b_now b) (b_annotated b)
    (b_newIPs b) (b_pods b) (b_enabled b).
#[export] Instance set_b_lookups : Setter b_lookups := ltac:(derive_setter eta_Bench b_lookups).
#[export] Instance set_b_assigns : Setter b_assigns := ltac:(derive_setter eta_Bench b_assigns).
#[export] Instance set_b_creates : Setter b_creates := ltac:(derive_setter eta_Bench b_creates).
#[export] Instance set_b_failed : Setter b_failed := ltac:(derive_setter eta_Bench b_failed).
#[export] Instance set_b_now : Setter b_now := ltac:(derive_setter eta_Bench b_now).
#[export] Instance set_b_annotated : Setter b_annotated :=
  ltac:(derive_setter eta_Bench b_annotated).
#[export] Instance set_b_newIPs : Setter b_newIPs := ltac:(derive_setter eta_Bench b_newIPs).
#[export] Instance set_b_pods : Setter b_pods := ltac:(derive_setter eta_Bench b_pods).
#[export] Instance set_b_enabled : Setter b_enabled := ltac:(derive_setter eta_Bench b_enabled).

Definition fakeNow : Time := (1609462861 * Second)%Z.
Definition wallClock : Time := (1700000000 * Second)%Z.
Definition bench : Bench := Bench_ [] [] [] false wallClock [] [] [] ∅.

(** [require.Equal] on the arguments of the first answer left, which is taken off. *)
Definition scripted {K R} `{!EqDecision K} (proj : Bench → list (K * R)) `{!Setter proj}
    (none : R) (k : K) (b : Bench) : R * Bench :=
  match proj b with
  | [] => (none, b <| b_failed := true |>)
  | (k', r) :: rest =>
      (r, (if bool_decide (k' = k) then b else b <| b_failed := true |>) <| proj := rest |>)
  end.

Definition nope : error := ErrorString "nope".
#[export] Instance bench_range : MapRange Bench := {| range_order ks b := (ks, b) |}.
#[export] Instance bench_clock : Clock Bench := {| time_Now b := (wallClock, b) |}.
#[export] Instance bench_provider : IPProvider Bench :=
  mock.provider (scripted b_lookups (inr nope))
    (λ ip providerID, scripted b_assigns (Some nope) (ip, providerID))
    (λ _ b, (inr nope, b <| b_failed := true |>)) (scripted b_creates (inr nope)).
#[export] Instance bench_dns : DNSProvider Bench := {|
  Provider.EnsureDNSARecordSet _ _ _ _ _ b := (None, b <| b_failed := true |>);
  Provider.RecordNameAndZoneToFQDN _ zone record := record +:+ "." +:+ zone;
|}.
#[export] Instance bench_env : IPEnv Bench := {|
  env_now b := (b_now b, b);
  ctx_Err b := (false, b);
  call_onNewIPs _ ips b := (None, b <| b_newIPs ::= λ l, l ++ [ips] |>);
  call_onStatusUpdate _ _ b := (None, b);
  call_onAnnotate _ node ip b := (None, b <| b_annotated ::= λ l, l ++ [(node, ip)] |>);
|}.

(** [mockNodeEnableDisabler] *)
#[export] Instance mockNodeEnableDisabler : NodeEnableDisabler Bench := {|
  action_EnableNodes _ ns b :=
    (tt, b <| b_enabled ::= λ m, foldl (λ m n, <[node_Name n := n]> m) m ns |>);
  action_DisableNodes _ ns b :=
    (tt, b <| b_enabled ::= λ m, foldl (λ m n, delete (node_Name n) m) m ns |>);
|}.
#[export] Instance bench_match : MatchEnv Bench := {|
  podIndexer_ByIndex _ name b := (inl (filter (λ p, pod_NodeName p = name) (b_pods b)), b);
  WaitForCacheSync b := (true, b);
  nodeStore_List b := ([], b);
|}.

(** Selectors of the form [k=v,k=v], and the toleration of taints as the API of
    Kubernetes documents it. *)
Fixpoint split_on (c : ascii) (s : string) : list string :=
  match s with
  | EmptyString => [""]
  | String a s' =>
      if Ascii.eqb a c then "" :: split_on c s'
      else match split_on c s' with
           | x :: xs => String a x :: xs
           | [] => [String a ""]
           end
  end.
Definition requirement (s : string) : option (string * string) :=
  match split_on "=" s with [k; v] => Some (k, v) | _ => None end.
#[export] Instance bench_api : KubeAPI := {|
  Selector := list (string * string);
  labels_Parse s := match mapM requirement (split_on "," s) with
                    | Some reqs => inl reqs
                    | None => inr (ErrorString "unable to parse requirement")
                    end;
  Matches reqs labels := forallb (λ r, bool_decide (labels !! r.1 = Some r.2)) reqs;
  ToleratesTaint tol taint :=
    (bool_decide (tol_Effect tol = "") || bool_decide (tol_Effect tol = taint_Effect taint)) &&
    (bool_decide (tol_Key tol = "") || bool_decide (tol_Key tol = taint_Key taint)) &&
    (bool_decide (tol_Operator tol = "Exists") ||
     (bool_decide (tol_Operator tol = "") || bool_decide (tol_Operator tol = TolerationOpEqual)) &&
     bool_decide (tol_Value tol = taint_Value taint));
|}.

(** A run that returns, with no call but the expected ones, satisfies the checks. *)
Definition passes {C A} (m : M C Bench A) (c : C) (b : Bench) (checks : C → Bench → bool) : bool :=
  match m c b with
  | Ret (_, c', b') => negb (b_failed b') && checks c' b'
  | _ => false
  end.
(** [require.ElementsMatch] *)
Definition elements_match (xs ys : list string) : bool :=
  bool_decide (xs ⊆+ ys) && bool_decide (ys ⊆+ xs).
Definition empty_list {A} (l : list A) : bool := match l with [] => true | _ => false end.

(** ** match_controller_test.go *)

Import k8stest.

Definition taint (key value effect : string) : Taint :=
  {| taint_Key := key; taint_Value := value; taint_Effect := effect |}.
Definition criteria (node pod ns : string) (tols : slice Toleration) : Match :=
  {| NodeLabel := node; PodLabel := pod; PodNamespace := ns; Tolerations := tols |}.
Definition mockAction : Ref := 1%positive.

Definition TestControllerIsNodeMatch : list (option Node * Match * bool) := [
  (MakeNode "" "" [SetLabels MatchingNodeLabels;
                   SetTaints [taint "shields" "down" TaintEffectNoExecute]; MarkReady],
   criteria "system=bajor" "" "" (Some PodTolerations), true);
  (MakeNode "" "" [SetTaints [taint "shields" "up" TaintEffectNoExecute]; MarkReady],
   criteria "" "" "" (Some PodTolerations), false);
  (MakeNode "" "" [SetLabels MatchingNodeLabels; MarkReady],
   criteria "system=klingon" "" "" None, false);
  (MakeNode "" "" [MarkReady], criteria "" "" "" None, true)].

Example isNodeMatch_tests : forallb (λ '(n, criteria, expected),
  match n with
  | Some n =>
      bool_decide (isNodeMatch (SetCriteria criteria (NewController mockAction)) (newNode n)
                   = Some expected)
  | None => false
  end) TestControllerIsNodeMatch = true.
Proof. by vm_compute. Qed.

Definition readyMutators : list Mutator :=
  [MarkReady; MarkRunning; SetNamespace "star-fleet"; SetLabels MatchingPodLabels].
Definition sisko : option Pod := MakePod "benjamin-sisko" "rio-grande" readyMutators.
Definition worf : option Pod := MakePod "worf" "orinoco" readyMutators.
Definition rioGrande : option Node :=
  MakeNode "rio-grande" "mock://1" [MarkReady; SetLabels MatchingNodeLabels].
Definition rioGrandeNotReady : option Node :=
  MakeNode "rio-grande" "mock://1" [SetLabels MatchingNodeLabels].

(** A primed controller with an index and the mock action. *)
Definition primed (m : Match) : Controller :=
  (SetCriteria m (NewController mockAction)) <| m_primed := true |>
    <| m_podIndexer := Some 2%positive |>.
Definition enabled_are (expected : list string) (_ : Controller) (b : Bench) : bool :=
  elements_match ((map_to_list (b_enabled b)).*1) expected.

(** [require.NoError] of every update, or a panic of the test. *)
Definition update_nodes (ns : list Node) : M Controller Bench unit :=
  for_each ns (λ n, err ← updateNode n; match err with Some _ => panic | None => mret tt end).

Definition TestControllerUpdateNode
    : list (list (option Pod) * list (option Node) * Match * list string) := [
  ([sisko], [rioGrande], MakeMatch, ["rio-grande"]);
  ([sisko], [rioGrandeNotReady], MakeMatch, []);
  ([], [rioGrande], criteria "system=bajor" "" "" (Some PodTolerations), ["rio-grande"]);
  ([sisko; worf], [rioGrandeNotReady; rioGrande], MakeMatch, ["rio-grande"]);
  ([sisko; worf], [rioGrande; rioGrandeNotReady], MakeMatch, [])].

Example updateNode_tests : forallb (λ '(pods, updates, criteria, expected),
  match mapM id pods, mapM id updates with
  | Some pods, Some updates =>
      passes (update_nodes updates) (primed criteria) (bench <| b_pods := pods |>)
        (enabled_are expected)
  | _, _ => false
  end) TestControllerUpdateNode = true.
Proof. by vm_compute. Qed.

Definition TestControllerUpdatePod : list (list (option Pod) * list string) := [
  ([sisko], ["rio-grande"]);
  ([sisko; MakePod "benjamin-sisko" "rio-grande"
             [MarkRunning; SetNamespace "star-fleet"; SetLabels MatchingPodLabels]], [])].

Example updatePod_tests : forallb (λ '(updates, expected),
  match rioGrande, mapM id updates with
  | Some n, Some updates =>
      passes (update_nodes [n] ;; for_each updates (λ p, _ ← updatePod p; mret tt))
        (primed MakeMatch) bench (enabled_are expected)
  | _, _ => false
  end) TestControllerUpdatePod = true.
Proof. by vm_compute. Qed.

(** ** ip_controller_test.go *)

Import ipController.

Definition ip1 : string := "192.168.1.1".
Definition node1 : string := "mock://1".
Definition hello : string := "hello-world".
(** [newIPController] with the callbacks of a test, and its [updateProviders]. *)
Definition mocked (onNewIPs onAnnotate : option Ref) : ipController :=
  (updateProviders (Some 1%positive) None "" 0 (newIPController onNewIPs None onAnnotate)).2.
Definition holds (providerID ip : string) (i : ipController) : ipController :=
  i <| i_providerIDToIP ::= <[providerID := ip]> |>
    <| i_ipToStatus ::= <[ip := zero_ipStatus <| s_nodeProviderID := providerID |>]> |>.
Definition named (providerID name : string) (i : ipController) : ipController :=
  i <| i_providerIDToNodeName ::= <[providerID := name]> |>.
Definition waiting (proj : ipController → orderedSet) `{!Setter proj} (vs : list string)
    (i : ipController) : ipController :=
  i <| proj ::= λ o, foldl (λ o v, orderedSet.Add v true o) o vs |>.
(** The queue holds these values and no others. *)
Definition queue_is (o : orderedSet) (vs : list string) : bool :=
  (length vs =? orderedSet.Len o)%nat && forallb (λ v, orderedSet.IsSet v o) vs.
Definition retries (i : ipController) : bool := negb (IsZero (i_nextRetry i)).

Definition TestIPControllerReconcileDesiredIPs
    : list (list string * list (string * (string + error)) * list string * bool) := [
  ([], [("", inl "192.168.1.2"); ("", inl "192.168.1.3")], ["192.168.1.2"; "192.168.1.3"], false);
  (["192.168.1.2"; "192.168.1.3"], [], ["192.168.1.2"; "192.168.1.3"], false);
  ([], [("", inr nope)], [], true)].

Example reconcileDesiredIPs_tests : forallb (λ '(pending, creates, expected, retried),
  passes reconcileDesiredIPs
    ((mocked None None) <| i_desiredIPs := 3%Z |> <| i_ips := Some [ip1] |> <| i_pendingIPs := pending |>)
    (bench <| b_creates := creates |> <| b_now := fakeNow |>)
    (λ i b, elements_match (i_pendingIPs i) expected && Bool.eqb (retries i) retried &&
            empty_list (b_creates b)))
  TestIPControllerReconcileDesiredIPs = true.
Proof. by vm_compute. Qed.

(** What the tests of the lookups and of the assignments demand of the records. *)
Definition records (toIP : list (string * string)) (ips nodes : list string) (i : ipController) : bool :=
  bool_decide (i_providerIDToIP i = list_to_map toIP) &&
  forallb (λ x, match i_ipToStatus i !! x.2 with
                | Some s => bool_decide (s_nodeProviderID s = x.1)
                | None => false
                end) toIP &&
  queue_is (i_assignableIPs i) ips &&
  forallb (λ ip, bool_decide (is_Some (i_ipToStatus i !! ip))) ips &&
  queue_is (i_assignableNodes i) nodes.

Definition TestIPControllerReconcileIPStatus
    : list (list string * list (string * (string + error)) * (ipController → ipController) *
            (list (string * string) * bool * list string * list string)) := [
  ([ip1; "192.168.1.2"], [(ip1, inl node1); ("192.168.1.2", inl "")], id,
   ([(node1, ip1)], false, [ip1; "192.168.1.2"], []));
  ([ip1], [(ip1, inr ErrInProgress)], holds node1 ip1,
   ([(node1, ip1)], true, [], []));
  ([ip1], [(ip1, inr ErrNotFound)], λ i, named node1 "some-node" (holds node1 ip1 i),
   ([], true, [], [node1]));
  ([ip1], [(ip1, inl "")], λ i, named node1 "some-node" (holds node1 ip1 i),
   ([], false, [ip1], [node1]));
  ([ip1; "172.16.2.2"], [(ip1, inl "mock://2"); ("172.16.2.2", inr ErrInProgress)],
   λ i, named node1 "mock-one" (named "mock://2" "mock-two"
          (holds node1 ip1 (holds "mock://2" "172.16.2.2" i))),
   ([("mock://2", ip1)], true, ["172.16.2.2"], [node1]))].

Example reconcileIPStatus_tests : forallb
  (λ '(ips, lookups, setup, (toIP, retried, assignableIPs, assignableNodes)),
  passes reconcileIPStatus (setup ((mocked None None) <| i_ips := Some ips |>))
    (bench <| b_lookups := lookups |>)
    (λ i b, records toIP assignableIPs assignableNodes i && Bool.eqb (retries i) retried))
  TestIPControllerReconcileIPStatus = true.
Proof. by vm_compute. Qed.

(** A case of the assignments: the set-up, the answers, and what is expected of the
    records, of the retry, of the annotations and of the rest of the state. *)
Definition known (ip : string) (s : ipStatus) (i : ipController) : ipController :=
  i <| i_ipToStatus ::= <[ip := s]> |>.
Definition backing_off (at_ : Time) (sched : RetrySchedule) : retry := Retry_ 1 at_ sched.
Definition fresh (i : ipController) : ipController := known ip1 zero_ipStatus i.
Definition success : list ((string * string) * option error) := [((ip1, node1), None)].
Definition schedule_is (sched : RetrySchedule) (i : ipController) : bool :=
  match i_ipToStatus i !! ip1 with
  | Some s => bool_decide (retrySchedule (s_retry s) = sched)
  | None => false
  end.
Definition forgiven (i : ipController) : bool := is_nil (i_providerIDToRetry i !! node1).
Definition coolOff (i : ipController) : ipController := i <| i_assignmentCoolOff := Second |>.
Definition in_error (at_ : Time) : ipStatus :=
  zero_ipStatus <| s_state := IPStateError |> <| s_retry := backing_off at_ RetryFast |>.
Definition healthy (at_ : Time) : ipStatus :=
  zero_ipStatus <| s_state := IPStateUnassigned |>
                <| s_retry := Retry_ 0 at_ healthyRetrySchedule |>.

Definition TestIPControllerReconcileAssignment
    : list ((ipController → ipController) * Time * list ((string * string) * option error) *
            bool * (ipController → bool)) := [
  (λ i, named node1 hello (fresh i), wallClock, success, true,
   λ i, schedule_is RetryFast i && forgiven i);
  (λ i, coolOff (named node1 hello (fresh i)), fakeNow, success, true,
   λ i, schedule_is RetryFast i && forgiven i && (i_nextAssignment i =? fakeNow + Second)%Z);
  (λ i, (coolOff (fresh i)) <| i_nextAssignment := (fakeNow + Second)%Z |>, fakeNow,
   success, false, λ _, true);
  (λ i, named node1 hello (fresh i), wallClock, [((ip1, node1), Some ErrInProgress)], true,
   λ i, schedule_is RetryFast i && forgiven i);
  (fresh, wallClock, [((ip1, node1), Some nope)], false,
   λ i, schedule_is RetrySlow i && negb (forgiven i) &&
        match i_ipToStatus i !! ip1 with
        | Some s => bool_decide (s_nodeProviderID s = "")
        | None => false
        end);
  (λ i, (fresh i) <| i_providerIDToRetry ::=
           <[node1 := backing_off (fakeNow + 30 * Second) RetryFast]> |>, fakeNow,
   [], false, λ i, (i_nextRetry i =? fakeNow + 30 * Second)%Z);
  (λ i, (named node1 hello (fresh i)) <| i_providerIDToRetry ::=
           <[node1 := backing_off (fakeNow - Second) RetryFast]> |>, fakeNow,
   success, true, forgiven);
  (known ip1 (in_error (fakeNow + 30 * Second)), fakeNow, [], false, λ _, true);
  (λ i, named node1 hello (known ip1 (healthy (fakeNow + 5 * Minute)) i), fakeNow,
   success, true, λ _, true)].

(** The pair is assigned and annotated, or it waits again. *)
Example reconcileAssignment_tests : forallb (λ '(setup, now, assigns, assigned, eval),
  passes reconcileAssignment
    (setup (waiting i_assignableNodes [node1]
              (waiting i_assignableIPs [ip1] (mocked None (Some 3%positive)))))
    (bench <| b_assigns := assigns |> <| b_now := now |>)
    (λ i b,
      (if (assigned : bool)
       then records [(node1, ip1)] [] [] i && bool_decide (b_annotated b = [(hello, ip1)])
       else records [] [ip1] [node1] i && bool_decide (b_annotated b = [])) &&
      retries i && eval i))
  TestIPControllerReconcileAssignment = true.
Proof. by vm_compute. Qed.
(** Without anything that waits nothing happens. *)
Example reconcileAssignment_idle :
  passes reconcileAssignment (mocked None (Some 3%positive)) bench
    (λ i b, records [] [] [] i && negb (retries i) && bool_decide (b_annotated b = [])) = true.
Proof. by vm_compute. Qed.

Definition helloNode : Node := Build_Node hello node1 ∅ ∅ false [] [] [].
Definition annotating : ipController := newIPController None None (Some 3%positive).

Definition TestIPControllerDisableNodes
    : list ((ipController → ipController) * bool * list (string * string)) := [
  (λ i, named node1 hello ((waiting i_assignableNodes [node1] i)
          <| i_providerIDToIP ::= <[node1 := ""]> |>), false, []);
  (λ i, named node1 hello (holds node1 ip1 i), true, [(hello, "")]);
  (id, false, [])].

Example disableNodes_tests : forallb (λ '(setup, assignable, annotated),
  passes (DisableNodes [helloNode]) (setup annotating) bench
    (λ i b, negb (orderedSet.IsSet "mock://" (i_assignableNodes i)) &&
            is_nil (i_providerIDToNodeName i !! node1) &&
            (negb assignable || orderedSet.IsSet ip1 (i_assignableIPs i)) &&
            bool_decide (b_annotated b = annotated)))
  TestIPControllerDisableNodes = true.
Proof. by vm_compute. Qed.

Definition TestIPControllers
    : list ((ipController → ipController) * bool * list (string * string)) := [
  (id, true, []);
  (λ i, named node1 hello (waiting i_assignableNodes [node1]
          (i <| i_providerIDToIP ::= <[node1 := ""]> |>)), true, []);
  (λ i, named node1 hello (holds node1 ip1 i), false, []);
  (holds node1 ip1, false, [(hello, ip1)])].

Example enableNodes_tests : forallb (λ '(setup, assignable, annotated),
  passes (EnableNodes [helloNode]) (setup annotating) bench
    (λ i b, Bool.eqb (orderedSet.IsSet node1 (i_assignableNodes i)) assignable &&
            bool_decide (i_providerIDToNodeName i !! node1 = Some hello) &&
            bool_decide (b_annotated b = annotated)))
  TestIPControllers = true.
Proof. by vm_compute. Qed.

Definition TestReconcilePendingIPs
    : list ((ipController → ipController) * list string * list (slice string) *
            (orderedSet → bool)) := [
  (id, [], [], λ _, true);
  (λ i, i <| i_pendingIPs := [ip1; "192.168.1.2"] |>, [ip1; "192.168.1.2"],
   [Some [ip1; "192.168.1.2"]], λ o, (orderedSet.Len o =? 2)%nat);
  (λ i, (waiting i_assignableIPs [ip1] i) <| i_ips := Some [ip1] |>
          <| i_pendingIPs := ["192.168.1.2"] |>, [ip1; "192.168.1.2"],
   [Some [ip1; "192.168.1.2"]], λ o, bool_decide ((orderedSet.Front o).1 = "192.168.1.2"))].

Example reconcilePendingIPs_tests : forallb (λ '(setup, ips, told, front),
  passes reconcilePendingIPs (setup (newIPController (Some 4%positive) None None)) bench
    (λ i b, empty_list (i_pendingIPs i) && bool_decide (elems (i_ips i) = ips) &&
            bool_decide (b_newIPs b = told) && front (i_assignableIPs i)))
  TestReconcilePendingIPs = true.
Proof. by vm_compute. Qed.
