(* ===== verification/ProviderTests.v ===== *)
(** * The unit tests of the providers, replayed on the model

    The cases of src/pkg/provider/digitalocean_test.go and of cloudflare_test.go, each
    evaluated in a world that answers as the mocks and the server of the tests do and
    keeps the requests it gets. *)
From S2P Require Import Prelude Go Retry GoText K8s Types Provider ProviderMetrics.
From S2P Require Import DigitalOcean Cloudflare.

(** A request that changes something, by the identifier of its record. *)
Inductive request (I P : Type) : Type :=
  | Edit (id : I) (params : P)
  | Create (params : P)
  | Delete (id : I).
Arguments Edit {I P}. Arguments Create {I P}. Arguments Delete {I P}.
#[export] Instance DomainRecordEditRequest_eq_dec : EqDecision DomainRecordEditRequest.
Proof. solve_decision. Defined.
#[export] Instance DNSRecordParams_eq_dec : EqDecision DNSRecordParams.
Proof. solve_decision. Defined.
#[export] Instance request_eq_dec {I P} `{!EqDecision I, !EqDecision P} : EqDecision (request I P).
Proof. solve_decision. Defined.

(** ** digitalocean_test.go *)

Module DigitalOceanTest.

(** The records of the domain "zone", the error that assignments meet, and the requests;
    [b_failed] is set by a call that no test expects. *)
Record Bench : Type := Bench_ {
  b_records : list DomainRecord;
  b_assign : error;
  b_requests : list (request Z DomainRecordEditRequest);
  b_failed : bool;
}.
Definition sent (r : request Z DomainRecordEditRequest) (b : Bench) : Bench :=
  Bench_ (b_records b) (b_assign b) (b_requests b ++ [r]) (b_failed b).
Definition fails (b : Bench) : Bench := Bench_ (b_records b) (b_assign b) (b_requests b) true.
Definition expect (e : bool) (b : Bench) : Bench := if e then b else fails b.
Definition status (code : Z) : option Response := Some (Response_ code None).

#[export] Instance bench_range : MapRange Bench := {| range_order ks b := (ks, b) |}.
#[export] Instance bench_clock : Clock Bench := {| time_Now b := (Minute, b) |}.
#[export] Instance bench_prometheus : Prometheus Bench := {|
  MustCurryWith r _ := r; With_Inc _ _ b := (tt, b); With_Observe _ _ _ b := (tt, b) |}.
#[export] Instance bench_fmt : GoFmt := {| fmt_q s := s |}.
#[export] Instance bench_godo : Godo Bench := {|
  ips_Get ip b :=
    ((inl (Some {| flip_IP := ""; flip_Droplet := None |}), status 200),
     expect (bool_decide (ip = "10.0.0.1")) b);
  ips_Create _ b := ((inl None, None), fails b);
  ipActions_Assign ip d b :=
    ((inr (b_assign b), status StatusUnprocessableEntity),
     expect (bool_decide (ip = "10.0.0.1") && (d =? 12345)%Z) b);
  ipActions_Get _ _ b := ((inl None, None), fails b);
  droplets_Get _ b := ((inl None, None), fails b);
  domains_Records zone page per b :=
    ((inl (take (Z.to_nat per) (drop (Z.to_nat (per * (page - 1))) (b_records b))),
      Some (Response_ 200 (Some (Z.of_nat (length (b_records b)) <=? per * page)%Z))),
     expect (bool_decide (zone = "zone") && (per =? dnsRecordsPerPage)%Z) b);
  domains_EditRecord zone id req b :=
    ((inl tt, None), sent (Edit id req) (expect (bool_decide (zone = "zone")) b));
  domains_CreateRecord zone req b :=
    ((inl tt, None), sent (Create req) (expect (bool_decide (zone = "zone")) b));
  domains_DeleteRecord zone id b :=
    ((inl tt, None), sent (Delete id) (expect (bool_decide (zone = "zone")) b));
|}.

(** 10.0.0.0, 10.0.0.1, ...: 513 records on three pages, those of [curIPs] match. *)
Definition test_record (curIPs : list string) (i : Z) : DomainRecord :=
  let ip := IPString [10; Z.shiftr i 16 mod 256; Z.shiftr i 8 mod 256; i mod 256]%Z in
  {| rec_ID := i; rec_Name := if bool_decide (ip ∈ curIPs) then "match" else "no-match";
     rec_Type := dnsRecordTypeA; rec_Data := ip; rec_TTL := 30 |}.
Definition matching (ip : string) : DomainRecordEditRequest :=
  EditRequest dnsRecordTypeA "match" ip 30.
Definition curIPs : list string := ["10.0.1.0"; "10.0.1.255"].
Definition d0 : digitalOcean := DigitalOcean_ ∅ "" None.

Definition TestDigitalOceanEnsureDNSARecordSet
    : list (list string * list (request Z DomainRecordEditRequest)) := [
  (["10.0.1.0"; "10.0.1.255"], []);
  (["10.0.1.0"; "10.0.0.1"], [Edit 511%Z (matching "10.0.0.1")]);
  (["10.0.1.0"; "10.0.1.255"; "10.0.1.1"], [Create (matching "10.0.1.1")]);
  (["10.0.1.0"], [Delete 511%Z])].

Example digitalocean_record_set_tests : forallb (λ '(setIPs, expected),
  match EnsureDNSARecordSet 3 Background "zone" "match" setIPs 30 d0
          (Bench_ (test_record curIPs <$> seqZ 0 513) ErrNotFound [] false) with
  | Ret (inl _, _, b) => negb (b_failed b) && bool_decide (b_requests b = expected)
  | _ => false
  end) TestDigitalOceanEnsureDNSARecordSet = true.
Proof. by vm_compute. Qed.

Definition TestDigitalOceanAssignIP422Classification : list (string * RetrySchedule) := [
  ("Droplet already has a pending event.", RetryFast);
  ("cannot assign a reserved IP to a droplet in a different region", RetrySlow)].

Example digitalocean_422_tests : forallb (λ '(message, schedule),
  match AssignIP Background "10.0.0.1" "digitalocean://12345" d0
          (Bench_ [] (ErrorString ("POST : 422 " +:+ message)) [] false) with
  | Ret (inr err, _, b) =>
      negb (b_failed b) && bool_decide (ErrorToRetrySchedule err = schedule)
  | _ => false
  end) TestDigitalOceanAssignIP422Classification = true.
Proof. by vm_compute. Qed.
End DigitalOceanTest.

(** ** cloudflare_test.go *)

Module CloudflareTest.

(** The server: the records it lists, the requests it got, and whether one was not for
    the zone of the test. *)
Record Server : Type := Server_ {
  s_list : list DNSRecord;
  s_requests : list (request string DNSRecordParams);
  s_failed : bool;
}.
Definition received (zone : string) (r : request string DNSRecordParams) (s : Server)
    : (unit + error) * Server :=
  (inl tt, Server_ (s_list s) (s_requests s ++ [r])
             (s_failed s || negb (bool_decide (zone = "ZONE")))).

#[export] Instance server_range : MapRange Server := {| range_order ks s := (ks, s) |}.
#[export] Instance server_clock : Clock Server := {| time_Now s := (Minute, s) |}.
#[export] Instance server_prometheus : Prometheus Server := {|
  MustCurryWith r _ := r; With_Inc _ _ s := (tt, s); With_Observe _ _ _ s := (tt, s) |}.
#[export] Instance server_api : CloudflareAPI Server := {|
  ListDNSRecords _ _ _ s := (inl (s_list s), s);
  CreateDNSRecord zone p := received zone (Create p);
  UpdateDNSRecord zone id p := received zone (Edit id p);
  DeleteDNSRecord zone id := received zone (Delete id);
|}.

Definition listed (id ip : string) : DNSRecord :=
  {| cf_ID := id; cf_Type := dnsRecordTypeA; cf_Name := "name"; cf_Content := ip;
     cf_TTL := 30; cf_Proxied := None |}.
Definition params (ip : string) : DNSRecordParams := RecordParams dnsRecordTypeA "name" ip 30.

Definition TestCloudflareEnsureDNSARecordSet
    : list (list DNSRecord * list string * list (request string DNSRecordParams)) := [
  ([listed "1" "10.0.1.0"; listed "2" "10.0.1.255"], ["10.0.1.0"; "10.0.1.255"], []);
  ([listed "1" "10.0.1.0"; listed "2" "10.0.1.255"], ["10.0.1.0"; "10.0.0.1"],
   [Edit "2" (params "10.0.0.1")]);
  ([listed "1" "10.0.1.0"; listed "2" "10.0.0.1"], ["10.0.1.0"; "10.0.0.1"; "10.0.0.2"],
   [Create (params "10.0.0.2")]);
  ([listed "1" "10.0.1.0"; listed "2" "10.0.0.1"], ["10.0.1.0"], [Delete "2"])].

(** The server ranges over a map: the records may come in either order. *)
Example cloudflare_record_set_tests : forallb (λ '(records, setIPs, expected),
  forallb (λ records,
    match Cloudflare.EnsureDNSARecordSet Background "ZONE" "name" setIPs 30
            (Cloudflare.CloudflareDNS "test123" None) (Server_ records [] false) with
    | Ret (inl _, _, s) => negb (s_failed s) && bool_decide (s_requests s = expected)
    | _ => false
    end) [records; reverse records]) TestCloudflareEnsureDNSARecordSet = true.
Proof. by vm_compute. Qed.
End CloudflareTest.
